(* ===== verification/_CoqProject ===== *)
-Q . S2P
Prelude.v
GoStrings.v
Base64.v
Order.v
PgQuote.v
Scopes.v
ApiKey.v
Jwt.v
Models.v
OrgScope.v
PgxParam.v
Db.v
DbRel.v
OrganizationRepo.v
OrgCacheHeap.v
ApiKeyRepo.v
AuthorityReduction.v
RoleTemplateRepo.v
TemplateReconcile.v
UserRepo.v
TokenRepo.v
Isolation.v
PlatformAdmin.v
FloorRefinement.v
TenantScope.v
Access.v
OAuthState.v
AuditTable.v
AuditOutbox.v
AuditSink.v
AuditRelay.v
AuditedGrants.v
NetIP.v
HttpSafe.v
HttpClient.v
TokenCipher.v
Json.v
Oidc.v
NotifyDedup.v
Channels.v
Notifier.v
AuditRepo.v
OidcConfigRepo.v
Mailer.v
ExpiryNotifier.v
Lifecycle.v
Suite.v
Host.v
AppCreds.v
PlatformSchema.v
Schema.v
SourceGuard.v
