(* ===== verification/Prelude.v ===== *)
(** * terraform-suite-identity: a verification of the identity module

    terraform-suite-identity is the Go module two Terraform services share for
    identity: who may sign in, what a credential may do, which organization's data a
    request may reach, and how a change of authority is recorded, announced and undone.
    This library is a shallow embedding of its core in Rocq, file by file, with the
    theorems that make each part correct. The sources are under src/identity/.

    ** The parts and the files that model them

    Shared ground
    - [Prelude] (this file): Go strings, errors, the monad [M] of operations over a
      process state, its statements and transactions, and the two proof systems of the
      development: [evolves R m] (whatever the schedule, [m] moves the state along the
      preorder [R]) and [enlisted R m] (the same inside a transaction), with the tactics
      [evolve] and [enlist].
    - [GoStrings], [Base64], [Order], [Json], [NetIP]: the parts of Go's strings,
      encoding/base64, sort, encoding/json and net packages the source computes with.
    - [PgQuote]: internal/pgquote, the grammar of identifiers a consumer may configure.

    Credentials (identity/auth, identity/crypto)
    - [Scopes]: auth/scopes.go, the scope check and the ceiling on role assignment.
    - [ApiKey]: auth/apikey.go, generation and validation of keys.
    - [Jwt]: auth/jwt.go, minting and validating session tokens, secret rotation.
    - [OAuthState]: auth/oauthstate, the single-use login state, the replay markers and
      the in-memory store with its budgets. [Class Store] is the interface; [Manager]'s
      theorems are proved against it and [MemoryStore] discharges it.
    - [Oidc]: auth/oidc, provider construction, the start and completion of a login,
      the code exchange and what is read of an ID token.
    - [TokenCipher]: crypto/tokencipher.go, sealing at rest and key rotation.

    Tenancy and the identity store (identity/models, identity/store, identity/tenantscope)
    - [Models], [OrgScope]: the data types; the tenant constraint and its SQL.
    - [Db], [DbRel]: the schema of migrations/ as lists of rows with the statements'
      constraints and cascades; its invariant [db_wf] and the relation [agree_outside].
    - [OrganizationRepo], [UserRepo], [ApiKeyRepo], [RoleTemplateRepo], [TokenRepo]: one
      repository each, every operation.
    - [OrgCacheHeap]: the pointers of the default organization's cache, which
      [OrganizationRepo] keeps as a value, and why it may.
    - [PgxParam]: pgxparam, what a mocked driver makes of the arguments the store binds.
    - [AuthorityReduction], [TemplateReconcile]: taking authority away together with the
      API keys that froze a snapshot of it; the resumable sweep and the guarded writer.
    - [OidcConfigRepo]: store/oidc_config_repository.go and models/oidc_config.go, the
      stored identity providers, of which at most one is active.
    - [AuditRepo]: store/audit_repository.go, audit_sweep.go: the audit log's tenant-scoped
      reads and its retention sweep with legal holds.
    - [NotifyDedup]: store/notify_dedup_repository.go.
    - [Isolation]: what ranges over all repositories: schema, tenant isolation, reads.
    - [TenantScope]: tenantscope, the organizations a request may reach.
    - [Access]: the store and tenantscope together, after a membership was removed.
    - [PlatformAdmin]: platformadmin, the carrier of platform authority and its floor of
      one; [Section Locking] is a small-step system of concurrent revocations, which
      [FloorRefinement] proves to implement the atomic ones.

    The audit outbox (identity/auditoutbox)
    - [AuditTable], [AuditOutbox], [AuditSink], [AuditRelay]: the table names and the
      constraint trigger; the outbox; the audit table's sink; the relay. [DurableSink] is
      what the relay asks of a sink and [AuditSink] proves it of [TableSink].
    - [AuditedGrants]: platformadmin over the outbox, the composition they exist for.
    - [SourceGuard]: guard.go, the static guard a consumer runs over its own packages.

    The edges (identity/httpsafe, notify, suite, appcreds, mailer)
    - [HttpSafe], [HttpClient]: httpsafe.go, the egress guard over [NetIP], and the clients
      that carry it, through a whole call with its redirects.
    - [Channels], [Notifier]: notification channels and the table they live in; the
      fan-out of an event.
    - [ExpiryNotifier]: notify/api_key_expiry.go, the reminder of an expiring API key, and
      internal/safeloop, the loop it runs in.
    - [Lifecycle]: the background loops of notify, auditoutbox, auth/oauthstate and suite,
      and how they are stopped, as interleaved goroutines.
    - [Suite], [Host]: suite/, the capability manifest, the discovery of the sibling and
      the canonical form of a host name.
    - [AppCreds]: appcreds/, every minter of cloud and forge tokens and their cache.
    - [Mailer]: mailer.go, the SMTP conversation: which transport a mail takes and when
      credentials are sent.

    Start-up (identity/)
    - [Schema]: db.go, schema_version.go, schema_routing.go: the migration entry points,
      and the checks of the migration version and of what table names resolve to.
    - [PlatformSchema]: platformadmin/schema.go, the check of the carrier's table.

    ** The model of a running program

    An operation is a function of a [world]: the state of the process and its database,
    a schedule, two clocks and a source of identifiers. Before each statement outside a
    transaction the schedule lets other sessions change the state, and it may make the
    statement, BEGIN or COMMIT fail; a theorem that quantifies over the schedule covers
    every interleaving at the granularity of statements and every driver fault. A faulted
    statement has no effect. A transaction is undone by any error and is atomic towards
    other sessions, which is stronger than the READ COMMITTED the code runs under: where
    the code relies on row locks instead, [PlatformAdmin.Locking] models the locks and
    [FloorRefinement] shows that they make the transaction atomic after all.
    Errors carry the identity ([errors.Is]) and fixed text of Go's; interpolated values
    are left out. A row's decoding error is the error of the statement that read it. A
    clock is read once per operation. A nil pointer dereferenced is an error value.

    Some components refine this state where a claim needs it. [Mailer] logs what is said
    on the wire, and each answer of the relay is an event of its schedule. [Suite] and
    [OrgCacheHeap] keep what is shared by pointer in a heap, so that a write through a pointer the caller holds is part of
    the model, and split an operation in the steps between which other goroutines run.
    [Lifecycle] interleaves the statements of Stop. [Schema]
    counts the connections out of the pool. [AuditRepo] has what a connection resolves a
    holds table to as part of its state. [OidcConfigRepo] and [Suite] take a document that
    stays raw ([json.RawMessage]) as what the decoder makes of it. A read-modify-write
    under a mutex is one step, except in [AppCreds], where taking the lock is a point at
    which other goroutines may have run.

    ** The groups of theorems

    The properties are numbered C1 to C40 in the order of their importance. Safety under
    any schedule: no key outlives the authority it froze (C1), tenants are isolated (C2,
    C6, C19), a login never rebinds an identity (C3), a template is not mutated before its
    sweep is complete (C4), a revoked token stays revoked (C8), a membership once removed
    counts in no later decision (C9), a platform always has an administrator (C10), an
    audit record is neither lost nor doubled (C12, C13, C22), a login state is redeemed
    once (C14, C15), a sealed secret opens in its own slot only (C16), a call through a
    guarded client goes to vetted addresses only and takes its credentials to no other
    origin (C17), roles are not escalated (C24), an entry on hold is not swept (C33), a
    mail and its credentials go out protected (C35). Equivalence and refinement: the
    reduction and the discovery against their specifications (C7, C36), the row locks
    against atomic revocation (C11), the cache of pointers against the cache of values
    (C28), the guard against the RFC's classes (C18), the two derivations of authority
    (C27), a host name's two spellings (C37). Invariants and types: the store keeps its
    schema (C29), one provider is active (C34), the outbox's table names are well typed
    (C31). Termination and liveness: the sweep finishes (C5), the relay drains (C21),
    every Stop returns (C40). Round trips: an issued key authenticates (C26), rotation
    reads the old key's secrets (C32). Errors and bounds: no path loses a connection
    (C38), a login store keeps its budget (C30). The other properties (C20, C23, C25, C39)
    are the functional behaviour of an operation on every branch, and so are the theorems
    that have no number.

    ** Fuel and bounds

    Loops over lists are structural. The sweep of [TemplateReconcile] is the code's
    unbounded loop with fuel; C5 shows that any fuel above the number of
    holders is enough, so the out-of-fuel answer is unreachable. The relay's rounds are
    counted by the length of the pending outbox. Clocks are unbounded integers of
    nanoseconds; where the code's arithmetic is int64 and could wrap, [int64] is applied.
    Budgets of [MemoryStore] are the configured integers. The rounds of [SourceGuard] over a
    package's names are the code's own count, and enough of them; its matcher's fuel is the
    length of the text. A call of [HttpClient] has fuel for one request more than the
    redirect policy lets through, and C17 shows that more changes nothing.

    ** What is a parameter

    Everything the module calls and does not define: bcrypt, the JWT library, AES-GCM and
    PBKDF2, SHA-256, PEM, X.509 and RSA, [uuid.New], pgx's quoting, Unicode case folding
    and the IDNA profile, the JSON codec of stored envelopes and the scanner of wire
    documents, [url.Parse], DNS and the dialer, go-oidc and x/oauth2, the Azure SDK, HTTP
    clients, golang-migrate, go/parser, the order in which Go ranges over a map. The laws used of
    them are class members or hypotheses that name documented behaviour, and each has an
    instance in a witness.

    ** Not modelled, and why

    Text without computation: the rendered DDL, mail bodies, log lines, the interpolated
    parts of messages, and the migrations' SQL beyond the tables, constraints and cascades
    of [Db]. store/sqlxdb.go, which only wraps the handle. Pool sizes, timeouts and
    contexts: a cancelled context is a fault of the statement that observes it.
    The timeouts of httpsafe's transport, and how net/http pools connections.

    Three idealisations are worth knowing. Rows with equal ORDER BY keys are returned in
    the table's order where PostgreSQL leaves it open. An attempts counter is unbounded
    where the column is an int. A nil slice encoded as JSON null decodes as the empty
    list. *)

From stdpp Require Export prelude gmap strings list sorting.
From Stdlib Require Export ZArith Lia.

#[global] Set Default Goal Selector "!".
#[global] Open Scope string_scope.
#[global] Open Scope list_scope.

(** ** Go strings: byte equality as a boolean *)

Declare Scope go_scope.
Delimit Scope go_scope with go.
Notation "a =s b" := (String.eqb a b) (at level 70, no associativity) : go_scope.
Notation "a <>s b" := (negb (String.eqb a b)) (at level 70, no associativity) : go_scope.
#[global] Open Scope go_scope.

Lemma seqb_true (a b : string) : (a =s b) = true <-> a = b.
Proof. apply String.eqb_eq. Qed.

Lemma seqb_false (a b : string) : (a =s b) = false <-> a <> b.
Proof. apply String.eqb_neq. Qed.

Lemma seqb_refl (a : string) : (a =s a) = true.
Proof. apply String.eqb_refl. Qed.

Lemma seqb_sym (a b : string) : (a =s b) = (b =s a).
Proof. apply String.eqb_sym. Qed.

(** Two nullable strings, compared the way SQL compares a nullable column with
    a value that is not NULL: NULL equals nothing. *)
Definition col_is (c : option string) (v : string) : bool :=
  match c with Some x => x =s v | None => false end.

Lemma col_is_true c v : col_is c v = true <-> c = Some v.
Proof.
  destruct c as [x|]; simpl; [|by split].
  rewrite seqb_true. split; [by intros ->|by intros [=]].
Qed.

(** [slices.Contains] and the [for _, s := range] loops that implement it. *)
Definition mem (x : string) (l : list string) : bool := existsb (fun y => y =s x) l.

Lemma mem_true x l : mem x l = true <-> In x l.
Proof.
  unfold mem. rewrite existsb_exists. split.
  - intros (y & Hy & E). apply seqb_true in E. by subst.
  - intros H. exists x. split; [done|apply seqb_refl].
Qed.

Lemma mem_false x l : mem x l = false <-> ~ In x l.
Proof. rewrite <- mem_true. by destruct (mem x l); split. Qed.

(** A Go map filled by ranging over a list and then ranged over again: the
    distinct elements. Go leaves the order of the second range open, so nothing
    proved of [distinct] depends on its order. *)
Fixpoint distinct (l : list string) : list string :=
  match l with
  | [] => []
  | x :: l' => if mem x l' then distinct l' else x :: distinct l'
  end.

Lemma flat_map_empty {A B} (f : A -> list B) l : List.flat_map f l = [] <-> forall x, In x l -> f x = [].
Proof.
  induction l as [|y l IH]; simpl; [by split|]. split.
  - intros [E1 E2]%app_eq_nil x [<-|Hx]; [done|]. by apply IH.
  - intros Hall. rewrite (Hall y) by by left. apply IH. intros x Hx. apply Hall. by right.
Qed.

Lemma in_distinct x l : In x (distinct l) <-> In x l.
Proof.
  induction l as [|y l IH]; simpl; [done|].
  destruct (mem y l) eqn:E; simpl; rewrite IH.
  - apply mem_true in E. split; [tauto|]. by intros [->|?].
  - done.
Qed.

Lemma nodup_distinct l : List.NoDup (distinct l).
Proof.
  induction l as [|y l IH]; simpl; [constructor|].
  destruct (mem y l) eqn:E; [done|].
  constructor; [|done]. by rewrite in_distinct, <- mem_false.
Qed.

(** ** Errors

    A Go error value is a package-level sentinel, a leaf made by [errors.New] or
    [fmt.Errorf] without [%w], or a wrapper made with one or two [%w] verbs.
    Messages keep their fixed text; interpolated values are left out. *)
Inductive error : Type :=
| Sentinel (name : string)
| Plain (msg : string)
| Wrap (msg : string) (cause : error)
| Wrap2 (msg : string) (cause1 cause2 : error).

(** [errors.Is(err, sentinel)]. *)
Fixpoint errors_Is (e : error) (name : string) : bool :=
  match e with
  | Sentinel n => n =s name
  | Plain _ => false
  | Wrap _ c => errors_Is c name
  | Wrap2 _ c1 c2 => errors_Is c1 name || errors_Is c2 name
  end.

Inductive result (A : Type) : Type :=
| Ok (a : A)
| Err (e : error).
Arguments Ok {_} _.
Arguments Err {_} _.

#[export] Instance result_ret : MRet result := @Ok.
#[export] Instance result_bind : MBind result := fun _ _ k m =>
  match m with Ok a => k a | Err e => Err e end.

Definition is_ok {A} (r : result A) : bool := match r with Ok _ => true | Err _ => false end.

Lemma result_bind_Ok {A B} (m : result A) (k : A -> result B) b :
  m ≫= k = Ok b -> exists a, m = Ok a /\ k a = Ok b.
Proof. destruct m; [eauto|done]. Qed.

(** [if err := ...; err != nil { return fmt.Errorf("msg: %w", err) }] of a call that
    touches no database. *)
Definition wrap_err {A} (msg : string) (r : result A) : result A :=
  match r with Err e => Err (Wrap msg e) | _ => r end.

(** [for rows.Next() { x, err := scan(row); if err != nil { return nil, err }; ... }]:
    the first row that does not decode ends the loop. *)
Fixpoint scan_all {A B} (scan : A -> result B) (rows : list A) : result (list B) :=
  match rows with
  | [] => Ok []
  | x :: rest =>
      match scan x with
      | Err e => Err e
      | Ok y => match scan_all scan rest with Err e => Err e | Ok l => Ok (y :: l) end
      end
  end.

Lemma scan_all_Ok {A B} (scan : A -> result B) rows l :
  scan_all scan rows = Ok l <-> Forall2 (fun x y => scan x = Ok y) rows l.
Proof.
  revert l. induction rows as [|x rows IH]; intros l; simpl.
  - split; [by intros [= <-]|]. by inversion 1.
  - destruct (scan x) as [y|e] eqn:E.
    + destruct (scan_all scan rows) as [l'|e'].
      * split; [intros [= <-]; constructor; [done|by apply IH]|].
        inversion 1 as [|? y' ? l'' E' H']; subst. apply IH in H'. congruence.
      * split; [done|]. inversion 1 as [|? y' ? l'' E' H']; subst. by apply IH in H'.
    + split; [done|]. inversion 1; congruence.
Qed.

(** Every row was decoded and every value came from a row. *)
Lemma scan_all_in {A B} (scan : A -> result B) rows l :
  scan_all scan rows = Ok l ->
  (forall y, In y l -> exists x, In x rows /\ scan x = Ok y) /\
  (forall x, In x rows -> exists y, In y l /\ scan x = Ok y).
Proof.
  rewrite scan_all_Ok. induction 1 as [|x y rows l E _ [IH1 IH2]]; [by split|]. split.
  - intros y' [<-|Hy]; [by exists x; split; [left|]|].
    destruct (IH1 y' Hy) as (x' & ? & ?). exists x'. by split; [right|].
  - intros x' [<-|Hx]; [by exists y; split; [left|]|].
    destruct (IH2 x' Hx) as (y' & ? & ?). exists y'. by split; [right|].
Qed.

Lemma scan_all_total {A B} (scan : A -> result B) rows e :
  (forall x, In x rows -> exists y, scan x = Ok y) -> scan_all scan rows <> Err e.
Proof.
  induction rows as [|x rows IH]; simpl; intros Hs; [done|].
  destruct (Hs x (or_introl eq_refl)) as [y ->].
  destruct (scan_all scan rows); [done|]. intros [= ->]. apply IH; [|done]. intros z Hz. apply Hs. by right.
Qed.

(** ** The world an operation runs in

    An operation of the store is a sequence of statements. Before each statement
    outside a transaction other sessions may have committed work ([ev_env]), and
    each statement, [BEGIN] and [COMMIT] may fail in the driver ([ev_fault]).  The
    schedule lists these events in order; an exhausted schedule is a quiet
    environment. [w_now] is the application's clock, [w_dbnow] the database's
    [NOW()], [w_seed] numbers the identifiers [uuid.New] has handed out. *)
Record event (St : Type) := Event { ev_env : St -> St; ev_fault : option string }.
Arguments Event {_} _ _.
Arguments ev_env {_} _.
Arguments ev_fault {_} _.

Record world (St : Type) := World {
  w_db : St;
  w_sched : list (event St);
  w_intx : bool;
  w_now : Z;
  w_dbnow : Z;
  w_seed : nat
}.
Arguments World {_} _ _ _ _ _ _.
Arguments w_db {_} _.
Arguments w_sched {_} _.
Arguments w_intx {_} _.
Arguments w_now {_} _.
Arguments w_dbnow {_} _.
Arguments w_seed {_} _.

Definition set_db {St} (s : St) (w : world St) : world St :=
  World s (w_sched w) (w_intx w) (w_now w) (w_dbnow w) (w_seed w).
Definition set_sched {St} (l : list (event St)) (w : world St) : world St :=
  World (w_db w) l (w_intx w) (w_now w) (w_dbnow w) (w_seed w).
Definition set_intx {St} (b : bool) (w : world St) : world St :=
  World (w_db w) (w_sched w) b (w_now w) (w_dbnow w) (w_seed w).
Definition set_seed {St} (n : nat) (w : world St) : world St :=
  World (w_db w) (w_sched w) (w_intx w) (w_now w) (w_dbnow w) n.

Definition M (St A : Type) : Type := world St -> result A * world St.

#[export] Instance M_ret {St} : MRet (M St) := fun _ a w => (Ok a, w).
#[export] Instance M_bind {St} : MBind (M St) := fun _ _ k m w =>
  match m w with
  | (Ok a, w') => k a w'
  | (Err e, w') => (Err e, w')
  end.

Definition throw {St A} (e : error) : M St A := fun w => (Err e, w).

(** [if err != nil { return fmt.Errorf("msg: %w", err) }]. *)
Definition mapping_err {St A} (f : error -> error) (m : M St A) : M St A := fun w =>
  match m w with (Err e, w') => (Err (f e), w') | r => r end.
Definition wrapping {St A} (msg : string) (m : M St A) : M St A := mapping_err (Wrap msg) m.

(** Run [m] and hand its error, if any, to the code that inspects it. *)
Definition try {St A} (m : M St A) : M St (result A) := fun w =>
  let '(r, w') := m w in (Ok r, w').

Definition lift {St A} (r : result A) : M St A := fun w => (r, w).

(** One event: other sessions first (outside a transaction only), then the
    driver's verdict. *)
Definition tick {St} : M St unit := fun w =>
  match w_sched w with
  | [] => (Ok tt, w)
  | e :: l =>
      let w1 := set_sched l (if w_intx w then w else set_db (ev_env e (w_db w)) w) in
      match ev_fault e with Some msg => (Err (Plain msg), w1) | None => (Ok tt, w1) end
  end.

(** One SQL statement. A constraint violation is an error of the statement and
    leaves the database as it was. *)
Definition apply_db {St A} (f : St -> result (A * St)) : M St A := fun w =>
  match f (w_db w) with
  | Ok (a, s) => (Ok a, set_db s w)
  | Err e => (Err e, w)
  end.

Definition stmt {St A} (f : St -> result (A * St)) : M St A := tick;; apply_db f.

Definition query {St A} (f : St -> A) : M St A := stmt (fun s => Ok (f s, s)).

(** A table some part of the process keeps outside the identity schema; [None] when
    the name resolves to no relation on the connection. *)
Definition no_relation : error := Plain "relation does not exist".

Definition on_table {St R A} (get : St -> option (list R)) (put : list R -> St -> St)
    (f : St -> list R -> result (A * list R)) (s : St) : result (A * St) :=
  match get s with
  | None => Err no_relation
  | Some rows => match f s rows with Ok (a, rows') => Ok (a, put rows' s) | Err e => Err e end
  end.

Definition table_stmt {St R A} get put (f : St -> list R -> result (A * list R)) : M St A := stmt (on_table get put f).

Definition table_read {St R A} (get : St -> option (list R)) (f : St -> list R -> A) : M St A :=
  stmt (fun s => match get s with None => Err no_relation | Some rows => Ok (f s rows, s) end).

(** [int64] arithmetic wraps around. *)
Definition int64 (z : Z) : Z := ((z + 2 ^ 63) mod 2 ^ 64 - 2 ^ 63)%Z.

(** [db.BeginTx] ... [defer tx.Rollback()] ... [tx.Commit()]: the body runs on
    the transaction's view and is undone by any error, the commit's included.
    [undo s0 s] is what a rollback leaves of [s] when the transaction began at
    [s0]: [s0] itself unless the body also worked on another connection. *)
Definition tx_on {St A} (undo : St -> St -> St) (begun committed : error -> error) (body : M St A) : M St A := fun w =>
  match mapping_err begun tick w with
  | (Err e, w1) => (Err e, w1)
  | (Ok _, w1) =>
      match (a ← body; mapping_err committed tick;; mret a) (set_intx true w1) with
      | (Ok a, w2) => (Ok a, set_intx (w_intx w1) w2)
      | (Err e, w2) => (Err e, set_intx (w_intx w1) (set_db (undo (w_db w1) (w_db w2)) w2))
      end
  end.

Definition tx_by {St A} : (error -> error) -> (error -> error) -> M St A -> M St A := tx_on (fun s _ => s).

Definition tx {St A} (begin_msg commit_msg : string) (body : M St A) : M St A :=
  tx_by (Wrap begin_msg) (Wrap commit_msg) body.

(** A step of this process that other sessions may precede: a mutex acquired, an
    I/O call returned. *)
Definition preempt {St} : M St unit := fun w =>
  match w_sched w with
  | [] => (Ok tt, w)
  | e :: l => (Ok tt, set_sched l (if w_intx w then w else set_db (ev_env e (w_db w)) w))
  end.

(** Memory of this process, read and written without a statement. *)
Definition peek {St A} (f : St -> A) : M St A := fun w => (Ok (f (w_db w)), w).
Definition poke {St} (f : St -> St) : M St unit := fun w => (Ok tt, set_db (f (w_db w)) w).

Definition time_Now {St} : M St Z := fun w => (Ok (w_now w), w).
Definition db_NOW {St} : M St Z := fun w => (Ok (w_dbnow w), w).

(** [uuid.New().String()]: the identifier source is a parameter. *)
Definition uuid_New {St} (uuid : nat -> string) : M St string := fun w =>
  (Ok (uuid (w_seed w)), set_seed (S (w_seed w)) w).

(** A world with no pending faults and no other sessions. *)
Definition quiet {St} (s : St) (now dbnow : Z) (seed : nat) : world St :=
  World s [] false now dbnow seed.

(** The state the next statement sees, and what it leaves of the schedule. *)
Definition db_seen {St} (w : world St) : St :=
  match w_sched w with
  | [] => w_db w
  | e :: _ => if w_intx w then w_db w else ev_env e (w_db w)
  end.

(** ** Reasoning about computations *)

Create HintDb evolve.
Create HintDb enlist.
Create HintDb go.
Create Rewrite HintDb go.

Section MLemmas.
Context {St : Type}.

Lemma bind_Ok {A B} (m : M St A) (k : A -> M St B) w b w' :
  (m ≫= k) w = (Ok b, w') ->
  exists a w1, m w = (Ok a, w1) /\ k a w1 = (Ok b, w').
Proof. unfold mbind, M_bind. destruct (m w) as [[a|e] w1]; [eauto|done]. Qed.

Lemma bind_inv {A B} (m : M St A) (k : A -> M St B) w r w' :
  (m ≫= k) w = (r, w') ->
  (exists a w1, m w = (Ok a, w1) /\ k a w1 = (r, w')) \/
  (exists e, m w = (Err e, w') /\ r = Err e).
Proof.
  unfold mbind, M_bind. destruct (m w) as [[a|e] w1]; [eauto|].
  intros [= <- <-]. eauto.
Qed.

Lemma bind_try {A B} (m : M St A) (k : result A -> M St B) w r w' :
  (try m ≫= k) w = (r, w') -> exists r0 w1, m w = (r0, w1) /\ k r0 w1 = (r, w').
Proof. unfold mbind, M_bind, try. destruct (m w) as [r0 w1]. eauto. Qed.

Lemma bind_step {A B} (m : M St A) (k : A -> M St B) w a w1 :
  m w = (Ok a, w1) -> (m ≫= k) w = k a w1.
Proof. unfold mbind, M_bind. by intros ->. Qed.

Lemma lift_Ok {A} (r : result A) (w : world St) a w' : lift r w = (Ok a, w') <-> r = Ok a /\ w' = w.
Proof. unfold lift. split; [by intros [= -> ->]|by intros [-> ->]]. Qed.

Lemma mapping_Ok {A} f (m : M St A) w a w' :
  mapping_err f m w = (Ok a, w') <-> m w = (Ok a, w').
Proof. unfold mapping_err. destruct (m w) as [[?|?] ?]; split; congruence. Qed.

Lemma mapping_Err {A} f (m : M St A) w e w' :
  mapping_err f m w = (Err e, w') -> exists e0, m w = (Err e0, w') /\ e = f e0.
Proof. unfold mapping_err. destruct (m w) as [[?|?] ?]; intros [=]; subst; eauto. Qed.

Lemma wrapping_Ok {A} msg (m : M St A) w a w' :
  wrapping msg m w = (Ok a, w') <-> m w = (Ok a, w').
Proof. apply mapping_Ok. Qed.

Lemma wrapping_Err {A} msg (m : M St A) w e w' :
  wrapping msg m w = (Err e, w') -> exists e0, m w = (Err e0, w') /\ e = Wrap msg e0.
Proof. apply mapping_Err. Qed.

Lemma tick_inv (w : world St) r w' :
  tick w = (r, w') ->
  w_db w' = db_seen w /\ w_sched w' = tail (w_sched w) /\ w_intx w' = w_intx w /\
  w_now w' = w_now w /\ w_dbnow w' = w_dbnow w /\ w_seed w' = w_seed w.
Proof.
  unfold tick, db_seen. destruct (w_sched w) as [|ev l] eqn:E.
  - intros [= <- <-]. by rewrite E.
  - destruct (ev_fault ev), (w_intx w) eqn:I; intros [= <- <-]; cbn; rewrite ?I; done.
Qed.

(** What no statement changes: the transaction it runs in and the clocks. *)
Definition frame (w w' : world St) : Prop :=
  w_intx w' = w_intx w /\ w_now w' = w_now w /\ w_dbnow w' = w_dbnow w.

#[export] Instance frame_preorder : PreOrder frame.
Proof. split; [by intros ?|]. intros a b c (?&?&?) (?&?&?). unfold frame. naive_solver congruence. Qed.

Lemma tick_frame (w : world St) r w' : tick w = (r, w') -> frame w w'.
Proof. intros H. apply tick_inv in H as (_ & _ & ? & ? & ? & _). by split. Qed.

Lemma stmt_inv {A} (f : St -> result (A * St)) w r w' :
  stmt f w = (r, w') ->
  frame w w' /\
  ((exists a, r = Ok a /\ f (db_seen w) = Ok (a, w_db w')) \/
   (exists e, r = Err e /\ w_db w' = db_seen w)).
Proof.
  unfold stmt. intros H. apply bind_inv in H as [(u & w1 & Ht & Hf)|(e & Ht & ->)].
  - pose proof (tick_frame _ _ _ Ht) as Hfr.
    apply tick_inv in Ht as (<- & _). unfold apply_db in Hf.
    destruct (f (w_db w1)) as [[a s]|e] eqn:Ef; injection Hf as <- <-;
      (split; [done|]); [left|right]; eauto.
  - split; [by eapply tick_frame|]. right. apply tick_inv in Ht as (-> & _). eauto.
Qed.

Lemma query_inv {A} (f : St -> A) w r w' :
  query f w = (r, w') ->
  frame w w' /\ (r = Ok (f (db_seen w)) \/ exists e, r = Err e) /\ w_db w' = db_seen w.
Proof.
  unfold query. intros H.
  apply stmt_inv in H as [Hf [(a & -> & [= <- <-])|(e & -> & Hdb)]]; eauto.
Qed.

Lemma intx_seen (w : world St) : w_intx w = true -> db_seen w = w_db w.
Proof. unfold db_seen. intros ->. by destruct (w_sched w). Qed.

(** A schedule that is exhausted leaves every statement as its function. *)
Lemma stmt_quiet {A} (f : St -> result (A * St)) w :
  w_sched w = [] ->
  stmt f w = match f (w_db w) with
             | Ok (a, s) => (Ok a, set_db s w)
             | Err e => (Err e, w)
             end.
Proof. intros H. unfold stmt, mbind, M_bind, tick. by rewrite H. Qed.

Lemma table_stmt_inv {R A} get put (f : St -> list R -> result (A * list R)) (w : world St) r w' :
  table_stmt get put f w = (r, w') ->
  frame w w' /\
  ((exists rows rows' a, get (db_seen w) = Some rows /\ f (db_seen w) rows = Ok (a, rows') /\
      r = Ok a /\ w_db w' = put rows' (db_seen w)) \/
   (exists e, r = Err e /\ w_db w' = db_seen w)).
Proof.
  intros E. apply stmt_inv in E as [Hf [(a & -> & E)|He]]; (split; [done|]); [left|by right].
  unfold on_table in E. destruct (get (db_seen w)) as [rows|]; [|done].
  destruct (f _ rows) as [[a' rows']|] eqn:Ef; [|done]. injection E as -> <-. by exists rows, rows', a.
Qed.

Lemma table_read_inv {R A} get (f : St -> list R -> A) (w : world St) r w' :
  table_read get f w = (r, w') ->
  frame w w' /\ w_db w' = db_seen w /\
  ((exists rows, get (db_seen w) = Some rows /\ r = Ok (f (db_seen w) rows)) \/ (exists e, r = Err e)).
Proof.
  intros E. apply stmt_inv in E as [Hf [(a & -> & E)|(e & -> & E)]]; [|by eauto].
  destruct (get (db_seen w)) as [rows|]; [|done]. injection E as <- <-. eauto 8.
Qed.

Lemma table_stmt_quiet {R A} get put (f : St -> list R -> result (A * list R)) (w : world St) rows :
  w_sched w = [] -> get (w_db w) = Some rows ->
  table_stmt get put f w = match f (w_db w) rows with
                           | Ok (a, rows') => (Ok a, set_db (put rows' (w_db w)) w)
                           | Err e => (Err e, w)
                           end.
Proof.
  intros Hq Hg. unfold table_stmt. rewrite stmt_quiet by done. unfold on_table. rewrite Hg.
  by destruct (f _ rows) as [[a rows']|e].
Qed.

Lemma table_read_quiet {R A} get (f : St -> list R -> A) (w : world St) rows :
  w_sched w = [] -> get (w_db w) = Some rows -> table_read get f w = (Ok (f (w_db w) rows), w).
Proof. intros Hq Hg. unfold table_read. rewrite stmt_quiet by done. rewrite Hg. by destruct w. Qed.

(** [evolves R m]: whatever the schedule, as long as the other sessions move
    the database along the preorder [R], so does [m]. An invariant [I] is the
    instance [R s s' := I s -> I s']; isolation of a set of rows is the
    instance where [R] is agreement on those rows. *)
Definition sched_respects (R : St -> St -> Prop) (w : world St) : Prop :=
  Forall (fun e => forall s, R s (ev_env e s)) (w_sched w).

Definition evolves {A} (R : St -> St -> Prop) (m : M St A) : Prop :=
  forall w r w', m w = (r, w') -> sched_respects R w ->
  R (w_db w) (w_db w') /\ sched_respects R w'.

Context (R : St -> St -> Prop) `{!PreOrder R}.

Lemma evolves_tick : evolves R (tick (St:=St)).
Proof.
  intros w r w' H Hs. apply tick_inv in H as (Hdb & Hsch & _).
  unfold sched_respects in *. rewrite Hdb, Hsch. unfold db_seen.
  destruct (w_sched w) as [|ev l]; [by split|]. apply Forall_cons in Hs as [He Hl].
  split; [|done]. destruct (w_intx w); [reflexivity|apply He].
Qed.

Lemma evolves_preempt : evolves R (preempt (St:=St)).
Proof.
  intros w r w' H Hs. unfold preempt, sched_respects in *. destruct (w_sched w) as [|ev l] eqn:E.
  - injection H as <- <-. by rewrite E.
  - injection H as <- <-. apply Forall_cons in Hs as [He Hl]. destruct (w_intx w); simpl; (split; [|done]).
    + reflexivity.
    + apply He.
Qed.

Lemma evolves_poke (f : St -> St) : (forall s, R s (f s)) -> evolves R (poke f).
Proof. intros Hf w r w' [= <- <-] Hs. split; [apply Hf|done]. Qed.

Lemma evolves_pure {A} (m : M St A) :
  (forall w, w_db (m w).2 = w_db w /\ w_sched (m w).2 = w_sched w) -> evolves R m.
Proof.
  intros H w r w' E Hs. specialize (H w). rewrite E in H. destruct H as [Hd Hc].
  simpl in *. unfold sched_respects. rewrite Hd, Hc. by split.
Qed.

Lemma evolves_ret {A} (a : A) : evolves R (mret a : M St A).
Proof. by apply evolves_pure. Qed.
Lemma evolves_throw {A} e : evolves R (throw e : M St A).
Proof. by apply evolves_pure. Qed.
Lemma evolves_lift {A} r : evolves R (lift r : M St A).
Proof. by apply evolves_pure. Qed.
Lemma evolves_peek {A} (f : St -> A) : evolves R (peek f).
Proof. by apply evolves_pure. Qed.
Lemma evolves_time_Now : evolves R (time_Now (St:=St)).
Proof. by apply evolves_pure. Qed.
Lemma evolves_db_NOW : evolves R (db_NOW (St:=St)).
Proof. by apply evolves_pure. Qed.
Lemma evolves_uuid u : evolves R (uuid_New (St:=St) u).
Proof. by apply evolves_pure. Qed.

Lemma evolves_bind {A B} (m : M St A) (k : A -> M St B) :
  evolves R m -> (forall a, evolves R (k a)) -> evolves R (m ≫= k).
Proof.
  intros Hm Hk w r w' H Hs. apply bind_inv in H as [(a & w1 & H1 & H2)|(e & H1 & _)].
  - destruct (Hm _ _ _ H1 Hs) as [R1 S1]. destruct (Hk _ _ _ _ H2 S1) as [R2 S2].
    split; [by transitivity (w_db w1)|done].
  - by apply (Hm _ _ _ H1).
Qed.

Lemma evolves_mapping {A} f (m : M St A) : evolves R m -> evolves R (mapping_err f m).
Proof.
  intros Hm w r w' H. unfold mapping_err in H. destruct (m w) as [[a|e] w1] eqn:E;
    injection H as <- <-; by apply (Hm _ _ _ E).
Qed.

Lemma evolves_wrapping {A} msg (m : M St A) : evolves R m -> evolves R (wrapping msg m).
Proof. apply evolves_mapping. Qed.

Lemma evolves_try {A} (m : M St A) : evolves R m -> evolves R (try m).
Proof.
  intros Hm w r w' H. unfold try in H. destruct (m w) as [r1 w1] eqn:E.
  injection H as <- <-. by apply (Hm _ _ _ E).
Qed.

Lemma evolves_stmt {A} (f : St -> result (A * St)) :
  (forall s a s', f s = Ok (a, s') -> R s s') -> evolves R (stmt f).
Proof.
  intros Hf. apply evolves_bind; [apply evolves_tick|]. intros _ w r w' H Hs.
  unfold apply_db in H. destruct (f (w_db w)) as [[a s]|e] eqn:E; injection H as <- <-.
  - split; [by apply Hf in E|done].
  - by split.
Qed.

Lemma evolves_query {A} (f : St -> A) : evolves R (query f).
Proof. apply evolves_stmt. by intros s a s' [= _ ->]. Qed.

Lemma evolves_table_stmt {B A} get put (f : St -> list B -> result (A * list B)) :
  (forall s rows a rows', get s = Some rows -> f s rows = Ok (a, rows') -> R s (put rows' s)) ->
  evolves R (table_stmt get put f).
Proof.
  intros Hf. apply evolves_stmt. intros s a s' E. unfold on_table in E. destruct (get s) as [rows|] eqn:Eg; [|done].
  destruct (f s rows) as [[a' rows']|] eqn:Ef; [|done]. injection E as -> <-. by eapply Hf.
Qed.

Lemma evolves_table_read {B A} get (f : St -> list B -> A) : evolves R (table_read get f).
Proof. apply evolves_stmt. intros s a s' E. destruct (get s); [|done]. by injection E as _ <-. Qed.

Lemma evolves_tx_on {A} undo b c (body : M St A) :
  (forall s0 s, R s0 s -> R s0 (undo s0 s)) -> evolves R body -> evolves R (tx_on undo b c body).
Proof.
  intros Hu Hb w r w' H Hs.
  assert (Hbody : evolves R (a ← body; mapping_err c tick;; mret a)).
  { apply evolves_bind; [done|]. intros a'. apply evolves_bind; [|intros; apply evolves_ret].
    apply evolves_mapping, evolves_tick. }
  unfold tx_on in H. destruct (mapping_err b tick w) as [[u|e] w1] eqn:E1;
    destruct (evolves_mapping _ _ evolves_tick _ _ _ E1 Hs) as [R1 S1].
  2: { by injection H as <- <-. }
  destruct ((a ← body; mapping_err c tick;; mret a) (set_intx true w1)) as [[a|e] w2] eqn:E2;
    injection H as <- <-; destruct (Hbody _ _ _ E2 S1) as [R2 S2].
  - split; [by transitivity (w_db w1)|done].
  - split; [transitivity (w_db w1); [done|by apply Hu]|done].
Qed.

Lemma evolves_tx_by {A} b c (body : M St A) : evolves R body -> evolves R (tx_by b c body).
Proof. apply evolves_tx_on. reflexivity. Qed.

Lemma evolves_tx {A} b c (body : M St A) : evolves R body -> evolves R (tx b c body).
Proof. apply evolves_tx_by. Qed.
End MLemmas.

#[export] Hint Resolve evolves_ret evolves_throw evolves_lift evolves_time_Now evolves_db_NOW
  evolves_uuid evolves_query evolves_table_read evolves_tick evolves_preempt evolves_peek : evolve.

#[export] Hint Extern 1 (PreOrder _) => apply _ : evolve.

(** Walk down a computation; what is left are the statements that write. *)
Ltac evolve :=
  repeat first
    [ progress (eauto 3 with evolve)
    | lazymatch goal with
      | |- evolves _ (wrapping _ _) => apply evolves_wrapping
      | |- evolves _ (try _) => apply evolves_try
      | |- evolves _ (tx _ _ _) => apply evolves_tx; [apply _|]
      | |- evolves _ (tx_by _ _ _) => apply evolves_tx_by; [apply _|]
      | |- evolves _ (mapping_err _ _) => apply evolves_mapping
      | |- evolves _ (_ ≫= _) => apply evolves_bind; [apply _| |intros ?]
      end
    | case_match ].

(** ** Inside a transaction

    Between a [BEGIN] and its [COMMIT] no other session runs, so that what a
    computation does to the state is its own doing: [enlisted R m] needs no
    assumption on the schedule. *)

Definition consumed {St} (w w' : world St) : Prop := exists k, w_sched w' = drop k (w_sched w).

#[export] Instance consumed_preorder {St} : PreOrder (@consumed St).
Proof.
  split; [intros w; by exists 0%nat|]. intros a b c [k Hk] [l Hl]. exists (k + l)%nat.
  by rewrite Hl, Hk, drop_drop.
Qed.

Lemma consumed_respects {St} R (w w' : world St) : consumed w w' -> sched_respects R w -> sched_respects R w'.
Proof. intros [k Hk] Hs. unfold sched_respects. rewrite Hk. by apply Forall_drop. Qed.

Definition enlisted {St A} (R : St -> St -> Prop) (m : M St A) : Prop :=
  forall w r w', m w = (r, w') -> w_intx w = true -> R (w_db w) (w_db w') /\ w_intx w' = true /\ consumed w w'.

Section Enlisted.
Context {St : Type} (R : St -> St -> Prop) `{!PreOrder R}.

Lemma enlisted_pure {A} (m : M St A) :
  (forall w, w_db (m w).2 = w_db w /\ w_sched (m w).2 = w_sched w /\ w_intx (m w).2 = w_intx w) -> enlisted R m.
Proof.
  intros Hm w r w' E Hi. specialize (Hm w). rewrite E in Hm. destruct Hm as (Hd & Hs & Hx). simpl in *.
  split; [by rewrite Hd|]. split; [congruence|]. by exists 0%nat.
Qed.

Lemma enlisted_ret {A} (a : A) : enlisted R (mret a : M St A).
Proof. by apply enlisted_pure. Qed.
Lemma enlisted_throw {A} e : enlisted R (throw e : M St A).
Proof. by apply enlisted_pure. Qed.
Lemma enlisted_lift {A} r : enlisted R (lift r : M St A).
Proof. by apply enlisted_pure. Qed.
Lemma enlisted_peek {A} (f : St -> A) : enlisted R (peek f).
Proof. by apply enlisted_pure. Qed.
Lemma enlisted_time_Now : enlisted R (time_Now (St:=St)).
Proof. by apply enlisted_pure. Qed.
Lemma enlisted_db_NOW : enlisted R (db_NOW (St:=St)).
Proof. by apply enlisted_pure. Qed.
Lemma enlisted_uuid u : enlisted R (uuid_New (St:=St) u).
Proof. by apply enlisted_pure. Qed.

Lemma enlisted_poke (f : St -> St) : (forall s, R s (f s)) -> enlisted R (poke f).
Proof. intros Hf w r w' [= <- <-] Hi. split; [apply Hf|]. split; [done|]. by exists 0%nat. Qed.

Lemma enlisted_tick : enlisted R (tick (St:=St)).
Proof.
  intros w r w' E Hi. apply tick_inv in E as (Hd & Hs & Hx & _). rewrite intx_seen in Hd by done.
  split; [by rewrite Hd|]. split; [congruence|]. exists 1%nat. rewrite Hs. by destruct (w_sched w).
Qed.

Lemma enlisted_bind {A B} (m : M St A) (k : A -> M St B) :
  enlisted R m -> (forall a, enlisted R (k a)) -> enlisted R (m ≫= k).
Proof.
  intros Hm Hk w r w' E Hi. apply bind_inv in E as [(a & w1 & E1 & E2)|(e & E1 & _)]; [|by apply (Hm _ _ _ E1)].
  destruct (Hm _ _ _ E1 Hi) as (R1 & I1 & C1). destruct (Hk _ _ _ _ E2 I1) as (R2 & I2 & C2).
  split; [by transitivity (w_db w1)|]. split; [done|by transitivity w1].
Qed.

Lemma enlisted_mapping {A} f (m : M St A) : enlisted R m -> enlisted R (mapping_err f m).
Proof.
  intros Hm w r w' E. unfold mapping_err in E. destruct (m w) as [[a|e] w1] eqn:E1; injection E as <- <-;
    by apply (Hm _ _ _ E1).
Qed.

Lemma enlisted_wrapping {A} msg (m : M St A) : enlisted R m -> enlisted R (wrapping msg m).
Proof. apply enlisted_mapping. Qed.

Lemma enlisted_try {A} (m : M St A) : enlisted R m -> enlisted R (try m).
Proof. intros Hm w r w' E. unfold try in E. destruct (m w) as [r1 w1] eqn:E1. injection E as <- <-. by apply (Hm _ _ _ E1). Qed.

Lemma enlisted_stmt {A} (f : St -> result (A * St)) : (forall s a s', f s = Ok (a, s') -> R s s') -> enlisted R (stmt f).
Proof.
  intros Hf. apply enlisted_bind; [apply enlisted_tick|]. intros _ w r w' E Hi. unfold apply_db in E.
  destruct (f (w_db w)) as [[a s]|e] eqn:Ef; injection E as <- <-.
  - split; [by eapply Hf|]. split; [done|]. by exists 0%nat.
  - split; [done|]. split; [done|]. by exists 0%nat.
Qed.

Lemma enlisted_query {A} (f : St -> A) : enlisted R (query f).
Proof. apply enlisted_stmt. by intros s a s' [= _ ->]. Qed.

Lemma enlisted_table_stmt {B A} get put (f : St -> list B -> result (A * list B)) :
  (forall s rows a rows', get s = Some rows -> f s rows = Ok (a, rows') -> R s (put rows' s)) ->
  enlisted R (table_stmt get put f).
Proof.
  intros Hf. apply enlisted_stmt. intros s a s' E. unfold on_table in E. destruct (get s) as [rows|] eqn:Eg; [|done].
  destruct (f s rows) as [[a' rows']|] eqn:Ef; [|done]. injection E as -> <-. by eapply Hf.
Qed.

Lemma enlisted_table_read {B A} get (f : St -> list B -> A) : enlisted R (table_read get f).
Proof. apply enlisted_stmt. intros s a s' E. destruct (get s); [|done]. by injection E as _ <-. Qed.

(** A transaction whose body, from its start to any point, moves along [R], and
    whose rollback does too. *)
Lemma evolves_tx_enlisted {A} undo b c (body : M St A) :
  (forall s0 s, R s0 s -> R s0 (undo s0 s)) -> enlisted R body -> evolves R (tx_on undo b c body).
Proof.
  intros Hu Hb w r w' E Hs.
  assert (Hbody : enlisted R (a ← body; mapping_err c tick;; mret a)).
  { apply enlisted_bind; [done|]. intros a'. apply enlisted_bind; [|intros; apply enlisted_ret].
    apply enlisted_mapping, enlisted_tick. }
  unfold tx_on in E. destruct (mapping_err b tick w) as [[u|e] w1] eqn:E1;
    destruct (evolves_mapping R _ _ (evolves_tick R) _ _ _ E1 Hs) as [R1 S1].
  2: { by injection E as <- <-. }
  destruct ((a ← body; mapping_err c tick;; mret a) (set_intx true w1)) as [[a|e] w2] eqn:E2;
    injection E as <- <-; destruct (Hbody _ _ _ E2 eq_refl) as (R2 & _ & C2);
    (split; [|by apply (consumed_respects R (set_intx true w1))]).
  - by transitivity (w_db w1).
  - transitivity (w_db w1); [done|by apply Hu].
Qed.
End Enlisted.

#[export] Hint Resolve enlisted_ret enlisted_throw enlisted_lift enlisted_peek enlisted_time_Now enlisted_db_NOW
  enlisted_uuid enlisted_tick enlisted_query enlisted_table_read : enlist.

#[export] Hint Extern 1 (PreOrder _) => apply _ : enlist.

Ltac enlist :=
  repeat first
    [ progress (eauto 3 with enlist)
    | lazymatch goal with
      | |- enlisted _ (wrapping _ _) => apply enlisted_wrapping
      | |- enlisted _ (try _) => apply enlisted_try
      | |- enlisted _ (mapping_err _ _) => apply enlisted_mapping
      | |- enlisted _ (_ ≫= _) => apply enlisted_bind; [apply _| |intros ?]
      end
    | case_match ].

(** ** Transactions *)

(** The world a transaction's body starts in. *)
Definition tx_begun {St} (w w1 : world St) : Prop :=
  w_db w1 = db_seen w /\ w_intx w1 = true /\ w_now w1 = w_now w /\ w_dbnow w1 = w_dbnow w.

(** A transaction that reports an error has changed nothing; one that reports
    success has its body's effect. *)
Lemma tx_on_inv {St A} undo b c (body : M St A) w r w' :
  tx_on undo b c body w = (r, w') ->
  (exists a w1 w2, r = Ok a /\ tx_begun w w1 /\ body w1 = (Ok a, w2) /\
     (w_db w' = w_db w2 \/ w_intx w2 = false)) \/
  (exists e, r = Err e /\ (w_db w' = db_seen w \/ exists s, w_db w' = undo (db_seen w) s)).
Proof.
  unfold tx_on. destruct (mapping_err b tick w) as [[u|e] w1] eqn:E1.
  - apply mapping_Ok, tick_inv in E1 as (Hdb & _ & _ & Hn & Hdn & _).
    destruct ((a ← body; mapping_err c tick;; mret a) (set_intx true w1)) as [[a|e] w2] eqn:E2;
      intros [= <- <-].
    + left. apply bind_Ok in E2 as (a' & w3 & E3 & E4).
      apply bind_Ok in E4 as (u' & w4 & E4 & [= -> ->]).
      apply mapping_Ok, tick_inv in E4 as (Hdb4 & _ & Hi4 & _).
      exists a, (set_intx true w1), w3. repeat split; [done..|].
      simpl. rewrite Hdb4. destruct (w_intx w3) eqn:I; [left|by right].
      by apply intx_seen.
    + right. exists e. split; [done|]. right. simpl. rewrite Hdb. eauto.
  - intros [= <- <-]. right. apply mapping_Err in E1 as (e0 & E1 & ->).
    apply tick_inv in E1 as (Hdb & _). eauto.
Qed.

Lemma tx_by_inv {St A} b c (body : M St A) w r w' :
  tx_by b c body w = (r, w') ->
  (exists a w1 w2, r = Ok a /\ tx_begun w w1 /\ body w1 = (Ok a, w2) /\
     (w_db w' = w_db w2 \/ w_intx w2 = false)) \/
  (exists e, r = Err e /\ w_db w' = db_seen w).
Proof. intros E. apply tx_on_inv in E as [?|(e & -> & [?|[s ?]])]; [by left|right; eauto..]. Qed.

Lemma tx_inv {St A} b c (body : M St A) w r w' :
  tx b c body w = (r, w') ->
  (exists a w1 w2, r = Ok a /\ tx_begun w w1 /\ body w1 = (Ok a, w2) /\
     (w_db w' = w_db w2 \/ w_intx w2 = false)) \/
  (exists e, r = Err e /\ w_db w' = db_seen w).
Proof. apply tx_by_inv. Qed.

(** With nothing scheduled, a transaction is its body. *)
Lemma tx_on_quiet {St A} undo b c (body : M St A) w a w1 :
  w_sched w = [] -> body (set_intx true w) = (Ok a, w1) -> w_sched w1 = [] ->
  tx_on undo b c body w = (Ok a, set_intx (w_intx w) w1).
Proof.
  intros Hq Hb Hq1. unfold tx_on, mapping_err, tick. rewrite Hq. unfold mbind, M_bind. rewrite Hb, Hq1. done.
Qed.

Lemma tx_by_quiet {St A} b c (body : M St A) w a w1 :
  w_sched w = [] -> body (set_intx true w) = (Ok a, w1) -> w_sched w1 = [] ->
  tx_by b c body w = (Ok a, set_intx (w_intx w) w1).
Proof. apply tx_on_quiet. Qed.

Lemma tx_quiet {St A} b c (body : M St A) w a w1 :
  w_sched w = [] -> body (set_intx true w) = (Ok a, w1) -> w_sched w1 = [] ->
  tx b c body w = (Ok a, set_intx (w_intx w) w1).
Proof. apply tx_by_quiet. Qed.
