(* ===== verification/GoStrings.v ===== *)
(** * GoStrings: the functions of Go's [strings] package the program calls

    Go strings are byte strings, as [String.string] is. Only the functions the
    source uses are here, over lists of bytes where that is easier to prove. *)

From S2P Require Import Prelude.
From Stdlib Require Import Ascii.

Abbreviation bytes_of := String.list_ascii_of_string.
Abbreviation string_of := String.string_of_list_ascii.

Definition code (a : ascii) : N := N_of_ascii a.

(** [unicode.IsSpace] on the UTF-8 encodings of one, two and three bytes. *)
Definition is_space1 (a : ascii) : bool :=
  let n := code a in ((n =? 32) || ((9 <=? n) && (n <=? 13)))%N.
Definition is_space2 (a b : ascii) : bool :=
  ((code a =? 194) && ((code b =? 133) || (code b =? 160)))%N.
Definition is_space3 (a b c : ascii) : bool :=
  let (x, y) := (code b, code c) in
  match code a with
  | 225 => (x =? 154) && (y =? 128)
  | 226 => ((x =? 128) && (((128 <=? y) && (y <=? 138)) || (y =? 168) || (y =? 169) || (y =? 175)))
           || ((x =? 129) && (y =? 159))
  | 227 => (x =? 128) && (y =? 128)
  | _ => false
  end%N.

(** Drop the runes for which [unicode.IsSpace] holds from the front. *)
Fixpoint trim_front (l : list ascii) : list ascii :=
  match l with
  | [] => []
  | a :: l1 =>
      if is_space1 a then trim_front l1 else
      match l1 with
      | [] => l
      | b :: l2 =>
          if is_space2 a b then trim_front l2 else
          match l2 with
          | [] => l
          | c :: l3 => if is_space3 a b c then trim_front l3 else l
          end
      end
  end.

(** The same from the back; the list is the string reversed. *)
Fixpoint trim_back (l : list ascii) : list ascii :=
  match l with
  | [] => []
  | a :: l1 =>
      if is_space1 a then trim_back l1 else
      match l1 with
      | [] => l
      | b :: l2 =>
          if is_space2 b a then trim_back l2 else
          match l2 with
          | [] => l
          | c :: l3 => if is_space3 c b a then trim_back l3 else l
          end
      end
  end.

Definition TrimSpace (s : string) : string :=
  string_of (rev (trim_back (rev (trim_front (bytes_of s))))).

(** [strings.TrimLeft(s, " \t")] and the run of bytes up to the first of them. *)
Definition is_sp_tab (a : ascii) : bool := (code a =? 32)%N || (code a =? 9)%N.

Fixpoint trim_sp_tab (l : list ascii) : list ascii :=
  match l with
  | [] => []
  | a :: l1 => if is_sp_tab a then trim_sp_tab l1 else l
  end.

(** [strings.IndexAny(s, " \t")]: the part before the separator and the part
    from it on, or [None] for the index -1. *)
Fixpoint split_sp_tab (l : list ascii) : option (list ascii * list ascii) :=
  match l with
  | [] => None
  | a :: l1 =>
      if is_sp_tab a then Some ([], l)
      else match split_sp_tab l1 with
           | Some (h, t) => Some (a :: h, t)
           | None => None
           end
  end.

(** ASCII lower case, and [strings.EqualFold] against a word whose letters have
    no fold outside ASCII (neither [k] nor [s]). *)
Definition lower (a : ascii) : ascii :=
  let n := code a in if ((65 <=? n) && (n <=? 90))%N then ascii_of_N (n + 32) else a.

Definition EqualFold (l m : list ascii) : bool :=
  bool_decide (map lower l = map lower m).

(** [strings.Split(s, sep)] for a separator of one byte, and [strings.Join]. *)
Fixpoint split_byte (sep : ascii) (l : list ascii) : list (list ascii) :=
  match l with
  | [] => [[]]
  | a :: l1 =>
      if (a =? sep)%char then [] :: split_byte sep l1
      else match split_byte sep l1 with
           | [] => [[a]]
           | part :: rest => (a :: part) :: rest
           end
  end.

Fixpoint join_byte (sep : ascii) (parts : list (list ascii)) : list ascii :=
  match parts with
  | [] => []
  | [part] => part
  | part :: rest => part ++ sep :: join_byte sep rest
  end.

Definition Split (s : string) (sep : ascii) : list string := map string_of (split_byte sep (bytes_of s)).
Definition Join (parts : list string) (sep : ascii) : string := string_of (join_byte sep (map bytes_of parts)).

(** [strings.HasPrefix]. *)
Definition HasPrefix (s p : string) : bool := String.prefix p s.

(** ** Facts *)

Lemma split_byte_cons sep l : exists part rest, split_byte sep l = part :: rest.
Proof. destruct l as [|a l]; simpl; [eauto|]. repeat case_match; eauto. Qed.

Lemma join_split_byte sep l : join_byte sep (split_byte sep l) = l.
Proof.
  induction l as [|a l IH]; simpl; [done|]. destruct (split_byte_cons sep l) as (part & rest & E).
  rewrite E in IH. destruct (Ascii.eqb_spec a sep) as [->|_]; rewrite E.
  - change (sep :: join_byte sep (part :: rest) = sep :: l). by rewrite IH.
  - destruct rest; cbn [join_byte app] in *; by rewrite IH.
Qed.

Lemma split_byte_free sep l part : In part (split_byte sep l) -> ~ In sep part.
Proof.
  revert part. induction l as [|a l IH]; simpl; intros part.
  - intros [<-|[]] [].
  - destruct (Ascii.eqb_spec a sep) as [->|Hne].
    + intros [<-|Hin]; [by intros []|by apply IH].
    + destruct (split_byte_cons sep l) as (p & rest & E). rewrite E in IH |- *.
      intros [<-|Hin]; [|by apply IH; right]. intros [->|Hin]; [done|]. by apply (IH p); [left|].
Qed.

Lemma split_join_byte sep part parts :
  Forall (fun p => ~ In sep p) (part :: parts) -> split_byte sep (join_byte sep (part :: parts)) = part :: parts.
Proof.
  revert part. induction parts as [|q parts IH]; intros part Hf; inversion Hf as [|? ? Hp Hr]; subst.
  - cbn [join_byte]. clear Hf Hr. induction part as [|a part IHp]; [done|]. cbn [split_byte].
    destruct (Ascii.eqb_spec a sep) as [->|]; [by destruct Hp; left|].
    by rewrite IHp by (intros H; apply Hp; by right).
  - assert (E : join_byte sep (part :: q :: parts) = part ++ sep :: join_byte sep (q :: parts)) by done.
    rewrite E. clear E Hf. specialize (IH q Hr). revert IH. generalize (join_byte sep (q :: parts)). intros l IH.
    induction part as [|a part IHp]; cbn [app split_byte].
    + by rewrite Ascii.eqb_refl, IH.
    + destruct (Ascii.eqb_spec a sep) as [->|]; [by destruct Hp; left|].
      by rewrite IHp by (intros H; apply Hp; by right).
Qed.

(** [front_free l]: [l] starts with no space. *)
Definition front_free (l : list ascii) : Prop := trim_front l = l.

Lemma trim_front_shrinks l : length (trim_front l) <= length l.
Proof.
  induction l as [l IH] using (induction_ltof1 _ (@length ascii)). unfold ltof in IH.
  destruct l as [|a [|b [|c l3]]]; simpl; repeat case_match; simpl; try lia.
  all: match goal with |- context [trim_front ?x] => specialize (IH x) end; simpl in *; lia.
Qed.

Lemma trim_front_free l : front_free (trim_front l).
Proof.
  induction l as [l IH] using (induction_ltof1 _ (@length ascii)). unfold ltof in IH.
  unfold front_free in *. destruct l as [|a [|b [|c l3]]]; simpl.
  - done.
  - destruct (is_space1 a) eqn:E; simpl; by rewrite ?E.
  - destruct (is_space1 a) eqn:E; [apply (IH [b]); simpl; lia|].
    destruct (is_space2 a b) eqn:E2; simpl; by rewrite ?E, ?E2.
  - destruct (is_space1 a) eqn:E; [apply (IH (b :: c :: l3)); simpl; lia|].
    destruct (is_space2 a b) eqn:E2; [apply (IH (c :: l3)); simpl; lia|].
    destruct (is_space3 a b c) eqn:E3; [apply (IH l3); simpl; lia|].
    simpl. by rewrite E, E2, E3.
Qed.

Lemma trim_back_free l : trim_back (trim_back l) = trim_back l.
Proof.
  induction l as [l IH] using (induction_ltof1 _ (@length ascii)). unfold ltof in IH.
  destruct l as [|a [|b [|c l3]]]; simpl.
  - done.
  - destruct (is_space1 a) eqn:E; simpl; by rewrite ?E.
  - destruct (is_space1 a) eqn:E; [apply (IH [b]); simpl; lia|].
    destruct (is_space2 b a) eqn:E2; simpl; by rewrite ?E, ?E2.
  - destruct (is_space1 a) eqn:E; [apply (IH (b :: c :: l3)); simpl; lia|].
    destruct (is_space2 b a) eqn:E2; [apply (IH (c :: l3)); simpl; lia|].
    destruct (is_space3 c b a) eqn:E3; [apply (IH l3); simpl; lia|].
    simpl. by rewrite E, E2, E3.
Qed.

Lemma trim_back_suffix l : exists p, l = p ++ trim_back l.
Proof.
  induction l as [l IH] using (induction_ltof1 _ (@length ascii)). unfold ltof in IH.
  destruct l as [|a l1]; [by exists []|].
  destruct (is_space1 a) eqn:E.
  { destruct (IH l1) as [p Hp]; [simpl; lia|]. exists (a :: p). simpl. rewrite E. congruence. }
  destruct l1 as [|b [|c l3]].
  - exists []. simpl. by rewrite E.
  - exists (if is_space2 b a then [a; b] else []). simpl. rewrite E. by case_match.
  - destruct (is_space2 b a) eqn:E2.
    { destruct (IH (c :: l3)) as [p Hp]; [simpl; lia|].
      exists (a :: b :: p). simpl in *. rewrite E, E2. congruence. }
    destruct (is_space3 c b a) eqn:E3.
    { destruct (IH l3) as [p Hp]; [simpl; lia|].
      exists (a :: b :: c :: p). simpl in *. rewrite E, E2, E3. congruence. }
    exists []. simpl. by rewrite E, E2, E3.
Qed.

(** A prefix of a string that starts with no space starts with no space. *)
Lemma front_free_prefix p q : front_free (p ++ q) -> front_free p.
Proof.
  unfold front_free. destruct p as [|a [|b [|c p3]]]; simpl; [done|..].
  - destruct (is_space1 a) eqn:E; [|done]. intros H. exfalso.
    pose proof (trim_front_shrinks q) as Hs. rewrite H in Hs. simpl in Hs. lia.
  - destruct (is_space1 a) eqn:E.
    { intros H. pose proof (trim_front_shrinks (b :: q)) as Hs. simpl in *. rewrite H in Hs.
      simpl in Hs. lia. }
    destruct (is_space2 a b) eqn:E2; [|done].
    intros H. pose proof (trim_front_shrinks q) as Hs. rewrite H in Hs. simpl in Hs. lia.
  - destruct (is_space1 a) eqn:E.
    { intros H. pose proof (trim_front_shrinks (b :: c :: p3 ++ q)) as Hs. simpl in *.
      rewrite H in Hs. simpl in Hs. lia. }
    destruct (is_space2 a b) eqn:E2.
    { intros H. pose proof (trim_front_shrinks (c :: p3 ++ q)) as Hs. simpl in *.
      rewrite H in Hs. simpl in Hs. lia. }
    destruct (is_space3 a b c) eqn:E3; [|done].
    intros H. pose proof (trim_front_shrinks (p3 ++ q)) as Hs. simpl in *.
    rewrite H in Hs. simpl in Hs. lia.
Qed.

Lemma bytes_of_string_of l : bytes_of (string_of l) = l.
Proof. apply String.list_ascii_of_string_of_list_ascii. Qed.
Lemma string_of_bytes_of s : string_of (bytes_of s) = s.
Proof. apply String.string_of_list_ascii_of_string. Qed.

Lemma TrimSpace_idem s : TrimSpace (TrimSpace s) = TrimSpace s.
Proof.
  unfold TrimSpace. rewrite bytes_of_string_of. set (l := trim_front (bytes_of s)).
  assert (Hf : front_free (rev (trim_back (rev l)))).
  { destruct (trim_back_suffix (rev l)) as [p Hp].
    apply (front_free_prefix _ (rev p)). rewrite <- rev_app_distr, <- Hp, rev_involutive.
    apply trim_front_free. }
  unfold front_free in Hf. rewrite Hf, rev_involutive. by rewrite trim_back_free.
Qed.
#[export] Hint Rewrite TrimSpace_idem bytes_of_string_of string_of_bytes_of : go.

(** Text none of whose bytes is a space of any width is left alone: enough that
    every byte is ASCII and not a space. *)
Definition plain_byte (a : ascii) : bool := negb (is_space1 a) && (code a <? 128)%N.

Lemma plain_not_space a b c :
  plain_byte a = true -> is_space1 a = false /\ is_space2 a b = false /\ is_space3 a b c = false.
Proof.
  unfold plain_byte. intros H. apply andb_prop in H as [H1 H2].
  apply negb_true_iff in H1. apply N.ltb_lt in H2. repeat split; [done|..].
  - unfold is_space2. by replace (code a =? 194)%N with false by (symmetry; apply N.eqb_neq; lia).
  - unfold is_space3. remember (code a) as n eqn:En. clear En H1.
    assert (n <> 225 /\ n <> 226 /\ n <> 227)%N as (? & ? & ?) by lia.
    repeat case_match; congruence.
Qed.

Lemma trim_front_plain a l : plain_byte a = true -> trim_front (a :: l) = a :: l.
Proof.
  intros H. destruct l as [|b [|c l]]; simpl.
  - by destruct (plain_not_space a a a H) as (-> & _).
  - by destruct (plain_not_space a b a H) as (-> & -> & _).
  - by destruct (plain_not_space a b c H) as (-> & -> & ->).
Qed.

Lemma plain_last_not_space a b c :
  plain_byte a = true -> is_space1 a = false /\ is_space2 b a = false /\ is_space3 c b a = false.
Proof.
  unfold plain_byte. intros H. apply andb_prop in H as [H1 H2].
  apply negb_true_iff in H1. apply N.ltb_lt in H2. repeat split; [done|..].
  - unfold is_space2. destruct (code b =? 194)%N; [|done]. simpl.
    apply orb_false_iff. split; apply N.eqb_neq; lia.
  - unfold is_space3. remember (code a) as y eqn:Ey. remember (code b) as x. clear Ey H1.
    assert (Hn : forall k, (128 <= k)%N -> (y =? k)%N = false) by (intros; apply N.eqb_neq; lia).
    assert (Hl : (128 <=? y)%N = false) by (apply N.leb_gt; lia).
    rewrite !Hn, Hl by lia. rewrite ?andb_false_r. simpl. rewrite ?andb_false_r.
    by repeat case_match.
Qed.

Lemma trim_back_plain a l : plain_byte a = true -> trim_back (a :: l) = a :: l.
Proof.
  intros H. destruct l as [|b [|c l]]; simpl.
  - by destruct (plain_last_not_space a a a H) as (-> & _).
  - by destruct (plain_last_not_space a b a H) as (-> & -> & _).
  - by destruct (plain_last_not_space a b c H) as (-> & -> & ->).
Qed.

Lemma TrimSpace_plain s :
  Forall (fun a => plain_byte a = true) (bytes_of s) -> TrimSpace s = s.
Proof.
  intros H. unfold TrimSpace.
  assert (Hf : trim_front (bytes_of s) = bytes_of s).
  { destruct (bytes_of s) as [|a l]; [done|]. apply trim_front_plain. by inversion H. }
  rewrite Hf. assert (Hb : trim_back (rev (bytes_of s)) = rev (bytes_of s)).
  { assert (Hr : Forall (fun a => plain_byte a = true) (rev (bytes_of s)))
      by by apply Forall_rev.
    destruct (rev (bytes_of s)) as [|a l]; [done|]. apply trim_back_plain. by inversion Hr. }
  rewrite Hb, rev_involutive. apply string_of_bytes_of.
Qed.

Example TrimSpace_nbsp : TrimSpace (string_of (map ascii_of_N [194; 160; 97; 32; 98; 226; 128; 175; 10]%N)) = "a b".
Proof. reflexivity. Qed.
