(* ===== verification/Base64.v ===== *)
(** * Base64: Go's encoding/base64, as the program uses it

    [RawURLEncoding.EncodeToString] (API keys, OAuth state keys) and [URLEncoding],
    its padded form, with the decoder (sealed secrets, pagination and session
    payloads). *)

From S2P Require Import Prelude GoStrings.
From Stdlib Require Import Ascii.

Abbreviation bytes := (list ascii).

(** ** base64.RawURLEncoding *)

Definition b64_char (n : N) : ascii :=
  ascii_of_N (if n <? 26 then n + 65
              else if n <? 52 then n + 71
              else if n <? 62 then n - 4
              else if n =? 62 then 45 else 95)%N.

Fixpoint EncodeToString (l : bytes) : bytes :=
  match l with
  | [] => []
  | [a] =>
      let x := code a in
      [b64_char (x / 4); b64_char (x mod 4 * 16)]%N
  | [a; b] =>
      let (x, y) := (code a, code b) in
      [b64_char (x / 4); b64_char (x mod 4 * 16 + y / 16); b64_char (y mod 16 * 4)]%N
  | a :: b :: c :: l' =>
      let '(x, y, z) := (code a, code b, code c) in
      b64_char (x / 4)%N :: b64_char (x mod 4 * 16 + y / 16)%N ::
      b64_char (y mod 16 * 4 + z / 64)%N :: b64_char (z mod 64)%N :: EncodeToString l'
  end.

(** ** base64.URLEncoding: padded, with its decoder *)

Definition pad_char : ascii := "="%char.

Definition padding (l : bytes) : bytes :=
  match (length l mod 3)%nat with 1 => [pad_char; pad_char] | 2 => [pad_char] | _ => [] end.

Definition URLEncoding_EncodeToString (l : bytes) : bytes := EncodeToString l ++ padding l.

(** The decoding table: the sextet of a character of the alphabet. *)
Definition b64_value (a : ascii) : option N :=
  let n := code a in
  (if (65 <=? n) && (n <=? 90) then Some (n - 65)
   else if (97 <=? n) && (n <=? 122) then Some (n - 71)
   else if (48 <=? n) && (n <=? 57) then Some (n + 4)
   else if n =? 45 then Some 62 else if n =? 95 then Some 63 else None)%N.

(** Carriage returns and line feeds are skipped wherever they are. *)
Definition not_newline (a : ascii) : bool := negb ((code a =? 10) || (code a =? 13))%N.

(** Groups of four; padding ends the input, and the bits it leaves over are not
    looked at (the encoding is not [Strict]). *)
Fixpoint decode_quads (l : bytes) : option bytes :=
  match l with
  | [] => Some []
  | a :: b :: c :: d :: l' =>
      x ← b64_value a; y ← b64_value b;
      let first := ascii_of_N (x * 4 + y / 16)%N in
      if (c =? pad_char)%char then
        if (d =? pad_char)%char && bool_decide (l' = []) then Some [first] else None
      else
        z ← b64_value c;
        let second := ascii_of_N (y mod 16 * 16 + z / 4)%N in
        if (d =? pad_char)%char then if bool_decide (l' = []) then Some [first; second] else None
        else
          w ← b64_value d;
          rest ← decode_quads l';
          Some (first :: second :: ascii_of_N (z mod 4 * 64 + w)%N :: rest)
  | _ => None
  end.

Definition URLEncoding_DecodeString (l : bytes) : option bytes := decode_quads (List.filter not_newline l).

(** ** Lemmas *)

Lemma induction3 (P : bytes -> Prop) :
  P [] -> (forall a, P [a]) -> (forall a b, P [a; b]) ->
  (forall a b c l, P l -> P (a :: b :: c :: l)) -> forall l, P l.
Proof.
  intros H0 H1 H2 H3. enough (H : forall l, P l /\ (forall a, P (a :: l)) /\ forall a b, P (a :: b :: l))
    by (intros l; apply H).
  induction l as [|c l (I0 & I1 & I2)]; repeat split; auto.
Qed.

Lemma length_EncodeToString l : length (EncodeToString l) = (4 * length l + 2) / 3.
Proof.
  induction l as [| | |a b c l IH] using induction3; [done..|].
  cbn [EncodeToString length]. rewrite IH.
  replace (4 * S (S (S (length l))) + 2) with (4 * length l + 2 + 4 * 3) by lia.
  rewrite Nat.div_add by lia. lia.
Qed.

Lemma code_small a : (code a < 256)%N.
Proof. apply N_ascii_bounded. Qed.

Lemma code_inj a b : code a = code b -> a = b.
Proof. intros H. rewrite <- (ascii_N_embedding a), <- (ascii_N_embedding b). unfold code in H. congruence. Qed.

(** The alphabet: letters, digits, [-] and [_], so always printable ASCII. *)
Lemma code_b64_char n : (n < 64)%N ->
  code (b64_char n) =
    (if n <? 26 then n + 65 else if n <? 52 then n + 71 else if n <? 62 then n - 4
     else if n =? 62 then 45 else 95)%N.
Proof.
  intros H. unfold b64_char, code. rewrite N_ascii_embedding; [done|].
  repeat case_match; rewrite ?N.ltb_lt, ?N.ltb_ge in *; lia.
Qed.

Lemma b64_char_inj n m : (n < 64)%N -> (m < 64)%N -> b64_char n = b64_char m -> n = m.
Proof.
  intros Hn Hm E. apply (f_equal code) in E. rewrite !code_b64_char in E by done.
  repeat case_match; rewrite ?N.ltb_lt, ?N.ltb_ge, ?N.eqb_eq, ?N.eqb_neq in *; lia.
Qed.

Lemma b64_char_plain n : (n < 64)%N -> plain_byte (b64_char n) = true.
Proof.
  intros H. unfold plain_byte, is_space1. rewrite code_b64_char by done.
  repeat case_match; rewrite ?N.ltb_lt, ?N.ltb_ge, ?N.eqb_eq, ?N.eqb_neq in *;
    rewrite ?andb_true_iff, ?negb_true_iff, ?orb_false_iff, ?andb_false_iff,
      ?N.eqb_neq, ?N.leb_gt, ?N.ltb_lt in *; lia.
Qed.

Ltac sextets :=
  repeat match goal with a : ascii |- _ =>
    lazymatch goal with _ : (code a < 256)%N |- _ => fail | _ => pose proof (code_small a) end end.

Ltac b64_small := sextets;
  repeat match goal with |- context [N.modulo ?x ?y] =>
    lazymatch goal with _ : (N.modulo x y < y)%N |- _ => fail
    | _ => assert (N.modulo x y < y)%N by (apply N.mod_lt; lia) end end;
  repeat match goal with |- context [N.div ?x ?y] =>
    lazymatch goal with _ : (y * N.div x y <= x)%N |- _ => fail
    | _ => assert (y * N.div x y <= x)%N by (apply N.Div0.mul_div_le; lia) end end; lia.

Lemma EncodeToString_plain l : Forall (fun a => plain_byte a = true) (EncodeToString l).
Proof.
  induction l as [|a|a b|a b c l IH] using induction3; cbn -[N.div N.modulo]; [constructor|..];
    repeat (constructor; [apply b64_char_plain; b64_small|]); [constructor..|done].
Qed.

(** Two numbers are equal when their quotients and remainders are. *)
Lemma divmod_eq (x x' k : N) : (x / k = x' / k -> x mod k = x' mod k -> x = x')%N.
Proof. intros H1 H2. rewrite (N.Div0.div_mod x k), (N.Div0.div_mod x' k). congruence. Qed.

Lemma sextet_split (p q p' q' k : N) :
  (q < k -> q' < k -> p * k + q = p' * k + q' -> p = p' /\ q = q')%N.
Proof. intros. assert (p = p') by nia. subst. lia. Qed.

Lemma sextets2 (x y x' y' : N) : (y < 256 -> y' < 256 -> x / 4 = x' / 4 ->
  x mod 4 * 16 + y / 16 = x' mod 4 * 16 + y' / 16 -> x = x' /\ y / 16 = y' / 16)%N.
Proof.
  intros Hy Hy' H1 H2. apply sextet_split in H2 as [H2 H3];
    [|apply N.Div0.div_lt_upper_bound; lia..].
  split; [by eapply divmod_eq|done].
Qed.

Lemma sextets3 (y z y' z' : N) : (z < 256 -> z' < 256 -> y / 16 = y' / 16 ->
  y mod 16 * 4 + z / 64 = y' mod 16 * 4 + z' / 64 -> y = y' /\ z / 64 = z' / 64)%N.
Proof.
  intros Hz Hz' H1 H2. apply sextet_split in H2 as [H2 H3];
    [|apply N.Div0.div_lt_upper_bound; lia..].
  split; [by eapply divmod_eq|done].
Qed.

Lemma EncodeToString_inj l m : length l = length m -> EncodeToString l = EncodeToString m -> l = m.
Proof.
  revert m. induction l as [|a|a b|a b c l IH] using induction3;
    intros [|a' [|b' [|c' m]]]; try done; intros Hlen; cbn -[N.div N.modulo]; intros [=].
  all: repeat match goal with H : b64_char _ = b64_char _ |- _ =>
         apply b64_char_inj in H; [|b64_small..] end.
  - f_equal. apply code_inj. eapply divmod_eq; [done|lia].
  - destruct (sextets2 (code a) (code b) (code a') (code b')) as [? ?]; [apply code_small..|done|done|].
    f_equal; [by apply code_inj|f_equal]. apply code_inj. eapply divmod_eq; [done|lia].
  - destruct (sextets2 (code a) (code b) (code a') (code b')) as [? ?]; [apply code_small..|done|done|].
    destruct (sextets3 (code b) (code c) (code b') (code c')) as [? ?]; [apply code_small..|done|done|].
    f_equal; [by apply code_inj|f_equal; [by apply code_inj|f_equal]].
    + apply code_inj. by eapply divmod_eq.
    + apply IH; [simpl in *; lia|done].
Qed.

(** ** The round trip *)

Lemma b64_value_char n : (n < 64)%N -> b64_value (b64_char n) = Some n.
Proof.
  intros H. unfold b64_value. rewrite code_b64_char by done.
  repeat case_match; rewrite ?andb_true_iff, ?andb_false_iff, ?N.ltb_lt, ?N.ltb_ge, ?N.eqb_eq, ?N.eqb_neq, ?N.leb_le, ?N.leb_gt in *;
    first [lia|f_equal; lia].
Qed.

Lemma b64_char_not_newline n : (n < 64)%N -> not_newline (b64_char n) = true.
Proof.
  intros H. unfold not_newline. rewrite code_b64_char by done.
  repeat case_match; rewrite ?negb_true_iff, ?orb_false_iff, ?N.ltb_lt, ?N.ltb_ge, ?N.eqb_eq, ?N.eqb_neq in *; lia.
Qed.

Lemma b64_char_not_pad n : (n < 64)%N -> (b64_char n =? pad_char)%char = false.
Proof.
  intros H. apply Ascii.eqb_neq. intros E. apply (f_equal code) in E. rewrite code_b64_char in E by done.
  change (code pad_char) with 61%N in E.
  repeat case_match; rewrite ?N.ltb_lt, ?N.ltb_ge, ?N.eqb_eq, ?N.eqb_neq in *; lia.
Qed.

Lemma quad1 x : (x < 256)%N -> (x / 4 * 4 + x mod 4 * 16 / 16 = x)%N.
Proof. intros H. rewrite N.div_mul by lia. pose proof (N.Div0.div_mod x 4). lia. Qed.

Lemma quad2 x y : (y < 256)%N -> (x / 4 * 4 + (x mod 4 * 16 + y / 16) / 16 = x)%N.
Proof.
  intros H. rewrite N.div_add_l by lia. rewrite (N.div_small (y / 16)) by (apply N.Div0.div_lt_upper_bound; lia).
  pose proof (N.Div0.div_mod x 4). lia.
Qed.

Lemma quad_mod x y : (y < 256)%N -> ((x mod 4 * 16 + y / 16) mod 16 = y / 16)%N.
Proof.
  intros H. rewrite N.add_comm, N.Div0.mod_add by lia. apply N.mod_small. apply N.Div0.div_lt_upper_bound; lia.
Qed.

Lemma quad3 y z : (z < 256)%N -> ((y mod 16 * 4 + z / 64) / 4 = y mod 16)%N.
Proof.
  intros H. rewrite N.div_add_l by lia. rewrite (N.div_small (z / 64)) by (apply N.Div0.div_lt_upper_bound; lia). lia.
Qed.

Lemma quad_mod4 y z : (z < 256)%N -> ((y mod 16 * 4 + z / 64) mod 4 = z / 64)%N.
Proof.
  intros H. rewrite N.add_comm, N.Div0.mod_add by lia. apply N.mod_small. apply N.Div0.div_lt_upper_bound; lia.
Qed.

Lemma padding_shift a b c l : padding (a :: b :: c :: l) = padding l.
Proof.
  unfold padding. cbn [length]. replace (S (S (S (length l)))) with (length l + 1 * 3) by lia.
  by rewrite Nat.Div0.mod_add by lia.
Qed.

Lemma decode_quads_encode l : decode_quads (URLEncoding_EncodeToString l) = Some l.
Proof.
  unfold URLEncoding_EncodeToString.
  induction l as [|a|a b|a b c l IH] using induction3; [done|..].
  - pose proof (code_small a). cbn -[N.div N.modulo N.mul N.add b64_char].
    rewrite !b64_value_char by b64_small. simpl. rewrite quad1 by done. unfold code. by rewrite ascii_N_embedding.
  - pose proof (code_small a). pose proof (code_small b). cbn -[N.div N.modulo N.mul N.add b64_char].
    rewrite !b64_value_char by b64_small. simpl. rewrite b64_char_not_pad by b64_small. simpl.
    rewrite quad2, quad_mod by done. change (0)%N with (0 / 64)%N.
    rewrite <- (N.add_0_r (code b mod 16 * 4)). change (code b mod 16 * 4 + 0)%N with (code b mod 16 * 4 + 0 / 64)%N.
    rewrite quad3 by done. replace (code b / 16 * 16 + code b mod 16)%N with (code b)
      by (pose proof (N.Div0.div_mod (code b) 16); lia).
    unfold code. by rewrite !ascii_N_embedding.
  - rewrite padding_shift. pose proof (code_small a). pose proof (code_small b). pose proof (code_small c).
    cbn -[N.div N.modulo N.mul N.add b64_char padding] in *.
    rewrite !b64_value_char by b64_small. simpl. rewrite !b64_char_not_pad by b64_small. rewrite IH. simpl.
    rewrite quad2, quad_mod, quad3, quad_mod4 by done.
    replace (code b / 16 * 16 + code b mod 16)%N with (code b) by (pose proof (N.Div0.div_mod (code b) 16); lia).
    replace (code c / 64 * 64 + code c mod 64)%N with (code c) by (pose proof (N.Div0.div_mod (code c) 64); lia).
    unfold code. by rewrite !ascii_N_embedding.
Qed.

Lemma encoded_no_newlines l : List.filter not_newline (URLEncoding_EncodeToString l) = URLEncoding_EncodeToString l.
Proof.
  unfold URLEncoding_EncodeToString. rewrite List.filter_app. f_equal.
  - induction l as [|a|a b|a b c l IH] using induction3; cbn -[N.div N.modulo b64_char not_newline]; [done|..];
      rewrite !b64_char_not_newline by b64_small; by rewrite ?IH.
  - unfold padding. by repeat case_match.
Qed.

(** What [EncodeToString] writes, [DecodeString] reads back. *)
Lemma DecodeString_EncodeToString l : URLEncoding_DecodeString (URLEncoding_EncodeToString l) = Some l.
Proof. unfold URLEncoding_DecodeString. rewrite encoded_no_newlines. apply decode_quads_encode. Qed.

Lemma encoded_nonempty l : l <> [] -> URLEncoding_EncodeToString l <> [].
Proof. by destruct l as [|a [|b [|c l]]]. Qed.
