(* ===== verification/Order.v ===== *)
(** * Order: sorting, for [sort.Strings] and for ORDER BY

    Insertion sort by a boolean order, with the facts the components use: it
    permutes, it sorts, and on an antisymmetric order its result depends on the
    elements alone. Byte order on strings is such an order. *)

From S2P Require Import Prelude.
From Stdlib Require Import Ascii.

Section Sort.
Context {A : Type} (le : A -> A -> bool).

Fixpoint insert_by (x : A) (l : list A) : list A :=
  match l with
  | [] => [x]
  | y :: l' => if le x y then x :: l else y :: insert_by x l'
  end.

Fixpoint sort_by (l : list A) : list A :=
  match l with [] => [] | x :: l' => insert_by x (sort_by l') end.

Lemma insert_by_perm x l : insert_by x l ≡ₚ x :: l.
Proof.
  induction l as [|y l IH]; simpl; [done|]. destruct (le x y); [done|].
  rewrite IH. apply Permutation_swap.
Qed.

Lemma sort_by_perm l : sort_by l ≡ₚ l.
Proof. induction l as [|x l IH]; simpl; [done|]. by rewrite insert_by_perm, IH. Qed.

Lemma in_sort_by x l : In x (sort_by l) <-> In x l.
Proof. split; apply Permutation_in; [|symmetry]; apply sort_by_perm. Qed.

Lemma length_sort_by l : length (sort_by l) = length l.
Proof. apply Permutation_length, sort_by_perm. Qed.

Context (le_total : forall x y, le x y = true \/ le y x = true).

Lemma insert_by_sorted x l : Sorted (fun a b => le a b = true) l -> Sorted (fun a b => le a b = true) (insert_by x l).
Proof.
  induction 1 as [|y l Hs IH Hr]; simpl; [by repeat constructor|].
  destruct (le x y) eqn:E; [by repeat constructor|].
  assert (le y x = true) by (destruct (le_total x y); congruence).
  constructor; [done|]. destruct Hr as [|z l Hz]; simpl; [by constructor|].
  destruct (le x z); by constructor.
Qed.

Lemma sort_by_sorted l : Sorted (fun a b => le a b = true) (sort_by l).
Proof. induction l; simpl; [constructor|]. by apply insert_by_sorted. Qed.

Context (le_trans : forall x y z, le x y = true -> le y z = true -> le x z = true)
        (le_antisym : forall x y, le x y = true -> le y x = true -> x = y).

Lemma sort_by_canonical l l' : l ≡ₚ l' -> sort_by l = sort_by l'.
Proof.
  intros Hp.
  assert (Ht : Transitive (fun a b => le a b = true)) by (intros x y z; apply le_trans).
  assert (Ha : AntiSymm eq (fun a b => le a b = true)) by (intros x y; apply le_antisym).
  apply (Sorted_unique (fun a b => le a b = true)); [apply sort_by_sorted..|].
  by rewrite !sort_by_perm.
Qed.

(** Filtering and sorting commute. *)
Lemma sorted_filter (p : A -> bool) l :
  StronglySorted (fun a b => le a b = true) l -> StronglySorted (fun a b => le a b = true) (List.filter p l).
Proof.
  induction 1 as [|x l _ IH Hx]; simpl; [constructor|]. destruct (p x); [|done]. constructor; [done|].
  rewrite Forall_forall in Hx |- *. intros y Hy%list_elem_of_In. apply filter_In in Hy as [Hy _].
  by apply Hx, list_elem_of_In.
Qed.

Lemma filter_perm (p : A -> bool) l l' : l ≡ₚ l' -> List.filter p l ≡ₚ List.filter p l'.
Proof.
  induction 1; simpl; [done| | |by etrans].
  - destruct (p x); [by constructor|done].
  - destruct (p x), (p y); try done. apply Permutation_swap.
Qed.

Lemma sort_by_filter (p : A -> bool) l : sort_by (List.filter p l) = List.filter p (sort_by l).
Proof.
  assert (Ht : Transitive (fun a b => le a b = true)) by (intros x y z; apply le_trans).
  assert (Ha : AntiSymm eq (fun a b => le a b = true)) by (intros x y; apply le_antisym).
  apply (Sorted_unique (fun a b => le a b = true)); [apply sort_by_sorted| |].
  - apply StronglySorted_Sorted, sorted_filter, Sorted_StronglySorted; [done|apply sort_by_sorted].
  - rewrite sort_by_perm. apply filter_perm. by rewrite sort_by_perm.
Qed.

Lemma sort_by_strongly_sorted l : StronglySorted (fun a b => le a b = true) (sort_by l).
Proof. apply Sorted_StronglySorted; [intros ???; apply le_trans|apply sort_by_sorted]. Qed.
End Sort.

(** ** Byte order on strings *)

Lemma ascii_compare_N a b : Ascii.compare a b = N.compare (N_of_ascii a) (N_of_ascii b).
Proof. done. Qed.

Lemma string_leb_cons a s b t :
  String.leb (String a s) (String b t) =
  match N.compare (N_of_ascii a) (N_of_ascii b) with Lt => true | Gt => false | Eq => String.leb s t end.
Proof.
  unfold String.leb. simpl. unfold Ascii.compare.
  by destruct (N.compare (N_of_ascii a) (N_of_ascii b)).
Qed.

Lemma string_leb_trans x y z : String.leb x y = true -> String.leb y z = true -> String.leb x z = true.
Proof.
  revert y z. induction x as [|a s IH]; intros [|b t] [|c u]; try done.
  rewrite !string_leb_cons.
  destruct (N.compare_spec (N_of_ascii a) (N_of_ascii b)) as [E1|E1|E1],
    (N.compare_spec (N_of_ascii b) (N_of_ascii c)) as [E2|E2|E2],
    (N.compare_spec (N_of_ascii a) (N_of_ascii c)) as [E3|E3|E3]; try done; try lia.
  apply IH.
Qed.

Lemma string_leb_refl x : String.leb x x = true.
Proof. by destruct (String.leb_total x x). Qed.

Definition sort_strings : list string -> list string := sort_by String.leb.

Lemma in_sort_strings x l : In x (sort_strings l) <-> In x l.
Proof. apply in_sort_by. Qed.

Lemma sort_strings_canonical l l' : l ≡ₚ l' -> sort_strings l = sort_strings l'.
Proof. apply sort_by_canonical; [apply String.leb_total|apply string_leb_trans|apply String.leb_antisym]. Qed.

Lemma sort_strings_nodup l : List.NoDup l -> List.NoDup (sort_strings l).
Proof. apply Permutation_NoDup. symmetry. apply sort_by_perm. Qed.

#[export] Hint Resolve String.leb_total string_leb_trans String.leb_antisym : go.
