(* ===== verification/PgQuote.v ===== *)
(** * PgQuote: identity/internal/pgquote

    The one grammar of identifiers this module accepts from a consumer, the
    quoting of a string constant, and the quoted table references the packages
    build from both. pgx's identifier quoting is a parameter with its documented
    behaviour on identifiers of that grammar. *)

From S2P Require Import Prelude GoStrings.
From Stdlib Require Import Ascii.

(** ** identifier.go *)

Definition MaxIdentifierLength : nat := 63.

Definition lower_or_underscore (a : ascii) : bool :=
  (((97 <=? code a) && (code a <=? 122)) || (code a =? 95))%N.
Definition identifier_rest (a : ascii) : bool :=
  lower_or_underscore a || (((48 <=? code a) && (code a <=? 57)) || (code a =? 36))%N.

(** [^[a-z_][a-z0-9_$]*$] *)
Definition identifierPattern (part : string) : bool :=
  match bytes_of part with
  | [] => false
  | a :: l => lower_or_underscore a && forallb identifier_rest l
  end.

Definition ValidIdentifier (part : string) : bool :=
  (String.length part <=? MaxIdentifierLength)%nat && identifierPattern part.

(** ** pgquote.go *)

Definition quote_mark : ascii := "'".
Definition backslash : ascii := "\".
Definition dquote : ascii := ascii_of_N 34.

(** [strings.ReplaceAll(s, c, c+c)] *)
Definition double_byte (c : ascii) (l : list ascii) : list ascii :=
  flat_map (fun a => if (a =? c)%char then [c; c] else [a]) l.

Definition Literal (literal : string) : string :=
  let l := double_byte quote_mark (bytes_of literal) in
  if existsb (fun a => (a =? backslash)%char) l
  then " E'" +:+ string_of (double_byte backslash l) +:+ "'"
  else "'" +:+ string_of l +:+ "'".

(** PostgreSQL's reading of a string constant: the body up to the closing quote,
    which must end the text; [escapes] is the E'' form. Only the escapes a
    doubling produces are read, any other is [None]. *)
Fixpoint lex_body (escapes : bool) (l : list ascii) : option (list ascii) :=
  match l with
  | [] => None
  | a :: l1 =>
      if (a =? quote_mark)%char then
        match l1 with
        | [] => Some []
        | b :: l2 => if (b =? quote_mark)%char then cons quote_mark <$> lex_body escapes l2 else None
        end
      else if escapes && (a =? backslash)%char then
        match l1 with
        | [] => None
        | b :: l2 => if (b =? backslash)%char then cons backslash <$> lex_body escapes l2 else None
        end
      else cons a <$> lex_body escapes l1
  end.

Definition lex_constant (s : string) : option string :=
  string_of <$>
  match bytes_of s with
  | " "%char :: "E"%char :: "'"%char :: l => lex_body true l
  | "'"%char :: l => lex_body false l
  | _ => None
  end.

Definition quoted (s : string) : string := String dquote (s +:+ String dquote EmptyString).

(** [pgx.Identifier{name}.Sanitize()] wraps a name in double quotes; the escaping
    of an embedded quote and the removal of NUL are never reached by the names
    this module quotes. *)
Class PgxIdentifier := {
  Sanitize : string -> string;
  Sanitize_valid : forall name, ValidIdentifier name = true -> Sanitize name = quoted name
}.

Section Quoting.
Context `{PgxIdentifier}.

Definition Identifier (name : string) : string := Sanitize name.

(** The reference a statement interpolates: the parts quoted and joined. *)
Definition quote_parts (parts : list string) : string := Join (List.map Identifier parts) ".".
End Quoting.

(** ** Facts *)

Lemma string_app_cons a (s t : string) : String a s +:+ t = String a (s +:+ t).
Proof. done. Qed.

Lemma bytes_of_app s t : bytes_of (s +:+ t) = bytes_of s ++ bytes_of t.
Proof. induction s as [|a s IH]; [done|]. rewrite string_app_cons. simpl. by rewrite IH. Qed.

(** A literal's body reads back as the string it was made from. *)
Lemma lex_doubled l : lex_body false (double_byte quote_mark l ++ [quote_mark]) = Some l.
Proof.
  induction l as [|a l IH]; [done|]. unfold double_byte in *. cbn [flat_map].
  destruct (Ascii.eqb_spec a quote_mark) as [->|Hne]; cbn [app lex_body andb].
  - by rewrite Ascii.eqb_refl, IH.
  - destruct (Ascii.eqb_spec a quote_mark); [done|]. by rewrite IH.
Qed.

Lemma lex_doubled_twice l :
  lex_body true (double_byte backslash (double_byte quote_mark l) ++ [quote_mark]) = Some l.
Proof.
  induction l as [|a l IH]; [done|]. unfold double_byte in *. cbn [flat_map].
  destruct (Ascii.eqb_spec a quote_mark) as [->|Hne]; cbn [app flat_map].
  - change (quote_mark =? backslash)%char with false. cbn [app lex_body andb].
    by rewrite Ascii.eqb_refl, IH.
  - destruct (Ascii.eqb_spec a backslash) as [->|Hnb]; cbn [app lex_body andb].
    + change (backslash =? quote_mark)%char with false. by rewrite Ascii.eqb_refl, IH.
    + destruct (Ascii.eqb_spec a quote_mark); [done|]. destruct (Ascii.eqb_spec a backslash); [done|].
      by rewrite IH.
Qed.

Lemma lower_not_special a :
  identifier_rest a = true -> plain_byte a = true /\ a <> dquote /\ a <> "."%char.
Proof.
  intros Ha. assert (Hc : (36 <= code a < 128)%N /\ code a <> 46%N).
  { unfold identifier_rest, lower_or_underscore in Ha. rewrite !orb_true_iff, !andb_true_iff, !N.leb_le, !N.eqb_eq in Ha.
    lia. }
  repeat split.
  - unfold plain_byte, is_space1. rewrite andb_true_iff, negb_true_iff, orb_false_iff, andb_false_iff.
    rewrite N.eqb_neq, !N.leb_gt, N.ltb_lt. lia.
  - intros ->. by vm_compute in Hc.
  - intros ->. by destruct Hc.
Qed.

Lemma valid_bytes part a : ValidIdentifier part = true -> In a (bytes_of part) -> identifier_rest a = true.
Proof.
  unfold ValidIdentifier, identifierPattern. intros Hv Hin. apply andb_prop in Hv as [_ Hv].
  destruct (bytes_of part) as [|b l]; [done|]. apply andb_prop in Hv as [Hb Hl].
  destruct Hin as [->|Hin]; [|by rewrite forallb_forall in Hl; apply Hl].
  unfold identifier_rest. by rewrite Hb.
Qed.

(** Stripping the quotes of a reference built from valid parts leaves the name. *)
Definition unquoted (l : list ascii) : list ascii := List.filter (fun a => negb (a =? dquote)%char) l.

Lemma unquoted_valid part : ValidIdentifier part = true -> unquoted (bytes_of part) = bytes_of part.
Proof.
  intros Hv. unfold unquoted. rewrite <- (List.filter_ext_in (fun _ => true)).
  - by induction (bytes_of part) as [|a l IH]; simpl; [|rewrite IH].
  - intros a Ha. destruct (Ascii.eqb_spec a dquote) as [->|]; [|done].
    by destruct (lower_not_special dquote (valid_bytes _ _ Hv Ha)) as (_ & ? & _).
Qed.

Lemma unquoted_parts `{PgxIdentifier} parts :
  Forall (fun p => ValidIdentifier p = true) parts ->
  unquoted (bytes_of (quote_parts parts)) = join_byte "." (List.map bytes_of parts).
Proof.
  unfold quote_parts, Join. rewrite bytes_of_string_of, List.map_map.
  induction 1 as [|part parts Hv Hf IH]; [done|].
  assert (Hq : unquoted (bytes_of (Identifier part)) = bytes_of part).
  { unfold Identifier. rewrite Sanitize_valid by done. unfold quoted. simpl. rewrite bytes_of_app.
    unfold unquoted. rewrite List.filter_app. cbn -[dquote]. rewrite Ascii.eqb_refl. cbn -[dquote].
    rewrite app_nil_r. by apply unquoted_valid. }
  destruct parts as [|q parts]; [done|].
  cbn [List.map join_byte] in *. unfold unquoted in *. rewrite List.filter_app, Hq.
  change (List.filter ?f ("."%char :: ?l)) with ("."%char :: List.filter f l). f_equal. f_equal. exact IH.
Qed.

Lemma Join_Split s sep : Join (Split s sep) sep = s.
Proof.
  unfold Join, Split. rewrite List.map_map. erewrite List.map_ext; [|intros l; apply bytes_of_string_of].
  rewrite List.map_id, join_split_byte. apply string_of_bytes_of.
Qed.

(** The parts are what splitting the name at its dots gives. *)
Lemma valid_parts_split parts :
  parts <> [] -> Forall (fun p => ValidIdentifier p = true) parts -> Split (Join parts ".") "." = parts.
Proof.
  intros Hne Hf. unfold Split, Join. rewrite bytes_of_string_of. destruct parts as [|p parts]; [done|].
  cbn [List.map]. rewrite split_join_byte.
  - change (List.map string_of (List.map bytes_of (p :: parts)) = p :: parts). rewrite List.map_map.
    erewrite List.map_ext; [apply List.map_id|]. apply string_of_bytes_of.
  - change (Forall (fun l => ~ In "."%char l) (List.map bytes_of (p :: parts))). rewrite Forall_map.
    eapply Forall_impl; [exact Hf|]. intros q Hq Hin.
    by destruct (lower_not_special _ (valid_bytes _ _ Hq Hin)) as (_ & _ & ?).
Qed.

(** ** Properties *)

(** PostgreSQL reads a quoted string constant back as exactly the string it was
    made from, whatever quotes and backslashes that string holds: no literal the
    generated DDL interpolates can end early or change its value. *)
Theorem Literal_denotes s : lex_constant (Literal s) = Some s.
Proof.
  unfold Literal, lex_constant. destruct (existsb _ _); rewrite !bytes_of_app, bytes_of_string_of.
  - change (bytes_of " E'") with [" "; "E"; "'"]%char. change (bytes_of "'") with [quote_mark].
    cbn [app]. rewrite lex_doubled_twice. simpl. by rewrite string_of_bytes_of.
  - change (bytes_of "'") with [quote_mark]. cbn [app]. rewrite lex_doubled. simpl. by rewrite string_of_bytes_of.
Qed.

(** A concrete quoting: the name between double quotes, quotes doubled. *)
#[export] Program Instance ex_pgx : PgxIdentifier := {|
  Sanitize name := quoted (string_of (double_byte dquote (bytes_of name)))
|}.
Next Obligation.
  intros name Hv. cbv beta. f_equal. rewrite <- (string_of_bytes_of name) at 2. f_equal.
  rewrite <- (unquoted_valid name Hv) at 2. pose proof (valid_bytes name) as Hb. specialize (Hb). 
  induction (bytes_of name) as [|a l IH]; [done|].
  assert (Ha : (a =? dquote)%char = false).
  { apply Ascii.eqb_neq. by destruct (lower_not_special a (Hb a Hv (or_introl eq_refl))) as (_ & ? & _). }
  unfold double_byte, unquoted in *. cbn -[dquote]. rewrite Ha. cbn -[dquote]. f_equal. apply IH.
  intros b Hv' Hin. apply Hb; [done|by right].
Qed.
