(* ===== verification/Scopes.v ===== *)
(** * Scopes: identity/auth/scopes.go

    The scope check with its two rules (the [admin] wildcard and
    write-implies-read), its conjunctive, disjunctive and organization-bound
    variants, the ceiling on role assignment and the filter for scopes of
    external origin. *)

From S2P Require Import Prelude.

(** ** Constants *)

Definition ScopeUsersRead := "users:read".
Definition ScopeUsersWrite := "users:write".
Definition ScopeOrganizationsRead := "organizations:read".
Definition ScopeOrganizationsWrite := "organizations:write".
Definition ScopeAPIKeysManage := "api_keys:manage".
Definition ScopeAuditRead := "audit:read".
Definition ScopeSettingsRead := "settings:read".
Definition ScopeSettingsWrite := "settings:write".
Definition ScopeOrganizationsCreate := "organizations:create".
Definition ScopeAdmin := "admin".

(** [type ReadWritePairs map[string]string]; the nil map is the empty one. *)
Definition ReadWritePairs : Type := gmap string string.

(** ** Operations *)

(** The body of the loop of [HasScope]: what one held scope [s] answers. *)
Definition scope_matches (required : string) (rwPairs : ReadWritePairs) (s : string) : bool :=
  (s =s required) || (s =s ScopeAdmin) ||
  match rwPairs !! required with Some writeScope => s =s writeScope | None => false end.

Definition HasScope (userScopes : list string) (required : string) (rwPairs : ReadWritePairs) : bool :=
  if required =s "" then false
  else existsb (scope_matches required rwPairs) userScopes.

Definition HasAnyScope (userScopes required : list string) (rwPairs : ReadWritePairs) : bool :=
  existsb (fun r => HasScope userScopes r rwPairs) required.

Definition HasAllScopes (userScopes required : list string) (rwPairs : ReadWritePairs) : bool :=
  match required with
  | [] => false
  | _ => forallb (fun r => HasScope userScopes r rwPairs) required
  end.

Fixpoint role_scopes_loop (callerScopes roleScopes : list string) (rwPairs : ReadWritePairs) : bool :=
  match roleScopes with
  | [] => true
  | s :: rest =>
      if s =s ScopeAdmin then false
      else if negb (HasScope callerScopes s rwPairs) then false
      else role_scopes_loop callerScopes rest rwPairs
  end.

Definition RoleScopesPermittedBy (callerScopes roleScopes : list string) (rwPairs : ReadWritePairs) : bool :=
  match roleScopes with
  | [] => true
  | _ => if HasScope callerScopes ScopeAdmin rwPairs then true
         else role_scopes_loop callerScopes roleScopes rwPairs
  end.

(** [None] is the nil error. *)
Fixpoint ValidateProvisionableScopes (scopes : list string) : option error :=
  match scopes with
  | [] => None
  | s :: rest =>
      if s =s ScopeAdmin
      then Some (Plain "scope is not permitted from this source: grant-all wildcard reserved for trusted role_template assignment")
      else ValidateProvisionableScopes rest
  end.

(** ** Facts the other components use *)

Section Facts.
Context (rw : ReadWritePairs).

(** The reference reading of the two rules. *)
Definition grants (held : list string) (r : string) : Prop :=
  r <> "" /\ (In r held \/ In ScopeAdmin held \/ exists w, rw !! r = Some w /\ In w held).

Lemma HasScope_grants held r : HasScope held r rw = true <-> grants held r.
Proof.
  unfold HasScope, grants. destruct (r =s "") eqn:E.
  - apply seqb_true in E. naive_solver.
  - apply seqb_false in E. rewrite existsb_exists. unfold scope_matches. split.
    + intros (s & Hs & Hm). split; [done|].
      apply orb_prop in Hm as [Hm|Hm]; [apply orb_prop in Hm as [Hm|Hm]|].
      * apply seqb_true in Hm as ->. by left.
      * apply seqb_true in Hm as ->. by right; left.
      * destruct (rw !! r) as [w|] eqn:Ew; [|done]. apply seqb_true in Hm as ->. eauto.
    + intros (_ & [H|[H|(w & Hw & H)]]).
      * exists r. split; [done|]. by rewrite seqb_refl.
      * exists ScopeAdmin. split; [done|]. by rewrite seqb_refl, orb_true_r.
      * exists w. split; [done|]. rewrite Hw, seqb_refl. by rewrite orb_true_r.
Qed.

Lemma HasScope_nil r : HasScope [] r rw = false.
Proof. unfold HasScope. by destruct (r =s ""). Qed.

Lemma HasScope_mono held held' r :
  (forall s, In s held -> In s held') -> HasScope held r rw = true -> HasScope held' r rw = true.
Proof. rewrite !HasScope_grants. unfold grants. intros H (? & ?). naive_solver. Qed.

Lemma HasScope_admin held r : In ScopeAdmin held -> r <> "" -> HasScope held r rw = true.
Proof. rewrite HasScope_grants. unfold grants. tauto. Qed.

Lemma role_loop_true caller role :
  role_scopes_loop caller role rw = true <->
  ~ In ScopeAdmin role /\ forall s, In s role -> HasScope caller s rw = true.
Proof.
  induction role as [|s role IH]; simpl; [naive_solver|].
  destruct (s =s ScopeAdmin) eqn:Ea.
  - apply seqb_true in Ea as ->. naive_solver.
  - apply seqb_false in Ea. destruct (HasScope caller s rw) eqn:Eh; simpl.
    + rewrite IH. naive_solver.
    + split; [done|]. intros [_ H]. specialize (H s (or_introl eq_refl)). congruence.
Qed.

(** No implication chains: a write scope is not itself a readable scope with a
    write scope of its own, and the wildcard is not implied by anything. *)
Definition unchained : Prop :=
  (forall r w w', rw !! r = Some w -> rw !! w <> Some w') /\ rw !! ScopeAdmin = None.

(** Holding, scope by scope, what [role] names is holding all that [role]
    confers, when the implication table has no chains. *)
Lemma covers_grants caller role :
  unchained -> (forall s, In s role -> HasScope caller s rw = true) ->
  forall r, HasScope role r rw = true -> HasScope caller r rw = true.
Proof.
  intros [Hch Ha] Hc r. rewrite !HasScope_grants. intros (Hr & Hg). split; [done|].
  destruct Hg as [H|[H|(w & Hw & H)]]; apply Hc, HasScope_grants in H as (Hn & Hh).
  - done.
  - destruct Hh as [H|[H|(w & Hw & _)]]; [by right; left..|congruence].
  - destruct Hh as [H|[H|(w' & Hw' & H)]]; [eauto..|]. by destruct (Hch r w w').
Qed.
End Facts.

#[export] Hint Resolve HasScope_admin : go.

(** ** Properties *)

(** [HasScope] answers yes exactly when the required scope is not empty and
    the held list contains it, the [admin] wildcard, or the write scope that the
    table pairs with it; the conjunctive form asks that of every required scope
    and refuses an empty request, the disjunctive form asks it of one. *)
Theorem HasScope_decides (rw : ReadWritePairs) held :
  (forall r, HasScope held r rw = true <-> grants rw held r) /\
  (forall rs, HasAllScopes held rs rw = true <-> rs <> [] /\ forall r, In r rs -> grants rw held r) /\
  (forall rs, HasAnyScope held rs rw = true <-> exists r, In r rs /\ grants rw held r).
Proof.
  split; [|split].
  - apply HasScope_grants.
  - intros rs. destruct rs as [|r0 rs]; [by split; [|intros []]|].
    unfold HasAllScopes. rewrite forallb_forall. split.
    + intros H. split; [done|]. intros r Hr. by apply HasScope_grants, H.
    + intros [_ H] r Hr. by apply HasScope_grants, H.
  - intros rs. unfold HasAnyScope. rewrite existsb_exists.
    by setoid_rewrite HasScope_grants.
Qed.

(** C24: the assignment ceiling is exact, and over a table without implication
    chains it stops escalation: a caller who may assign a role already satisfies
    every check the role's scopes would satisfy. *)
Theorem RoleScopesPermittedBy_no_escalation (rw : ReadWritePairs) caller role :
  unchained rw ->
  (RoleScopesPermittedBy caller role rw = true <->
   role = [] \/ In ScopeAdmin caller \/
   (~ In ScopeAdmin role /\ forall s, In s role -> grants rw caller s)) /\
  (RoleScopesPermittedBy caller role rw = true ->
   forall r, HasScope role r rw = true -> HasScope caller r rw = true).
Proof.
  intros Hun.
  assert (Hadm : HasScope caller ScopeAdmin rw = true <-> In ScopeAdmin caller).
  { rewrite HasScope_grants. unfold grants. destruct Hun as [_ Ha]. rewrite Ha.
    split; [|intros; split; [done|by left]]. by intros (_ & [?|[?|(w & ? & _)]]). }
  assert (Hspec : RoleScopesPermittedBy caller role rw = true <->
    role = [] \/ In ScopeAdmin caller \/
    (~ In ScopeAdmin role /\ forall s, In s role -> grants rw caller s)).
  { destruct role as [|s role]; [naive_solver|]. unfold RoleScopesPermittedBy.
    destruct (HasScope caller ScopeAdmin rw) eqn:E.
    - split; [|done]. intros _. right. left. by apply Hadm.
    - rewrite role_loop_true. setoid_rewrite HasScope_grants. split; [by right; right|].
      intros [?|[Hc|?]]; [done| |done]. apply Hadm in Hc. congruence. }
  split; [exact Hspec|]. rewrite Hspec. intros [->|[Ha|[_ Hc]]] r Hr.
  - by rewrite HasScope_nil in Hr.
  - apply HasScope_admin; [done|]. by apply HasScope_grants in Hr as [? _].
  - apply (covers_grants rw caller role); [done| |done].
    intros s Hs. by apply HasScope_grants, Hc.
Qed.

(** Without that restriction on the table the ceiling leaks: with the pairs
    [a -> b] and [b -> c] a caller holding only [c] may assign the role [b],
    whose holder passes the check for [a] that the caller fails. *)
Example RoleScopesPermittedBy_chain_leak :
  let rw : ReadWritePairs := <["a" := "b"]> (<["b" := "c"]> ∅) in
  RoleScopesPermittedBy ["c"] ["b"] rw = true /\
  HasScope ["b"] "a" rw = true /\ HasScope ["c"] "a" rw = false.
Proof. vm_compute. repeat split. Qed.

(** The filter for scopes of external origin passes a list exactly when the
    wildcard is not in it, and a list it passes grants no scope by wildcard. *)
Theorem ValidateProvisionableScopes_sound (rw : ReadWritePairs) scopes :
  (ValidateProvisionableScopes scopes = None <-> ~ In ScopeAdmin scopes) /\
  (ValidateProvisionableScopes scopes = None -> forall r, HasScope scopes r rw = true ->
   In r scopes \/ exists w, rw !! r = Some w /\ In w scopes).
Proof.
  assert (H : ValidateProvisionableScopes scopes = None <-> ~ In ScopeAdmin scopes).
  { induction scopes as [|s l IH]; simpl; [naive_solver|].
    destruct (s =s ScopeAdmin) eqn:E; [apply seqb_true in E as ->; naive_solver|].
    apply seqb_false in E. rewrite IH. naive_solver. }
  split; [done|]. rewrite H. intros Hn r Hr. apply HasScope_grants in Hr as (_ & [?|[?|?]]); tauto.
Qed.

(** ** Witnesses *)

Definition ex_pairs : ReadWritePairs :=
  <[ScopeUsersRead := ScopeUsersWrite]> (<[ScopeOrganizationsRead := ScopeOrganizationsWrite]> ∅).

Lemma ex_pairs_unchained : unchained ex_pairs.
Proof.
  split; [|reflexivity]. intros r w w' H Hw. unfold ex_pairs, ReadWritePairs in *.
  repeat (rewrite lookup_insert in H; case_decide; [injection H as <-; vm_compute in Hw; discriminate|]).
  by rewrite lookup_empty in H.
Qed.

Lemma RoleScopesPermittedBy_no_escalation_witness :
  (RoleScopesPermittedBy [ScopeUsersWrite] [ScopeUsersRead] ex_pairs = true <->
   [ScopeUsersRead] = [] \/ In ScopeAdmin [ScopeUsersWrite] \/
   (~ In ScopeAdmin [ScopeUsersRead] /\ forall s, In s [ScopeUsersRead] -> grants ex_pairs [ScopeUsersWrite] s)) /\
  (RoleScopesPermittedBy [ScopeUsersWrite] [ScopeUsersRead] ex_pairs = true ->
   forall r, HasScope [ScopeUsersRead] r ex_pairs = true -> HasScope [ScopeUsersWrite] r ex_pairs = true).
Proof. apply RoleScopesPermittedBy_no_escalation. exact ex_pairs_unchained. Defined.
