(* ===== verification/ApiKey.v ===== *)
(** * ApiKey: identity/auth/apikey.go

    Key generation, comparison with the stored hash, and the parser of the
    Authorization header. Go strings are byte lists here because the code slices
    them. [bcrypt] is a parameter; [crypto/rand] is the argument [rnd];
    [base64.RawURLEncoding] is in Base64. *)

From S2P Require Import Prelude GoStrings Base64.
From Stdlib Require Import Ascii.

Definition APIKeyLength : nat := 32.
Definition DisplayPrefixLength : nat := 10.
Definition MinPrefixRandomChars : nat := 2.
Definition MaxAPIKeyPrefixLength : nat := 7.

(** The compile-time assertion of the package: the constant expression converted
    to [uint] is not negative. *)
Definition prefix_window_ok : bool :=
  (0 <=? Z.of_nat DisplayPrefixLength - (Z.of_nat MaxAPIKeyPrefixLength + 1)
         - Z.of_nat MinPrefixRandomChars)%Z.

Definition underscore : ascii := "_"%char.

(** ** Operations *)

Section Keys.
(** bcrypt.GenerateFromPassword at BcryptCost, and CompareHashAndPassword. *)
Context (GenerateFromPassword : bytes -> result bytes)
        (CompareHashAndPassword : bytes -> bytes -> option error).

Definition GenerateAPIKey (rnd : result bytes) (prefix : bytes) : result (bytes * bytes * bytes) :=
  if (MaxAPIKeyPrefixLength <? length prefix)%nat
  then Err (Plain "api key prefix exceeds MaxAPIKeyPrefixLength")
  else
    match rnd with
    | Err e => Err (Wrap "failed to generate random bytes" e)
    | Ok randomBytes =>
        let randomPart := EncodeToString randomBytes in
        let fullKey := prefix ++ underscore :: randomPart in
        match GenerateFromPassword fullKey with
        | Err e => Err (Wrap "failed to hash API key" e)
        | Ok hashBytes =>
            let displayPrefix :=
              if (DisplayPrefixLength <? length fullKey)%nat
              then take DisplayPrefixLength fullKey else fullKey in
            Ok (fullKey, hashBytes, displayPrefix)
        end
    end.

Definition ValidateAPIKey (providedKey storedHash : bytes) : bool :=
  match CompareHashAndPassword storedHash providedKey with None => true | Some _ => false end.
End Keys.

Definition Bearer : bytes := bytes_of "Bearer".

Definition ExtractAPIKeyFromHeader (header : bytes) : result bytes :=
  match header with
  | [] => Err (Plain "authorization header is empty")
  | _ =>
      let trimmed := trim_sp_tab header in
      match split_sp_tab trimmed with
      | Some (scheme, _ :: rest) =>
          if EqualFold scheme Bearer then
            let key := bytes_of (TrimSpace (string_of rest)) in
            match key with
            | [] => Err (Plain "API key is empty after Bearer prefix")
            | _ => Ok key
            end
          else Err (Plain "authorization header must start with 'Bearer '")
      | _ => Err (Plain "authorization header must start with 'Bearer '")
      end
  end.

(** ** Lemmas *)

Lemma trim_sp_tab_app ws l :
  Forall (fun a => is_sp_tab a = true) ws -> trim_sp_tab (ws ++ l) = trim_sp_tab l.
Proof. induction 1 as [|a ws Ha _ IH]; simpl; [done|]. by rewrite Ha. Qed.

Lemma split_sp_tab_app w a l :
  Forall (fun c => is_sp_tab c = false) w -> is_sp_tab a = true ->
  split_sp_tab (w ++ a :: l) = Some (w, a :: l).
Proof.
  intros Hw Ha. induction Hw as [|c w Hc _ IH]; simpl; [by rewrite Ha|]. by rewrite Hc, IH.
Qed.

Lemma is_sp_tab_space a : is_sp_tab a = true -> is_space1 a = true.
Proof.
  unfold is_sp_tab, is_space1. intros H.
  apply orb_prop in H as [H|H]; apply N.eqb_eq in H; rewrite H; reflexivity.
Qed.

Lemma lower_Bearer_no_sep w : map lower w = map lower Bearer ->
  Forall (fun c => is_sp_tab c = false) w /\ trim_sp_tab w = w /\ w <> [].
Proof.
  intros H.
  assert (Hw : Forall (fun c => is_sp_tab c = false) w).
  { apply Forall_forall. intros c Hc. destruct (is_sp_tab c) eqn:E; [exfalso|done].
    assert (Hl : In (lower c) (map lower Bearer)) by (rewrite <- H; by apply in_map, list_elem_of_In).
    unfold is_sp_tab in E. apply orb_prop in E as [E|E]; apply N.eqb_eq in E;
      unfold lower in Hl; rewrite E in Hl; simpl in Hl;
      assert (Hc0 : c = ascii_of_N (code c)) by (symmetry; apply ascii_N_embedding);
      rewrite E in Hc0; subst c; vm_compute in Hl; intuition discriminate. }
  destruct w as [|c w]; [done|]. split; [done|]. split; [|done].
  inversion Hw as [|? ? Hc]; subst. simpl. by rewrite Hc.
Qed.

Lemma trim_front_ws ws l :
  Forall (fun a => is_space1 a = true) ws -> trim_front (ws ++ l) = trim_front l.
Proof. induction 1 as [|a ws Ha _ IH]; simpl; [done|]. by rewrite Ha. Qed.

Lemma trim_back_ws ws l :
  Forall (fun a => is_space1 a = true) ws -> trim_back (ws ++ l) = trim_back l.
Proof. induction 1 as [|a ws Ha _ IH]; simpl; [done|]. by rewrite Ha. Qed.

Lemma TrimSpace_pad ws key ws' :
  Forall (fun a => is_space1 a = true) ws -> Forall (fun a => is_space1 a = true) ws' ->
  Forall (fun a => plain_byte a = true) key -> key <> [] ->
  bytes_of (TrimSpace (string_of (ws ++ key ++ ws'))) = key.
Proof.
  intros Hw Hw' Hk Hne. unfold TrimSpace. rewrite !bytes_of_string_of, trim_front_ws by done.
  destruct key as [|a key]; [done|]. inversion Hk as [|? ? Ha Hk']; subst.
  simpl app. rewrite trim_front_plain by done.
  change (a :: key ++ ws') with ((a :: key) ++ ws').
  rewrite rev_app_distr, trim_back_ws by by apply Forall_rev.
  assert (Hr : Forall (fun a => plain_byte a = true) (rev (a :: key))) by by apply Forall_rev.
  destruct (rev (a :: key)) as [|z r] eqn:E.
  { apply (f_equal (@length ascii)) in E. rewrite length_rev in E. done. }
  rewrite trim_back_plain by by inversion Hr.
  by rewrite <- E, rev_involutive.
Qed.

(** A header in any capitalisation of the scheme, with any run of spaces and
    tabs around it, yields the credential between them. *)
Lemma ExtractAPIKeyFromHeader_padded lead scheme sep ws key ws' :
  Forall (fun a => is_sp_tab a = true) lead -> map lower scheme = map lower Bearer ->
  is_sp_tab sep = true -> Forall (fun a => is_space1 a = true) ws ->
  Forall (fun a => is_space1 a = true) ws' ->
  Forall (fun a => plain_byte a = true) key -> key <> [] ->
  ExtractAPIKeyFromHeader (lead ++ scheme ++ sep :: ws ++ key ++ ws') = Ok key.
Proof.
  intros Hl Hs Hsep Hw Hw' Hk Hne. destruct (lower_Bearer_no_sep _ Hs) as (Hn & Ht & Hne').
  unfold ExtractAPIKeyFromHeader.
  destruct (lead ++ scheme ++ sep :: ws ++ key ++ ws') as [|h0 t0] eqn:E.
  { by destruct lead, scheme. }
  rewrite <- E, trim_sp_tab_app by done.
  assert (Hts : trim_sp_tab (scheme ++ sep :: ws ++ key ++ ws') = scheme ++ sep :: ws ++ key ++ ws').
  { destruct scheme as [|c scheme]; [done|]. inversion Hn as [|? ? Hc]; subst. simpl. by rewrite Hc. }
  rewrite Hts, split_sp_tab_app by done.
  unfold EqualFold. rewrite bool_decide_true by done.
  rewrite TrimSpace_pad by done. by destruct key.
Qed.

(** A generated key's parts, whatever the hash function answers. *)
Lemma GenerateAPIKey_inv Gen rnd prefix key hash disp :
  GenerateAPIKey Gen rnd prefix = Ok (key, hash, disp) ->
  length prefix <= MaxAPIKeyPrefixLength /\
  exists bs, rnd = Ok bs /\ key = prefix ++ underscore :: EncodeToString bs /\
    Gen key = Ok hash /\
    disp = (if (DisplayPrefixLength <? length key)%nat then take DisplayPrefixLength key else key).
Proof.
  unfold GenerateAPIKey. destruct (Nat.ltb_spec MaxAPIKeyPrefixLength (length prefix)) as [|Hp]; [done|].
  destruct rnd as [bs|]; [|done]. destruct (Gen _) as [h|] eqn:Hg; [|done].
  intros [= <- <- <-]. eauto 10.
Qed.

(** ** Properties *)

(** A generated key is [<prefix>_<43 base64url characters>]. It stays inside
    bcrypt's 72-byte window, and the ten characters persisted as [key_prefix]
    hold the whole prefix and at least MinPrefixRandomChars random ones. *)
Theorem GenerateAPIKey_window Gen rnd prefix key hash disp :
  (forall bs, rnd = Ok bs -> length bs = APIKeyLength) ->
  GenerateAPIKey Gen rnd prefix = Ok (key, hash, disp) ->
  exists random, length random = 43 /\ key = prefix ++ underscore :: random /\
    length key <= 72 /\ length disp = DisplayPrefixLength /\
    exists k, MinPrefixRandomChars <= k /\ disp = prefix ++ underscore :: take k random.
Proof.
  intros Hlen H. apply GenerateAPIKey_inv in H as (Hp & bs & -> & -> & _ & ->).
  specialize (Hlen bs eq_refl). unfold MaxAPIKeyPrefixLength in Hp.
  assert (Hr : length (EncodeToString bs) = 43) by by rewrite length_EncodeToString, Hlen.
  exists (EncodeToString bs). rewrite !length_app. simpl length. rewrite Hr.
  repeat split; [lia|..].
  - case_match eqn:E; [rewrite length_take, length_app; cbn [length]; rewrite Hr; unfold DisplayPrefixLength; lia|].
    apply Nat.ltb_ge in E. unfold DisplayPrefixLength in E. lia.
  - exists (9 - length prefix). split; [unfold MinPrefixRandomChars; lia|].
    case_match eqn:E; [|apply Nat.ltb_ge in E; unfold DisplayPrefixLength in E; lia].
    unfold DisplayPrefixLength. rewrite take_app_ge by lia. f_equal.
    by replace (10 - length prefix) with (S (9 - length prefix)) by lia.
Qed.

(** A longer prefix is refused before any random byte or hash is asked for:
    the answer does not depend on either. *)
Theorem GenerateAPIKey_long_prefix Gen rnd prefix :
  MaxAPIKeyPrefixLength < length prefix ->
  GenerateAPIKey Gen rnd prefix = Err (Plain "api key prefix exceeds MaxAPIKeyPrefixLength").
Proof. intros H. unfold GenerateAPIKey. by rewrite (proj2 (Nat.ltb_lt _ _) H). Qed.

(** Keys minted under one prefix from different random bytes are different,
    and keys that share a [key_prefix] agree on the random characters in it: the
    discriminator loses nothing but what it cuts off. *)
Theorem GenerateAPIKey_discriminates Gen prefix bs bs' k h d k' h' d' :
  length bs = APIKeyLength -> length bs' = APIKeyLength ->
  GenerateAPIKey Gen (Ok bs) prefix = Ok (k, h, d) ->
  GenerateAPIKey Gen (Ok bs') prefix = Ok (k', h', d') ->
  (k = k' <-> bs = bs') /\
  (d = d' <-> take (9 - length prefix) (EncodeToString bs) = take (9 - length prefix) (EncodeToString bs')).
Proof.
  intros L L' H H'.
  apply GenerateAPIKey_inv in H as (Hp & b1 & [= <-] & -> & _ & ->).
  apply GenerateAPIKey_inv in H' as (_ & b2 & [= <-] & -> & _ & ->).
  unfold MaxAPIKeyPrefixLength in Hp. split.
  - split; [|by intros ->]. intros Hk. apply app_inv_head in Hk. injection Hk as Hk.
    apply EncodeToString_inj; [congruence|done].
  - assert (Hd : forall b, length b = APIKeyLength ->
      (if (DisplayPrefixLength <? length (prefix ++ underscore :: EncodeToString b))%nat
       then take DisplayPrefixLength (prefix ++ underscore :: EncodeToString b)
       else prefix ++ underscore :: EncodeToString b) =
      prefix ++ underscore :: take (9 - length prefix) (EncodeToString b)).
    { intros b Hb. assert (Hr : length (EncodeToString b) = 43) by by rewrite length_EncodeToString, Hb.
      rewrite (proj2 (Nat.ltb_lt _ _)) by
        (rewrite length_app; simpl; rewrite Hr; unfold DisplayPrefixLength; lia).
      unfold DisplayPrefixLength. rewrite take_app_ge by lia.
      by replace (10 - length prefix) with (S (9 - length prefix)) by lia. }
    rewrite !Hd by done. split; [intros Hpre; apply app_inv_head in Hpre; congruence|by intros ->].
Qed.

(** C26: an issued key authenticates: sent in an Authorization header with the
    scheme in any capitalisation and any spacing around it, it is recovered byte
    for byte and accepted against its stored hash. *)
Theorem issued_key_authenticates Gen Cmp rnd prefix key hash disp lead scheme sep ws ws' :
  (forall k h, Gen k = Ok h -> Cmp h k = None) ->
  Forall (fun a => plain_byte a = true) prefix ->
  GenerateAPIKey Gen rnd prefix = Ok (key, hash, disp) ->
  Forall (fun a => is_sp_tab a = true) lead -> map lower scheme = map lower Bearer ->
  is_sp_tab sep = true -> Forall (fun a => is_space1 a = true) ws ->
  Forall (fun a => is_space1 a = true) ws' ->
  exists key', ExtractAPIKeyFromHeader (lead ++ scheme ++ sep :: ws ++ key ++ ws') = Ok key' /\
    key' = key /\ ValidateAPIKey Cmp key' hash = true.
Proof.
  intros Hb Hp H Hl Hs Hsep Hw Hw'.
  apply GenerateAPIKey_inv in H as (_ & bs & -> & -> & Hg & ->). exists (prefix ++ underscore :: EncodeToString bs).
  split; [|by split; [|unfold ValidateAPIKey; rewrite (Hb _ _ Hg)]].
  apply ExtractAPIKeyFromHeader_padded; try done; [|by destruct prefix].
  apply Forall_app; split; [done|]. constructor; [done|apply EncodeToString_plain].
Qed.

(** Whatever the header, a credential the parser returns is not empty and
    carries no surrounding white space, and the scheme in front of it was Bearer. *)
Theorem ExtractAPIKeyFromHeader_sound header key :
  ExtractAPIKeyFromHeader header = Ok key ->
  key <> [] /\ bytes_of (TrimSpace (string_of key)) = key /\
  exists scheme sep rest, trim_sp_tab header = scheme ++ sep :: rest /\
    map lower scheme = map lower Bearer /\ is_sp_tab sep = true.
Proof.
  unfold ExtractAPIKeyFromHeader. destruct header as [|h t]; [done|].
  set (tr := trim_sp_tab (h :: t)). destruct (split_sp_tab tr) as [[scheme [|sep rest]]|] eqn:E; try done.
  destruct (EqualFold scheme Bearer) eqn:Ef; [|done].
  destruct (bytes_of (TrimSpace (string_of rest))) as [|k0 k] eqn:Ek; [done|]. intros [= <-].
  split; [done|]. split.
  - rewrite <- Ek. by rewrite string_of_bytes_of, TrimSpace_idem.
  - exists scheme, sep, rest.
    assert (Hs : forall l w m, split_sp_tab l = Some (w, sep :: m) -> l = w ++ sep :: m /\ is_sp_tab sep = true).
    { induction l as [|a l IH]; intros w m; simpl; [done|].
      destruct (is_sp_tab a) eqn:Ea; [by intros [= <- <- <-]|].
      destruct (split_sp_tab l) as [[w' m']|] eqn:El; [|done]. intros [= <- ->].
      destruct (IH w' m eq_refl) as [-> ?]. by split. }
    destruct (Hs _ _ _ E) as [-> ?]. unfold EqualFold in Ef. by apply bool_decide_eq_true in Ef.
Qed.

(** ** Witnesses: an instance whose hash function is the identity *)

Definition ex_hash (k : bytes) : result bytes := Ok k.
Definition ex_compare (h k : bytes) : option error :=
  if bool_decide (h = k) then None else Some (Plain "hashedPassword is not the hash of the given password").
Definition ex_random (a : ascii) : bytes := repeat a 32.
Definition ex_prefix : bytes := bytes_of "tfr".
Definition ex_key (a : ascii) : bytes := ex_prefix ++ underscore :: EncodeToString (ex_random a).

Lemma GenerateAPIKey_window_witness :
  exists random, length random = 43 /\ ex_key "a" = ex_prefix ++ underscore :: random /\
    length (ex_key "a") <= 72 /\ length (take 10 (ex_key "a")) = DisplayPrefixLength /\
    exists k, MinPrefixRandomChars <= k /\ take 10 (ex_key "a") = ex_prefix ++ underscore :: take k random.
Proof.
  apply (GenerateAPIKey_window ex_hash (Ok (ex_random "a")) ex_prefix (ex_key "a") (ex_key "a")).
  - intros bs [= <-]. reflexivity.
  - vm_compute. reflexivity.
Defined.

Lemma GenerateAPIKey_long_prefix_witness :
  GenerateAPIKey ex_hash (Ok (ex_random "a")) (bytes_of "registry") =
    Err (Plain "api key prefix exceeds MaxAPIKeyPrefixLength").
Proof. apply GenerateAPIKey_long_prefix. vm_compute. lia. Defined.

Lemma GenerateAPIKey_discriminates_witness :
  (ex_key "a" = ex_key "b" <-> ex_random "a" = ex_random "b") /\
  (take 10 (ex_key "a") = take 10 (ex_key "b") <->
   take 6 (EncodeToString (ex_random "a")) = take 6 (EncodeToString (ex_random "b"))).
Proof.
  apply (GenerateAPIKey_discriminates ex_hash ex_prefix (ex_random "a") (ex_random "b")
           (ex_key "a") (ex_key "a") _ (ex_key "b") (ex_key "b")); vm_compute; reflexivity.
Defined.

Lemma issued_key_authenticates_witness :
  exists key', ExtractAPIKeyFromHeader (bytes_of " bEARER" ++ "009"%char :: bytes_of "  " ++ ex_key "a" ++ bytes_of " ") = Ok key' /\
    key' = ex_key "a" /\ ValidateAPIKey ex_compare key' (ex_key "a") = true.
Proof.
  apply (issued_key_authenticates ex_hash ex_compare (Ok (ex_random "a")) ex_prefix (ex_key "a")
           (ex_key "a") (take 10 (ex_key "a")) (bytes_of " ") (bytes_of "bEARER") "009"%char
           (bytes_of "  ") (bytes_of " ")).
  - intros k h [= <-]. unfold ex_compare. by rewrite bool_decide_true.
  - repeat constructor.
  - vm_compute. reflexivity.
  - repeat constructor.
  - reflexivity.
  - reflexivity.
  - repeat constructor.
  - repeat constructor.
Defined.

Lemma ExtractAPIKeyFromHeader_sound_witness :
  bytes_of "k1" <> [] /\ bytes_of (TrimSpace (string_of (bytes_of "k1"))) = bytes_of "k1" /\
  exists scheme sep rest, trim_sp_tab (bytes_of "bearer k1 ") = scheme ++ sep :: rest /\
    map lower scheme = map lower Bearer /\ is_sp_tab sep = true.
Proof. apply ExtractAPIKeyFromHeader_sound. vm_compute. reflexivity. Defined.
