(* ===== verification/Jwt.v ===== *)
(** * Jwt: identity/auth/jwt.go and the organization-bound checks of scopes.go

    The token manager: minting, validation with secret rotation, the issuer pin
    and the audience check. The JWT library (signing, parsing, its clock checks
    and JSON encoding of the claims) is the class [JWTLib]; [JWTLaws] states what
    the manager relies on. Secrets and token bodies are opaque byte strings. *)

From S2P Require Import Prelude Scopes.

Open Scope Z_scope.

(** ** Claims *)

Record RegisteredClaims := {
  rc_Issuer : string; rc_Subject : string; rc_Audience : list string;
  rc_ExpiresAt : Z; rc_IssuedAt : Z; rc_ID : string
}.

Record Claims := {
  UserID : string; Email : string; OrgID : string; Scopes : list string; JTI : string;
  Registered : RegisteredClaims
}.

(** [TokenID]; the receiver may be nil. *)
Definition TokenID (c : option Claims) : string :=
  match c with
  | None => ""
  | Some c => if JTI c <>s "" then JTI c else rc_ID (Registered c)
  end.

Definition set_ID (id : string) (r : RegisteredClaims) : RegisteredClaims :=
  {| rc_Issuer := rc_Issuer r; rc_Subject := rc_Subject r; rc_Audience := rc_Audience r;
     rc_ExpiresAt := rc_ExpiresAt r; rc_IssuedAt := rc_IssuedAt r; rc_ID := id |}.

Definition syncTokenID (c : Claims) : Claims :=
  let id := TokenID (Some c) in
  if id <>s "" then
    {| UserID := UserID c; Email := Email c; OrgID := OrgID c; Scopes := Scopes c;
       JTI := id; Registered := set_ID id (Registered c) |}
  else c.

(** What [encoding/json] carries over the wire: of the two fields tagged [jti]
    the shallower one wins, so the embedded one is never populated. *)
Definition wire (c : Claims) : Claims :=
  {| UserID := UserID c; Email := Email c; OrgID := OrgID c; Scopes := Scopes c;
     JTI := JTI c; Registered := set_ID "" (Registered c) |}.

(** ** The organization-bound checks of scopes.go *)

Definition orgBound (claims : option Claims) (orgID : string) : bool :=
  match claims with
  | None => false
  | Some c => (orgID <>s "") && (OrgID c <>s "") && (OrgID c =s orgID)
  end.

Definition claims_scopes (claims : option Claims) : list string :=
  match claims with Some c => Scopes c | None => [] end.

Definition HasScopeInOrg (claims : option Claims) (orgID required : string) (rw : ReadWritePairs) : bool :=
  if negb (orgBound claims orgID) then false else HasScope (claims_scopes claims) required rw.

Definition HasAnyScopeInOrg (claims : option Claims) (orgID : string) (required : list string) (rw : ReadWritePairs) : bool :=
  if negb (orgBound claims orgID) then false else HasAnyScope (claims_scopes claims) required rw.

Definition HasAllScopesInOrg (claims : option Claims) (orgID : string) (required : list string) (rw : ReadWritePairs) : bool :=
  if negb (orgBound claims orgID) then false else HasAllScopes (claims_scopes claims) required rw.

(** ** The token manager *)

Definition DefaultExpiry : Z := 3600000000000.
Definition ErrNoSigningSecret : error := Sentinel "auth: token manager has no signing secret configured".

(** Each field but [issuer] is an [atomic.Pointer]; [None] is nil. *)
Record TokenManager := {
  issuer : string;
  current : option string;
  previous : option string;
  allowedIssuers : option (list string);
  audience : option string
}.

Definition NewTokenManager (secret iss : string) : TokenManager :=
  {| issuer := iss; current := Some secret; previous := None; allowedIssuers := None; audience := None |}.

(** [issuers] is [None] for the nil slice. *)
Definition SetAllowedIssuers (issuers : option (list string)) (m : TokenManager) : TokenManager :=
  {| issuer := issuer m; current := current m; previous := previous m;
     allowedIssuers := issuers; audience := audience m |}.

Definition SetAudience (aud : string) (m : TokenManager) : TokenManager :=
  {| issuer := issuer m; current := current m; previous := previous m;
     allowedIssuers := allowedIssuers m; audience := if aud =s "" then None else Some aud |}.

Definition NewCoupledTokenManager (secret iss : string) (allowed : list string) (aud : string) : result TokenManager :=
  if iss =s "" then Err (Plain "auth: NewCoupledTokenManager requires a non-empty issuer")
  else if aud =s "" then Err (Plain "auth: NewCoupledTokenManager requires a non-empty audience")
  else if (length allowed =? 0)%nat then Err (Plain "auth: NewCoupledTokenManager requires a non-empty allowedIssuers set")
  else if negb (mem iss allowed) then Err (Plain "auth: NewCoupledTokenManager requires issuer to be present in allowedIssuers")
  else
    let m := {| issuer := iss; current := Some secret; previous := None; allowedIssuers := None; audience := None |} in
    Ok (SetAudience aud (SetAllowedIssuers (Some allowed) m)).

Definition RotateSecret (newSecret : string) (m : TokenManager) : TokenManager :=
  {| issuer := issuer m; current := Some newSecret;
     previous := match current m with Some cur => Some cur | None => previous m end;
     allowedIssuers := allowedIssuers m; audience := audience m |}.

Definition ClearPreviousSecret (m : TokenManager) : TokenManager :=
  {| issuer := issuer m; current := current m; previous := None;
     allowedIssuers := allowedIssuers m; audience := audience m |}.

Definition issuerAllowed (m : TokenManager) (iss : string) : bool :=
  match allowedIssuers m with None => true | Some allowed => mem iss allowed end.

(** The nil and the empty secret are both of length zero. *)
Definition currentSecret (m : TokenManager) : string :=
  match current m with Some s => s | None => "" end.

(** ** The JWT library *)

Inductive SigningMethod := SigningMethodHS256 | OtherMethod (name : string).

Record Token := { tok_Valid : bool; tok_Claims : option Claims }.

Class JWTLib (T : Type) := {
  NewNumericDate : Z -> Z;
  SignedString : Claims -> string -> result T;
  (** the clock, the token, the WithAudience option and the key function *)
  ParseWithClaims : Z -> T -> option string -> (SigningMethod -> result string) -> result Token
}.

(** Documented behaviour: a token that parses carries a signature made with the
    key the key function returned for its algorithm, has not expired and names
    the required audience; and such a token parses, to the wire form of the
    claims that were signed. A token has one signature. *)
Class JWTLaws (T : Type) `{!JWTLib T} := {
  signed : T -> SigningMethod -> string -> Claims -> Prop;
  signed_fun t m s c m' s' c' : signed t m s c -> signed t m' s' c' -> m = m' /\ s = s' /\ c = c';
  SignedString_signed c s t : SignedString c s = Ok t -> signed t SigningMethodHS256 s c;
  Parse_inv now t aud kf p : ParseWithClaims now t aud kf = Ok p ->
    exists m s c, kf m = Ok s /\ signed t m s c /\ now < rc_ExpiresAt (Registered c) /\
      (forall a, aud = Some a -> In a (rc_Audience (Registered c))) /\
      p = {| tok_Valid := true; tok_Claims := Some (wire c) |};
  Parse_ok now t aud kf m s c : kf m = Ok s -> signed t m s c -> now < rc_ExpiresAt (Registered c) ->
    (forall a, aud = Some a -> In a (rc_Audience (Registered c))) ->
    ParseWithClaims now t aud kf = Ok {| tok_Valid := true; tok_Claims := Some (wire c) |}
}.

Section Manager.
Context {T : Type} `{!JWTLib T}.

(** [now1] and [now2] are the two readings of the clock, [jti] the identifier
  [uuid.NewString] returned. *)
Definition generate (m : TokenManager) (now1 now2 : Z) (jti userID email orgID : string)
  (scopes : list string) (expiresIn : Z) : result T :=
let expiresIn := if expiresIn =? 0 then DefaultExpiry else expiresIn in
let secret := currentSecret m in
if secret =s "" then Err ErrNoSigningSecret
else
  let claims :=
    {| UserID := userID; Email := email; OrgID := orgID; Scopes := scopes; JTI := jti;
       Registered :=
         {| rc_ExpiresAt := NewNumericDate (now1 + expiresIn); rc_IssuedAt := NewNumericDate now2;
            rc_Issuer := issuer m; rc_Subject := userID; rc_ID := jti;
            rc_Audience := match audience m with Some aud => [aud] | None => [] end |} |} in
  SignedString claims secret.

Definition Generate (m : TokenManager) (now1 now2 : Z) (jti userID email : string)
  (scopes : list string) (expiresIn : Z) : result T :=
generate m now1 now2 jti userID email "" scopes expiresIn.

Definition GenerateForOrg (m : TokenManager) (now1 now2 : Z) (jti userID email orgID : string)
  (scopes : list string) (expiresIn : Z) : result T :=
generate m now1 now2 jti userID email orgID scopes expiresIn.

Definition key_for (secret : string) (meth : SigningMethod) : result string :=
match meth with
| SigningMethodHS256 => Ok secret
| OtherMethod _ => Err (Plain "unexpected signing method")
end.

Definition validateWith (m : TokenManager) (now : Z) (tokenString : T) (secret : string) : result Claims :=
if secret =s "" then Err ErrNoSigningSecret
else
  match ParseWithClaims now tokenString (audience m) (key_for secret) with
  | Err e => Err e
  | Ok token =>
      if negb (tok_Valid token) then Err (Plain "invalid token")
      else
        match tok_Claims token with
        | None => Err (Plain "invalid claims type")
        | Some claims =>
            if negb (issuerAllowed m (rc_Issuer (Registered claims)))
            then Err (Plain "token issuer not allowed")
            else Ok (syncTokenID claims)
        end
  end.

Definition Validate (m : TokenManager) (now : Z) (tokenString : T) : result Claims :=
match validateWith m now tokenString (currentSecret m) with
| Ok claims => Ok claims
| Err err =>
    match previous m with
    | Some prev =>
        match validateWith m now tokenString prev with
        | Ok c => Ok c
        | Err _ => Err err
        end
    | None => Err err
    end
end.
End Manager.

(** ** Lemmas *)

(** The claims a caller receives for a signed body: the identifier in both
    fields. *)
Definition accepted (c : Claims) : Claims :=
  {| UserID := UserID c; Email := Email c; OrgID := OrgID c; Scopes := Scopes c;
     JTI := JTI c; Registered := set_ID (JTI c) (Registered c) |}.

Lemma sync_wire c : syncTokenID (wire c) = accepted c.
Proof.
  unfold syncTokenID, TokenID, wire, accepted, set_ID. simpl.
  destruct (JTI c =s "") eqn:E; simpl; [|by rewrite E].
  apply seqb_true in E. by rewrite E.
Qed.

Lemma orgBound_true c o : orgBound (Some c) o = true <-> o <> "" /\ OrgID c = o.
Proof.
  unfold orgBound. rewrite !andb_true_iff, !negb_true_iff, seqb_true, !seqb_false.
  split; [tauto|]. intros [H <-]. tauto.
Qed.

Section Laws.
Context {T : Type} `{JWTLaws T}.

(** The conditions a body has to meet at a manager, whatever its key. *)
Definition acceptable (m : TokenManager) (now : Z) (c : Claims) : Prop :=
now < rc_ExpiresAt (Registered c) /\
(forall a, audience m = Some a -> In a (rc_Audience (Registered c))) /\
issuerAllowed m (rc_Issuer (Registered c)) = true.

Lemma validateWith_iff m now t s c :
validateWith m now t s = Ok c <->
s <> "" /\ exists c0, signed t SigningMethodHS256 s c0 /\ acceptable m now c0 /\ c = accepted c0.
Proof.
unfold validateWith. destruct (s =s "") eqn:Es.
{ apply seqb_true in Es. naive_solver. }
apply seqb_false in Es. split.
- destruct (ParseWithClaims now t (audience m) (key_for s)) as [p|e] eqn:Ep; [|done].
  apply Parse_inv in Ep as (meth & s' & c0 & Hk & Hs & Hexp & Haud & ->).
  destruct meth; simpl in Hk; [|done]. injection Hk as <-. simpl.
  destruct (issuerAllowed m _) eqn:Ei; simpl; [|done]. intros [= <-].
  rewrite sync_wire. split; [done|]. by exists c0.
- intros (_ & c0 & Hs & (Hexp & Haud & Hi) & ->).
  rewrite (Parse_ok now t _ (key_for s) SigningMethodHS256 s c0) by done. simpl.
  rewrite Hi. simpl. by rewrite sync_wire.
Qed.

(** The two secrets a manager tries. *)
Definition trusted_secret (m : TokenManager) (s : string) : Prop :=
s <> "" /\ (s = currentSecret m \/ previous m = Some s).

Lemma Validate_iff m now t c :
Validate m now t = Ok c <->
exists s c0, trusted_secret m s /\ signed t SigningMethodHS256 s c0 /\
  acceptable m now c0 /\ c = accepted c0.
Proof.
unfold Validate, trusted_secret. split.
- destruct (validateWith m now t (currentSecret m)) as [c1|e1] eqn:E1.
  + intros [= <-]. apply validateWith_iff in E1 as (Hne & c0 & Hs & Ha & ->).
    exists (currentSecret m), c0. repeat split; auto; apply Ha.
  + destruct (previous m) as [prev|] eqn:Ep; [|done].
    destruct (validateWith m now t prev) as [c2|e2] eqn:E2; [|done]. intros [= <-].
    apply validateWith_iff in E2 as (Hne & c0 & Hs & Ha & ->).
    exists prev, c0. repeat split; auto; apply Ha.
- intros (s & c0 & (Hne & Hor) & Hs & Ha & ->).
  destruct (validateWith m now t (currentSecret m)) as [c1|e1] eqn:E1.
  + apply validateWith_iff in E1 as (_ & c1' & Hs1 & _ & ->).
    by destruct (signed_fun _ _ _ _ _ _ _ Hs Hs1) as (_ & _ & ->).
  + assert (Hv : validateWith m now t s = Ok (accepted c0)).
    { apply validateWith_iff. split; [done|]. by exists c0. }
    destruct Hor as [-> | ->]; [congruence|]. by rewrite Hv.
Qed.

(** What [generate] signs. *)
Lemma generate_inv m now1 now2 jti u e o sc exp t :
generate m now1 now2 jti u e o sc exp = Ok t ->
exists c, currentSecret m <> "" /\ signed t SigningMethodHS256 (currentSecret m) c /\
  UserID c = u /\ Email c = e /\ OrgID c = o /\ Scopes c = sc /\ JTI c = jti /\
  rc_Issuer (Registered c) = issuer m /\ rc_Subject (Registered c) = u /\
  rc_ExpiresAt (Registered c) = NewNumericDate (now1 + if exp =? 0 then DefaultExpiry else exp) /\
  rc_Audience (Registered c) = match audience m with Some a => [a] | None => [] end.
Proof.
unfold generate. destruct (currentSecret m =s "") eqn:Es; [done|].
apply seqb_false in Es. intros Hg. apply SignedString_signed in Hg.
eexists. split; [done|]. split; [exact Hg|]. done.
Qed.
End Laws.

(** ** Properties *)


(** Minting and validating round trip. A token minted by [mi] is accepted
    before its expiry by every manager [mv] that trusts the minting secret, allows
    its issuer and requires no audience but the one it stamps, and yields the
    user, organization, scopes and identifier it was minted with. *)
Theorem generate_Validate (T : Type) `{JWTLaws T} mi mv now1 now2 now jti u e o sc exp (t : T) :
  generate mi now1 now2 jti u e o sc exp = Ok t ->
  trusted_secret mv (currentSecret mi) -> issuerAllowed mv (issuer mi) = true ->
  (audience mv = None \/ audience mv = audience mi) ->
  now < NewNumericDate (now1 + if exp =? 0 then DefaultExpiry else exp) ->
  exists c, Validate mv now t = Ok c /\ UserID c = u /\ Email c = e /\ OrgID c = o /\
    Scopes c = sc /\ TokenID (Some c) = jti.
Proof.
  intros Hg Ht Hi Haud Hnow.
  apply generate_inv in Hg as (c & Hne & Hs & <- & <- & <- & <- & <- & Hiss & _ & Hexp & Haud').
  exists (accepted c). split.
  - apply Validate_iff. exists (currentSecret mi), c. split; [done|]. split; [done|]. split; [|done].
    split; [by rewrite Hexp|]. split; [|by rewrite Hiss].
    rewrite Haud'. intros a Ha. destruct Haud as [Hn|He]; [congruence|]. rewrite <- He, Ha. by left.
  - unfold TokenID. simpl. by destruct (JTI c =s "").
Qed.

(** Rotation keeps exactly one generation alive. After [RotateSecret] a token
    signed with the outgoing secret is accepted exactly when it was before, one
    signed with the secret before that is refused, and [ClearPreviousSecret] ends
    the window. *)
Theorem RotateSecret_window (T : Type) `{JWTLaws T} m new now (t : T) c s :
  signed t SigningMethodHS256 s c -> current m <> None -> s <> new ->
  (s = currentSecret m ->
     (is_ok (Validate (RotateSecret new m) now t) = is_ok (Validate m now t))) /\
  (s <> currentSecret m -> is_ok (Validate (RotateSecret new m) now t) = false) /\
  is_ok (Validate (ClearPreviousSecret (RotateSecret new m)) now t) = false.
Proof.
  intros Hs Hcur Hnew.
  assert (Hok : forall m', is_ok (Validate m' now t) = true <-> trusted_secret m' s /\ acceptable m' now c).
  { intros m'. split.
    - destruct (Validate m' now t) as [c'|] eqn:E; [|done]. intros _.
      apply Validate_iff in E as (s' & c0 & Htr & Hs' & Ha & _).
      by destruct (signed_fun _ _ _ _ _ _ _ Hs Hs') as (_ & -> & ->).
    - intros [Ht Ha].
      assert (Hv : Validate m' now t = Ok (accepted c)) by (apply Validate_iff; exists s, c; exact (conj Ht (conj Hs (conj Ha eq_refl)))).
      by rewrite Hv. }
  destruct (current m) as [cur|] eqn:Ec; [|done].
  unfold currentSecret in *. split; [|split].
  - intros Hsc. apply eq_true_iff_eq. rewrite !Hok. unfold trusted_secret, acceptable, currentSecret, issuerAllowed.
    simpl. rewrite Ec in *. rewrite Hsc. tauto.
  - intros Hns. apply not_true_iff_false. rewrite Hok. unfold trusted_secret, currentSecret. simpl.
    rewrite Ec in *. intros [[? [?|[=]]] _]; congruence.
  - apply not_true_iff_false. rewrite Hok. unfold trusted_secret, currentSecret. simpl. naive_solver.
Qed.

(** Coupled managers do not accept each other's tokens by accident. The
    constructor succeeds exactly on a complete configuration; its own tokens
    validate; and under one shared secret a sibling refuses every token minted
    for another audience or by an issuer it does not list. *)
Theorem NewCoupledTokenManager_no_replay (T : Type) `{JWTLaws T} secret iss allowed aud m :
  NewCoupledTokenManager secret iss allowed aud = Ok m ->
  iss <> "" /\ aud <> "" /\ In iss allowed /\
  (forall now1 now2 now jti u e o sc exp (t : T),
     generate m now1 now2 jti u e o sc exp = Ok t ->
     now < NewNumericDate (now1 + if exp =? 0 then DefaultExpiry else exp) ->
     is_ok (Validate m now t) = true) /\
  (forall iss' allowed' aud' m' now1 now2 now jti u e o sc exp (t : T),
     NewCoupledTokenManager secret iss' allowed' aud' = Ok m' ->
     generate m' now1 now2 jti u e o sc exp = Ok t -> aud' <> aud \/ ~ In iss' allowed ->
     is_ok (Validate m now t) = false).
Proof.
  assert (Hinv : forall secret iss allowed aud m, NewCoupledTokenManager secret iss allowed aud = Ok m ->
    iss <> "" /\ aud <> "" /\ In iss allowed /\
    m = {| issuer := iss; current := Some secret; previous := None;
           allowedIssuers := Some allowed; audience := Some aud |}).
  { clear. intros secret iss allowed aud m. unfold NewCoupledTokenManager.
    destruct (iss =s "") eqn:E1; [done|]. destruct (aud =s "") eqn:E2; [done|].
    destruct (length allowed =? 0)%nat; [done|]. destruct (mem iss allowed) eqn:E3; [|done].
    intros [= <-]. apply seqb_false in E1. unfold SetAudience. rewrite E2. apply seqb_false in E2.
    apply mem_true in E3. done. }
  intros Hm. apply Hinv in Hm as (Hi & Ha & Hin & ->). do 3 (split; [done|]). split.
  - intros now1 now2 now jti u e o sc exp t Hg Hnow.
    apply generate_inv in Hg as (c & Hne & Hs & _ & _ & _ & _ & _ & Hiss & _ & Hexp & Haud').
    match goal with |- is_ok (Validate ?m _ _) = _ =>
      assert (Hv : Validate m now t = Ok (accepted c)) end; [|by rewrite Hv].
    apply Validate_iff. eexists _, c. split; [|split; [exact Hs|split; [|done]]].
    + split; [done|by left].
    + split; [by rewrite Hexp|]. rewrite Hiss, Haud'. split.
      * intros a [= <-]. by left.
      * unfold issuerAllowed. simpl. by apply mem_true.
  - intros iss' allowed' aud' m' now1 now2 now jti u e o sc exp t Hm' Hg Hbad.
    apply Hinv in Hm' as (_ & _ & _ & ->).
    apply generate_inv in Hg as (c & _ & Hs & _ & _ & _ & _ & _ & Hiss & _ & _ & Haud').
    apply not_true_iff_false. intros Hok.
    match goal with _ : is_ok ?v = true |- _ => destruct v as [c'|] eqn:E; [|done] end.
    apply Validate_iff in E as (s' & c0 & _ & Hs' & (_ & Hau & His) & _).
    destruct (signed_fun _ _ _ _ _ _ _ Hs Hs') as (_ & _ & <-).
    specialize (Hau aud eq_refl). rewrite Haud' in Hau. simpl in Hau.
    rewrite Hiss in His. unfold issuerAllowed in His. simpl in His. apply mem_true in His.
    destruct Hbad as [Hb|Hb]; [destruct Hau as [?|[]]; congruence|done].
Qed.

(** The organization a token is bound to is enforceable from the token. A
    token minted by [Generate] passes no organization-bound check anywhere; one
    minted by [GenerateForOrg] passes such a check exactly for its organization
    and the scopes it was minted with. *)
Theorem org_binding (T : Type) `{JWTLaws T} mi mv now1 now2 now jti u e o sc exp (t t' : T) c c' rw :
  Generate mi now1 now2 jti u e sc exp = Ok t -> Validate mv now t = Ok c ->
  GenerateForOrg mi now1 now2 jti u e o sc exp = Ok t' -> Validate mv now t' = Ok c' ->
  (forall org r, HasScopeInOrg (Some c) org r rw = false) /\
  (forall org r, HasScopeInOrg (Some c') org r rw = true <->
     org = o /\ o <> "" /\ HasScope sc r rw = true).
Proof.
  intros Hg Hv Hg' Hv'.
  apply generate_inv in Hg as (c0 & _ & Hs & _ & _ & Ho & _).
  apply generate_inv in Hg' as (c1 & _ & Hs' & _ & _ & Ho' & Hsc' & _).
  apply Validate_iff in Hv as (s & c2 & _ & Hs2 & _ & ->).
  apply Validate_iff in Hv' as (s' & c3 & _ & Hs3 & _ & ->).
  destruct (signed_fun _ _ _ _ _ _ _ Hs Hs2) as (_ & _ & <-).
  destruct (signed_fun _ _ _ _ _ _ _ Hs' Hs3) as (_ & _ & <-).
  split; intros org r; unfold HasScopeInOrg.
  - destruct (orgBound _ org) eqn:E; [|done].
    apply orgBound_true in E as [Hne Heq]. simpl in Heq. congruence.
  - destruct (orgBound _ org) eqn:E; simpl.
    + apply orgBound_true in E as [Hne Heq]. simpl in Heq. rewrite Hsc'. naive_solver.
    + split; [done|]. intros (-> & Hne & _). exfalso. revert E.
      apply not_false_iff_true, orgBound_true. by split.
Qed.

(** ** Witnesses: tokens that carry their method, key and claims in the clear *)

Definition clear_token : Type := SigningMethod * string * Claims.

Definition clear_parse (now : Z) (t : clear_token) (aud : option string)
    (kf : SigningMethod -> result string) : result Token :=
  let '(m, s, c) := t in
  match kf m with
  | Err e => Err e
  | Ok k =>
      if (k =s s) && (now <? rc_ExpiresAt (Registered c)) &&
         match aud with Some a => mem a (rc_Audience (Registered c)) | None => true end
      then Ok {| tok_Valid := true; tok_Claims := Some (wire c) |}
      else Err (Plain "token is unverifiable")
  end.

#[local] Instance clear_lib : JWTLib clear_token := {|
  NewNumericDate z := z / 1000000000 * 1000000000;
  SignedString c s := Ok (SigningMethodHS256, s, c);
  ParseWithClaims := clear_parse
|}.

#[local] Instance clear_laws : JWTLaws clear_token.
Proof.
  refine {| signed := fun t m s c => t = (m, s, c) |}.
  - intros t m s c m' s' c' -> [= -> -> ->]. done.
  - by intros c s t [= <-].
  - intros now [[m s] c] aud kf p. simpl. destruct (kf m) as [k|] eqn:Ek; [|done].
    destruct ((k =s s) && _ && _) eqn:E; [|done]. intros [= <-].
    apply andb_prop in E as [E Ha]. apply andb_prop in E as [E1 E2].
    apply seqb_true in E1 as ->. apply Z.ltb_lt in E2.
    exists m, s, c. repeat split; [done..|]. intros a ->. by apply mem_true.
  - intros now t aud kf m s c Hk -> Hn Ha. simpl. rewrite Hk, seqb_refl, (proj2 (Z.ltb_lt _ _) Hn). simpl.
    destruct aud as [a|]; [|done]. by rewrite (proj2 (mem_true _ _) (Ha a eq_refl)).
Defined.

Definition ex_registry : TokenManager :=
  {| issuer := "registry"; current := Some "s1"; previous := None;
     allowedIssuers := Some ["registry"; "tsm"]; audience := Some "registry" |}.
Definition ex_token (org : string) : clear_token :=
  (SigningMethodHS256, "s1",
   {| UserID := "u1"; Email := "u1@example.com"; OrgID := org; Scopes := ["users:read"]; JTI := "j1";
      Registered := {| rc_Issuer := "registry"; rc_Subject := "u1"; rc_Audience := ["registry"];
                       rc_ExpiresAt := 3600000000000; rc_IssuedAt := 0; rc_ID := "j1" |} |}).
Definition ex_claims (org : string) : Claims :=
  {| UserID := "u1"; Email := "u1@example.com"; OrgID := org; Scopes := ["users:read"]; JTI := "j1";
     Registered := {| rc_Issuer := "registry"; rc_Subject := "u1"; rc_Audience := ["registry"];
                      rc_ExpiresAt := 3600000000000; rc_IssuedAt := 0; rc_ID := "j1" |} |}.


Lemma generate_Validate_witness :
  exists c, Validate ex_registry 5 (ex_token "o1") = Ok c /\ UserID c = "u1" /\
    Email c = "u1@example.com" /\ OrgID c = "o1" /\ Scopes c = ["users:read"] /\ TokenID (Some c) = "j1".
Proof.
  apply (generate_Validate clear_token ex_registry ex_registry 0 0 5 "j1" "u1" "u1@example.com" "o1" ["users:read"] 0).
  - vm_compute. reflexivity.
  - split; [vm_compute; discriminate|by left].
  - reflexivity.
  - by right.
  - vm_compute. reflexivity.
Defined.

Lemma RotateSecret_window_witness :
  ("s1" = currentSecret ex_registry ->
     is_ok (Validate (RotateSecret "s2" ex_registry) 5 (ex_token "")) =
     is_ok (Validate ex_registry 5 (ex_token ""))) /\
  ("s1" <> currentSecret ex_registry ->
     is_ok (Validate (RotateSecret "s2" ex_registry) 5 (ex_token "")) = false) /\
  is_ok (Validate (ClearPreviousSecret (RotateSecret "s2" ex_registry)) 5 (ex_token "")) = false.
Proof.
  apply (RotateSecret_window clear_token ex_registry "s2" 5 (ex_token "") (snd (ex_token "")) "s1");
    [reflexivity|discriminate|discriminate].
Defined.

Definition ex_coupled : TokenManager :=
  {| issuer := "registry"; current := Some "s1"; previous := None;
     allowedIssuers := Some ["registry"]; audience := Some "registry" |}.

Lemma NewCoupledTokenManager_no_replay_witness :
  "registry" <> "" /\ "registry" <> "" /\ In "registry" ["registry"] /\
  (forall now1 now2 now jti u e o sc exp (t : clear_token),
     generate ex_coupled now1 now2 jti u e o sc exp = Ok t ->
     now < NewNumericDate (now1 + if exp =? 0 then DefaultExpiry else exp) ->
     is_ok (Validate ex_coupled now t) = true) /\
  (forall iss' allowed' aud' m' now1 now2 now jti u e o sc exp (t : clear_token),
     NewCoupledTokenManager "s1" iss' allowed' aud' = Ok m' ->
     generate m' now1 now2 jti u e o sc exp = Ok t -> aud' <> "registry" \/ ~ In iss' ["registry"] ->
     is_ok (Validate ex_coupled now t) = false).
Proof.
  apply (NewCoupledTokenManager_no_replay clear_token "s1" "registry" ["registry"] "registry" ex_coupled).
  vm_compute. reflexivity.
Defined.

Lemma org_binding_witness :
  (forall org r, HasScopeInOrg (Some (ex_claims "")) org r ∅ = false) /\
  (forall org r, HasScopeInOrg (Some (ex_claims "o1")) org r ∅ = true <->
     org = "o1" /\ "o1" <> "" /\ HasScope ["users:read"] r ∅ = true).
Proof.
  apply (org_binding clear_token ex_registry ex_registry 0 0 5 "j1" "u1" "u1@example.com" "o1"
           ["users:read"] 0 (ex_token "") (ex_token "o1")); vm_compute; reflexivity.
Defined.
