(* ===== verification/Models.v ===== *)
(** * Models: identity/models

    The data types the repositories exchange, the scope accessors of a user with
    memberships, the group-mapping resolution and the parser of a role-template
    reference. Timestamps are nanoseconds, nullable columns are options. *)

From S2P Require Import Prelude Scopes.

(** ** Data *)

Record User := {
  u_ID : string; u_Email : string; u_Name : string; u_OIDCSub : option string;
  u_CreatedAt : Z; u_UpdatedAt : Z
}.

Record Organization := {
  o_ID : string; o_Name : string; o_DisplayName : string;
  o_IdpType : option string; o_IdpName : option string;
  o_CreatedAt : Z; o_UpdatedAt : Z
}.

Record OrganizationMember := {
  m_OrganizationID : string; m_UserID : string;
  m_RoleTemplateID : option string; m_CreatedAt : Z
}.

Record OrganizationMemberWithUser := {
  mu_OrganizationID : string; mu_UserID : string; mu_RoleTemplateID : option string;
  mu_RoleTemplateName : option string; mu_RoleTemplateDisplayName : option string;
  mu_RoleTemplateScopes : list string; mu_CreatedAt : Z;
  mu_UserName : string; mu_UserEmail : string
}.

Record UserMembership := {
  um_OrganizationID : string; um_OrganizationName : string; um_RoleTemplateID : option string;
  um_RoleTemplateName : option string; um_RoleTemplateDisplayName : option string;
  um_RoleTemplateScopes : list string; um_CreatedAt : Z
}.

Record APIKey := {
  ak_ID : string; ak_UserID : option string; ak_OrganizationID : string; ak_Name : string;
  ak_Description : option string; ak_KeyHash : string; ak_KeyPrefix : string; ak_Scopes : list string;
  ak_ExpiresAt : option Z; ak_LastUsedAt : option Z; ak_ExpiryNotificationSentAt : option Z;
  ak_CreatedAt : Z; ak_UserName : option string
}.

Record RoleTemplate := {
  rt_ID : string; rt_Name : string; rt_DisplayName : string; rt_Description : option string;
  rt_Scopes : list string; rt_IsSystem : bool; rt_CreatedAt : Z; rt_UpdatedAt : Z
}.

Record UserWithOrgRoles := { uw_User : User; uw_Memberships : list UserMembership }.

Record OIDCGroupMapping := { gm_Group : string; gm_Organization : string; gm_Role : string }.

(** ** User scopes (user.go)

    The Go maps built and ranged over are sets; [distinct] lists one. *)

Definition GetAllowedScopes (u : UserWithOrgRoles) : list string :=
  distinct (flat_map um_RoleTemplateScopes (uw_Memberships u)).

Definition GetScopesForOrg (u : UserWithOrgRoles) (orgID : string) : list string :=
  if orgID =s "" then []
  else distinct (flat_map (fun m => if um_OrganizationID m <>s orgID then [] else um_RoleTemplateScopes m)
                          (uw_Memberships u)).

Definition HasAdminScope (u : UserWithOrgRoles) : bool :=
  existsb (fun m => existsb (fun scope => scope =s ScopeAdmin) (um_RoleTemplateScopes m)) (uw_Memberships u).

(** ** Group mappings (group_mapping_resolve.go) *)

Record GroupMappingResolution := { DesiredRole : gmap string string; Managed : gset string }.

(** One iteration of the loop over the mappings. *)
Definition resolve_step (held : gset string) (res : GroupMappingResolution) (m : OIDCGroupMapping)
    : GroupMappingResolution :=
  if gm_Organization m =s "" then res
  else
    let managed := {[gm_Organization m]} ∪ Managed res in
    if bool_decide (gm_Group m ∈ held) then
      match DesiredRole res !! gm_Organization m with
      | Some _ => {| DesiredRole := DesiredRole res; Managed := managed |}
      | None => {| DesiredRole := <[gm_Organization m := gm_Role m]> (DesiredRole res); Managed := managed |}
      end
    else {| DesiredRole := DesiredRole res; Managed := managed |}.

Definition ResolveGroupMappings (groups : list string) (mappings : list OIDCGroupMapping) : GroupMappingResolution :=
  let held : gset string := list_to_set groups in
  foldl (resolve_step held) {| DesiredRole := ∅; Managed := ∅ |} mappings.

Definition Wanted (r : GroupMappingResolution) (org : string) : option string := DesiredRole r !! org.
Definition IsManaged (r : GroupMappingResolution) (org : string) : bool := bool_decide (org ∈ Managed r).

(** ** Role-template references (organization_member.go) *)

(** [uuid.Parse] is a parameter; the result is the Go triple
    [(uuid.UUID, bool, error)] with the zero UUID as [None]. *)
Definition ParseRoleTemplateID {uuid : Type} (Parse : string -> result uuid) (id : option string)
    : result (option uuid) :=
  match id with
  | None => Ok None
  | Some s => match Parse s with
              | Err e => Err (Wrap "invalid role template id" e)
              | Ok u => Ok (Some u)
              end
  end.

(** The three methods: each parses its own row's reference. *)
Definition OrganizationMember_RoleTemplateUUID {uuid : Type} (Parse : string -> result uuid) (m : OrganizationMember) : result (option uuid) :=
  ParseRoleTemplateID Parse (m_RoleTemplateID m).
Definition OrganizationMemberWithUser_RoleTemplateUUID {uuid : Type} (Parse : string -> result uuid) (m : OrganizationMemberWithUser) : result (option uuid) :=
  ParseRoleTemplateID Parse (mu_RoleTemplateID m).
Definition UserMembership_RoleTemplateUUID {uuid : Type} (Parse : string -> result uuid) (m : UserMembership) : result (option uuid) :=
  ParseRoleTemplateID Parse (um_RoleTemplateID m).

(** ** Lemmas *)

(** A mapping that can claim [org] for a principal holding [groups]. *)
Definition claims_org (groups : list string) (org : string) (m : OIDCGroupMapping) : bool :=
  (gm_Organization m =s org) && mem (gm_Group m) groups.

Lemma held_mem groups g : bool_decide (g ∈ (list_to_set groups : gset string)) = mem g groups.
Proof.
  apply eq_true_iff_eq. rewrite bool_decide_eq_true, elem_of_list_to_set, mem_true. apply list_elem_of_In.
Qed.

Lemma resolve_step_role groups res m org : org <> "" ->
  DesiredRole (resolve_step (list_to_set groups) res m) !! org =
  match DesiredRole res !! org with
  | Some r => Some r
  | None => if claims_org groups org m then Some (gm_Role m) else None
  end.
Proof.
  intros Hne. unfold resolve_step, claims_org. rewrite held_mem.
  destruct (gm_Organization m =s "") eqn:E0.
  { apply seqb_true in E0. rewrite E0. rewrite (proj2 (seqb_false "" org)) by done. simpl.
    by destruct (DesiredRole res !! org). }
  destruct (mem (gm_Group m) groups) eqn:Eg; [|by rewrite andb_false_r; simpl; destruct (DesiredRole res !! org)].
  rewrite andb_true_r. destruct (gm_Organization m =s org) eqn:Eo.
  - apply seqb_true in Eo as ->. destruct (DesiredRole res !! org) eqn:Er; simpl; [done|].
    apply lookup_insert_eq.
  - apply seqb_false in Eo. destruct (DesiredRole res !! gm_Organization m); simpl;
      [|rewrite lookup_insert_ne by done]; by destruct (DesiredRole res !! org).
Qed.

Lemma resolve_fold_role groups ms res org : org <> "" ->
  DesiredRole (foldl (resolve_step (list_to_set groups)) res ms) !! org =
  match DesiredRole res !! org with
  | Some r => Some r
  | None => gm_Role <$> List.find (claims_org groups org) ms
  end.
Proof.
  intros Hne. revert res. induction ms as [|m ms IH]; intros res; simpl.
  - by destruct (DesiredRole res !! org).
  - rewrite IH, resolve_step_role by done. destruct (DesiredRole res !! org) eqn:E; [done|].
    by destruct (claims_org groups org m).
Qed.

Lemma resolve_fold_managed groups ms res org :
  org ∈ Managed (foldl (resolve_step (list_to_set groups)) res ms) <->
  org ∈ Managed res \/ (org <> "" /\ exists m, In m ms /\ gm_Organization m = org).
Proof.
  revert res. induction ms as [|m ms IH]; intros res; simpl; [naive_solver|].
  rewrite IH. assert (Hm : org ∈ Managed (resolve_step (list_to_set groups) res m) <->
    org ∈ Managed res \/ (org <> "" /\ gm_Organization m = org)).
  { unfold resolve_step. destruct (gm_Organization m =s "") eqn:E0.
    - apply seqb_true in E0. split; [tauto|]. intros [?|[? ?]]; [done|congruence].
    - apply seqb_false in E0. repeat case_match; simpl; set_unfold; naive_solver. }
  rewrite Hm. naive_solver.
Qed.

Lemma resolve_empty_org groups ms : DesiredRole (ResolveGroupMappings groups ms) !! "" = None.
Proof.
  unfold ResolveGroupMappings. set (r0 := {| DesiredRole := ∅; Managed := ∅ |}).
  assert (H0 : DesiredRole r0 !! "" = None) by done. clearbody r0. revert r0 H0.
  induction ms as [|m ms IH]; intros r0 H0; simpl; [done|]. apply IH. unfold resolve_step.
  destruct (gm_Organization m =s "") eqn:E0; [done|]. apply seqb_false in E0.
  repeat case_match; simpl; rewrite ?lookup_insert_ne by done; done.
Qed.

(** ** Properties *)

(** Group mappings resolve first match wins. The role an organization grants
    is that of the first mapping in the list that names it and whose group the
    principal holds; an organization is managed exactly when some mapping names
    it; no mapping concerns the empty organization. *)
Theorem ResolveGroupMappings_first_match groups mappings org :
  let r := ResolveGroupMappings groups mappings in
  (forall role, Wanted r org = Some role <->
     org <> "" /\ exists pre m post, mappings = pre ++ m :: post /\
       gm_Organization m = org /\ In (gm_Group m) groups /\ gm_Role m = role /\
       forall m', In m' pre -> gm_Organization m' = org -> ~ In (gm_Group m') groups) /\
  (IsManaged r org = true <-> org <> "" /\ exists m, In m mappings /\ gm_Organization m = org).
Proof.
  intros r. split.
  - intros role. unfold Wanted, r. destruct (decide (org = "")) as [->|Hne].
    { rewrite resolve_empty_org. naive_solver. }
    unfold ResolveGroupMappings. rewrite resolve_fold_role by done. simpl. rewrite lookup_empty.
    assert (Hc : forall m, claims_org groups org m = true <-> gm_Organization m = org /\ In (gm_Group m) groups).
    { intros m. unfold claims_org. by rewrite andb_true_iff, seqb_true, mem_true. }
    induction mappings as [|m ms IH]; simpl.
    { split; [done|]. by intros (_ & [|? ?] & ? & ? & [=] & _). }
    destruct (claims_org groups org m) eqn:Ec; simpl.
    + apply Hc in Ec as [Ho Hg]. split.
      * intros [= <-]. split; [done|]. by exists [], m, ms.
      * intros (_ & [|m0 pre] & m1 & post & [= <- ->] & _ & _ & <- & Hpre); [done|].
        exfalso. eapply Hpre; [by left|done|done].
    + rewrite IH. apply not_true_iff_false in Ec. rewrite Hc in Ec. split.
      * intros (_ & pre & m1 & post & -> & ? & ? & ? & Hpre). split; [done|].
        exists (m :: pre), m1, post. repeat split; [done..|].
        intros m' [<-|Hin] Heq; [tauto|by apply Hpre].
      * intros (_ & [|m0 pre] & m1 & post & [= -> ->] & ? & ? & ? & Hpre); [tauto|]. split; [done|].
        exists pre, m1, post. repeat split; [done..|]. intros m' Hin. apply Hpre. by right.
  - unfold IsManaged, r, ResolveGroupMappings. rewrite bool_decide_eq_true, resolve_fold_managed.
    simpl. set_unfold. naive_solver.
Qed.

(** Editing the mapping list incrementally is safe: appending mappings never
    changes the role of an organization that already matched, and never takes an
    organization out of management. *)
Theorem ResolveGroupMappings_append groups mappings extra org :
  (forall role, Wanted (ResolveGroupMappings groups mappings) org = Some role ->
     Wanted (ResolveGroupMappings groups (mappings ++ extra)) org = Some role) /\
  (IsManaged (ResolveGroupMappings groups mappings) org = true ->
     IsManaged (ResolveGroupMappings groups (mappings ++ extra)) org = true).
Proof.
  unfold Wanted, IsManaged. split.
  - intros role H. destruct (decide (org = "")) as [->|Hne]; [by rewrite resolve_empty_org in H|].
    unfold ResolveGroupMappings in *. rewrite foldl_app, resolve_fold_role by done. by rewrite H.
  - rewrite !bool_decide_eq_true. unfold ResolveGroupMappings. rewrite foldl_app.
    rewrite (resolve_fold_managed _ extra). by left.
Qed.

(** The scope accessors of a user. The per-organization set holds exactly the
    scopes of the memberships in that organization, the global set is the union
    over all of them, both without duplicates; an empty organization id selects
    nothing, even a membership that carries one; and the admin test is membership
    of the wildcard in the global set. *)
Theorem user_scope_accessors u :
  (forall org s, In s (GetScopesForOrg u org) <-> org <> "" /\
     exists m, In m (uw_Memberships u) /\ um_OrganizationID m = org /\ In s (um_RoleTemplateScopes m)) /\
  (forall s, In s (GetAllowedScopes u) <->
     exists m, In m (uw_Memberships u) /\ In s (um_RoleTemplateScopes m)) /\
  (forall org, List.NoDup (GetScopesForOrg u org)) /\ List.NoDup (GetAllowedScopes u) /\
  (HasAdminScope u = true <-> In ScopeAdmin (GetAllowedScopes u)).
Proof.
  assert (Hall : forall s, In s (GetAllowedScopes u) <->
     exists m, In m (uw_Memberships u) /\ In s (um_RoleTemplateScopes m)).
  { intros s. unfold GetAllowedScopes. by rewrite in_distinct, in_flat_map. }
  split; [|split; [done|split; [|split]]].
  - intros org s. unfold GetScopesForOrg. destruct (org =s "") eqn:E.
    + apply seqb_true in E. simpl. naive_solver.
    + apply seqb_false in E. rewrite in_distinct, in_flat_map. split.
      * intros (m & Hm & Hs). split; [done|]. exists m.
        destruct (um_OrganizationID m =s org) eqn:Eo; simpl in Hs; [|done]. by apply seqb_true in Eo.
      * intros (_ & m & Hm & Ho & Hs). exists m. split; [done|].
        rewrite (proj2 (seqb_true _ _) Ho). done.
  - intros org. unfold GetScopesForOrg. case_match; [constructor|apply nodup_distinct].
  - apply nodup_distinct.
  - rewrite Hall. unfold HasAdminScope. rewrite existsb_exists. split; intros (m & Hm & H); exists m; split; try done.
    + apply existsb_exists in H as (s & Hs & Heq). apply seqb_true in Heq. by subst.
    + apply existsb_exists. exists ScopeAdmin. split; [done|apply seqb_refl].
Qed.
