(* ===== verification/OrgScope.v ===== *)
(** * OrgScope: identity/store/org_scope.go

    The tenant constraint every accessor carries: its constructors, its in-memory
    check and the SQL predicate it renders. The predicate is modelled twice: as
    the text and arguments the Go code builds ([OrgScope_SQL]) and as an
    expression ([scope_pred]) with SQL's three-valued meaning, which renders to
    that text. *)

From S2P Require Import Prelude Order Scopes.
From stdpp Require Import pretty.

(** ** Data and constructors *)

Record OrgScope := { orgIDs : list string; all : bool; unowned : bool }.

(** [OrgScope{}]. *)
Definition OrgScope_zero : OrgScope := {| orgIDs := []; all := false; unowned := false |}.

(** The loop that cleans the ids: [seen] is the set of those already kept. *)
Fixpoint clean_ids (seen : gset string) (ids : list string) : list string :=
  match ids with
  | [] => []
  | id :: rest =>
      if id =s "" then clean_ids seen rest
      else if bool_decide (id ∈ seen) then clean_ids seen rest
      else id :: clean_ids ({[id]} ∪ seen) rest
  end.

Definition OrgScopeOrganizations (ids : list string) : OrgScope :=
  {| orgIDs := sort_strings (clean_ids ∅ ids); all := false; unowned := false |}.

Definition WithUnowned (s : OrgScope) : OrgScope :=
  {| orgIDs := orgIDs s; all := all s; unowned := true |}.

Definition OrgScopeOrganizationsAndUnowned (ids : list string) : OrgScope :=
  WithUnowned (OrgScopeOrganizations ids).

Definition OrgScopeAllOrganizations : OrgScope := {| orgIDs := []; all := true; unowned := false |}.

Definition IsAllOrganizations (s : OrgScope) : bool := all s.
Definition IncludesUnowned (s : OrgScope) : bool := all s || unowned s.
Definition MatchesNothing (s : OrgScope) : bool :=
  negb (all s) && negb (unowned s) && (length (orgIDs s) =? 0)%nat.
Definition OrganizationIDs (s : OrgScope) : list string := orgIDs s.

Definition PermitsOrganization (s : OrgScope) (orgID : string) : bool :=
  if all s then true
  else if orgID =s "" then unowned s
  else existsb (fun id => id =s orgID) (orgIDs s).

Definition OrgScope_String (s : OrgScope) : string :=
  if all s then "OrgScope(all-organizations)"
  else if unowned s then "OrgScope(" +:+ pretty (length (orgIDs s)) +:+ " organization(s) + unowned)"
  else "OrgScope(" +:+ pretty (length (orgIDs s)) +:+ " organization(s))".

(** ** The SQL text *)

(** What a statement binds: scalars of the driver, or one array of ids. *)
Inductive sql_arg := ArgValue (v : option string) | ArgInt (n : Z) | ArgArray (ids : list string).

Definition OrgScope_SQL (s : OrgScope) (column : string) (paramIndex : nat) : string * list sql_arg :=
  if all s then ("TRUE", [])
  else if (length (orgIDs s) =? 0)%nat then
    if unowned s then (column +:+ " IS NULL", []) else ("FALSE", [])
  else if unowned s then
    ("(" +:+ column +:+ " = ANY($" +:+ pretty paramIndex +:+ ") OR " +:+ column +:+ " IS NULL)",
     [ArgArray (orgIDs s)])
  else (column +:+ " = ANY($" +:+ pretty paramIndex +:+ ")", [ArgArray (orgIDs s)]).

Definition membershipSQL (s : OrgScope) (userColumn : string) (paramIndex : nat) : string * list sql_arg :=
  if all s then ("TRUE", [])
  else
    let notAMember :=
      "NOT EXISTS (SELECT 1 FROM organization_members osm WHERE osm.user_id = " +:+ userColumn +:+ ")" in
    if (length (orgIDs s) =? 0)%nat then
      if unowned s then (notAMember, []) else ("FALSE", [])
    else
      let inScope :=
        "EXISTS (SELECT 1 FROM organization_members osm WHERE osm.user_id = " +:+ userColumn +:+
        " AND osm.organization_id = ANY($" +:+ pretty paramIndex +:+ "))" in
      if unowned s then ("(" +:+ inScope +:+ " OR " +:+ notAMember +:+ ")", [ArgArray (orgIDs s)])
      else (inScope, [ArgArray (orgIDs s)]).

Definition andScope (query : string) (s : OrgScope) (column : string) (args : list sql_arg) : string * list sql_arg :=
  let (clause, scopeArgs) := OrgScope_SQL s column (length args + 1) in
  (query +:+ " AND " +:+ clause, args ++ scopeArgs).

Definition andMembershipScope (query : string) (s : OrgScope) (userColumn : string) (args : list sql_arg) : string * list sql_arg :=
  let (clause, scopeArgs) := membershipSQL s userColumn (length args + 1) in
  (query +:+ " AND " +:+ clause, args ++ scopeArgs).

(** ** The predicate's meaning

    [PAny c n] is [c = ANY($n)], [PMember c n] the EXISTS over
    organization_members restricted to [$n], [PNoMember c] the NOT EXISTS. *)
Inductive pred :=
| PTrue | PFalse
| PIsNull (column : string)
| PAny (column : string) (param : nat)
| PMember (column : string) (param : nat)
| PNoMember (column : string)
| POr (p q : pred).

Fixpoint render (p : pred) : string :=
  match p with
  | PTrue => "TRUE"
  | PFalse => "FALSE"
  | PIsNull c => c +:+ " IS NULL"
  | PAny c n => c +:+ " = ANY($" +:+ pretty n +:+ ")"
  | PMember c n =>
      "EXISTS (SELECT 1 FROM organization_members osm WHERE osm.user_id = " +:+ c +:+
      " AND osm.organization_id = ANY($" +:+ pretty n +:+ "))"
  | PNoMember c =>
      "NOT EXISTS (SELECT 1 FROM organization_members osm WHERE osm.user_id = " +:+ c +:+ ")"
  | POr p q => "(" +:+ render p +:+ " OR " +:+ render q +:+ ")"
  end.

(** The statement's arguments are numbered from 1. *)
Definition param (args : list sql_arg) (n : nat) : option sql_arg :=
  match n with O => None | S k => args !! k end.

(** SQL's three values: [None] is NULL. [row] reads a column, [members] lists
    the (organization, user) pairs of organization_members. *)
Definition sql_or (a b : option bool) : option bool :=
  match a, b with
  | Some true, _ | _, Some true => Some true
  | Some false, Some false => Some false
  | _, _ => None
  end.

Fixpoint eval (row : string -> option string) (members : list (string * string))
    (args : list sql_arg) (p : pred) : option bool :=
  match p with
  | PTrue => Some true
  | PFalse => Some false
  | PIsNull c => Some (match row c with None => true | Some _ => false end)
  | PAny c n =>
      match row c, param args n with
      | Some v, Some (ArgArray ids) => Some (mem v ids)
      | _, _ => None
      end
  | PMember c n =>
      match row c, param args n with
      | Some u, Some (ArgArray ids) =>
          Some (existsb (fun om => (snd om =s u) && mem (fst om) ids) members)
      | _, _ => Some false
      end
  | PNoMember c =>
      match row c with
      | Some u => Some (negb (existsb (fun om => snd om =s u) members))
      | None => Some true
      end
  | POr p q => sql_or (eval row members args p) (eval row members args q)
  end.

(** A WHERE clause selects a row when it is true, not when it is NULL. *)
Definition selects row members args p : bool :=
  match eval row members args p with Some true => true | _ => false end.

Definition scope_pred (s : OrgScope) (column : string) (n : nat) : pred :=
  if all s then PTrue
  else if (length (orgIDs s) =? 0)%nat then if unowned s then PIsNull column else PFalse
  else if unowned s then POr (PAny column n) (PIsNull column)
  else PAny column n.

Definition membership_pred (s : OrgScope) (userColumn : string) (n : nat) : pred :=
  if all s then PTrue
  else if (length (orgIDs s) =? 0)%nat then if unowned s then PNoMember userColumn else PFalse
  else if unowned s then POr (PMember userColumn n) (PNoMember userColumn)
  else PMember userColumn n.

(** What a scoped statement asks of a row that carries [col] as its
    organization, and of a user given the membership pairs. *)
Definition admits (s : OrgScope) (col : option string) : bool :=
  if all s then true
  else match col with Some v => mem v (orgIDs s) | None => unowned s end.

Definition admits_user (s : OrgScope) (members : list (string * string)) (user : string) : bool :=
  if all s then true
  else existsb (fun om => (snd om =s user) && mem (fst om) (orgIDs s)) members
       || (unowned s && negb (existsb (fun om => snd om =s user) members)).

(** ** Lemmas *)

Lemma sapp_assoc a b c : a +:+ (b +:+ c) = (a +:+ b) +:+ c.
Proof. induction a as [|x a IH]; [done|]. exact (f_equal (String x) IH). Qed.

Definition scope_args (s : OrgScope) : list sql_arg :=
  if all s then [] else if (length (orgIDs s) =? 0)%nat then [] else [ArgArray (orgIDs s)].

Lemma OrgScope_SQL_render s c n : OrgScope_SQL s c n = (render (scope_pred s c n), scope_args s).
Proof.
  unfold OrgScope_SQL, scope_pred, scope_args.
  destruct (all s); [done|]. destruct (length (orgIDs s) =? 0)%nat, (unowned s); try done.
  simpl. by rewrite <- !sapp_assoc.
Qed.

Lemma membershipSQL_render s c n : membershipSQL s c n = (render (membership_pred s c n), scope_args s).
Proof.
  unfold membershipSQL, membership_pred, scope_args.
  by destruct (all s); [|destruct (length (orgIDs s) =? 0)%nat, (unowned s)].
Qed.

Lemma no_ids s : (length (orgIDs s) =? 0)%nat = true -> orgIDs s = [].
Proof. by destruct (orgIDs s). Qed.

(** The predicate's meaning where its placeholder is bound to the scope's ids. *)
Lemma scope_pred_admits s c n row members args :
  (forall a, In a (scope_args s) -> param args n = Some a) ->
  selects row members args (scope_pred s c n) = admits s (row c).
Proof.
  unfold scope_args, selects, scope_pred, admits. destruct (all s); [done|].
  destruct (length (orgIDs s) =? 0)%nat eqn:E.
  - apply no_ids in E. rewrite E. intros _.
    destruct (unowned s); simpl; by destruct (row c).
  - intros Ha. specialize (Ha _ (or_introl eq_refl)).
    destruct (unowned s); simpl; rewrite Ha; destruct (row c) as [v|]; try done;
      simpl; by destruct (mem v (orgIDs s)).
Qed.

Lemma existsb_false {A} (l : list A) (f : A -> bool) : (forall x, In x l -> f x = false) -> existsb f l = false.
Proof. intros H. apply not_true_iff_false. rewrite existsb_exists. intros (x & Hx & E). by rewrite (H x Hx) in E. Qed.

Lemma membership_pred_admits s c n row members args u :
  (forall a, In a (scope_args s) -> param args n = Some a) -> row c = Some u ->
  selects row members args (membership_pred s c n) = admits_user s members u.
Proof.
  unfold scope_args, selects, membership_pred, admits_user. intros Ha Hu. destruct (all s); [done|].
  destruct (length (orgIDs s) =? 0)%nat eqn:E.
  - apply no_ids in E. rewrite E. rewrite existsb_false by (intros; apply andb_false_r).
    simpl. destruct (unowned s); simpl; [|done]. rewrite Hu. by case_match.
  - specialize (Ha _ (or_introl eq_refl)).
    destruct (unowned s); simpl; rewrite Hu, Ha; simpl; by repeat case_match.
Qed.

(** The splice point: the placeholder is the argument's position. *)
Lemma splice_param args s a : In a (scope_args s) -> param (args ++ scope_args s) (length args + 1) = Some a.
Proof.
  unfold scope_args. intros Ha. rewrite Nat.add_1_r. simpl.
  destruct (all s); [done|]. destruct (length (orgIDs s) =? 0)%nat; [done|].
  destruct Ha as [<-|[]]. by rewrite lookup_app_r, Nat.sub_diag.
Qed.

Lemma in_clean_ids x seen ids : In x (clean_ids seen ids) <-> In x ids /\ x <> "" /\ x ∉ seen.
Proof.
  revert seen. induction ids as [|i ids IH]; intros seen; simpl; [tauto|].
  destruct (i =s "") eqn:E; [apply seqb_true in E; rewrite IH; naive_solver|].
  apply seqb_false in E. case_bool_decide; [rewrite IH; naive_solver|].
  simpl. rewrite IH. destruct (decide (i = x)) as [->|Hne]; [naive_solver|].
  rewrite not_elem_of_union, not_elem_of_singleton. naive_solver.
Qed.

Lemma nodup_clean_ids seen ids : List.NoDup (clean_ids seen ids).
Proof.
  revert seen. induction ids as [|i ids IH]; intros seen; simpl; [constructor|].
  case_match; [apply IH|]. case_match; [apply IH|]. constructor; [|apply IH].
  rewrite in_clean_ids. set_solver.
Qed.

Lemma in_orgIDs x ids : In x (orgIDs (OrgScopeOrganizations ids)) <-> In x ids /\ x <> "".
Proof. simpl. rewrite in_sort_strings, in_clean_ids. set_solver. Qed.

(** The scopes a program outside this package can hold: the fields are not
    exported, so they come from the zero value and the constructors. *)
Inductive constructed : OrgScope -> Prop :=
| constructed_zero : constructed OrgScope_zero
| constructed_orgs ids : constructed (OrgScopeOrganizations ids)
| constructed_all : constructed OrgScopeAllOrganizations
| constructed_unowned s : constructed s -> constructed (WithUnowned s).

Lemma constructed_no_empty s : constructed s -> ~ In "" (orgIDs s).
Proof. induction 1; simpl; [tauto| |tauto|done]. rewrite in_sort_strings, in_clean_ids. tauto. Qed.

Lemma admits_Permits s col : constructed s -> col <> Some "" ->
  admits s col = PermitsOrganization s (default "" col).
Proof.
  intros Hs Hc. apply constructed_no_empty in Hs. unfold admits, PermitsOrganization.
  destruct (all s); [done|]. destruct col as [v|]; simpl; [|done].
  rewrite (proj2 (seqb_false v "")) by congruence. reflexivity.
Qed.

Lemma MatchesNothing_admits s : MatchesNothing s = true -> forall col, admits s col = false.
Proof.
  unfold MatchesNothing, admits. intros H col. apply andb_prop in H as [H H3].
  apply andb_prop in H as [H1 H2]. apply negb_true_iff in H1, H2. apply no_ids in H3.
  rewrite H1, H2, H3. by destruct col.
Qed.

(** A scope that matches something but does not reach [o] still refuses it. *)
Lemma admits_some s v : admits s (Some v) = true <-> all s = true \/ In v (orgIDs s).
Proof. unfold admits. destruct (all s); [naive_solver|]. rewrite mem_true. naive_solver. Qed.

(** ** Properties *)

(** The SQL predicate means what the in-memory check says. For every scope a
    caller can build, every column and every statement it is spliced into, the
    text [OrgScope.SQL] returns denotes an expression that selects a row exactly
    when [PermitsOrganization] admits the row's organization (NULL read as
    the empty id); its text is never empty and its placeholder addresses the
    argument it binds. *)
Theorem OrgScope_SQL_PermitsOrganization s query column args row members :
  constructed s -> row column <> Some "" ->
  let (query', args') := andScope query s column args in
  exists p, query' = query +:+ " AND " +:+ render p /\ render p <> "" /\
    length args' <= length args + 1 /\ firstn (length args) args' = args /\
    selects row members args' p = PermitsOrganization s (default "" (row column)).
Proof.
  intros Hs Hrow. unfold andScope. rewrite OrgScope_SQL_render.
  exists (scope_pred s column (length args + 1)). split; [done|]. split; [|split; [|split]].
  - unfold scope_pred. repeat case_match; simpl; try done; by destruct column.
  - rewrite length_app. unfold scope_args. repeat case_match; simpl; lia.
  - by rewrite firstn_app, Nat.sub_diag, firstn_all, app_nil_r.
  - rewrite scope_pred_admits by (intros; by apply splice_param). by apply admits_Permits.
Qed.

(** The users-table predicate: spliced into a statement it selects a user
    exactly when the scope is platform-wide, or one of the user's memberships is
    in an allowed organization, or the scope admits unowned rows and the user has
    no membership at all. *)
Theorem membershipSQL_selects s query userColumn args row members u :
  row userColumn = Some u ->
  let (query', args') := andMembershipScope query s userColumn args in
  exists p, query' = query +:+ " AND " +:+ render p /\
    (selects row members args' p = true <->
     all s = true \/ (exists o, In (o, u) members /\ In o (orgIDs s)) \/
     (unowned s = true /\ forall o, ~ In (o, u) members)).
Proof.
  intros Hu. unfold andMembershipScope. rewrite membershipSQL_render.
  exists (membership_pred s userColumn (length args + 1)). split; [done|].
  rewrite (membership_pred_admits _ _ _ _ _ _ u) by (try done; intros; by apply splice_param).
  unfold admits_user. destruct (all s); [naive_solver|].
  rewrite orb_true_iff, andb_true_iff, negb_true_iff, existsb_exists.
  assert (He : existsb (fun om => snd om =s u) members = false <-> forall o, ~ In (o, u) members).
  { rewrite <- not_true_iff_false, existsb_exists. split.
    - intros H o Ho. apply H. exists (o, u). by rewrite seqb_refl.
    - intros H ([o u'] & Hin & E). simpl in E. apply seqb_true in E as ->. by eapply H. }
  rewrite He. split.
  - intros [([o u'] & Hin & E)|H]; [|tauto]. apply andb_prop in E as [E1 E2]. simpl in *.
    apply seqb_true in E1 as ->. apply mem_true in E2. right; left. eauto.
  - intros [?|[(o & Hin & Ho)|?]]; [done| |tauto]. left. exists (o, u). simpl.
    by rewrite seqb_refl, (proj2 (mem_true _ _) Ho).
Qed.

(** Scopes fail closed and are canonical. The zero value and the scope of no
    organizations match nothing, a scope matches nothing exactly when it permits
    no row, the allowlist is the set of non-empty ids given, sorted and without
    duplicates, and two allowlists of the same set are the same scope. *)
Theorem OrgScope_fail_closed :
  MatchesNothing OrgScope_zero = true /\ MatchesNothing (OrgScopeOrganizations []) = true /\
  (forall s, constructed s -> (MatchesNothing s = true <-> forall o, PermitsOrganization s o = false)) /\
  (forall ids o, PermitsOrganization (OrgScopeOrganizations ids) o = true <-> o <> "" /\ In o ids) /\
  (forall ids, List.NoDup (OrganizationIDs (OrgScopeOrganizations ids)) /\
     Sorted (fun a b => String.leb a b = true) (OrganizationIDs (OrgScopeOrganizations ids))) /\
  (forall ids ids', (forall x, In x ids <-> In x ids') ->
     OrgScopeOrganizations ids = OrgScopeOrganizations ids').
Proof.
  assert (Hperm : forall ids o, PermitsOrganization (OrgScopeOrganizations ids) o = true <-> o <> "" /\ In o ids).
  { intros ids o. unfold PermitsOrganization. change (all (OrgScopeOrganizations ids)) with false.
    destruct (o =s "") eqn:E; [apply seqb_true in E; simpl; naive_solver|]. apply seqb_false in E.
    fold (mem o (orgIDs (OrgScopeOrganizations ids))). rewrite mem_true, in_orgIDs. tauto. }
  split; [done|]. split; [done|]. split; [|split; [done|split]].
  - intros s Hs. split.
    + intros H o. destruct (decide (o = "")) as [->|Hne].
      * pose proof (admits_Permits s None Hs ltac:(done)) as E. simpl in E. rewrite <- E.
        by apply MatchesNothing_admits.
      * pose proof (admits_Permits s (Some o) Hs ltac:(congruence)) as E. simpl in E. rewrite <- E.
        by apply MatchesNothing_admits.
    + intros H. pose proof (constructed_no_empty s Hs) as Hn.
      unfold MatchesNothing, PermitsOrganization in *. destruct (all s); [by specialize (H "")|].
      pose proof (H "") as H0. rewrite seqb_refl in H0. rewrite H0.
      destruct (orgIDs s) as [|i l]; [done|]. specialize (H i).
      rewrite (proj2 (seqb_false i "")) in H by (intros ->; apply Hn; by left).
      simpl in H. by rewrite seqb_refl in H.
  - intros ids. split; [apply sort_strings_nodup, nodup_clean_ids|].
    apply sort_by_sorted, String.leb_total.
  - intros ids ids' H. unfold OrgScopeOrganizations. f_equal. apply sort_strings_canonical.
    apply NoDup_Permutation; [apply NoDup_ListNoDup, nodup_clean_ids..|].
    intros x. rewrite !list_elem_of_In, !in_clean_ids, H. tauto.
Qed.

(** ** Witnesses *)

Lemma OrgScope_SQL_PermitsOrganization_witness :
  let (query', args') := andScope "SELECT id FROM t WHERE id = $1"
      (OrgScopeOrganizationsAndUnowned ["b"; "a"; "b"]) "organization_id" [ArgValue (Some "k1")] in
  exists p, query' = "SELECT id FROM t WHERE id = $1" +:+ " AND " +:+ render p /\ render p <> "" /\
    length args' <= length [ArgValue (Some "k1")] + 1 /\
    firstn (length [ArgValue (Some "k1")]) args' = [ArgValue (Some "k1")] /\
    selects (fun _ => Some "a") [] args' p =
      PermitsOrganization (OrgScopeOrganizationsAndUnowned ["b"; "a"; "b"]) "a".
Proof.
  apply (OrgScope_SQL_PermitsOrganization (OrgScopeOrganizationsAndUnowned ["b"; "a"; "b"])
           "SELECT id FROM t WHERE id = $1" "organization_id" [ArgValue (Some "k1")] (fun _ => Some "a") []).
  - apply constructed_unowned, constructed_orgs.
  - discriminate.
Defined.

Lemma membershipSQL_selects_witness :
  let (query', args') := andMembershipScope "SELECT id FROM users WHERE id = $1"
      (OrgScopeOrganizations ["o1"]) "users.id" [ArgValue (Some "u1")] in
  exists p, query' = "SELECT id FROM users WHERE id = $1" +:+ " AND " +:+ render p /\
    (selects (fun _ => Some "u1") [("o1", "u1")] args' p = true <->
     all (OrgScopeOrganizations ["o1"]) = true \/
     (exists o, In (o, "u1") [("o1", "u1")] /\ In o (orgIDs (OrgScopeOrganizations ["o1"]))) \/
     (unowned (OrgScopeOrganizations ["o1"]) = true /\ forall o, ~ In (o, "u1") [("o1", "u1")])).
Proof.
  apply (membershipSQL_selects (OrgScopeOrganizations ["o1"]) "SELECT id FROM users WHERE id = $1"
           "users.id" [ArgValue (Some "u1")] (fun _ => Some "u1") [("o1", "u1")] "u1").
  reflexivity.
Defined.

Example OrgScope_SQL_text :
  fst (andScope "q" (OrgScopeOrganizationsAndUnowned ["b"; "a"]) "al.organization_id" [ArgInt 1; ArgInt 2])
    = "q AND (al.organization_id = ANY($3) OR al.organization_id IS NULL)".
Proof. reflexivity. Qed.
