(* ===== verification/PgxParam.v ===== *)
(** * PgxParam: identity/pgxparam/pgxparam.go

    The argument converter a mocked driver is given so that it accepts what the store
    binds: the string list of the tenant predicate, which both real drivers encode.

    An argument is what reflection sees of it: nil, a byte slice, another slice (whether
    its elements are bytes, and whether it converts itself, a driver.Valuer), or a value
    of another kind with what database/sql makes of it. *)

From S2P Require Import Prelude OrgScope.

Inductive any :=
| Nil
| Bytes (b : string)
| Slice (bytes_elem : bool) (b : string) (valuer : option (result any))
| Strings (l : list string)
| Other (converted : result any).

(** [driver.DefaultParameterConverter.ConvertValue]: a value of the driver's own as it is, a
    Valuer by its method, and of the slices only those of bytes. *)
Definition DefaultParameterConverter (v : any) : result any :=
  match v with
  | Nil | Bytes _ => Ok v
  | Slice _ _ (Some r) => r
  | Slice true b None => Ok (Bytes b)
  | Slice false _ None | Strings _ => Err (Plain "unsupported type: a slice")
  | Other r => r
  end.

(** [reflect.TypeOf(v).Kind() == reflect.Slice] *)
Definition is_slice (v : any) : bool :=
  match v with Bytes _ | Slice _ _ _ | Strings _ => true | Nil | Other _ => false end.
Definition is_bytes (v : any) : bool := match v with Bytes _ => true | _ => false end.
Definition is_nil (v : any) : bool := match v with Nil => true | _ => false end.

Definition ConvertValue (v : any) : result any :=
  if negb (is_bytes v) && negb (is_nil v) && is_slice v then Ok v else DefaultParameterConverter v.

(** The argument of the tenant predicate, which database/sql alone refuses, passes as it
    is; nothing database/sql accepts is refused; and what is no slice, or is a []byte, converts as
    database/sql converts it. *)
Lemma ConvertValue_accepts v :
  (forall l, v = Strings l -> ConvertValue v = Ok v /\ is_ok (DefaultParameterConverter v) = false) /\
  (is_ok (DefaultParameterConverter v) = true -> is_ok (ConvertValue v) = true) /\
  (is_slice v = false \/ is_bytes v = true -> ConvertValue v = DefaultParameterConverter v).
Proof.
  split; [by intros l ->|]. split; [by destruct v|]. by intros [H|H]; destruct v.
Qed.

(** Not only slices database/sql would refuse are passed through: a named byte slice and a
    slice that converts itself are accepted there, and here they reach the driver unconverted. *)
Example accepted_slices_pass_unconverted :
  DefaultParameterConverter (Slice true "{}" None) = Ok (Bytes "{}") /\ ConvertValue (Slice true "{}" None) = Ok (Slice true "{}" None) /\
  DefaultParameterConverter (Slice false "" (Some (Ok (Bytes "{a}")))) = Ok (Bytes "{a}") /\
  ConvertValue (Slice false "" (Some (Ok (Bytes "{a}")))) = Ok (Slice false "" (Some (Ok (Bytes "{a}")))).
Proof. done. Qed.
