(* ===== verification/Db.v ===== *)
(** * Db: the identity schema

    The tables of identity/migrations the repositories read and write, as lists
    of rows, with the statements' effects: row selection, deletion with its
    cascades, insertion and update with the constraints that refuse them. A
    statement refused by a constraint is an error carrying its SQLSTATE. *)

From S2P Require Import Prelude Order Scopes Models OrgScope.

(** ** Rows *)

(** A JSONB column read into a [[]string]: an array of strings, the JSON null,
    or any other document. *)
Inductive jsonb := JArray (l : list string) | JNull | JOther.

Definition json_Unmarshal (j : jsonb) : result (list string) :=
  match j with
  | JArray l => Ok l
  | JNull => Ok []
  | JOther => Err (Plain "json: cannot unmarshal into Go value of type []string")
  end.

Definition json_Marshal (scopes : list string) : jsonb := JArray scopes.

Record KeyRow := {
  k_id : string; k_user_id : option string; k_organization_id : string; k_name : string;
  k_description : option string; k_key_hash : string; k_key_prefix : string; k_scopes : jsonb;
  k_expires_at : option Z; k_last_used_at : option Z; k_expiry_notification_sent_at : option Z;
  k_created_at : Z
}.

Record TemplateRow := {
  t_id : string; t_name : string; t_display_name : string; t_description : option string;
  t_scopes : jsonb; t_is_system : bool; t_created_at : Z; t_updated_at : Z
}.

Record RevokedRow := { r_jti : string; r_user_id : string; r_expires_at : Z }.

Record DB := MkDB {
  organizations : list Organization;
  users : list User;
  role_templates : list TemplateRow;
  organization_members : list OrganizationMember;
  api_keys : list KeyRow;
  revoked_tokens : list RevokedRow
}.

Definition set_members l d := MkDB (organizations d) (users d) (role_templates d) l (api_keys d) (revoked_tokens d).
Definition set_keys l d := MkDB (organizations d) (users d) (role_templates d) (organization_members d) l (revoked_tokens d).
Definition set_orgs l d := MkDB l (users d) (role_templates d) (organization_members d) (api_keys d) (revoked_tokens d).
Definition set_users l d := MkDB (organizations d) l (role_templates d) (organization_members d) (api_keys d) (revoked_tokens d).
Definition set_templates l d := MkDB (organizations d) (users d) l (organization_members d) (api_keys d) (revoked_tokens d).
Definition set_revoked l d := MkDB (organizations d) (users d) (role_templates d) (organization_members d) (api_keys d) l.

(** ** Constraint errors *)

Definition unique_violation : error := Sentinel "SQLSTATE 23505".
Definition foreign_key_violation : error := Sentinel "SQLSTATE 23503".

(** ** Statements *)

Definition rows_del {A} (p : A -> bool) (l : list A) : list A := List.filter (fun x => negb (p x)) l.
Definition rows_upd {A} (p : A -> bool) (f : A -> A) (l : list A) : list A :=
  List.map (fun x => if p x then f x else x) l.
Definition rows_count {A} (p : A -> bool) (l : list A) : nat := length (List.filter p l).

Definition org_exists (d : DB) (id : string) : bool := existsb (fun o => o_ID o =s id) (organizations d).
Definition user_exists (d : DB) (id : string) : bool := existsb (fun u => u_ID u =s id) (users d).
Definition template_exists (d : DB) (id : string) : bool := existsb (fun t => t_id t =s id) (role_templates d).
Definition opt_ok (f : string -> bool) (v : option string) : bool :=
  match v with Some x => f x | None => true end.

(** DELETE FROM organization_members WHERE p *)
Definition delete_members (p : OrganizationMember -> bool) (d : DB) : result (nat * DB) :=
  Ok (rows_count p (organization_members d), set_members (rows_del p (organization_members d)) d).

(** UPDATE organization_members SET role_template_id = v WHERE p *)
Definition set_role (v : option string) (m : OrganizationMember) : OrganizationMember :=
  {| m_OrganizationID := m_OrganizationID m; m_UserID := m_UserID m; m_RoleTemplateID := v; m_CreatedAt := m_CreatedAt m |}.

Definition update_member_role (p : OrganizationMember -> bool) (v : option string) (d : DB) : result (nat * DB) :=
  if (rows_count p (organization_members d) =? 0)%nat then Ok (O, d)
  else if opt_ok (template_exists d) v
  then Ok (rows_count p (organization_members d), set_members (rows_upd p (set_role v) (organization_members d)) d)
  else Err foreign_key_violation.

(** INSERT INTO organization_members ... UNIQUE(organization_id, user_id) *)
Definition same_member (o u : string) (m : OrganizationMember) : bool :=
  (m_OrganizationID m =s o) && (m_UserID m =s u).

Definition insert_member (m : OrganizationMember) (d : DB) : result (nat * DB) :=
  if existsb (same_member (m_OrganizationID m) (m_UserID m)) (organization_members d) then Err unique_violation
  else if org_exists d (m_OrganizationID m) && user_exists d (m_UserID m) && opt_ok (template_exists d) (m_RoleTemplateID m)
  then Ok (1%nat, set_members (organization_members d ++ [m]) d)
  else Err foreign_key_violation.

(** api_keys *)
Definition delete_keys (p : KeyRow -> bool) (d : DB) : result (nat * DB) :=
  Ok (rows_count p (api_keys d), set_keys (rows_del p (api_keys d)) d).

(** Updates of columns other than the identifiers. *)
Definition update_keys (p : KeyRow -> bool) (f : KeyRow -> KeyRow) (d : DB) : result (nat * DB) :=
  Ok (rows_count p (api_keys d), set_keys (rows_upd p f (api_keys d)) d).

Definition insert_key (k : KeyRow) (d : DB) : result (nat * DB) :=
  if existsb (fun k' => k_id k' =s k_id k) (api_keys d) then Err unique_violation
  else if org_exists d (k_organization_id k) && opt_ok (user_exists d) (k_user_id k)
  then Ok (1%nat, set_keys (api_keys d ++ [k]) d)
  else Err foreign_key_violation.

(** organizations: ON DELETE CASCADE from organization_members and api_keys. *)
Definition delete_orgs (p : Organization -> bool) (d : DB) : result (nat * DB) :=
  let gone := fun id => existsb (fun o => p o && (o_ID o =s id)) (organizations d) in
  Ok (rows_count p (organizations d),
      set_keys (rows_del (fun k => gone (k_organization_id k)) (api_keys d))
        (set_members (rows_del (fun m => gone (m_OrganizationID m)) (organization_members d))
          (set_orgs (rows_del p (organizations d)) d))).

(** [f] keeps the id; the name it sets must not be another row's. *)
Definition update_orgs (p : Organization -> bool) (f : Organization -> Organization) (d : DB) : result (nat * DB) :=
  let l := rows_upd p f (organizations d) in
  if bool_decide (NoDup (List.map o_Name l)) then Ok (rows_count p (organizations d), set_orgs l d)
  else Err unique_violation.

Definition insert_org (o : Organization) (d : DB) : result (Organization * DB) :=
  if existsb (fun o' => (o_ID o' =s o_ID o) || (o_Name o' =s o_Name o)) (organizations d) then Err unique_violation
  else Ok (o, set_orgs (organizations d ++ [o]) d).

(** users: ON DELETE CASCADE from organization_members, api_keys and
    revoked_tokens (migration 000007 made the api_keys one a cascade). *)
Definition delete_users (p : User -> bool) (d : DB) : result (nat * DB) :=
  let gone := fun id => existsb (fun u => p u && (u_ID u =s id)) (users d) in
  Ok (rows_count p (users d),
      set_revoked (rows_del (fun r => gone (r_user_id r)) (revoked_tokens d))
        (set_keys (rows_del (fun k => match k_user_id k with Some u => gone u | None => false end) (api_keys d))
          (set_members (rows_del (fun m => gone (m_UserID m)) (organization_members d))
            (set_users (rows_del p (users d)) d)))).

(** UNIQUE email and UNIQUE oidc_sub, NULLs distinct. *)
Definition subs_of (l : list User) : list string :=
  List.flat_map (fun u => match u_OIDCSub u with Some s => [s] | None => [] end) l.

Definition users_unique (l : list User) : bool :=
  bool_decide (NoDup (List.map u_Email l)) && bool_decide (NoDup (subs_of l)).

(** [f] keeps the id. *)
Definition update_users (p : User -> bool) (f : User -> User) (d : DB) : result (nat * DB) :=
  let l := rows_upd p f (users d) in
  if users_unique l then Ok (rows_count p (users d), set_users l d) else Err unique_violation.

Definition insert_user (u : User) (d : DB) : result (nat * DB) :=
  if existsb (fun u' => u_ID u' =s u_ID u) (users d) then Err unique_violation
  else if users_unique (users d ++ [u]) then Ok (1%nat, set_users (users d ++ [u]) d)
  else Err unique_violation.

(** INSERT INTO users ... ON CONFLICT (oidc_sub) DO NOTHING *)
Definition insert_user_ignoring_sub (u : User) (d : DB) : result (nat * DB) :=
  if existsb (fun u' => match u_OIDCSub u with Some s => col_is (u_OIDCSub u') s | None => false end) (users d)
  then Ok (O, d) else insert_user u d.

(** role_templates: ON DELETE SET NULL from organization_members. *)
Definition delete_templates (p : TemplateRow -> bool) (d : DB) : result (nat * DB) :=
  let gone := fun id => existsb (fun t => p t && (t_id t =s id)) (role_templates d) in
  Ok (rows_count p (role_templates d),
      set_members (rows_upd (fun m => match m_RoleTemplateID m with Some t => gone t | None => false end)
                            (set_role None) (organization_members d))
        (set_templates (rows_del p (role_templates d)) d)).

(** [f] keeps the id and the name. *)
Definition update_templates (p : TemplateRow -> bool) (f : TemplateRow -> TemplateRow) (d : DB) : result (nat * DB) :=
  Ok (rows_count p (role_templates d), set_templates (rows_upd p f (role_templates d)) d).

Definition insert_template (t : TemplateRow) (d : DB) : result (nat * DB) :=
  if existsb (fun t' => (t_id t' =s t_id t) || (t_name t' =s t_name t)) (role_templates d) then Err unique_violation
  else Ok (1%nat, set_templates (role_templates d ++ [t]) d).

(** INSERT INTO revoked_tokens ... ON CONFLICT (jti) DO NOTHING *)
Definition insert_revoked (r : RevokedRow) (d : DB) : result (nat * DB) :=
  if existsb (fun r' => r_jti r' =s r_jti r) (revoked_tokens d) then Ok (O, d)
  else if user_exists d (r_user_id r) then Ok (1%nat, set_revoked (revoked_tokens d ++ [r]) d)
  else Err foreign_key_violation.

Definition delete_revoked (p : RevokedRow -> bool) (d : DB) : result (nat * DB) :=
  Ok (rows_count p (revoked_tokens d), set_revoked (rows_del p (revoked_tokens d)) d).

(** ** Errors of the store (errors.go, sqlxdb.go) *)

Definition ErrNotFound : error := Sentinel "store: not found".
Definition notFound (what : string) : error := Wrap what ErrNotFound.
Definition is_not_found (e : error) : bool := errors_Is e "store: not found".

(** ** The connection

    The process state [St] an operation runs over holds the identity schema and
    whatever else the application keeps on the same connection or in memory (its
    own tables, a repository's cache). A repository reaches the schema through
    this interface. *)
Class HasDB (St : Type) := {
  the_db : St -> DB;
  put_db : DB -> St -> St;
  the_put : forall d s, the_db (put_db d s) = d;
  put_the : forall s, put_db (the_db s) s = s;
  put_put : forall d d' s, put_db d (put_db d' s) = put_db d s
}.

#[export] Instance DB_HasDB : HasDB DB.
Proof. refine {| the_db := fun d => d; put_db := fun d _ => d |}; done. Defined.

Section Connection.
Context {St : Type} `{HasDB St}.

Definition on_db {A} (f : DB -> result (A * DB)) (s : St) : result (A * St) :=
match f (the_db s) with
| Ok (a, d) => Ok (a, put_db d s)
| Err e => Err e
end.

(** [ExecContext], [QueryContext] and [QueryRowContext(...).Scan]: the last
  reads the first row, or reports sql.ErrNoRows ([None]). *)
Definition exec {A} (f : DB -> result (A * DB)) : M St A := stmt (on_db f).
Definition select {A} (f : DB -> A) : M St A := query (fun s => f (the_db s)).
Definition select_row {A} (f : DB -> list A) : M St (option A) := select (fun d => head (f d)).

(** A statement's [sql.Result] is its row count; a failure to read it is the
  fault of the statement. *)
Definition requireRow (n : nat) (what : string) : M St unit :=
if (n =? 0)%nat then throw (notFound what) else mret tt.

Definition affectedRows (n : nat) : M St Z := mret (Z.of_nat n).

Lemma exec_inv {A} (f : DB -> result (A * DB)) w r w' :
exec f w = (r, w') ->
frame w w' /\
((exists a d, r = Ok a /\ f (the_db (db_seen w)) = Ok (a, d) /\ w_db w' = put_db d (db_seen w)) \/
 (exists e, r = Err e /\ w_db w' = db_seen w)).
Proof.
intros Hx. apply stmt_inv in Hx as [Hf [(a & -> & E)|?]]; (split; [done|]); [left|by right].
unfold on_db in E. destruct (f _) as [[a' d]|]; [|done]. injection E as -> <-. eauto.
Qed.

Lemma select_inv {A} (f : DB -> A) w r w' :
select f w = (r, w') ->
frame w w' /\ (r = Ok (f (the_db (db_seen w))) \/ exists e, r = Err e) /\ w_db w' = db_seen w.
Proof. intros Hx. by apply query_inv in Hx. Qed.

Lemma select_Ok {A} msg (f : DB -> A) w a w' :
  wrapping msg (select f) w = (Ok a, w') ->
  a = f (the_db (db_seen w)) /\ frame w w' /\ w_db w' = db_seen w.
Proof.
  intros Hx. apply wrapping_Ok, select_inv in Hx as (Hf & Hr & Hd). split; [|done].
  destruct Hr as [Hr|[e Hr]]; congruence.
Qed.

Lemma exec_Ok {A} msg (f : DB -> result (A * DB)) w a w' :
  wrapping msg (exec f) w = (Ok a, w') ->
  exists d, f (the_db (db_seen w)) = Ok (a, d) /\ frame w w' /\ w_db w' = put_db d (db_seen w).
Proof.
  intros Hx. apply wrapping_Ok, exec_inv in Hx as (Hf & Hr). 
  destruct Hr as [(a' & d & Hr & E & Hd)|[e [Hr _]]]; [|done]. injection Hr as ->. eauto.
Qed.

(** The driver never reports the store's own sentinel. *)
Lemma tick_fault (w : world St) e w' : tick w = (Err e, w') -> exists msg, e = Plain msg.
Proof. unfold tick. repeat case_match; intros [=]; subst; eauto. Qed.

Lemma select_fault {A} (f : DB -> A) w e w' : select f w = (Err e, w') -> is_not_found e = false.
Proof.
  unfold select, query, stmt. intros Hx. apply bind_inv in Hx as [(u & w1 & _ & E)|(e' & E & [= ->])].
  - by injection E.
  - by apply tick_fault in E as [msg ->].
Qed.

Lemma exec_quiet {A} (f : DB -> result (A * DB)) w :
w_sched w = [] ->
exec f w = match f (the_db (w_db w)) with
           | Ok (a, d) => (Ok a, set_db (put_db d (w_db w)) w)
           | Err e => (Err e, w)
           end.
Proof.
intros E. unfold exec. rewrite stmt_quiet by done. unfold on_db.
by destruct (f (the_db (w_db w))) as [[a d]|e].
Qed.

Lemma select_quiet {A} (f : DB -> A) w :
w_sched w = [] -> select f w = (Ok (f (the_db (w_db w))), w).
Proof. intros E. unfold select, query. rewrite stmt_quiet by done. by destruct w. Qed.

(** A relation on the schema, read on the process state. *)
Definition over_db (R : DB -> DB -> Prop) : St -> St -> Prop := fun s s' => R (the_db s) (the_db s').

#[export] Instance over_db_preorder R `{!PreOrder R} : PreOrder (over_db R).
Proof. split; [by intros s; unfold over_db|]. intros a b c. unfold over_db. by transitivity (the_db b). Qed.

Lemma evolves_exec {A} R `{!PreOrder R} (f : DB -> result (A * DB)) :
(forall d a d', f d = Ok (a, d') -> R d d') -> evolves (over_db R) (exec f).
Proof.
intros Hf. apply evolves_stmt; [apply _|]. intros s a s' E. unfold on_db in E.
destruct (f (the_db s)) as [[a' d]|] eqn:Ef; [|done]. injection E as -> <-.
unfold over_db. rewrite the_put. by eapply Hf.
Qed.

Lemma evolves_select {A} R `{!PreOrder R} (f : DB -> A) : evolves (over_db R) (select f).
Proof. apply evolves_query, _. Qed.

Lemma evolves_requireRow R `{!PreOrder R} n what : evolves R (requireRow n what).
Proof. unfold requireRow. case_match; eauto with evolve. Qed.

Lemma requireRow_inv n what w r w' :
requireRow n what w = (r, w') -> w' = w /\ ((r = Ok tt /\ n <> 0%nat) \/ (r = Err (notFound what) /\ n = 0%nat)).
Proof.
unfold requireRow. destruct (n =? 0)%nat eqn:E; intros [= <- <-]; (split; [done|]).
- apply Nat.eqb_eq in E. by right.
- apply Nat.eqb_neq in E. by left.
Qed.
End Connection.

#[export] Hint Resolve evolves_select evolves_requireRow over_db_preorder : evolve.

(** The membership pairs a users-table predicate ranges over. *)
Definition member_pairs (d : DB) : list (string * string) :=
  List.map (fun m => (m_OrganizationID m, m_UserID m)) (organization_members d).
