(* ===== verification/DbRel.v ===== *)
(** * DbRel: relations on the schema

    The schema's invariant [db_wf] (primary keys, unique columns, foreign keys)
    and the relation [agree_outside] (nothing outside a tenant scope has changed),
    with the lemmas saying which statements keep them. Repositories compose these
    through [evolves]. *)

From S2P Require Import Prelude Models OrgScope Db.

(** ** Row lists *)

Lemma in_rows_del {A} (p : A -> bool) x l : In x (rows_del p l) <-> In x l /\ p x = false.
Proof. unfold rows_del. by rewrite filter_In, negb_true_iff. Qed.

Lemma in_rows_upd {A} (p : A -> bool) f x l :
  In x (rows_upd p f l) <-> exists y, In y l /\ x = if p y then f y else y.
Proof. unfold rows_upd. rewrite in_map_iff. naive_solver. Qed.

Lemma map_rows_upd {A B} (g : A -> B) (p : A -> bool) f l :
  (forall x, g (f x) = g x) -> List.map g (rows_upd p f l) = List.map g l.
Proof.
  intros H. unfold rows_upd. rewrite map_map. apply map_ext. intros x. by destruct (p x).
Qed.

Lemma NoDup_map_filter {A B} (g : A -> B) (p : A -> bool) l :
  NoDup (List.map g l) -> NoDup (List.map g (List.filter p l)).
Proof.
  induction l as [|x l IH]; simpl; [done|]. rewrite NoDup_cons. intros [Hx Hl].
  destruct (p x); simpl; [|by apply IH]. constructor; [|by apply IH].
  intros Hin. apply Hx. rewrite list_elem_of_In, in_map_iff in *.
  destruct Hin as (y & <- & Hy). apply filter_In in Hy as [Hy _]. eauto.
Qed.

Lemma NoDup_map_snoc {A B} (g : A -> B) x l :
  NoDup (List.map g l) -> (forall y, In y l -> g y <> g x) -> NoDup (List.map g (l ++ [x])).
Proof.
  intros Hl Hx. rewrite map_app. apply NoDup_app. split; [done|]. split; [|apply NoDup_singleton].
  intros b Hb Hs. simpl in Hs. apply list_elem_of_singleton in Hs as ->.
  apply list_elem_of_In, in_map_iff in Hb as (y & E & Hy). by apply (Hx y Hy).
Qed.

Lemma existsb_none {A} (p : A -> bool) l : existsb p l = false <-> forall x, In x l -> p x = false.
Proof.
  split; [|apply existsb_false]. intros H x Hx. apply not_true_iff_false. intros E.
  apply not_true_iff_false in H. apply H. rewrite existsb_exists. eauto.
Qed.

Lemma NoDup_subs_filter (p : User -> bool) l : NoDup (subs_of l) -> NoDup (subs_of (List.filter p l)).
Proof.
  unfold subs_of. induction l as [|x l IH]; simpl; [done|]. intros H.
  apply NoDup_app in H as (Hx & Hd & Hl). destruct (p x); simpl; [|by apply IH].
  apply NoDup_app. split; [done|]. split; [|by apply IH]. intros y Hy Hin.
  apply (Hd y Hy). rewrite list_elem_of_In, in_flat_map in *.
  destruct Hin as (z & Hz & ?). apply filter_In in Hz as [Hz _]. eauto.
Qed.

(** Two rows of a table with the same value in a unique column are one row. *)
Lemma NoDup_map_inj {A B} (g : A -> B) l x y :
  NoDup (List.map g l) -> In x l -> In y l -> g x = g y -> x = y.
Proof.
  induction l as [|z l IH]; simpl; [done|]. rewrite NoDup_cons, list_elem_of_In, in_map_iff.
  intros [Hz Hl] [->|Hx] [->|Hy] E; [done| | |by apply IH].
  - destruct Hz. eauto.
  - destruct Hz. eauto.
Qed.

(** ** The schema invariant *)

Record db_wf (d : DB) : Prop := {
  wf_orgs : NoDup (List.map o_ID (organizations d));
  wf_org_names : NoDup (List.map o_Name (organizations d));
  wf_users : NoDup (List.map u_ID (users d));
  wf_emails : NoDup (List.map u_Email (users d));
  wf_subs : NoDup (subs_of (users d));
  wf_templates : NoDup (List.map t_id (role_templates d));
  wf_template_names : NoDup (List.map t_name (role_templates d));
  wf_members : NoDup (List.map (fun m => (m_OrganizationID m, m_UserID m)) (organization_members d));
  wf_keys : NoDup (List.map k_id (api_keys d));
  wf_jtis : NoDup (List.map r_jti (revoked_tokens d));
  fk_member_org : forall m, In m (organization_members d) -> org_exists d (m_OrganizationID m) = true;
  fk_member_user : forall m, In m (organization_members d) -> user_exists d (m_UserID m) = true;
  fk_member_template : forall m, In m (organization_members d) ->
    opt_ok (template_exists d) (m_RoleTemplateID m) = true;
  fk_key_org : forall k, In k (api_keys d) -> org_exists d (k_organization_id k) = true;
  fk_key_user : forall k, In k (api_keys d) -> opt_ok (user_exists d) (k_user_id k) = true;
  fk_revoked_user : forall r, In r (revoked_tokens d) -> user_exists d (r_user_id r) = true
}.

Definition keeps_wf (d d' : DB) : Prop := db_wf d -> db_wf d'.

#[export] Instance keeps_wf_preorder : PreOrder keeps_wf.
Proof. split; [by intros ??|]. intros a b c. unfold keeps_wf. auto. Qed.

(** A row that survives a deletion still finds the row it refers to. *)
Lemma exists_after_del {A} (key : A -> string) (p : A -> bool) l id :
  existsb (fun o => key o =s id) l = true ->
  existsb (fun o => p o && (key o =s id)) l = false ->
  existsb (fun o => key o =s id) (rows_del p l) = true.
Proof.
  rewrite !existsb_exists, existsb_none. intros (o & Ho & E) Hg. exists o.
  split; [|done]. apply in_rows_del. split; [done|]. specialize (Hg o Ho). rewrite E in Hg.
  by rewrite andb_true_r in Hg.
Qed.

Lemma exists_after_upd {A} (key : A -> string) (p : A -> bool) f l id :
  (forall x, key (f x) = key x) ->
  existsb (fun o => key o =s id) (rows_upd p f l) = existsb (fun o => key o =s id) l.
Proof.
  intros H. unfold rows_upd. induction l as [|x l IH]; simpl; [done|]. rewrite IH.
  destruct (p x); [by rewrite H|done].
Qed.

Lemma exists_after_snoc {A} (key : A -> string) x l id :
  existsb (fun o => key o =s id) l = true -> existsb (fun o => key o =s id) (l ++ [x]) = true.
Proof. rewrite existsb_app. by intros ->. Qed.

Create HintDb wf.
Create HintDb isolation.
#[export] Hint Resolve NoDup_map_filter NoDup_subs_filter exists_after_snoc : wf.

Lemma delete_members_wf p d a d' : delete_members p d = Ok (a, d') -> keeps_wf d d'.
Proof.
  unfold delete_members. intros E Hwf. simplify_eq/=. destruct Hwf. constructor; simpl; try assumption.
  - by apply NoDup_map_filter.
  - intros m [Hm _]%in_rows_del. by apply fk_member_org0.
  - intros m [Hm _]%in_rows_del. by apply fk_member_user0.
  - intros m [Hm _]%in_rows_del. by apply fk_member_template0.
Qed.

Lemma update_member_role_wf p v d a d' : update_member_role p v d = Ok (a, d') -> keeps_wf d d'.
Proof.
  unfold update_member_role. intros E Hwf.
  destruct (_ =? _)%nat; [by injection E as _ <-|]. destruct (opt_ok _ v) eqn:Hv; [|done].
  injection E as _ <-. destruct Hwf. constructor; simpl; try assumption.
  - by rewrite map_rows_upd.
  - intros m (m' & Hm & ->)%in_rows_upd. destruct (p m'); exact (fk_member_org0 m' Hm).
  - intros m (m' & Hm & ->)%in_rows_upd. destruct (p m'); exact (fk_member_user0 m' Hm).
  - intros m (m' & Hm & ->)%in_rows_upd. destruct (p m'); [done|by apply fk_member_template0].
Qed.

Lemma insert_member_wf m d a d' : insert_member m d = Ok (a, d') -> keeps_wf d d'.
Proof.
  unfold insert_member. intros E Hwf.
  destruct (existsb _ _) eqn:Hs; [done|]. destruct (_ && _ && _) eqn:Hfk; [|done].
  rewrite !andb_true_iff in Hfk. destruct Hfk as [[Ho Hu] Ht]. simplify_eq/=.
  destruct Hwf. constructor; simpl; try assumption.
  - apply NoDup_map_snoc; [done|]. intros y Hy [= E1 E2].
    pose proof (proj1 (existsb_none _ _) Hs y Hy) as Hs'. unfold same_member in Hs'.
    by rewrite E1, E2, !seqb_refl in Hs'.
  - intros m' [Hm| [<-|[]]]%in_app_iff; [by apply fk_member_org0|done].
  - intros m' [Hm| [<-|[]]]%in_app_iff; [by apply fk_member_user0|done].
  - intros m' [Hm| [<-|[]]]%in_app_iff; [by apply fk_member_template0|done].
Qed.

Lemma delete_keys_wf p d a d' : delete_keys p d = Ok (a, d') -> keeps_wf d d'.
Proof.
  intros [= _ <-] Hwf. destruct Hwf. constructor; simpl; try assumption.
  - by apply NoDup_map_filter.
  - intros k [Hk _]%in_rows_del. by apply fk_key_org0.
  - intros k [Hk _]%in_rows_del. by apply fk_key_user0.
Qed.

(** An update of the columns no key or constraint mentions. *)
Definition same_key_ids (f : KeyRow -> KeyRow) : Prop :=
  forall k, k_id (f k) = k_id k /\ k_user_id (f k) = k_user_id k /\ k_organization_id (f k) = k_organization_id k.

Lemma update_keys_wf p f d a d' : same_key_ids f -> update_keys p f d = Ok (a, d') -> keeps_wf d d'.
Proof.
  intros Hf [= _ <-] Hwf. destruct Hwf. constructor; simpl; try assumption.
  - rewrite map_rows_upd; [done|]. apply Hf.
  - intros k (k' & Hk & ->)%in_rows_upd. destruct (p k'); [|by apply fk_key_org0].
    destruct (Hf k') as (_ & _ & ->). by apply fk_key_org0.
  - intros k (k' & Hk & ->)%in_rows_upd. destruct (p k'); [|by apply fk_key_user0].
    destruct (Hf k') as (_ & -> & _). by apply fk_key_user0.
Qed.

Lemma insert_key_wf k d a d' : insert_key k d = Ok (a, d') -> keeps_wf d d'.
Proof.
  unfold insert_key. intros E Hwf.
  destruct (existsb _ _) eqn:Hs; [done|]. destruct (_ && _) eqn:Hfk; [|done].
  rewrite !andb_true_iff in Hfk. destruct Hfk as [Ho Hu]. simplify_eq/=.
  destruct Hwf. constructor; simpl; try assumption.
  - apply NoDup_map_snoc; [done|]. intros y Hy Heq.
    pose proof (proj1 (existsb_none _ _) Hs y Hy) as Hs'. simpl in Hs'. by rewrite Heq, seqb_refl in Hs'.
  - intros k' [Hk| [<-|[]]]%in_app_iff; [by apply fk_key_org0|done].
  - intros k' [Hk| [<-|[]]]%in_app_iff; [by apply fk_key_user0|done].
Qed.

Lemma delete_orgs_wf p d a d' : delete_orgs p d = Ok (a, d') -> keeps_wf d d'.
Proof.
  intros [= _ <-] Hwf. destruct Hwf. constructor; simpl; try assumption; try by apply NoDup_map_filter.
  - intros m [Hm Hg]%in_rows_del. apply exists_after_del; [by apply fk_member_org0|done].
  - intros m [Hm _]%in_rows_del. by apply fk_member_user0.
  - intros m [Hm _]%in_rows_del. by apply fk_member_template0.
  - intros k [Hk Hg]%in_rows_del. apply exists_after_del; [by apply fk_key_org0|done].
  - intros k [Hk _]%in_rows_del. by apply fk_key_user0.
Qed.

Lemma update_orgs_wf p f d a d' :
  (forall o, o_ID (f o) = o_ID o) -> update_orgs p f d = Ok (a, d') -> keeps_wf d d'.
Proof.
  unfold update_orgs. intros Hf E Hwf. case_bool_decide; [|done]. simplify_eq/=.
  destruct Hwf. constructor; simpl; try assumption.
  - by rewrite map_rows_upd.
  - intros m Hm. unfold org_exists. simpl. rewrite exists_after_upd by done. by apply fk_member_org0.
  - intros k Hk. unfold org_exists. simpl. rewrite exists_after_upd by done. by apply fk_key_org0.
Qed.

Lemma insert_org_wf (o : Organization) d a d' : insert_org o d = Ok (a, d') -> keeps_wf d d'.
Proof.
  unfold insert_org. intros E Hwf. destruct (existsb _ _) eqn:Hs; [done|]. injection E as _ <-.
  assert (Hne : forall y, In y (organizations d) -> o_ID y <> o_ID o /\ o_Name y <> o_Name o).
  { intros y Hy. pose proof (proj1 (existsb_none _ _) Hs y Hy) as Hs'. simpl in Hs'.
    apply orb_false_iff in Hs' as [?%seqb_false ?%seqb_false]. done. }
  destruct Hwf. constructor; simpl; try assumption.
  - apply NoDup_map_snoc; [done|]. intros y Hy. by apply Hne.
  - apply NoDup_map_snoc; [done|]. intros y Hy. by apply Hne.
  - intros m Hm. apply exists_after_snoc. by apply fk_member_org0.
  - intros k Hk. apply exists_after_snoc. by apply fk_key_org0.
Qed.

Lemma opt_ok_after_del {A} (key : A -> string) (p : A -> bool) l v :
  opt_ok (fun id => existsb (fun o => key o =s id) l) v = true ->
  match v with Some id => existsb (fun o => p o && (key o =s id)) l | None => false end = false ->
  opt_ok (fun id => existsb (fun o => key o =s id) (rows_del p l)) v = true.
Proof. destruct v; simpl; [apply exists_after_del|done]. Qed.

Lemma opt_ok_mono (f g : string -> bool) v : (forall x, f x = true -> g x = true) -> opt_ok f v = true -> opt_ok g v = true.
Proof. destruct v; simpl; auto. Qed.

Lemma delete_users_wf p d a d' : delete_users p d = Ok (a, d') -> keeps_wf d d'.
Proof.
  intros [= _ <-] Hwf. destruct Hwf.
  constructor; simpl; try assumption; try by apply NoDup_map_filter.
  - by apply NoDup_subs_filter.
  - intros m [Hm _]%in_rows_del. by apply fk_member_org0.
  - intros m [Hm Hg]%in_rows_del. apply exists_after_del; [by apply fk_member_user0|done].
  - intros m [Hm _]%in_rows_del. by apply fk_member_template0.
  - intros k [Hk _]%in_rows_del. by apply fk_key_org0.
  - intros k [Hk Hg]%in_rows_del. apply opt_ok_after_del; [by apply fk_key_user0|done].
  - intros r [Hr Hg]%in_rows_del. apply exists_after_del; [by apply fk_revoked_user0|done].
Qed.

Lemma users_unique_true l : users_unique l = true <-> NoDup (List.map u_Email l) /\ NoDup (subs_of l).
Proof. unfold users_unique. by rewrite andb_true_iff, !bool_decide_eq_true. Qed.

Lemma update_users_wf p f d a d' :
  (forall u, u_ID (f u) = u_ID u) -> update_users p f d = Ok (a, d') -> keeps_wf d d'.
Proof.
  unfold update_users. intros Hf E Hwf. destruct (users_unique _) eqn:Hu; [|done].
  apply users_unique_true in Hu as [He Hs]. simplify_eq/=.
  assert (Hex : forall id, user_exists (set_users (rows_upd p f (users d)) d) id = user_exists d id).
  { intros id. by apply exists_after_upd. }
  destruct Hwf. constructor; simpl; try assumption.
  - by rewrite map_rows_upd.
  - intros m Hm. rewrite Hex. by apply fk_member_user0.
  - intros k Hk. eapply opt_ok_mono; [|by apply fk_key_user0]. intros x. by rewrite Hex.
  - intros r Hr. rewrite Hex. by apply fk_revoked_user0.
Qed.

Lemma insert_user_wf u d a d' : insert_user u d = Ok (a, d') -> keeps_wf d d'.
Proof.
  unfold insert_user. intros E Hwf. destruct (existsb _ _) eqn:Hs; [done|].
  destruct (users_unique _) eqn:Hu; [|done]. apply users_unique_true in Hu as [He Hsub]. simplify_eq/=.
  destruct Hwf. constructor; simpl; try assumption.
  - apply NoDup_map_snoc; [done|]. intros y Hy Heq.
    pose proof (proj1 (existsb_none _ _) Hs y Hy) as Hs'. simpl in Hs'. by rewrite Heq, seqb_refl in Hs'.
  - intros m Hm. apply exists_after_snoc. by apply fk_member_user0.
  - intros k Hk. eapply opt_ok_mono; [|by apply fk_key_user0]. intros x. apply exists_after_snoc.
  - intros r Hr. apply exists_after_snoc. by apply fk_revoked_user0.
Qed.

Lemma insert_user_ignoring_sub_wf u d a d' : insert_user_ignoring_sub u d = Ok (a, d') -> keeps_wf d d'.
Proof.
  unfold insert_user_ignoring_sub. case_match; [by intros [= _ <-] ?|apply insert_user_wf].
Qed.

Lemma delete_templates_wf p d a d' : delete_templates p d = Ok (a, d') -> keeps_wf d d'.
Proof.
  intros [= _ <-] Hwf. destruct Hwf.
  constructor; simpl; try assumption; try by apply NoDup_map_filter.
  - by rewrite map_rows_upd.
  - intros m (m' & Hm & ->)%in_rows_upd. case_match; exact (fk_member_org0 m' Hm).
  - intros m (m' & Hm & ->)%in_rows_upd. case_match; exact (fk_member_user0 m' Hm).
  - intros m (m' & Hm & ->)%in_rows_upd.
    destruct (match m_RoleTemplateID m' with Some _ => _ | None => _ end) eqn:Hg; [done|].
    apply opt_ok_after_del; [by apply fk_member_template0|done].
Qed.

Definition same_template_ids (f : TemplateRow -> TemplateRow) : Prop :=
  forall t, t_id (f t) = t_id t /\ t_name (f t) = t_name t.

Lemma update_templates_wf p f d a d' :
  same_template_ids f -> update_templates p f d = Ok (a, d') -> keeps_wf d d'.
Proof.
  intros Hf [= _ <-] Hwf. destruct Hwf. constructor; simpl; try assumption.
  - rewrite map_rows_upd; [done|]. apply Hf.
  - rewrite map_rows_upd; [done|]. apply Hf.
  - intros m Hm. eapply opt_ok_mono; [|by apply fk_member_template0]. intros x.
    unfold template_exists. simpl. rewrite exists_after_upd; [done|]. apply Hf.
Qed.

Lemma insert_template_wf t d a d' : insert_template t d = Ok (a, d') -> keeps_wf d d'.
Proof.
  unfold insert_template. intros E Hwf. destruct (existsb _ _) eqn:Hs; [done|]. simplify_eq/=.
  assert (Hne : forall y, In y (role_templates d) -> t_id y <> t_id t /\ t_name y <> t_name t).
  { intros y Hy. pose proof (proj1 (existsb_none _ _) Hs y Hy) as Hs'. simpl in Hs'.
    apply orb_false_iff in Hs' as [?%seqb_false ?%seqb_false]. done. }
  destruct Hwf. constructor; simpl; try assumption.
  - apply NoDup_map_snoc; [done|]. intros y Hy. by apply Hne.
  - apply NoDup_map_snoc; [done|]. intros y Hy. by apply Hne.
  - intros m Hm. eapply opt_ok_mono; [|by apply fk_member_template0]. intros x. apply exists_after_snoc.
Qed.

Lemma insert_revoked_wf r d a d' : insert_revoked r d = Ok (a, d') -> keeps_wf d d'.
Proof.
  unfold insert_revoked. intros E Hwf. destruct (existsb _ _) eqn:Hs; [by simplify_eq|].
  destruct (user_exists _ _) eqn:Hu; [|done]. simplify_eq/=.
  destruct Hwf. constructor; simpl; try assumption.
  - apply NoDup_map_snoc; [done|]. intros y Hy Heq.
    pose proof (proj1 (existsb_none _ _) Hs y Hy) as Hs'. simpl in Hs'. by rewrite Heq, seqb_refl in Hs'.
  - intros r' [Hr| [<-|[]]]%in_app_iff; [by apply fk_revoked_user0|done].
Qed.

Lemma delete_revoked_wf p d a d' : delete_revoked p d = Ok (a, d') -> keeps_wf d d'.
Proof.
  intros [= _ <-] Hwf. destruct Hwf. constructor; simpl; try assumption.
  - by apply NoDup_map_filter.
  - intros r [Hr _]%in_rows_del. by apply fk_revoked_user0.
Qed.

#[export] Hint Resolve delete_members_wf update_member_role_wf insert_member_wf delete_keys_wf insert_key_wf
  delete_orgs_wf insert_org_wf delete_users_wf insert_user_wf insert_user_ignoring_sub_wf
  delete_templates_wf insert_template_wf insert_revoked_wf delete_revoked_wf
  update_keys_wf update_orgs_wf update_users_wf update_templates_wf : wf.

(** ** Isolation *)

(** The rows a scope does not admit, and the tables a scoped statement of these
    repositories never writes, are the same in both. *)
Definition outside {A} (scope : OrgScope) (org : A -> string) (l : list A) : list A :=
  List.filter (fun x => negb (admits scope (Some (org x)))) l.

Record agree_outside (scope : OrgScope) (d d' : DB) : Prop := {
  out_orgs : outside scope o_ID (organizations d') = outside scope o_ID (organizations d);
  out_members : outside scope m_OrganizationID (organization_members d') =
                outside scope m_OrganizationID (organization_members d);
  out_keys : outside scope k_organization_id (api_keys d') = outside scope k_organization_id (api_keys d);
  out_users : users d' = users d;
  out_templates : role_templates d' = role_templates d;
  out_revoked : revoked_tokens d' = revoked_tokens d
}.

#[export] Instance agree_outside_preorder scope : PreOrder (agree_outside scope).
Proof.
  split; [by constructor|]. intros a b c [] []. constructor; congruence.
Qed.

Section Outside.
Context (scope : OrgScope).

Lemma outside_del {A} (org : A -> string) p l :
  (forall x, In x l -> p x = true -> admits scope (Some (org x)) = true) ->
  outside scope org (rows_del p l) = outside scope org l.
Proof.
  unfold outside, rows_del. induction l as [|x l IH]; intros Hp; simpl; [done|].
  rewrite <- IH by (intros; apply Hp; [by right|done]).
  destruct (p x) eqn:E; simpl; [|done].
  by rewrite (Hp x (or_introl eq_refl) E).
Qed.

Lemma outside_upd {A} (org : A -> string) p f l :
  (forall x, p x = true -> admits scope (Some (org x)) = true) -> (forall x, org (f x) = org x) ->
  outside scope org (rows_upd p f l) = outside scope org l.
Proof.
  unfold outside, rows_upd. intros Hp Hf. induction l as [|x l IH]; simpl; [done|]. rewrite IH.
  destruct (p x) eqn:E; [|done]. by rewrite Hf, (Hp x E).
Qed.

Lemma outside_snoc {A} (org : A -> string) x l :
  admits scope (Some (org x)) = true -> outside scope org (l ++ [x]) = outside scope org l.
Proof. unfold outside. rewrite List.filter_app. simpl. intros ->. by rewrite app_nil_r. Qed.

Lemma delete_members_out p d a d' :
  (forall m, p m = true -> admits scope (Some (m_OrganizationID m)) = true) ->
  delete_members p d = Ok (a, d') -> agree_outside scope d d'.
Proof. intros Hp [= _ <-]. constructor; try done. simpl. apply outside_del. auto. Qed.

Lemma update_member_role_out p v d a d' :
  (forall m, p m = true -> admits scope (Some (m_OrganizationID m)) = true) ->
  update_member_role p v d = Ok (a, d') -> agree_outside scope d d'.
Proof.
  unfold update_member_role. intros Hp E.
  destruct (_ =? _)%nat; [by injection E as _ <-|]. destruct (opt_ok _ v); [|done].
  injection E as _ <-. constructor; try done. simpl. by apply outside_upd.
Qed.

Lemma insert_member_out m d a d' :
  admits scope (Some (m_OrganizationID m)) = true -> insert_member m d = Ok (a, d') -> agree_outside scope d d'.
Proof.
  unfold insert_member. intros Hp E. destruct (existsb _ _); [done|].
  destruct (_ && _); [|done]. injection E as _ <-. constructor; try done.
  simpl. by apply outside_snoc.
Qed.

Lemma delete_keys_out p d a d' :
  (forall k, In k (api_keys d) -> p k = true -> admits scope (Some (k_organization_id k)) = true) ->
  delete_keys p d = Ok (a, d') -> agree_outside scope d d'.
Proof. intros Hp [= _ <-]. constructor; try done. simpl. by apply outside_del. Qed.

Lemma update_keys_out p f d a d' :
  (forall k, p k = true -> admits scope (Some (k_organization_id k)) = true) -> same_key_ids f ->
  update_keys p f d = Ok (a, d') -> agree_outside scope d d'.
Proof.
  intros Hp Hf [= _ <-]. constructor; try done. simpl. apply outside_upd; [done|]. apply Hf.
Qed.

Lemma insert_key_out k d a d' :
  admits scope (Some (k_organization_id k)) = true -> insert_key k d = Ok (a, d') -> agree_outside scope d d'.
Proof.
  unfold insert_key. intros Hp E. destruct (existsb _ _); [done|].
  destruct (_ && _); [|done]. injection E as _ <-. constructor; try done.
  simpl. by apply outside_snoc.
Qed.

(** The cascade of a deletion stays in the organizations deleted. *)
Lemma delete_orgs_out p d a d' :
  (forall o, p o = true -> admits scope (Some (o_ID o)) = true) ->
  delete_orgs p d = Ok (a, d') -> agree_outside scope d d'.
Proof.
  intros Hp [= _ <-].
  assert (Hg : forall id, existsb (fun o => p o && (o_ID o =s id)) (organizations d) = true ->
    admits scope (Some id) = true).
  { intros id (o & _ & [Ho E%seqb_true]%andb_prop)%existsb_exists. subst. by apply Hp. }
  constructor; try done; simpl; apply outside_del; auto.
Qed.

Lemma update_orgs_out p f d a d' :
  (forall o, p o = true -> admits scope (Some (o_ID o)) = true) -> (forall o, o_ID (f o) = o_ID o) ->
  update_orgs p f d = Ok (a, d') -> agree_outside scope d d'.
Proof.
  unfold update_orgs. intros Hp Hf E. case_bool_decide; [|done]. simplify_eq/=.
  constructor; try done. simpl. by apply outside_upd.
Qed.
End Outside.

#[export] Hint Resolve delete_members_out update_member_role_out insert_member_out delete_keys_out
  update_keys_out insert_key_out delete_orgs_out update_orgs_out : isolation.

(** ** Confinement

    What a scope sees of the schema: its organizations, their memberships and
    keys, and the tables that belong to no organization. *)
Definition inside {A} (scope : OrgScope) (org : A -> string) (l : list A) : list A :=
  List.filter (fun x => admits scope (Some (org x))) l.

Definition in_scope (scope : OrgScope) (d : DB) : DB :=
  set_orgs (inside scope o_ID (organizations d))
    (set_members (inside scope m_OrganizationID (organization_members d))
      (set_keys (inside scope k_organization_id (api_keys d)) d)).

Definition confine {St} `{HasDB St} (scope : OrgScope) (w : world St) : world St :=
  set_db (put_db (in_scope scope (the_db (w_db w))) (w_db w)) w.

(** A read answers from what the scope sees, and a mutation's answer depends on
    nothing else. *)
Definition reads_inside {St A} `{HasDB St} (scope : OrgScope) (m : M St A) : Prop :=
  forall w, w_sched w = [] -> snd (m w) = w /\ fst (m (confine scope w)) = fst (m w).

Definition answers_inside {St A} `{HasDB St} (scope : OrgScope) (m : M St A) : Prop :=
  forall w, w_sched w = [] -> fst (m (confine scope w)) = fst (m w).

Lemma filter_inside {A} scope (org : A -> string) q l :
  (forall x, q x = true -> admits scope (Some (org x)) = true) ->
  List.filter q (inside scope org l) = List.filter q l.
Proof.
  unfold inside. intros Hq. induction l as [|x l IH]; simpl; [done|].
  destruct (admits scope (Some (org x))) eqn:E; simpl; rewrite IH; [done|].
  destruct (q x) eqn:Eq; [|done]. by rewrite (Hq x Eq) in E.
Qed.

Lemma existsb_inside {A} scope (org : A -> string) q l :
  (forall x, q x = true -> admits scope (Some (org x)) = true) ->
  existsb q (inside scope org l) = existsb q l.
Proof.
  intros Hq. apply eq_true_iff_eq. rewrite !existsb_exists. unfold inside. split.
  - intros (x & [Hx _]%filter_In & E). eauto.
  - intros (x & Hx & E). exists x. rewrite filter_In. auto.
Qed.

Lemma confine_sched {St} `{HasDB St} scope (w : world St) : w_sched (confine scope w) = w_sched w.
Proof. done. Qed.

Lemma confine_db {St} `{HasDB St} scope (w : world St) : the_db (w_db (confine scope w)) = in_scope scope (the_db (w_db w)).
Proof. apply the_put. Qed.

Section Confined.
Context {St : Type} `{HasDB St} (scope : OrgScope).

Lemma reads_ret {A} (a : A) : reads_inside scope (mret a : M St A).
Proof. done. Qed.
Lemma reads_throw {A} e : reads_inside scope (throw e : M St A).
Proof. done. Qed.
Lemma reads_lift {A} (r : result A) : reads_inside scope (lift r : M St A).
Proof. done. Qed.

Lemma reads_bind {A B} (m : M St A) (k : A -> M St B) :
  reads_inside scope m -> (forall a, reads_inside scope (k a)) -> reads_inside scope (m ≫= k).
Proof.
  intros Hm Hk w E. pose proof (Hm w E) as [H1 H2].
  pose proof (Hm (confine scope w) E) as [H3 _].
  unfold mbind, M_bind. destruct (m w) as [r w1], (m (confine scope w)) as [r' w2]. simpl in *. subst.
  destruct r as [a|e]; [|done]. by apply Hk.
Qed.

Lemma reads_wrapping {A} msg (m : M St A) : reads_inside scope m -> reads_inside scope (wrapping msg m).
Proof.
  intros Hm w E. pose proof (Hm w E) as [H1 H2]. unfold wrapping, mapping_err.
  destruct (m w) as [[a|e] w1], (m (confine scope w)) as [[a'|e'] w2]; simpl in *; split; congruence.
Qed.

Lemma reads_try {A} (m : M St A) : reads_inside scope m -> reads_inside scope (try m).
Proof.
  intros Hm w E. pose proof (Hm w E) as [H1 H2]. unfold try.
  destruct (m w) as [r w1], (m (confine scope w)) as [r' w2]; simpl in *; split; congruence.
Qed.

Lemma reads_select {A} (f : DB -> A) : (forall d, f (in_scope scope d) = f d) -> reads_inside scope (select (St:=St) f).
Proof.
  intros Hf w E. rewrite !select_quiet by done. split; [done|]. simpl. by rewrite the_put, Hf.
Qed.

Lemma answers_exec {A B} (f : DB -> result (A * DB)) msg (k : A -> M St B) :
  (forall d, match f (in_scope scope d), f d with
             | Ok (a, _), Ok (a', _) => a = a'
             | Err e, Err e' => e = e'
             | _, _ => False end) ->
  (forall a w w', fst (k a w) = fst (k a w')) ->
  answers_inside scope (wrapping msg (exec (St:=St) f) ≫= k).
Proof.
  intros Hf Hk w E. specialize (Hf (the_db (w_db w))).
  unfold mbind, M_bind, wrapping, mapping_err. rewrite !exec_quiet by done. simpl. rewrite the_put.
  destruct (f (in_scope scope _)) as [[a d]|e], (f (the_db (w_db w))) as [[a' d']|e']; try done;
    subst; [apply Hk|done].
Qed.

Lemma answers_guard {A} (e : error) (m : M St A) :
  answers_inside scope m -> answers_inside scope (if MatchesNothing scope then throw e else m).
Proof. by destruct (MatchesNothing scope). Qed.

Lemma answers_bind_clock {A} (k : Z -> M St A) :
  (forall z, answers_inside scope (k z)) -> answers_inside scope (db_NOW ≫= k).
Proof. intros Hk w E. apply (Hk _ w E). Qed.
End Confined.

#[export] Hint Resolve reads_ret reads_throw reads_lift : confined.

(** [p x = true] where [p] has the scope's conjunct. *)
Ltac admitted :=
  intros; repeat match goal with H : _ = true |- _ => progress rewrite ?andb_true_iff in H end; tauto.
