(* ===== verification/OrganizationRepo.v ===== *)
(** * OrganizationRepo: identity/store/organization_repository.go, membership.go, like.go

    Organizations and memberships behind a tenant scope, the authority derivation
    ([GetUserMemberships], [GetUserScopesForOrg], [OrgScopeForUser]) and the cache
    of the default organization. A scoped statement's WHERE clause is the text of
    [OrgScope.andScope]; what it asks of a row is [admits]. *)

From S2P Require Import Prelude Order Scopes Models OrgScope Db DbRel.
From Stdlib Require Import Ascii.

(** ** SQL the accessors share *)

Definition newest {A} (at_ : A -> Z) (x y : A) : bool := (at_ y <=? at_ x)%Z.

(** LIMIT and OFFSET refuse a negative count. *)
Definition page {A} (limit offset : Z) (l : list A) : result (list A) :=
  if (limit <? 0)%Z then Err (Plain "LIMIT must not be negative")
  else if (offset <? 0)%Z then Err (Plain "OFFSET must not be negative")
  else Ok (firstn (Z.to_nat limit) (skipn (Z.to_nat offset) l)).

(** [strings.NewReplacer] over single bytes: one left-to-right pass. *)
Fixpoint escapeLikePattern (s : string) : string :=
  match s with
  | EmptyString => ""
  | String c s' =>
      if (c =? "\")%char || (c =? "%")%char || (c =? "_")%char
      then String "\" (String c (escapeLikePattern s'))
      else String c (escapeLikePattern s')
  end.

(** LIKE: [%] is any run of characters, [_] any one, [\] takes the next literally. *)
Definition like_char (c : ascii) (rest : string -> bool) (s : string) : bool :=
  match s with EmptyString => false | String d s' => (c =? d)%char && rest s' end.

Fixpoint like_run (rest : string -> bool) (s : string) : bool :=
  rest s || match s with EmptyString => false | String _ s' => like_run rest s' end.

Fixpoint like (p : string) : string -> bool :=
  match p with
  | EmptyString => fun s => s =s ""
  | String c p' =>
      if (c =? "%")%char then like_run (like p')
      else if (c =? "_")%char
      then fun s => match s with EmptyString => false | String _ s' => like p' s' end
      else if (c =? "\")%char
      then match p' with EmptyString => fun _ => false | String e p'' => like_char e (like p'') end
      else like_char c (like p')
  end.

(** ILIKE compares after the database's case folding, which acts per character. *)
Fixpoint smap (fold : ascii -> ascii) (s : string) : string :=
  match s with EmptyString => "" | String c s' => String (fold c) (smap fold s') end.

Definition ilike (fold : ascii -> ascii) (s p : string) : bool := like (smap fold p) (smap fold s).

(** ** The default organization's cache *)

Record OrgCache := {
  defaultOrgCache : option Organization;
  defaultOrgAt : Z;
  defaultOrgGen : Z
}.

(** The repository's memory beside the schema, reached without a statement. *)
Class HasOrgCache (St : Type) `{HasDB St} := {
  org_cache : St -> OrgCache;
  put_cache : OrgCache -> St -> St;
  cache_put : forall c s, org_cache (put_cache c s) = c;
  db_put_cache : forall c s, the_db (put_cache c s) = the_db s;
  cache_put_db : forall d s, org_cache (put_db d s) = org_cache s
}.

Definition second : Z := 1000000000.
Definition defaultOrgCacheTTL : Z := 60 * second.

(** ** Joins of membership.go *)

Definition template_of (d : DB) (id : option string) : option TemplateRow :=
  match id with Some i => find (fun t => t_id t =s i) (role_templates d) | None => None end.

(** COALESCE(rt.scopes, '[]'::jsonb) over the LEFT JOIN. *)
Definition template_scopes (d : DB) (id : option string) : jsonb :=
  match template_of d id with Some t => t_scopes t | None => JArray [] end.

Definition unmarshalRoleTemplateScopes (scopesJSON : jsonb) : result (list string) :=
  wrap_err "failed to parse scopes" (json_Unmarshal scopesJSON).

(** A row of [userMembershipColumns]: the struct and the encoded scopes. *)
Definition userMembershipRow (d : DB) (om : OrganizationMember) : UserMembership * jsonb :=
  ({| um_OrganizationID := m_OrganizationID om;
      um_OrganizationName :=
        match find (fun o => o_ID o =s m_OrganizationID om) (organizations d) with
        | Some o => o_Name o | None => "" end;
      um_RoleTemplateID := m_RoleTemplateID om;
      um_RoleTemplateName := option_map t_name (template_of d (m_RoleTemplateID om));
      um_RoleTemplateDisplayName := option_map t_display_name (template_of d (m_RoleTemplateID om));
      um_RoleTemplateScopes := [];
      um_CreatedAt := m_CreatedAt om |},
   template_scopes d (m_RoleTemplateID om)).

Definition with_scopes (m : UserMembership) (scopes : list string) : UserMembership :=
  {| um_OrganizationID := um_OrganizationID m; um_OrganizationName := um_OrganizationName m;
     um_RoleTemplateID := um_RoleTemplateID m; um_RoleTemplateName := um_RoleTemplateName m;
     um_RoleTemplateDisplayName := um_RoleTemplateDisplayName m;
     um_RoleTemplateScopes := scopes; um_CreatedAt := um_CreatedAt m |}.

Definition scanUserMembership (row : UserMembership * jsonb) : result UserMembership :=
  scopes ← unmarshalRoleTemplateScopes (snd row); Ok (with_scopes (fst row) scopes).

(** A row of [orgMemberWithUserColumns]. *)
Definition orgMemberWithUserRow (d : DB) (om : OrganizationMember) : OrganizationMemberWithUser * jsonb :=
  let u := find (fun u => u_ID u =s m_UserID om) (users d) in
  ({| mu_OrganizationID := m_OrganizationID om; mu_UserID := m_UserID om;
      mu_RoleTemplateID := m_RoleTemplateID om;
      mu_RoleTemplateName := option_map t_name (template_of d (m_RoleTemplateID om));
      mu_RoleTemplateDisplayName := option_map t_display_name (template_of d (m_RoleTemplateID om));
      mu_RoleTemplateScopes := []; mu_CreatedAt := m_CreatedAt om;
      mu_UserName := default "" (option_map u_Name u); mu_UserEmail := default "" (option_map u_Email u) |},
   template_scopes d (m_RoleTemplateID om)).

Definition scanOrgMemberWithUser (row : OrganizationMemberWithUser * jsonb) : result OrganizationMemberWithUser :=
  let (m, scopesJSON) := row in
  scopes ← unmarshalRoleTemplateScopes scopesJSON;
  Ok {| mu_OrganizationID := mu_OrganizationID m; mu_UserID := mu_UserID m;
        mu_RoleTemplateID := mu_RoleTemplateID m; mu_RoleTemplateName := mu_RoleTemplateName m;
        mu_RoleTemplateDisplayName := mu_RoleTemplateDisplayName m;
        mu_RoleTemplateScopes := scopes; mu_CreatedAt := mu_CreatedAt m;
        mu_UserName := mu_UserName m; mu_UserEmail := mu_UserEmail m |}.

Section Repository.
Context {St : Type} `{HasDB St}.

(** ** Organizations *)

Definition GetByName (name : string) (scope : OrgScope) : M St Organization :=
  if MatchesNothing scope then throw (notFound "organization by name")
  else
    row ← wrapping "failed to get organization" (select_row (fun d =>
      List.filter (fun o => (o_Name o =s name) && admits scope (Some (o_ID o))) (organizations d)));
    match row with None => throw (notFound "organization by name") | Some org => mret org end.

Definition GetByID (id : string) (scope : OrgScope) : M St Organization :=
  if MatchesNothing scope then throw (notFound "organization by id")
  else
    row ← wrapping "failed to get organization" (select_row (fun d =>
      List.filter (fun o => (o_ID o =s id) && admits scope (Some (o_ID o))) (organizations d)));
    match row with None => throw (notFound "organization by id") | Some org => mret org end.

Definition List_ (limit offset : Z) (scope : OrgScope) : M St (list Organization) :=
  if MatchesNothing scope then mret []
  else
    wrapping "failed to list organizations" (
      rows ← select (fun d => page limit offset (sort_by (newest o_CreatedAt)
        (List.filter (fun o => admits scope (Some (o_ID o))) (organizations d))));
      lift rows).

Definition Count (scope : OrgScope) : M St nat :=
  if MatchesNothing scope then mret O
  else
    wrapping "failed to count organizations" (select (fun d =>
      rows_count (fun o => admits scope (Some (o_ID o))) (organizations d))).

Definition Search (fold : ascii -> ascii) (query : string) (limit offset : Z) (scope : OrgScope)
    : M St (list Organization) :=
  if MatchesNothing scope then mret []
  else
    let searchPattern := "%" +:+ escapeLikePattern query +:+ "%" in
    wrapping "failed to search organizations" (
      rows ← select (fun d => page limit offset (sort_by (newest o_CreatedAt)
        (List.filter (fun o => (ilike fold (o_Name o) searchPattern || ilike fold (o_DisplayName o) searchPattern)
                               && admits scope (Some (o_ID o))) (organizations d))));
      lift rows).

(** ** Memberships *)

Definition AddMemberWithRoleTemplate (orgID userID : string) (roleTemplateID : option string) (scope : OrgScope)
    : M St unit :=
  if MatchesNothing scope then throw (notFound "organization by id")
  else
    now ← db_NOW;
    n ← wrapping "failed to add member" (exec (fun d =>
      if existsb (fun o => (o_ID o =s orgID) && admits scope (Some (o_ID o))) (organizations d)
      then insert_member {| m_OrganizationID := orgID; m_UserID := userID;
                            m_RoleTemplateID := roleTemplateID; m_CreatedAt := now |} d
      else Ok (O, d)));
    requireRow n "organization by id".

Definition lookupRoleTemplateID (roleTemplateName : string) : M St string :=
  row ← wrapping "failed to look up role template" (select_row (fun d =>
    List.map t_id (List.filter (fun t => t_name t =s roleTemplateName) (role_templates d))));
  match row with None => throw (Plain "role template not found") | Some id => mret id end.

Definition AddMemberWithParams (orgID userID roleTemplateName : string) (scope : OrgScope) : M St unit :=
  id ← lookupRoleTemplateID roleTemplateName;
  AddMemberWithRoleTemplate orgID userID (Some id) scope.

Definition member_where (orgID userID : string) (scope : OrgScope) (m : OrganizationMember) : bool :=
  same_member orgID userID m && admits scope (Some (m_OrganizationID m)).

Definition RemoveMember (orgID userID : string) (scope : OrgScope) : M St unit :=
  if MatchesNothing scope then throw (notFound "organization member")
  else
    n ← wrapping "failed to remove member" (exec (delete_members (member_where orgID userID scope)));
    requireRow n "organization member".

Definition UpdateMemberRoleTemplate (orgID userID : string) (roleTemplateID : option string) (scope : OrgScope)
    : M St unit :=
  if MatchesNothing scope then throw (notFound "organization member")
  else
    n ← wrapping "failed to update member role template"
          (exec (update_member_role (member_where orgID userID scope) roleTemplateID));
    requireRow n "organization member".

Definition UpdateMemberRole (orgID userID roleTemplateName : string) (scope : OrgScope) : M St unit :=
  id ← lookupRoleTemplateID roleTemplateName;
  UpdateMemberRoleTemplate orgID userID (Some id) scope.

Definition GetMember (orgID userID : string) (scope : OrgScope) : M St OrganizationMember :=
  if MatchesNothing scope then throw (notFound "organization member")
  else
    row ← wrapping "failed to get member" (select_row (fun d =>
      List.filter (member_where orgID userID scope) (organization_members d)));
    match row with None => throw (notFound "organization member") | Some member => mret member end.

Definition ListMembers (orgID : string) (scope : OrgScope) : M St (list OrganizationMember) :=
  if MatchesNothing scope then mret []
  else
    wrapping "failed to list members" (select (fun d => sort_by (newest m_CreatedAt)
      (List.filter (fun m => (m_OrganizationID m =s orgID) && admits scope (Some (m_OrganizationID m)))
                   (organization_members d)))).

Definition GetUserOrganizations (userID : string) (scope : OrgScope) : M St (list Organization) :=
  if MatchesNothing scope then mret []
  else
    wrapping "failed to get user organizations" (select (fun d => sort_by (newest o_CreatedAt)
      (List.flat_map (fun o => List.map (fun _ => o)
         (List.filter (fun m => (m_OrganizationID m =s o_ID o) && (m_UserID m =s userID)
                                && admits scope (Some (m_OrganizationID m))) (organization_members d)))
         (organizations d)))).

Definition CheckMembership (orgID userID : string) (scope : OrgScope) : M St (bool * option string) :=
  r ← try (GetMember orgID userID scope);
  match r with
  | Err e => if is_not_found e then mret (false, None) else throw e
  | Ok member => mret (true, m_RoleTemplateID member)
  end.

Definition GetMemberWithRole (orgID userID : string) (scope : OrgScope) : M St OrganizationMemberWithUser :=
  if MatchesNothing scope then throw (notFound "organization member")
  else
    row ← wrapping "failed to get member" (select_row (fun d =>
      List.map (orgMemberWithUserRow d) (List.filter (member_where orgID userID scope) (organization_members d))));
    match row with
    | None => throw (notFound "organization member")
    | Some row => lift (scanOrgMemberWithUser row)
    end.

Definition ListMembersWithUsers (orgID : string) (scope : OrgScope) : M St (list OrganizationMemberWithUser) :=
  if MatchesNothing scope then mret []
  else
    rows ← wrapping "failed to list members with users" (select (fun d =>
      List.map (orgMemberWithUserRow d) (sort_by (newest m_CreatedAt)
        (List.filter (fun m => (m_OrganizationID m =s orgID) && admits scope (Some (m_OrganizationID m)))
                     (organization_members d)))));
    lift (scan_all scanOrgMemberWithUser rows).

(** ** Authority derivation *)

Definition GetUserMemberships (userID : string) : M St (list UserMembership) :=
  rows ← wrapping "failed to get user memberships" (select (fun d =>
    List.map (userMembershipRow d) (sort_by (newest m_CreatedAt)
      (List.filter (fun m => m_UserID m =s userID) (organization_members d)))));
  lift (scan_all scanUserMembership rows).

Definition GetUserCombinedScopes (userID : string) : M St (list string) :=
  memberships ← GetUserMemberships userID;
  mret (distinct (flat_map um_RoleTemplateScopes memberships)).

Definition GetUserScopesForOrg (userID orgID : string) : M St (list string) :=
  r ← try (GetMemberWithRole orgID userID OrgScopeAllOrganizations);
  match r with
  | Err e => if is_not_found e then mret [] else throw e
  | Ok member => mret (distinct (mu_RoleTemplateScopes member))
  end.

Definition OrgScopeForUser (userID required : string) (rwPairs : ReadWritePairs) : M St OrgScope :=
  if userID =s "" then mret OrgScope_zero
  else
    memberships ← GetUserMemberships userID;
    mret (OrgScopeOrganizations (List.map um_OrganizationID
      (List.filter (fun m => HasScope (um_RoleTemplateScopes m) required rwPairs) memberships))).

(** DELETE ... RETURNING organization_id *)
Definition RemoveAllMembershipsForUser (userID : string) (scope : OrgScope) : M St OrgScope :=
  if MatchesNothing scope then mret OrgScope_zero
  else
    let p := fun m => (m_UserID m =s userID) && admits scope (Some (m_OrganizationID m)) in
    removed ← wrapping "failed to remove all memberships for user" (exec (fun d =>
      Ok (List.map m_OrganizationID (List.filter p (organization_members d)),
          set_members (rows_del p (organization_members d)) d)));
    mret (OrgScopeOrganizations removed).

(** ** Operations that touch the cache *)

Context `{!HasOrgCache St}.

Definition InvalidateDefaultOrgCache : M St unit :=
  poke (fun s =>
    let c := org_cache s in
    put_cache {| defaultOrgCache := None; defaultOrgAt := defaultOrgAt c;
                 defaultOrgGen := ((defaultOrgGen c + 1) mod 2 ^ 64)%Z |} s).

(** The refill commits only if no invalidation happened since the miss; other
    sessions may run between the query and the lock. *)
Definition refill (gen now : Z) (org : Organization) (s : St) : St :=
  if (defaultOrgGen (org_cache s) =? gen)%Z
  then put_cache {| defaultOrgCache := Some org; defaultOrgAt := now;
                    defaultOrgGen := defaultOrgGen (org_cache s) |} s
  else s.

Definition GetDefaultOrganization : M St Organization :=
  c ← peek org_cache;
  now ← time_Now;
  let miss :=
    org ← GetByName "default" OrgScopeAllOrganizations;
    preempt;;
    poke (refill (defaultOrgGen c) now org);;
    mret org in
  match defaultOrgCache c with
  | Some org => if (now - defaultOrgAt c <? defaultOrgCacheTTL)%Z then mret org else miss
  | None => miss
  end.

(** INSERT ... RETURNING id, created_at, updated_at; [gen] is the database's
    id default. *)
Definition Create (gen : nat -> string) (name displayName : string) : M St Organization :=
  id ← uuid_New gen;
  now ← db_NOW;
  org ← wrapping "failed to create organization" (exec (insert_org
    {| o_ID := id; o_Name := name; o_DisplayName := displayName; o_IdpType := None; o_IdpName := None;
       o_CreatedAt := now; o_UpdatedAt := now |}));
  InvalidateDefaultOrgCache;;
  mret org.

Definition org_where (orgID : string) (scope : OrgScope) (o : Organization) : bool :=
  (o_ID o =s orgID) && admits scope (Some (o_ID o)).

Definition Update (org : Organization) (scope : OrgScope) : M St unit :=
  if MatchesNothing scope then throw (notFound "organization by id")
  else
    now ← db_NOW;
    n ← wrapping "failed to update organization" (exec (update_orgs (org_where (o_ID org) scope) (fun o =>
      {| o_ID := o_ID o; o_Name := o_Name o; o_DisplayName := o_DisplayName org;
         o_IdpType := o_IdpType org; o_IdpName := o_IdpName org;
         o_CreatedAt := o_CreatedAt o; o_UpdatedAt := now |})));
    InvalidateDefaultOrgCache;;
    requireRow n "organization by id".

Definition Rename (orgID newName : string) (scope : OrgScope) : M St unit :=
  if MatchesNothing scope then throw (notFound "organization by id")
  else
    now ← db_NOW;
    n ← wrapping "rename organization" (exec (update_orgs (org_where orgID scope) (fun o =>
      {| o_ID := o_ID o; o_Name := newName; o_DisplayName := o_DisplayName o;
         o_IdpType := o_IdpType o; o_IdpName := o_IdpName o;
         o_CreatedAt := o_CreatedAt o; o_UpdatedAt := now |})));
    InvalidateDefaultOrgCache;;
    requireRow n "organization by id".

Definition Delete (orgID : string) (scope : OrgScope) : M St unit :=
  if MatchesNothing scope then throw (notFound "organization by id")
  else
    n ← wrapping "failed to delete organization" (exec (delete_orgs (org_where orgID scope)));
    InvalidateDefaultOrgCache;;
    requireRow n "organization by id".
End Repository.

(** ** Lemmas *)

Lemma member_where_admits orgID userID scope m :
  member_where orgID userID scope m = true -> admits scope (Some (m_OrganizationID m)) = true.
Proof. unfold member_where. by intros [_ ?]%andb_prop. Qed.

Lemma org_where_admits orgID scope o : org_where orgID scope o = true -> admits scope (Some (o_ID o)) = true.
Proof. unfold org_where. by intros [_ ?]%andb_prop. Qed.

Lemma same_member_true o u m : same_member o u m = true <-> m_OrganizationID m = o /\ m_UserID m = u.
Proof. unfold same_member. by rewrite andb_true_iff, !seqb_true. Qed.

#[export] Hint Resolve member_where_admits org_where_admits : isolation.

(** The role's scopes as the joins decode them. *)
Definition role_scopes (d : DB) (m : OrganizationMember) : result (list string) :=
  unmarshalRoleTemplateScopes (template_scopes d (m_RoleTemplateID m)).

Lemma scanUserMembership_Ok d m y :
  scanUserMembership (userMembershipRow d m) = Ok y <->
  exists ss, role_scopes d m = Ok ss /\ y = with_scopes (fst (userMembershipRow d m)) ss.
Proof.
  unfold scanUserMembership, role_scopes. simpl.
  destruct (unmarshalRoleTemplateScopes _) as [ss|e]; simpl; [|naive_solver].
  split; [intros [= <-]; eauto|]. by intros (ss' & [= <-] & ->).
Qed.

(** [GetUserMemberships] lists the user's memberships, all of them, or fails. *)
Lemma GetUserMemberships_Ok {St} `{HasDB St} userID (w : world St) l w' :
  GetUserMemberships userID w = (Ok l, w') ->
  let d := the_db (db_seen w) in
  (forall y, In y l -> exists m ss, In m (organization_members d) /\ m_UserID m = userID /\
     role_scopes d m = Ok ss /\ y = with_scopes (fst (userMembershipRow d m)) ss) /\
  (forall m, In m (organization_members d) -> m_UserID m = userID ->
     exists ss, role_scopes d m = Ok ss /\ In (with_scopes (fst (userMembershipRow d m)) ss) l).
Proof.
  intros Hx d. unfold GetUserMemberships in Hx. apply bind_Ok in Hx as (rows & w1 & Hs & Hl).
  apply select_Ok in Hs as (-> & _ & _). fold d in Hl. clearbody d. injection Hl as Hl _.
  apply scan_all_in in Hl as [Hl1 Hl2]. split.
  - intros y Hy. pose proof (Hl1 y Hy) as (x & Hx & E).
    apply in_map_iff in Hx as (m & <- & Hm). rewrite in_sort_by, filter_In, seqb_true in Hm.
    apply scanUserMembership_Ok in E as (ss & ? & ->). destruct Hm. eauto 6.
  - intros m Hm Hu. destruct (Hl2 (userMembershipRow d m)) as (y & Hy & E).
    { apply in_map. by rewrite in_sort_by, filter_In, seqb_true. }
    apply scanUserMembership_Ok in E as (ss & ? & ->). eauto.
Qed.

Lemma in_orgScope o ids : o <> "" ->
  PermitsOrganization (OrgScopeOrganizations ids) o = true <-> In o ids.
Proof.
  intros Hne. rewrite <- (admits_Permits _ (Some o)); [|constructor|congruence].
  rewrite admits_some, in_orgIDs. naive_solver.
Qed.

(** The organizations [OrgScopeForUser] lists: those where a membership of the user
    carries the required scope. *)
Lemma OrgScopeForUser_Ok {St} `{HasDB St} userID required rw (w : world St) sc w' :
  OrgScopeForUser userID required rw w = (Ok sc, w') -> userID <> "" ->
  let d := the_db (db_seen w) in
  (forall m, In m (organization_members d) -> m_UserID m = userID -> exists ss, role_scopes d m = Ok ss) /\
  exists ids, sc = OrgScopeOrganizations ids /\
    forall o, In o ids <->
      exists m ss, In m (organization_members d) /\ m_OrganizationID m = o /\ m_UserID m = userID /\
        role_scopes d m = Ok ss /\ HasScope ss required rw = true.
Proof.
  intros Hx Hu d. unfold OrgScopeForUser in Hx. apply seqb_false in Hu. rewrite Hu in Hx.
  apply bind_Ok in Hx as (ms & w1 & Hms & [= <- _]).
  apply GetUserMemberships_Ok in Hms as [Hsound Hall]. fold d in Hsound, Hall.
  split; [intros m Hm Hmu; destruct (Hall m Hm Hmu) as (ss & ? & _); eauto|]. eexists. split; [done|].
  intros o. rewrite in_map_iff. split.
  - intros (y & Hy & [Hin Hs]%filter_In). destruct (Hsound y Hin) as (m & ss & ? & ? & ? & ->). eauto 7.
  - intros (m & ss & Hm & Hmo & Hmu & Hss & Hs). destruct (Hall m Hm Hmu) as (ss' & Hss' & Hin).
    eexists. split; [|apply filter_In; split; [exact Hin|]]; [done|]. simpl. congruence.
Qed.

(** HasScope reads its list as a set. *)
Lemma HasScope_set rw l l' req : (forall s, In s l <-> In s l') -> HasScope l req rw = HasScope l' req rw.
Proof. intros Hs. apply eq_true_iff_eq. split; apply HasScope_mono; naive_solver. Qed.

(** The one membership row a pair can have. *)
Lemma member_unique d m m' : db_wf d ->
  In m (organization_members d) -> In m' (organization_members d) ->
  m_OrganizationID m = m_OrganizationID m' -> m_UserID m = m_UserID m' -> m = m'.
Proof. intros [] Hm Hm' E1 E2. eapply NoDup_map_inj; [exact wf_members| | |]; [done..|congruence]. Qed.

Lemma head_filter {A} (p : A -> bool) l x : head (List.filter p l) = Some x -> In x l /\ p x = true.
Proof.
  intros E. rewrite <- filter_In. destruct (List.filter p l); [done|]. injection E as ->. by left.
Qed.

Lemma head_filter_none {A} (p : A -> bool) l : head (List.filter p l) = None -> forall x, In x l -> p x = false.
Proof.
  intros E x Hx. apply not_true_iff_false. intros Hp.
  assert (In x (List.filter p l)) as H by by rewrite filter_In. by destruct (List.filter p l).
Qed.

Lemma all_admits col : admits OrgScopeAllOrganizations col = true.
Proof. done. Qed.

Section Facts.
Context {St : Type} `{HasDB St}.

(** [GetMemberWithRole] over every organization: the row it finds, decoded. *)
Lemma GetMemberWithRole_inv orgID userID (w : world St) r w' :
  GetMemberWithRole orgID userID OrgScopeAllOrganizations w = (r, w') ->
  let d := the_db (db_seen w) in
  (exists mu m ss, r = Ok mu /\ mu_RoleTemplateScopes mu = ss /\ In m (organization_members d) /\
     m_OrganizationID m = orgID /\ m_UserID m = userID /\ role_scopes d m = Ok ss) \/
  (r = Err (notFound "organization member") /\
     forall m, In m (organization_members d) -> ~ (m_OrganizationID m = orgID /\ m_UserID m = userID)) \/
  (exists e, r = Err e /\ is_not_found e = false /\ (w_sched w = [] ->
     exists m, In m (organization_members d) /\ m_OrganizationID m = orgID /\ m_UserID m = userID /\
       role_scopes d m = Err e)).
Proof.
  intros Hx d. unfold GetMemberWithRole in Hx. simpl in Hx.
  apply bind_inv in Hx as [(row & w1 & E1 & E2)|(e & E1 & ->)].
  - apply select_Ok in E1 as (-> & _ & _). fold d in E2. clearbody d.
    destruct (List.filter _ _) as [|m ms] eqn:Ef; simpl in E2.
    + right; left. injection E2 as <- <-. split; [done|]. intros m Hm Hp%same_member_true.
      assert (In m []) as []. rewrite <- Ef, filter_In. split; [done|]. unfold member_where. by rewrite Hp.
    + assert (In m (m :: ms)) as Hm by by left. rewrite <- Ef, filter_In in Hm.
      destruct Hm as [Hm [[Ho Hu]%same_member_true _]%andb_prop].
      injection E2 as <- <-. fold (role_scopes d m). destruct (role_scopes d m) as [ss|e] eqn:Er; simpl.
      * left. eexists _, m, ss. eauto 7.
      * right; right. exists e. split; [done|]. split; [|eauto]. revert Er.
        unfold role_scopes, unmarshalRoleTemplateScopes. by destruct (template_scopes _ _); intros [= <-].
  - right; right. exists e. split; [done|]. split.
    2: { intros Hq. unfold wrapping, mapping_err, select_row in E1. by rewrite select_quiet in E1. }
    apply wrapping_Err in E1 as (e0 & E1 & ->).
    change (is_not_found e0 = false). unfold select_row in E1. exact (select_fault _ _ _ _ E1).
Qed.

Lemma GetUserScopesForOrg_inv userID orgID (w : world St) r w' :
  GetUserScopesForOrg userID orgID w = (r, w') ->
  let d := the_db (db_seen w) in
  (exists m ss, r = Ok (distinct ss) /\ In m (organization_members d) /\ m_OrganizationID m = orgID /\
     m_UserID m = userID /\ role_scopes d m = Ok ss) \/
  (r = Ok [] /\ forall m, In m (organization_members d) -> ~ (m_OrganizationID m = orgID /\ m_UserID m = userID)) \/
  (exists e, r = Err e /\ is_not_found e = false /\ (w_sched w = [] ->
     exists m, In m (organization_members d) /\ m_OrganizationID m = orgID /\ m_UserID m = userID /\
       role_scopes d m = Err e)).
Proof.
  intros Hx d. unfold GetUserScopesForOrg in Hx.
  apply bind_try in Hx as (r0 & w1 & H1 & H2).
  apply GetMemberWithRole_inv in H1 as [(mu & m & ss & -> & <- & ? & ? & ? & ?)|[(-> & Hn)|(e & -> & He & Hq)]].
  - injection H2 as <- <-. left. eauto 8.
  - injection H2 as <- <-. right; left. eauto.
  - rewrite He in H2. injection H2 as <- <-. right; right. eauto.
Qed.

(** ** Properties *)

(** C27: the two authority derivations agree. On a well-formed schema nobody is
    writing, if [OrgScopeForUser] derives a scope for a user and a required scope,
    then in every organization [GetUserScopesForOrg] lists the user's scopes, and
    the derived tenant scope permits that organization exactly when the listed
    scopes grant the required one. Neither leaks a role held elsewhere: the
    listed scopes are those of the membership in that organization alone. The
    empty user id is given the scope that matches nothing. *)
Theorem authority_derivations_agree userID required rw (w : world St) sc w' :
  db_wf (the_db (w_db w)) -> w_sched w = [] ->
  OrgScopeForUser userID required rw w = (Ok sc, w') ->
  (userID = "" -> MatchesNothing sc = true) /\
  forall o, o <> "" -> userID <> "" -> exists l,
    fst (GetUserScopesForOrg userID o w) = Ok l /\
    PermitsOrganization sc o = HasScope l required rw /\
    (forall s, In s l -> exists m ss, In m (organization_members (the_db (w_db w))) /\
       m_OrganizationID m = o /\ m_UserID m = userID /\
       role_scopes (the_db (w_db w)) m = Ok ss /\ In s ss).
Proof.
  intros Hwf Hq Hx. split.
  { intros ->. by injection Hx as <- _. }
  intros o Ho Hu. apply OrgScopeForUser_Ok in Hx as (Hdec & ids & -> & Hids); [|done].
  destruct (GetUserScopesForOrg userID o w) as [r w2] eqn:E.
  apply GetUserScopesForOrg_inv in E. unfold db_seen in E, Hids, Hdec. rewrite Hq in E, Hids, Hdec.
  set (d := the_db (w_db w)) in *. clearbody d.
  pose proof (Hids o) as Hperm. rewrite <- in_orgScope in Hperm by done.
  destruct E as [(m & ss & -> & Hm & Hmo & Hmu & Hss)|[(-> & Hn)|(e & -> & He)]].
  - exists (distinct ss). split; [done|]. split.
    + apply eq_true_iff_eq. rewrite Hperm, (HasScope_set rw (distinct ss) ss) by (intros; apply in_distinct).
      split; [|by eauto 8]. intros (m' & ss' & Hm' & Hmo' & Hmu' & Hss' & Hs).
      assert (m' = m) as -> by (eapply member_unique; eauto; congruence). congruence.
    + intros s Hs. rewrite in_distinct in Hs. eauto 8.
  - exists []. split; [done|]. split; [|done]. rewrite HasScope_nil. apply not_true_iff_false.
    rewrite Hperm. intros (m & ss & Hm & Hmo & Hmu & _). by apply (Hn m Hm).
  - destruct He as [_ He]. destruct (He eq_refl) as (m & Hm & Hmo & Hmu & Hss).
    destruct (Hdec m Hm Hmu) as [ss ?]. congruence.
Qed.

(** What runs on the repository between two steps of another call. *)
Definition run_on {A} (m : M St A) (now dbnow : Z) (seed : nat) (s : St) : St := w_db (snd (m (quiet s now dbnow seed))).
End Facts.

(** ** Search patterns *)

Lemma sapp_cons c a b : String c a +:+ b = String c (a +:+ b).
Proof. done. Qed.

Lemma like_run_true rest s : like_run rest s = true <-> exists a b, s = a +:+ b /\ rest b = true.
Proof.
  induction s as [|c s IH]; simpl; rewrite orb_true_iff.
  - split; [intros [H|]; [|done]; by exists "", ""|]. intros (a & b & E & H). left.
    destruct a; [|done]. by change ("" +:+ b) with b in E; subst.
  - split.
    + intros [H|H]; [by exists "", (String c s)|]. apply IH in H as (a & b & -> & H).
      by exists (String c a), b.
    + intros (a & b & E & H). destruct a as [|c' a]; [left; by change ("" +:+ b) with b in E; subst|].
      right. rewrite sapp_cons in E. injection E as -> ->. apply IH. eauto.
Qed.

(** An escaped term consumes exactly itself. *)
Lemma like_escape q p s :
  like (escapeLikePattern q +:+ p) s = true <-> exists t, s = q +:+ t /\ like p t = true.
Proof.
  revert s. induction q as [|c q IH]; intros s.
  - change (escapeLikePattern "" +:+ p) with p. split; [by exists s|]. by intros (t & -> & H).
  - assert (Hc : forall s, like_char c (like (escapeLikePattern q +:+ p)) s = true <->
      exists t, s = String c q +:+ t /\ like p t = true).
    { intros [|d s']; simpl; [split; [done|]; by intros (t & E & _)|].
      rewrite andb_true_iff, Ascii.eqb_eq, IH. split.
      - intros [-> (t & -> & H)]. by exists t.
      - intros (t & E & H). rewrite sapp_cons in E. injection E as -> ->. eauto. }
    rewrite <- Hc. simpl escapeLikePattern.
    destruct (c =? "\")%char eqn:E1; [by apply Ascii.eqb_eq in E1 as ->|].
    destruct (c =? "%")%char eqn:E2; [by apply Ascii.eqb_eq in E2 as ->|].
    destruct (c =? "_")%char eqn:E3; [by apply Ascii.eqb_eq in E3 as ->|].
    simpl. by rewrite E1, E2, E3.
Qed.

Lemma smap_app fold a b : smap fold (a +:+ b) = smap fold a +:+ smap fold b.
Proof. induction a as [|c a IH]; [done|]. rewrite sapp_cons. simpl. by rewrite IH. Qed.

(** Folding that neither makes nor hides a metacharacter commutes with escaping. *)
Definition keeps_meta (fold : ascii -> ascii) : Prop :=
  forall m, In m ["\"; "%"; "_"]%char -> forall c, fold c = m <-> c = m.

Lemma smap_escape fold q : keeps_meta fold -> smap fold (escapeLikePattern q) = escapeLikePattern (smap fold q).
Proof.
  intros Hf. assert (Hm : forall m, In m ["\"; "%"; "_"]%char -> fold m = m) by (intros m Hm; by apply Hf).
  assert (He : forall c m, In m ["\"; "%"; "_"]%char -> (fold c =? m)%char = (c =? m)%char).
  { intros c m Hin. apply eq_true_iff_eq. rewrite !Ascii.eqb_eq. by apply Hf. }
  induction q as [|c q IH]; simpl; [done|]. rewrite !He by (simpl; tauto).
  destruct (_ || _ || _); simpl; rewrite IH; [|done]. by rewrite (Hm "\"%char) by (simpl; tauto).
Qed.

(** A search term is a substring, never a pattern: whatever metacharacters
    the caller's term holds, the ILIKE that [Search] builds from it selects a
    value exactly when the case-folded term occurs in the case-folded value. *)
Theorem escaped_search_is_substring fold query value :
  keeps_meta fold ->
  ilike fold value ("%" +:+ escapeLikePattern query +:+ "%") = true <->
  exists a b, smap fold value = a +:+ smap fold query +:+ b.
Proof.
  intros Hf. unfold ilike. rewrite !smap_app, smap_escape by done.
  assert (Hp : smap fold "%" = "%") by (simpl; f_equal; apply (Hf "%"%char); simpl; tauto).
  rewrite Hp. change ("%" +:+ escapeLikePattern (smap fold query) +:+ "%")
    with (String "%" (escapeLikePattern (smap fold query) +:+ "%")).
  change (like (String "%" (escapeLikePattern (smap fold query) +:+ "%")) (smap fold value))
    with (like_run (like (escapeLikePattern (smap fold query) +:+ "%")) (smap fold value)).
  rewrite like_run_true. split.
  - intros (a & b & E & H). apply like_escape in H as (t & -> & _). eauto.
  - intros (a & b & E). exists a, (smap fold query +:+ b). split; [done|]. apply like_escape.
    exists b. split; [done|]. apply like_run_true. exists b, "". split; [|done].
    clear. induction b as [|c b IH]; [done|]. by rewrite sapp_cons, <- IH.
Qed.

(** ** The cache under interleaving *)

Section Cache.
Context {St : Type} `{HasOrgCache St}.

Definition gen_of (s : St) : Z := defaultOrgGen (org_cache s).
Definition default_row (s : St) : option Organization :=
  head (List.filter (fun o => (o_Name o =s "default") && true) (organizations (the_db s))).

(** The operations that write the organization table through this repository. *)
Inductive org_write : M St unit -> Prop :=
| write_Create gen name displayName : org_write (Create gen name displayName;; mret tt)
| write_Update org scope : org_write (Update org scope)
| write_Rename id name scope : org_write (Rename id name scope)
| write_Delete id scope : org_write (Delete id scope).

Lemma invalidate_run (w : world St) :
  let w' := snd (InvalidateDefaultOrgCache w) in
  defaultOrgCache (org_cache (w_db w')) = None /\ gen_of (w_db w') = ((gen_of (w_db w) + 1) mod 2 ^ 64)%Z.
Proof. unfold InvalidateDefaultOrgCache, poke, gen_of. simpl. by rewrite cache_put. Qed.

(** A statement, then the invalidation, then the row count's verdict. *)
Lemma write_invalidates {A} msg (f : DB -> result (A * DB)) (k : A -> M St unit) (w w' : world St) :
  w_sched w = [] -> (forall a w1 w2, k a w1 = (Ok tt, w2) -> w_db w2 = w_db w1) ->
  (wrapping msg (exec f) ≫= fun a => InvalidateDefaultOrgCache;; k a) w = (Ok tt, w') ->
  defaultOrgCache (org_cache (w_db w')) = None /\ gen_of (w_db w') = ((gen_of (w_db w) + 1) mod 2 ^ 64)%Z.
Proof.
  intros Hq Hk Hx. apply bind_Ok in Hx as (a & w1 & H1 & H2).
  apply exec_Ok in H1 as (d & _ & _ & Hd). apply bind_Ok in H2 as (u & w2 & H2 & H3).
  apply Hk in H3. rewrite H3. pose proof (invalidate_run w1) as [E1 E2]. rewrite H2 in E1, E2. simpl in *.
  split; [done|]. rewrite E2. unfold gen_of. rewrite Hd, cache_put_db. unfold db_seen. by rewrite Hq.
Qed.

Lemma requireRow_db (n : nat) what (w1 w2 : world St) : requireRow n what w1 = (Ok tt, w2) -> w_db w2 = w_db w1.
Proof. intros Hx. by apply requireRow_inv in Hx as [-> _]. Qed.

Lemma org_write_invalidates m (w w' : world St) :
  org_write m -> w_sched w = [] -> m w = (Ok tt, w') ->
  defaultOrgCache (org_cache (w_db w')) = None /\ gen_of (w_db w') = ((gen_of (w_db w) + 1) mod 2 ^ 64)%Z.
Proof.
  intros Hm Hq. destruct Hm as [gen name dn|org scope|id name scope|id scope]; intros Hx.
  - apply bind_Ok in Hx as (o & w1 & Hc & [= <-]). unfold Create in Hc.
    apply bind_Ok in Hc as (i & w2 & [= <- <-] & Hc). apply bind_Ok in Hc as (n & w2 & [= <- <-] & Hc).
    apply bind_Ok in Hc as (o1 & w3 & Hc & Hc2). apply bind_Ok in Hc2 as (u & w4 & Hc2 & [= -> ->]).
    refine (write_invalidates "failed to create organization" _ (fun _ => mret tt)
      (set_seed (S (w_seed w)) w) w1 Hq _ _); [by intros ? ? ? [= <-]|].
    rewrite (bind_step _ _ _ _ _ Hc). by rewrite (bind_step _ _ _ _ _ Hc2).
  - unfold Update in Hx. destruct (MatchesNothing scope); [done|].
    apply (write_invalidates _ _ _ _ _ Hq (fun _ _ _ => requireRow_db _ _ _ _) Hx).
  - unfold Rename in Hx. destruct (MatchesNothing scope); [done|].
    apply (write_invalidates _ _ _ _ _ Hq (fun _ _ _ => requireRow_db _ _ _ _) Hx).
  - unfold Delete in Hx. destruct (MatchesNothing scope); [done|].
    apply (write_invalidates _ _ _ _ _ Hq (fun _ _ _ => requireRow_db _ _ _ _) Hx).
Qed.

(** A miss: no entry, or one past its time. *)
Definition misses (s : St) (now : Z) : Prop :=
  match defaultOrgCache (org_cache s) with
  | Some _ => (defaultOrgCacheTTL <= now - defaultOrgAt (org_cache s))%Z
  | None => True
  end.

Definition answer (row : option Organization) : result Organization :=
  match row with Some org => Ok org | None => Err (notFound "organization by name") end.

(** A miss with other work before the query and before the lock. *)
Lemma GetDefaultOrganization_miss s f1 f2 now dbnow seed :
  misses s now ->
  let s1 := f1 s in let s2 := f2 s1 in
  GetDefaultOrganization (World s [Event f1 None; Event f2 None] false now dbnow seed) =
  match default_row s1 with
  | Some org => (Ok org, World (refill (gen_of s) now org s2) [] false now dbnow seed)
  | None => (Err (notFound "organization by name"), World s1 [Event f2 None] false now dbnow seed)
  end.
Proof.
  intros Hm s1 s2. unfold GetDefaultOrganization, misses in *.
  unfold mbind at 1, M_bind at 1, peek at 1. cbn [w_db].
  unfold mbind at 1, M_bind at 1, time_Now at 1. cbn [w_now].
  match goal with |- context [match _ with Some org => if _ then _ else ?miss | None => _ end] => set (m := miss) end.
  assert (Hmiss : m (World s [Event f1 None; Event f2 None] false now dbnow seed) =
    match default_row s1 with
    | Some org => (Ok org, World (refill (gen_of s) now org s2) [] false now dbnow seed)
    | None => (Err (notFound "organization by name"), World s1 [Event f2 None] false now dbnow seed)
    end).
  { subst m. unfold GetByName. simpl.
    unfold mbind, M_bind, wrapping, mapping_err, select_row, select, query, stmt, mbind, M_bind, tick, apply_db. simpl.
    fold s1. unfold default_row. unfold admits. simpl.
    by destruct (head (List.filter _ (organizations (the_db s1)))). }
  destruct (defaultOrgCache (org_cache s)); [|done].
  destruct (_ <? _)%Z eqn:E; [apply Z.ltb_lt in E; lia|done].
Qed.

(** An in-flight refill cannot undo a write. A [GetDefaultOrganization] that
    missed, queried, and is overtaken before it takes the lock by a successful
    [Create], [Update], [Rename] or [Delete] on the same repository leaves the
    cache empty, and the next call, however soon, answers from the database as the
    write left it. *)
Theorem GetDefaultOrganization_no_stale_refill s before write now dbnow seed wnow wdbnow wseed now' dbnow' seed' :
  misses s now -> (0 <= gen_of s < 2 ^ 64)%Z -> gen_of (before s) = gen_of s -> default_row (before s) <> None ->
  org_write write -> fst (write (quiet (before s) wnow wdbnow wseed)) = Ok tt ->
  let written := run_on write wnow wdbnow wseed (before s) in
  let w' := snd (GetDefaultOrganization (World s
                   [Event before None; Event (run_on write wnow wdbnow wseed) None] false now dbnow seed)) in
  w_db w' = written /\ defaultOrgCache (org_cache written) = None /\
  fst (GetDefaultOrganization (quiet written now' dbnow' seed')) = answer (default_row written).
Proof.
  intros Hm Hg Hb Hd Hw Hok written w'.
  assert (Hinv : defaultOrgCache (org_cache written) = None /\ gen_of written = ((gen_of s + 1) mod 2 ^ 64)%Z).
  { unfold written, run_on. destruct (write _) as [r wr] eqn:E. simpl in Hok. subst r.
    apply org_write_invalidates in E as [H1 H2]; [|done..]. split; [done|]. simpl in *. congruence. }
  destruct Hinv as [Hc Hgen]. split; [|split; [done|]].
  - unfold w'. rewrite GetDefaultOrganization_miss by done.
    destruct (default_row (before s)) as [org|]; [|done]. simpl. fold written.
    unfold refill. fold (gen_of written). rewrite Hgen.
    destruct (_ =? _)%Z eqn:E; [|done]. exfalso. apply Z.eqb_eq in E.
    destruct (decide (gen_of s + 1 = 2 ^ 64)%Z) as [E'|E'].
    + rewrite E', Z.mod_same in E by lia. lia.
    + rewrite Z.mod_small in E by lia. lia.
  - unfold GetDefaultOrganization, GetByName. unfold mbind, M_bind, peek, time_Now. simpl. rewrite Hc.
    unfold wrapping, mapping_err, select_row. rewrite select_quiet by done. simpl. unfold default_row.
    change (fun o => (o_Name o =s "default") && admits OrgScopeAllOrganizations (Some (o_ID o)))
      with (fun o => (o_Name o =s "default") && true).
    by destruct (head _).
Qed.
End Cache.

(** ** Witnesses *)

(** A process that holds the schema and one repository's cache. *)
#[export] Instance pair_HasDB : HasDB (DB * OrgCache).
Proof. refine {| the_db := fst; put_db := fun d s => (d, snd s) |}; [done|by intros []|done]. Defined.

#[export] Instance pair_HasOrgCache : HasOrgCache (DB * OrgCache).
Proof. refine {| org_cache := snd; put_cache := fun c s => (fst s, c) |}; done. Defined.

Definition ex_org (id name : string) : Organization :=
  {| o_ID := id; o_Name := name; o_DisplayName := name; o_IdpType := None; o_IdpName := None;
     o_CreatedAt := 0; o_UpdatedAt := 0 |}.
Definition ex_user (id : string) : User :=
  {| u_ID := id; u_Email := id +:+ "@x"; u_Name := id; u_OIDCSub := None; u_CreatedAt := 0; u_UpdatedAt := 0 |}.
Definition ex_template (id : string) (scopes : list string) : TemplateRow :=
  {| t_id := id; t_name := id; t_display_name := id; t_description := None; t_scopes := JArray scopes;
     t_is_system := false; t_created_at := 0; t_updated_at := 0 |}.
Definition ex_member (o u : string) (r : option string) : OrganizationMember :=
  {| m_OrganizationID := o; m_UserID := u; m_RoleTemplateID := r; m_CreatedAt := 0 |}.

(** Two organizations; u1 administers o1 and reads in o2. *)
Definition ex_db : DB :=
  MkDB [ex_org "o1" "default"; ex_org "o2" "second"] [ex_user "u1"; ex_user "u2"]
    [ex_template "admins" ["admin"]; ex_template "readers" ["users:read"]]
    [ex_member "o1" "u1" (Some "admins"); ex_member "o2" "u1" (Some "readers"); ex_member "o2" "u2" None] [] [].

Lemma ex_db_wf : db_wf ex_db.
Proof.
  constructor; try (by apply (bool_decide_unpack _); vm_compute);
    simpl; intros x Hx; repeat (destruct Hx as [<-|Hx]; [reflexivity|]); destruct Hx.
Qed.

Definition ex_cache : OrgCache := {| defaultOrgCache := None; defaultOrgAt := 0; defaultOrgGen := 7 |}.

Lemma authority_derivations_agree_witness :
  ("u1" = "" -> MatchesNothing (OrgScopeOrganizations ["o1"]) = true) /\
  forall o, o <> "" -> "u1" <> "" -> exists l,
    fst (GetUserScopesForOrg "u1" o (quiet ex_db 0 0 0)) = Ok l /\
    PermitsOrganization (OrgScopeOrganizations ["o1"]) o = HasScope l "users:write" ∅ /\
    (forall s, In s l -> exists m ss, In m (organization_members (the_db (w_db (quiet ex_db 0 0 0)))) /\
       m_OrganizationID m = o /\ m_UserID m = "u1" /\ role_scopes (the_db (w_db (quiet ex_db 0 0 0))) m = Ok ss /\ In s ss).
Proof.
  apply (authority_derivations_agree "u1" "users:write" ∅ (quiet ex_db 0 0 0)
           (OrgScopeOrganizations ["o1"]) (quiet ex_db 0 0 0)).
  - exact ex_db_wf.
  - reflexivity.
  - vm_compute. reflexivity.
Defined.

Definition lower_ascii (c : ascii) : ascii :=
  let n := N_of_ascii c in
  if (N.leb 65 n && N.leb n 90)%N then ascii_of_N (n + 32) else c.

Lemma escaped_search_is_substring_witness :
  ilike lower_ascii "CPU at 50% load" ("%" +:+ escapeLikePattern "50%" +:+ "%") = true <->
  exists a b, smap lower_ascii "CPU at 50% load" = a +:+ smap lower_ascii "50%" +:+ b.
Proof.
  apply (escaped_search_is_substring lower_ascii "50%" "CPU at 50% load").
  intros m Hm c. destruct Hm as [<-|[<-|[<-|[]]]]; destruct c as [[] [] [] [] [] [] [] []];
    (split; intros E); first [reflexivity|discriminate E].
Defined.

Lemma GetDefaultOrganization_no_stale_refill_witness :
  let s : DB * OrgCache := (ex_db, ex_cache) in
  let write := Rename "o1" "renamed" OrgScopeAllOrganizations in
  let written := run_on write 5 5 0 s in
  let w' := snd (GetDefaultOrganization (World s
                   [Event (fun s => s) None; Event (run_on write 5 5 0) None] false 0 0 0)) in
  w_db w' = written /\ defaultOrgCache (org_cache written) = None /\
  fst (GetDefaultOrganization (quiet written 6 6 0)) = answer (default_row written).
Proof.
  apply (GetDefaultOrganization_no_stale_refill (ex_db, ex_cache) (fun s => s)
           (Rename "o1" "renamed" OrgScopeAllOrganizations) 0 0 0 5 5 0 6 6 0).
  - exact I.
  - vm_compute. split; [intros [=]|reflexivity].
  - reflexivity.
  - vm_compute. intros [=].
  - apply write_Rename.
  - vm_compute. reflexivity.
Defined.
