(* ===== verification/OrgCacheHeap.v ===== *)
(** * OrgCacheHeap: the aliasing of GetDefaultOrganization's cache
    (identity/store/organization_repository.go)

    OrganizationRepo keeps the cached organization as a value. In the code it is a
    pointer, to a struct with two pointers of its own, in a heap every goroutine of the
    process shares; callers keep and mutate what they are given. This file has the
    pointers, and shows that the heap system does nothing the value system does not:
    cloning on both ways in and out is what makes the value model right.

    The critical sections are single steps; a miss is three (the generation read, the
    row scanned, the refill), with anything in between. *)

From S2P Require Import Prelude Models Db OrganizationRepo.

(** ** The heap *)

Abbreviation loc := positive.

(** [models.Organization] as Go lays it out. *)
Record OrgStruct := {
  os_ID : string; os_Name : string; os_DisplayName : string;
  os_IdpType : option loc; os_IdpName : option loc;
  os_CreatedAt : Z; os_UpdatedAt : Z
}.

Inductive cell := OrgCell (o : OrgStruct) | Text (s : string).
Abbreviation heap := (gmap loc cell).

Definition text_at (h : heap) (q : loc) : string := match h !! q with Some (Text s) => s | _ => "" end.
Definition struct_at (h : heap) (p : loc) : OrgStruct :=
  match h !! p with Some (OrgCell o) => o | _ => {| os_ID := ""; os_Name := ""; os_DisplayName := ""; os_IdpType := None; os_IdpName := None; os_CreatedAt := 0; os_UpdatedAt := 0 |} end.

Definition value_of (h : heap) (o : OrgStruct) : Organization :=
  {| o_ID := os_ID o; o_Name := os_Name o; o_DisplayName := os_DisplayName o;
     o_IdpType := text_at h <$> os_IdpType o; o_IdpName := text_at h <$> os_IdpName o;
     o_CreatedAt := os_CreatedAt o; o_UpdatedAt := os_UpdatedAt o |}.
Definition read_org (h : heap) (p : loc) : Organization := value_of h (struct_at h p).

Definition alloc (c : cell) (h : heap) : loc * heap := let p := fresh (dom h) in (p, <[p := c]> h).

Definition with_idp (o : OrgStruct) (idpType idpName : option loc) : OrgStruct :=
  {| os_ID := os_ID o; os_Name := os_Name o; os_DisplayName := os_DisplayName o; os_IdpType := idpType; os_IdpName := idpName;
     os_CreatedAt := os_CreatedAt o; os_UpdatedAt := os_UpdatedAt o |}.

(** [if p != nil { v := *p; cp = &v }] *)
Definition clone_text (q : option loc) (h : heap) : option loc * heap :=
  match q with
  | None => (None, h)
  | Some q => let '(p, h) := alloc (Text (text_at h q)) h in (Some p, h)
  end.

Definition cloneOrganization (org : option loc) (h : heap) : option loc * heap :=
  match org with
  | None => (None, h)
  | Some p =>
      let cp := struct_at h p in
      let '(idpType, h) := clone_text (os_IdpType cp) h in
      let '(idpName, h) := clone_text (os_IdpName cp) h in
      let '(q, h) := alloc (OrgCell (with_idp cp idpType idpName)) h in
      (Some q, h)
  end.

(** [Scan] into a new struct: a NULL column leaves the pointer nil, any other value is new. *)
Definition scan_text (v : option string) (h : heap) : option loc * heap :=
  match v with None => (None, h) | Some s => let '(p, h) := alloc (Text s) h in (Some p, h) end.

Definition scan_org (row : Organization) (h : heap) : loc * heap :=
  let '(idpType, h) := scan_text (o_IdpType row) h in
  let '(idpName, h) := scan_text (o_IdpName row) h in
  alloc (OrgCell {| os_ID := o_ID row; os_Name := o_Name row; os_DisplayName := o_DisplayName row; os_IdpType := idpType;
                    os_IdpName := idpName; os_CreatedAt := o_CreatedAt row; os_UpdatedAt := o_UpdatedAt row |}) h.

Definition refs (c : cell) : gset loc :=
  match c with
  | OrgCell o => from_option singleton ∅ (os_IdpType o) ∪ from_option singleton ∅ (os_IdpName o)
  | Text _ => ∅
  end.

(** ** The system

    [known]: what the rest of the application can name. A miss in flight has the
    generation it read, then the struct it scanned. *)
Record sys := {
  s_heap : heap; s_cache : option loc; s_at : Z; s_gen : Z;
  s_flights : gmap nat (Z * option loc); s_known : gset loc
}.

Definition start : sys := {| s_heap := ∅; s_cache := None; s_at := 0; s_gen := 0; s_flights := ∅; s_known := ∅ |}.

Inductive label :=
| Hit (now : Z) (answer : Organization)
| Missed (i : nat) (now : Z)
| Scanned (i : nat) (row : Organization)
| Filled (i : nat) (now : Z) (answer : Organization)
| Failed (i : nat)
| Invalidated
| Elsewhere.

Definition fresh_enough (now at_ : Z) : bool := (now - at_ <? defaultOrgCacheTTL)%Z.

Inductive step (s : sys) : label -> sys -> Prop :=
| st_hit now p q h :
    s_cache s = Some p -> fresh_enough now (s_at s) = true -> cloneOrganization (Some p) (s_heap s) = (Some q, h) ->
    step s (Hit now (read_org h q))
      {| s_heap := h; s_cache := s_cache s; s_at := s_at s; s_gen := s_gen s; s_flights := s_flights s; s_known := {[q]} ∪ s_known s |}
| st_miss i now :
    (s_cache s = None \/ fresh_enough now (s_at s) = false) -> s_flights s !! i = None ->
    step s (Missed i now)
      {| s_heap := s_heap s; s_cache := s_cache s; s_at := s_at s; s_gen := s_gen s;
         s_flights := <[i := (s_gen s, None)]> (s_flights s); s_known := s_known s |}
| st_scan i gen row p h :
    s_flights s !! i = Some (gen, None) -> scan_org row (s_heap s) = (p, h) ->
    step s (Scanned i row)
      {| s_heap := h; s_cache := s_cache s; s_at := s_at s; s_gen := s_gen s;
         s_flights := <[i := (gen, Some p)]> (s_flights s); s_known := s_known s |}
| st_fill i gen now p c h :
    s_flights s !! i = Some (gen, Some p) -> s_gen s = gen -> cloneOrganization (Some p) (s_heap s) = (c, h) ->
    step s (Filled i now (read_org h p))
      {| s_heap := h; s_cache := c; s_at := now; s_gen := s_gen s; s_flights := delete i (s_flights s); s_known := {[p]} ∪ s_known s |}
| st_stale i gen now p :
    s_flights s !! i = Some (gen, Some p) -> s_gen s <> gen ->
    step s (Filled i now (read_org (s_heap s) p))
      {| s_heap := s_heap s; s_cache := s_cache s; s_at := s_at s; s_gen := s_gen s; s_flights := delete i (s_flights s);
         s_known := {[p]} ∪ s_known s |}
| st_fail i f :
    s_flights s !! i = Some f ->
    step s (Failed i)
      {| s_heap := s_heap s; s_cache := s_cache s; s_at := s_at s; s_gen := s_gen s; s_flights := delete i (s_flights s); s_known := s_known s |}
| st_invalidate :
    step s Invalidated
      {| s_heap := s_heap s; s_cache := None; s_at := s_at s; s_gen := ((s_gen s + 1) mod 2 ^ 64)%Z; s_flights := s_flights s; s_known := s_known s |}
| st_learn p c q :
    p ∈ s_known s -> s_heap s !! p = Some c -> q ∈ refs c ->
    step s Elsewhere
      {| s_heap := s_heap s; s_cache := s_cache s; s_at := s_at s; s_gen := s_gen s; s_flights := s_flights s; s_known := {[q]} ∪ s_known s |}
| st_write p c :
    p ∈ s_known s \/ s_heap s !! p = None -> refs c ⊆ s_known s ->
    step s Elsewhere
      {| s_heap := <[p := c]> (s_heap s); s_cache := s_cache s; s_at := s_at s; s_gen := s_gen s; s_flights := s_flights s;
         s_known := {[p]} ∪ s_known s |}.

Inductive exec : list label -> sys -> Prop :=
| exec_start : exec [] start
| exec_step ls s l s' : exec ls s -> step s l s' -> exec (ls ++ [l]) s'.

(** ** The value system: the operations of OrganizationRepo on a cache of values *)

Record vsys := { v_state : DB * OrgCache; v_flights : gmap nat (Z * option Organization) }.
Definition v_cache (v : vsys) : OrgCache := snd (v_state v).

Definition vstart (d : DB) : vsys :=
  {| v_state := (d, {| defaultOrgCache := None; defaultOrgAt := 0; defaultOrgGen := 0 |}); v_flights := ∅ |}.

Inductive vstep (v : vsys) : label -> vsys -> Prop :=
| vs_hit now org :
    defaultOrgCache (v_cache v) = Some org -> fresh_enough now (defaultOrgAt (v_cache v)) = true -> vstep v (Hit now org) v
| vs_miss i now :
    (defaultOrgCache (v_cache v) = None \/ fresh_enough now (defaultOrgAt (v_cache v)) = false) -> v_flights v !! i = None ->
    vstep v (Missed i now) {| v_state := v_state v; v_flights := <[i := (defaultOrgGen (v_cache v), None)]> (v_flights v) |}
| vs_scan i gen row :
    v_flights v !! i = Some (gen, None) ->
    vstep v (Scanned i row) {| v_state := v_state v; v_flights := <[i := (gen, Some row)]> (v_flights v) |}
| vs_fill i gen now row :
    v_flights v !! i = Some (gen, Some row) ->
    vstep v (Filled i now row) {| v_state := refill gen now row (v_state v); v_flights := delete i (v_flights v) |}
| vs_fail i f :
    v_flights v !! i = Some f -> vstep v (Failed i) {| v_state := v_state v; v_flights := delete i (v_flights v) |}
| vs_invalidate now dbnow seed :
    vstep v Invalidated {| v_state := w_db (snd (InvalidateDefaultOrgCache (quiet (v_state v) now dbnow seed))); v_flights := v_flights v |}
| vs_elsewhere : vstep v Elsewhere v.

Inductive vexec (d : DB) : list label -> vsys -> Prop :=
| vexec_start : vexec d [] (vstart d)
| vexec_step ls v l v' : vexec d ls v -> vstep v l v' -> vexec d (ls ++ [l]) v'.

(** ** Who can reach a cell *)

Inductive owner := App | Cache | Flight (i : nat).

(** Everything [p] reaches belongs to [o], and it reads as [row]. *)
Definition held (own : loc -> owner) (h : heap) (o : owner) (p : loc) (row : Organization) : Prop :=
  exists m, h !! p = Some (OrgCell m) /\ own p = o /\ value_of h m = row /\
    forall q, q ∈ refs (OrgCell m) -> own q = o /\ exists t, h !! q = Some (Text t).

(** New cells go to [o]. *)
Definition ext (own : loc -> owner) (h : heap) (o : owner) (q : loc) : owner := if decide (q ∈ dom h) then own q else o.

Lemma ext_old own h o q c : h !! q = Some c -> ext own h o q = own q.
Proof. intros Hq. unfold ext. by rewrite decide_True by (by eapply elem_of_dom_2). Qed.

Lemma ext_new own h o q : h !! q = None -> ext own h o q = o.
Proof. intros Hq. unfold ext. by rewrite decide_False by (by apply not_elem_of_dom). Qed.

Lemma value_of_agree h h' m :
  (forall q, q ∈ refs (OrgCell m) -> text_at h' q = text_at h q) -> value_of h' m = value_of h m.
Proof.
  intros H. unfold value_of. simpl in H. destruct (os_IdpType m) as [t|], (os_IdpName m) as [n|]; simpl in *; f_equal;
    f_equal; apply H; set_solver.
Qed.

Lemma held_mono own own' h h' o p row :
  held own h o p row ->
  (forall q c, h !! q = Some c -> own q = o -> h' !! q = Some c /\ own' q = o) -> held own' h' o p row.
Proof.
  intros (m & Hp & Ho & <- & Hr) Hk. destruct (Hk _ _ Hp Ho) as [Hp' Ho']. exists m. split; [done|]. split; [done|].
  assert (Hq : forall q, q ∈ refs (OrgCell m) -> own' q = o /\ h' !! q = h !! q /\ exists t, h !! q = Some (Text t)).
  { intros q Hq. destruct (Hr q Hq) as [Hqo [t Ht]]. destruct (Hk _ _ Ht Hqo) as [-> ->]. eauto. }
  split; [|intros q Hin; destruct (Hq q Hin) as (? & -> & ?); eauto].
  apply value_of_agree. intros q Hin. unfold text_at. by destruct (Hq q Hin) as (_ & -> & _).
Qed.

Lemma held_reads own h o p row : held own h o p row -> read_org h p = row.
Proof. intros (m & Hp & _ & <- & _). unfold read_org, struct_at. by rewrite Hp. Qed.

Lemma alloc_new c h p h' : alloc c h = (p, h') -> h !! p = None /\ h' = <[p := c]> h.
Proof. intros [= <- <-]. split; [|done]. apply not_elem_of_dom, is_fresh. Qed.

Lemma scan_text_new v h q h' : scan_text v h = (q, h') ->
  h ⊆ h' /\ (q = None -> v = None) /\
  (forall r, q = Some r -> h !! r = None /\ exists t, v = Some t /\ h' !! r = Some (Text t)) /\
  (forall r c, h' !! r = Some c -> h !! r = None -> exists t, c = Text t).
Proof.
  unfold scan_text. destruct v as [t|].
  - destruct (alloc (Text t) h) as [p h1] eqn:E. intros [= <- <-]. apply alloc_new in E as [Hp ->].
    split; [by apply insert_subseteq|]. split; [done|]. split.
    + intros r [= <-]. split; [done|]. exists t. split; [done|]. apply lookup_insert_eq.
    + intros r c [[_ <-]|[_ ?]]%lookup_insert_Some Hr; [eauto|congruence].
  - intros [= <- <-]. split; [done|]. split; [done|]. split; [done|]. intros r c ? ?. congruence.
Qed.

(** What a scan leaves: nothing old changed, and a struct with texts that are all new. *)
Record built (h h' : heap) (p : loc) (row : Organization) : Prop := {
  built_grows : h ⊆ h';
  built_new : h !! p = None;
  built_reads : exists m, h' !! p = Some (OrgCell m) /\ value_of h' m = row /\
    forall q, q ∈ refs (OrgCell m) -> h !! q = None /\ exists t, h' !! q = Some (Text t);
  built_cells q c : h' !! q = Some c -> h !! q = None -> forall r, r ∈ refs c -> h !! r = None /\ r ∈ dom h'
}.

Lemma scan_org_built row h p h' : scan_org row h = (p, h') -> built h h' p row.
Proof.
  unfold scan_org. destruct (scan_text (o_IdpType row) h) as [t h1] eqn:E1. destruct (scan_text (o_IdpName row) h1) as [n h2] eqn:E2.
  apply scan_text_new in E1 as (G1 & N1 & S1 & C1). apply scan_text_new in E2 as (G2 & N2 & S2 & C2). intros [Hp ->]%alloc_new.
  set (m := {| os_ID := _ |}).
  assert (Hold : forall q, h1 !! q = None -> h !! q = None).
  { intros q Hq. destruct (h !! q) as [c|] eqn:Ec; [|done]. by rewrite (lookup_weaken _ _ _ _ Ec G1) in Hq. }
  assert (G3 : h2 ⊆ <[p := OrgCell m]> h2) by by apply insert_subseteq.
  assert (Hnew : forall q, q ∈ refs (OrgCell m) -> h !! q = None /\ exists s, <[p := OrgCell m]> h2 !! q = Some (Text s)).
  { intros q. unfold refs, m. simpl. rewrite elem_of_union. intros [Hq|Hq].
    - destruct t as [r|]; simpl in Hq; [|by rewrite elem_of_empty in Hq]. apply elem_of_singleton in Hq as ->.
      destruct (S1 r eq_refl) as (Hr & s & _ & Hs). split; [done|]. exists s. eauto using lookup_weaken.
    - destruct n as [r|]; simpl in Hq; [|by rewrite elem_of_empty in Hq]. apply elem_of_singleton in Hq as ->.
      destruct (S2 r eq_refl) as (Hr & s & _ & Hs). split; [by apply Hold|]. exists s. eauto using lookup_weaken. }
  split.
  - by do 2 (etrans; [eassumption|]).
  - destruct (h !! p) as [c|] eqn:Ec; [|done]. eapply lookup_weaken in Ec; [|etrans; [exact G1|exact G2]]. congruence.
  - exists m. split; [apply lookup_insert_eq|]. split; [|exact Hnew].
    unfold value_of, m, text_at. destruct row as [? ? ? it iN ? ?]. simpl in *. f_equal.
    + destruct t as [r|]; simpl; [|by rewrite N1]. destruct (S1 r eq_refl) as (_ & s & -> & Hs).
      assert (E : <[p := OrgCell m]> h2 !! r = Some (Text s)) by eauto using lookup_weaken. unfold m in E. by rewrite E.
    + destruct n as [r|]; simpl; [|by rewrite N2]. destruct (S2 r eq_refl) as (_ & s & -> & Hs).
      assert (E : <[p := OrgCell m]> h2 !! r = Some (Text s)) by eauto using lookup_weaken. unfold m in E. by rewrite E.
  - intros q c Hc Hqn r Hr. apply lookup_insert_Some in Hc as [[<- <-]|[_ Hc]].
    + destruct (Hnew r Hr) as [Hn [s Hs]]. split; [done|]. by eapply elem_of_dom_2.
    + exfalso. destruct (h1 !! q) as [c'|] eqn:E1.
      * destruct (C1 q c' E1 Hqn) as [s ->]. rewrite (lookup_weaken _ _ _ _ E1 G2) in Hc. injection Hc as <-. by apply not_elem_of_empty in Hr.
      * destruct (C2 q c Hc E1) as [s ->]. by apply not_elem_of_empty in Hr.
Qed.

(** A clone is a scan of what the original reads as. *)
Lemma clone_text_scan q h h1 :
  (forall r, q = Some r -> exists t, h !! r = Some (Text t)) -> h ⊆ h1 -> clone_text q h1 = scan_text (text_at h <$> q) h1.
Proof.
  intros Hq G. destruct q as [r|]; [|done]. destruct (Hq r eq_refl) as [t Ht]. simpl. unfold text_at.
  by rewrite Ht, (lookup_weaken _ _ _ _ Ht G).
Qed.

Lemma clone_scan own h o p row :
  held own h o p row -> cloneOrganization (Some p) h = let '(q, h') := scan_org row h in (Some q, h').
Proof.
  intros (m & Hp & _ & <- & Hr). unfold cloneOrganization, scan_org, struct_at. rewrite Hp.
  rewrite (clone_text_scan _ h h) by (try done; intros r E; apply (Hr r); simpl; rewrite E; simpl; set_solver).
  simpl. destruct (scan_text _ h) as [t h1] eqn:E1. apply scan_text_new in E1 as [G _].
  rewrite (clone_text_scan _ h h1) by (try done; intros r E; apply (Hr r); simpl; rewrite E; simpl; set_solver).
  by destruct (scan_text _ h1) as [n h2].
Qed.

Lemma built_held own h h' o p row : built h h' p row -> held (ext own h o) h' o p row.
Proof.
  intros [G Hp (m & Hm & Hv & Hr) _]. exists m. split; [done|]. split; [by apply ext_new|]. split; [done|].
  intros q Hq. destruct (Hr q Hq) as [Hn ?]. split; [by apply ext_new|done].
Qed.

(** What is held stays so when cells are added for anybody. *)
Lemma held_ext own h h' o o' p row : h ⊆ h' -> held own h o p row -> held (ext own h o') h' o p row.
Proof.
  intros G Hh. eapply held_mono; [exact Hh|]. intros q c Hq Ho. split; [by eapply lookup_weaken|]. by erewrite ext_old.
Qed.

(** ** The simulation *)

Definition flight_rel (own : loc -> owner) (h : heap) (i : nat) (f : option (Z * option loc)) (vf : option (Z * option Organization)) : Prop :=
  match f, vf with
  | None, None => True
  | Some (g, None), Some (g', None) => g = g'
  | Some (g, Some p), Some (g', Some row) => g = g' /\ held own h (Flight i) p row
  | _, _ => False
  end.

Definition cache_rel (own : loc -> owner) (h : heap) (c : option loc) (vc : option Organization) : Prop :=
  match c, vc with
  | None, None => True
  | Some p, Some row => held own h Cache p row
  | _, _ => False
  end.

Record sim (own : loc -> owner) (s : sys) (v : vsys) : Prop := {
  sim_known p : p ∈ s_known s -> p ∈ dom (s_heap s) /\ own p = App;
  sim_app p c q : s_heap s !! p = Some c -> own p = App -> q ∈ refs c -> q ∈ dom (s_heap s) /\ own q = App;
  sim_cache : cache_rel own (s_heap s) (s_cache s) (defaultOrgCache (v_cache v));
  sim_at : defaultOrgAt (v_cache v) = s_at s;
  sim_gen : defaultOrgGen (v_cache v) = s_gen s;
  sim_flights i : flight_rel own (s_heap s) i (s_flights s !! i) (v_flights v !! i)
}.

Lemma flight_rel_mono own own' h h' i f vf :
  (forall p row, held own h (Flight i) p row -> held own' h' (Flight i) p row) -> flight_rel own h i f vf -> flight_rel own' h' i f vf.
Proof. intros H. destruct f as [[? [?|]]|], vf as [[? [?|]]|]; simpl; naive_solver. Qed.

Lemma cache_rel_mono own own' h h' c vc :
  (forall p row, held own h Cache p row -> held own' h' Cache p row) -> cache_rel own h c vc -> cache_rel own' h' c vc.
Proof. intros H. destruct c, vc; simpl; naive_solver. Qed.

(** Cells added for [o] keep what the application has closed. *)
Lemma ext_app own h h' o p row :
  built h h' p row -> (forall q c r, h !! q = Some c -> own q = App -> r ∈ refs c -> r ∈ dom h /\ own r = App) ->
  forall q c r, h' !! q = Some c -> ext own h o q = App -> r ∈ refs c -> r ∈ dom h' /\ ext own h o r = App.
Proof.
  intros [G _ _ Hcells] Happ q c r Hc Ho Hr. destruct (h !! q) as [c'|] eqn:Eq.
  - rewrite (lookup_weaken _ _ _ _ Eq G) in Hc. injection Hc as <-. erewrite ext_old in Ho by done.
    destruct (Happ q c' r Eq Ho Hr) as [[c2 Hd]%elem_of_dom Hor]. split; [|by erewrite ext_old].
    eapply elem_of_dom_2, lookup_weaken; [exact Hd|exact G].
  - rewrite ext_new in Ho by done. destruct (Hcells q c Hc Eq r Hr) as [Hn Hd]. split; [done|]. by rewrite ext_new.
Qed.

(** The struct [p] and what it points to become the application's. *)
Definition give (own : loc -> owner) (h : heap) (p : loc) (q : loc) : owner :=
  if decide (q ∈ {[p]} ∪ from_option refs ∅ (h !! p)) then App else own q.

Lemma give_held own h o o' p row p' row' : o <> o' -> o' <> App ->
  held own h o p row -> held own h o' p' row' -> held (give own h p) h o' p' row'.
Proof.
  intros Hne Hna (m & Hp & Ho & _ & Hr) Hh. eapply held_mono; [exact Hh|]. intros q c Hq Hoq. split; [done|].
  unfold give. rewrite decide_False; [done|]. rewrite Hp. intros [->%elem_of_singleton|Hin]%elem_of_union; [congruence|].
  destruct (Hr q Hin). congruence.
Qed.

Lemma give_app own h o p row : held own h o p row ->
  (forall q c r, h !! q = Some c -> own q = App -> r ∈ refs c -> r ∈ dom h /\ own r = App) ->
  forall q c r, h !! q = Some c -> give own h p q = App -> r ∈ refs c -> r ∈ dom h /\ give own h p r = App.
Proof.
  intros (m & Hp & Ho & _ & Hr) Happ q c r Hc Hg Hin.
  assert (Hgive : forall x, own x = App -> give own h p x = App) by (intros x Hx; unfold give; by case_decide).
  unfold give in Hg. rewrite Hp in Hg. case_decide as Hd.
  - apply elem_of_union in Hd as [->%elem_of_singleton|Hd].
    + rewrite Hp in Hc. injection Hc as <-. destruct (Hr r Hin) as [_ [t Ht]]. split; [by eapply elem_of_dom_2|].
      unfold give. rewrite Hp. rewrite decide_True; [done|]. simpl. set_solver.
    + destruct (Hr q Hd) as [_ [t Ht]]. rewrite Hc in Ht. injection Ht as ->. by apply not_elem_of_empty in Hin.
  - destruct (Happ q c r Hc Hg Hin) as [? ?]. auto.
Qed.

Lemma known_ext own h h' o p row (K : gset loc) :
  built h h' p row -> (forall q, q ∈ K -> q ∈ dom h /\ own q = App) ->
  forall q, q ∈ K -> q ∈ dom h' /\ ext own h o q = App.
Proof.
  intros [G _ _ _] HK q Hq. destruct (HK q Hq) as [[c Hc]%elem_of_dom Ho]. split; [|by erewrite ext_old].
  eapply elem_of_dom_2, lookup_weaken; [exact Hc|exact G].
Qed.

Lemma built_dom h h' p row : built h h' p row -> p ∈ dom h'.
Proof. intros [_ _ (m & Hm & _) _]. by eapply elem_of_dom_2. Qed.

Lemma flights_insert own h (fs : gmap nat (Z * option loc)) (vfs : gmap nat (Z * option Organization)) i f vf :
  (forall j, j <> i -> flight_rel own h j (fs !! j) (vfs !! j)) -> flight_rel own h i (Some f) (Some vf) ->
  forall j, flight_rel own h j (<[i := f]> fs !! j) (<[i := vf]> vfs !! j).
Proof.
  intros Ho Hi j. destruct (decide (j = i)) as [->|Hj]; [by rewrite !lookup_insert_eq|]. by rewrite !lookup_insert_ne; [apply Ho|..].
Qed.

Lemma flights_delete own h (fs : gmap nat (Z * option loc)) (vfs : gmap nat (Z * option Organization)) i :
  (forall j, j <> i -> flight_rel own h j (fs !! j) (vfs !! j)) ->
  forall j, flight_rel own h j (delete i fs !! j) (delete i vfs !! j).
Proof.
  intros Ho j. destruct (decide (j = i)) as [->|Hj]; [by rewrite !lookup_delete_eq|]. by rewrite !lookup_delete_ne; [apply Ho|..].
Qed.

Lemma sim_flight own s v i gen f : sim own s v -> s_flights s !! i = Some (gen, f) ->
  exists vf, v_flights v !! i = Some (gen, vf) /\ flight_rel own (s_heap s) i (Some (gen, f)) (Some (gen, vf)).
Proof.
  intros Hs Hf. pose proof (sim_flights _ _ _ Hs i) as H. rewrite Hf in H.
  destruct (v_flights v !! i) as [[g [row|]]|]; destruct f as [p|]; simpl in H; try done.
  - destruct H as [<- Hh]. by exists (Some row).
  - subst g. by exists None.
Qed.

Lemma sim_hit own s v now p q h :
  sim own s v -> s_cache s = Some p -> fresh_enough now (s_at s) = true -> cloneOrganization (Some p) (s_heap s) = (Some q, h) ->
  vstep v (Hit now (read_org h q)) v /\
  sim (ext own (s_heap s) App)
    {| s_heap := h; s_cache := s_cache s; s_at := s_at s; s_gen := s_gen s; s_flights := s_flights s; s_known := {[q]} ∪ s_known s |} v.
Proof.
  intros Hs Hc Hf Hq. pose proof (sim_cache _ _ _ Hs) as Hcr. rewrite Hc in Hcr. simpl in Hcr.
  destruct (defaultOrgCache (v_cache v)) as [row|] eqn:Ev; [|done]. rewrite (clone_scan _ _ _ _ _ Hcr) in Hq.
  destruct (scan_org row (s_heap s)) as [q' h'] eqn:E. injection Hq as -> ->. apply scan_org_built in E as B.
  rewrite (held_reads _ _ _ _ _ (built_held own _ _ App _ _ B)). split.
  { apply vs_hit; [done|]. by rewrite (sim_at _ _ _ Hs). }
  split; simpl.
  - intros x [->%elem_of_singleton|Hx]%elem_of_union; [split; [by eapply built_dom|by apply ext_new, (built_new _ _ _ _ B)]|].
    revert x Hx. eapply known_ext; [exact B|exact (sim_known _ _ _ Hs)].
  - eapply ext_app; [exact B|exact (sim_app _ _ _ Hs)].
  - rewrite Hc, Ev. simpl. eapply held_ext; [apply B|done].
  - apply Hs.
  - apply Hs.
  - intros i. eapply flight_rel_mono; [|apply Hs]. intros ? ?. eapply held_ext, B.
Qed.

Lemma sim_scan own s v i gen row p h :
  sim own s v -> s_flights s !! i = Some (gen, None) -> scan_org row (s_heap s) = (p, h) ->
  vstep v (Scanned i row) {| v_state := v_state v; v_flights := <[i := (gen, Some row)]> (v_flights v) |} /\
  sim (ext own (s_heap s) (Flight i))
    {| s_heap := h; s_cache := s_cache s; s_at := s_at s; s_gen := s_gen s;
       s_flights := <[i := (gen, Some p)]> (s_flights s); s_known := s_known s |}
    {| v_state := v_state v; v_flights := <[i := (gen, Some row)]> (v_flights v) |}.
Proof.
  intros Hs Hf E. apply scan_org_built in E as B. destruct (sim_flight _ _ _ _ _ _ Hs Hf) as (vf & Hvf & Hrel).
  destruct vf as [vf|]; simpl in Hrel; [done|]. split; [by apply vs_scan|]. split; simpl.
  - eapply known_ext; [exact B|exact (sim_known _ _ _ Hs)].
  - eapply ext_app; [exact B|exact (sim_app _ _ _ Hs)].
  - eapply cache_rel_mono; [|apply Hs]. intros ? ?. eapply held_ext, B.
  - apply Hs.
  - apply Hs.
  - apply flights_insert.
    + intros j _. eapply flight_rel_mono; [|apply Hs]. intros ? ?. eapply held_ext, B.
    + split; [done|]. by apply built_held.
Qed.

(** Handing a flight's struct over leaves the cache and the other flights alone. *)
Lemma sim_give own h i p row (s : sys) (v : vsys) :
  held own h (Flight i) p row -> sim own s v -> s_heap s = h ->
  sim (give own h p)
    {| s_heap := h; s_cache := s_cache s; s_at := s_at s; s_gen := s_gen s; s_flights := delete i (s_flights s);
       s_known := {[p]} ∪ s_known s |}
    {| v_state := v_state v; v_flights := delete i (v_flights v) |}.
Proof.
  intros Hh Hs <-. assert (Hown : forall x, own x = App -> give own (s_heap s) p x = App) by (intros x Hx; unfold give; by case_decide).
  split; simpl.
  - intros x [->%elem_of_singleton|Hx]%elem_of_union.
    + destruct Hh as (m & Hp & _). split; [by eapply elem_of_dom_2|]. unfold give. rewrite decide_True; [done|]. set_solver.
    + destruct (sim_known _ _ _ Hs x Hx). auto.
  - eapply give_app; [exact Hh|exact (sim_app _ _ _ Hs)].
  - eapply cache_rel_mono; [|apply Hs]. intros ? ?. by apply (give_held own _ (Flight i) Cache p row).
  - apply Hs.
  - apply Hs.
  - apply flights_delete. intros j Hj. eapply flight_rel_mono; [|apply Hs]. intros ? ?.
    apply (give_held own _ (Flight i) (Flight j) p row); [congruence|done|done].
Qed.

Lemma sim_refill own s v p row c h now :
  held own (s_heap s) c p row -> sim own s v -> forall q, cloneOrganization (Some p) (s_heap s) = (q, h) ->
  sim (ext own (s_heap s) Cache)
    {| s_heap := h; s_cache := q; s_at := now; s_gen := s_gen s; s_flights := s_flights s; s_known := s_known s |}
    {| v_state := refill (s_gen s) now row (v_state v); v_flights := v_flights v |} /\
  held (ext own (s_heap s) Cache) h c p row.
Proof.
  intros Hh Hs q Hq. rewrite (clone_scan _ _ _ _ _ Hh) in Hq. destruct (scan_org row (s_heap s)) as [q' h'] eqn:E.
  injection Hq as <- ->. apply scan_org_built in E as B. split; [|eapply held_ext; [apply B|done]].
  pose proof (sim_gen _ _ _ Hs) as Hg. destruct v as [[d vc] vfs]. unfold v_cache in *. simpl in *.
  unfold refill. simpl. rewrite Hg, Z.eqb_refl. split; simpl.
  - eapply known_ext; [exact B|exact (sim_known _ _ _ Hs)].
  - eapply ext_app; [exact B|exact (sim_app _ _ _ Hs)].
  - by apply built_held.
  - done.
  - done.
  - intros i. eapply flight_rel_mono; [|apply (sim_flights _ _ _ Hs)]. intros ? ?. eapply held_ext, B.
Qed.

Lemma sim_fill own s v i gen now p c h :
  sim own s v -> s_flights s !! i = Some (gen, Some p) -> s_gen s = gen -> cloneOrganization (Some p) (s_heap s) = (c, h) ->
  exists own' v', vstep v (Filled i now (read_org h p)) v' /\
  sim own' {| s_heap := h; s_cache := c; s_at := now; s_gen := s_gen s; s_flights := delete i (s_flights s); s_known := {[p]} ∪ s_known s |} v'.
Proof.
  intros Hs Hf Hg Hc. destruct (sim_flight _ _ _ _ _ _ Hs Hf) as (vf & Hvf & Hrel). destruct vf as [row|]; simpl in Hrel; [|done].
  destruct Hrel as [_ Hh]. destruct (sim_refill _ _ _ _ _ _ _ now Hh Hs _ Hc) as [Hs1 Hh1].
  rewrite (held_reads _ _ _ _ _ Hh1). eexists _, _. split; [by apply vs_fill|]. rewrite <- Hg.
  exact (sim_give _ _ _ _ _ _ _ Hh1 Hs1 eq_refl).
Qed.

Lemma sim_stale own s v i gen now p :
  sim own s v -> s_flights s !! i = Some (gen, Some p) -> s_gen s <> gen ->
  exists own' v', vstep v (Filled i now (read_org (s_heap s) p)) v' /\
  sim own' {| s_heap := s_heap s; s_cache := s_cache s; s_at := s_at s; s_gen := s_gen s; s_flights := delete i (s_flights s);
              s_known := {[p]} ∪ s_known s |} v'.
Proof.
  intros Hs Hf Hg. destruct (sim_flight _ _ _ _ _ _ Hs Hf) as (vf & Hvf & Hrel). destruct vf as [row|]; simpl in Hrel; [|done].
  destruct Hrel as [_ Hh]. rewrite (held_reads _ _ _ _ _ Hh). eexists _, _. split; [by apply vs_fill|].
  replace (refill gen now row (v_state v)) with (v_state v); [by apply (sim_give _ _ _ _ _ _ _ Hh Hs)|].
  unfold refill. pose proof (sim_gen _ _ _ Hs) as E. unfold v_cache in E. simpl. rewrite E.
  by destruct (Z.eqb_spec (s_gen s) gen).
Qed.

Lemma sim_write own s v p c :
  sim own s v -> p ∈ s_known s \/ s_heap s !! p = None -> refs c ⊆ s_known s ->
  sim (fun q => if decide (q = p) then App else own q)
    {| s_heap := <[p := c]> (s_heap s); s_cache := s_cache s; s_at := s_at s; s_gen := s_gen s; s_flights := s_flights s;
       s_known := {[p]} ∪ s_known s |} v.
Proof.
  intros Hs Hp Hc. set (own' := fun q => _).
  assert (Happ : forall q, own q = App -> own' q = App) by (intros q Hq; unfold own'; by case_decide).
  assert (Hheld : forall o r row, o <> App -> held own (s_heap s) o r row -> held own' (<[p := c]> (s_heap s)) o r row).
  { intros o r row Ho Hh. eapply held_mono; [exact Hh|]. intros q d Hq Hoq.
    assert (Hn : q <> p) by (intros ->; destruct Hp as [Hk|]; [destruct (sim_known _ _ _ Hs p Hk); congruence|congruence]).
    rewrite lookup_insert_ne by done. unfold own'. by rewrite decide_False. }
  split; simpl.
  - intros x Hx. rewrite dom_insert. apply elem_of_union in Hx as [->%elem_of_singleton|Hx].
    + split; [set_solver|]. unfold own'. by rewrite decide_True.
    + destruct (sim_known _ _ _ Hs x Hx). split; [set_solver|auto].
  - intros x d q Hx Ho Hq. rewrite dom_insert. apply lookup_insert_Some in Hx as [[<- <-]|[Hn Hx]].
    + destruct (sim_known _ _ _ Hs q) as [? ?]; [set_solver|]. split; [set_solver|auto].
    + unfold own' in Ho. rewrite decide_False in Ho by done. destruct (sim_app _ _ _ Hs x d q Hx Ho Hq). split; [set_solver|auto].
  - eapply cache_rel_mono; [|apply Hs]. intros ? ?. by apply Hheld.
  - apply Hs.
  - apply Hs.
  - intros i. eapply flight_rel_mono; [|apply Hs]. intros ? ?. by apply Hheld.
Qed.

Lemma step_sim own s l s' v : sim own s v -> step s l s' -> exists own' v', vstep v l v' /\ sim own' s' v'.
Proof.
  intros Hs Hst. destruct Hst as [now p q h|i now Hm Hf|i gen row p h|i gen now p c h|i gen now p|i f Hf| |p c q Hp Hc Hq|p c Hp Hc].
  - destruct (sim_hit own s v now p q h) as [? ?]; eauto.
  - eexists own, _. split; [apply vs_miss|].
    + pose proof (sim_cache _ _ _ Hs) as Hcr. rewrite (sim_at _ _ _ Hs). destruct Hm as [Hm|Hm]; [left|by right].
      rewrite Hm in Hcr. by destruct (defaultOrgCache (v_cache v)).
    + pose proof (sim_flights _ _ _ Hs i) as Hr. rewrite Hf in Hr. by destruct (v_flights v !! i).
    + split; simpl; try apply Hs. apply flights_insert; [by intros; apply Hs|]. simpl. by rewrite (sim_gen _ _ _ Hs).
  - destruct (sim_scan own s v i gen row p h) as [? ?]; eauto.
  - by eapply sim_fill.
  - by eapply sim_stale.
  - destruct f as [gen f]. destruct (sim_flight _ _ _ _ _ _ Hs Hf) as (vf & Hvf & _).
    eexists own, _. split; [by eapply vs_fail|]. split; simpl; try apply Hs. apply flights_delete. intros; apply Hs.
  - eexists own, _. split; [by apply (vs_invalidate _ 0 0 0)|]. destruct v as [[d vc] vfs]. split; simpl; try apply Hs; [done|].
    unfold v_cache in *. simpl. by rewrite <- (sim_gen _ _ _ Hs).
  - exists own, v. split; [apply vs_elsewhere|]. split; simpl; try apply Hs. intros x [->%elem_of_singleton|Hx]%elem_of_union; [|by apply Hs].
    destruct (sim_known _ _ _ Hs p Hp) as [_ Ho]. by eapply (sim_app _ _ _ Hs).
  - eexists _, v. split; [apply vs_elsewhere|]. by eapply sim_write.
Qed.

Lemma sim_start d : sim (fun _ => App) start (vstart d).
Proof. by split. Qed.

Lemma exec_sim d ls s : exec ls s -> exists own v, vexec d ls v /\ sim own s v.
Proof.
  induction 1 as [|ls s l s' _ (own & v & Hv & Hs) Hst]; [exists (fun _ => App), (vstart d); split; [constructor|apply sim_start]|].
  destruct (step_sim _ _ _ _ _ Hs Hst) as (own' & v' & Hv' & Hs'). exists own', v'. split; [by eapply vexec_step|done].
Qed.

(** ** What the value system answers *)

Lemma vexec_scanned d ls v : vexec d ls v ->
  (forall org, defaultOrgCache (v_cache v) = Some org -> exists i, Scanned i org ∈ ls) /\
  (forall i gen row, v_flights v !! i = Some (gen, Some row) -> Scanned i row ∈ ls).
Proof.
  induction 1 as [|ls v l v' _ [IHc IHf] Hst]; [by split|].
  assert (Hc : forall org, (exists i, Scanned i org ∈ ls) -> exists i, Scanned i org ∈ ls ++ [l]).
  { intros org [i Hi]. exists i. apply elem_of_app. by left. }
  destruct Hst as [now org|i now|i gen row Hf|i gen now row Hf|i f|now dbnow seed|]; unfold v_cache in *; simpl in *.
  - split; [eauto|]. intros j g r Hj. apply elem_of_app. left. eauto.
  - split; [eauto|]. intros j g r [[_ [=]]|[_ Hj]]%lookup_insert_Some. apply elem_of_app. left. eauto.
  - split; [eauto|]. intros j g r [[<- [= <- <-]]|[_ Hj]]%lookup_insert_Some; apply elem_of_app; [right; by left|left; eauto].
  - split.
    + intros org. unfold refill. simpl. destruct (_ =? gen)%Z; simpl; [|eauto]. intros [= <-]. apply Hc. eauto.
    + intros j g r [_ Hj]%lookup_delete_Some. apply elem_of_app. left. eauto.
  - split; [eauto|]. intros j g r [_ Hj]%lookup_delete_Some. apply elem_of_app. left. eauto.
  - split; [done|]. intros j g r Hj. apply elem_of_app. left. eauto.
  - split; [eauto|]. intros j g r Hj. apply elem_of_app. left. eauto.
Qed.

(** C28: the cache of pointers is a cache of values. Whatever the goroutines of the
    process do - calls of GetDefaultOrganization and invalidations interleaved at the
    level of their critical sections, and everything a caller may do with what it was
    given: follow its pointers, keep it, overwrite it and whatever it reaches, at any
    time - the system with pointers answers every call as the system on values does, whose
    steps are the repository's own operations; and so every answer, cached or not,
    reads exactly as a row some scan of the database produced, never as a caller's
    edit of an earlier answer. *)
Theorem cache_of_pointers_refines_values d ls s :
  exec ls s ->
  (exists v, vexec d ls v) /\
  (forall now l s' row, step s l s' -> (l = Hit now row \/ exists i, l = Filled i now row) -> exists i, Scanned i row ∈ ls).
Proof.
  intros He. destruct (exec_sim d _ _ He) as (own & v & Hv & Hs). split; [by exists v|].
  intros now l s' row Hst Hl. destruct (step_sim _ _ _ _ _ Hs Hst) as (own' & v' & Hst' & _).
  destruct (vexec_scanned _ _ _ Hv) as [Hc Hf]. destruct Hl as [->|[i ->]]; inversion Hst'; subst; [by apply Hc|].
  exists i. by eapply Hf.
Qed.

(** ** Witness *)

Definition ex_row : Organization :=
  {| o_ID := "o1"; o_Name := "default"; o_DisplayName := "Default"; o_IdpType := Some "oidc"; o_IdpName := None; o_CreatedAt := 0; o_UpdatedAt := 0 |}.
Definition ex_scan : loc * heap := scan_org ex_row ∅.
Definition ex_cached : option loc * heap := cloneOrganization (Some (fst ex_scan)) (snd ex_scan).
Definition ex_mine : loc := default 1%positive (os_IdpType (struct_at (snd ex_scan) (fst ex_scan))).

(** A miss answers; its caller then overwrites the text behind its own IdpType. *)
Definition ex_edited : sys :=
  {| s_heap := <[ex_mine := Text "saml"]> (snd ex_cached); s_cache := fst ex_cached; s_at := 1; s_gen := 0; s_flights := ∅;
     s_known := {[ex_mine]} ∪ ({[ex_mine]} ∪ ({[fst ex_scan]} ∪ ∅)) |}.
Definition ex_trace : list label := [Missed 0 1; Scanned 0 ex_row; Filled 0 1 ex_row; Elsewhere; Elsewhere].

Lemma ex_exec : exec ex_trace ex_edited.
Proof.
  change ex_trace with ((((([] ++ [Missed 0 1]) ++ [Scanned 0 ex_row]) ++ [Filled 0 1 ex_row]) ++ [Elsewhere]) ++ [Elsewhere]).
  refine (exec_step _ _ _ _ (exec_step _ _ _ _ (exec_step _ _ _ _ (exec_step _ _ _ _ (exec_step _ _ _ _ exec_start _) _) _) _) _).
  - apply st_miss; [by left|done].
  - apply (st_scan _ 0 0 ex_row (fst ex_scan) (snd ex_scan)); [done|apply surjective_pairing].
  - apply (st_fill _ 0 0 1 (fst ex_scan) (fst ex_cached) (snd ex_cached)); [done|done|apply surjective_pairing].
  - eapply (st_learn _ (fst ex_scan) _ ex_mine); [set_solver|by vm_compute|vm_compute; set_solver].
  - apply st_write; [left; set_solver|set_solver].
Qed.

Definition ex_hit : option loc * heap := cloneOrganization (s_cache ex_edited) (s_heap ex_edited).
Definition ex_after : sys :=
  {| s_heap := snd ex_hit; s_cache := s_cache ex_edited; s_at := 1; s_gen := 0; s_flights := ∅;
     s_known := {[default 1%positive (fst ex_hit)]} ∪ s_known ex_edited |}.

(** The caller's own struct reads "saml" now; the next caller is answered as before. *)
Lemma cache_of_pointers_refines_values_witness :
  o_IdpType (read_org (s_heap ex_edited) (fst ex_scan)) = Some "saml" /\
  step ex_edited (Hit 2 ex_row) ex_after /\
  (exists v, vexec (MkDB [] [] [] [] [] []) ex_trace v) /\ (exists i, Scanned i ex_row ∈ ex_trace).
Proof.
  assert (Hst : step ex_edited (Hit 2 ex_row) ex_after).
  { apply (st_hit ex_edited 2 (default 1%positive (fst ex_cached)) (default 1%positive (fst ex_hit)) (snd ex_hit)); by vm_compute. }
  split; [by vm_compute|]. split; [exact Hst|].
  destruct (cache_of_pointers_refines_values (MkDB [] [] [] [] [] []) ex_trace ex_edited ex_exec) as [Hv Ha].
  split; [exact Hv|]. apply (Ha 2%Z (Hit 2 ex_row) ex_after ex_row Hst). by left.
Defined.
