(* ===== verification/ApiKeyRepo.v ===== *)
(** * ApiKeyRepo: identity/store/api_key_repository.go

    API keys behind a tenant scope, the prefix lookup of the authentication path
    with its bound, the expiry sweep and the once-only claim of an expiry notice. *)

From S2P Require Import Prelude Order Scopes Models OrgScope Db DbRel OrganizationRepo.

Definition scanAPIKey (k : KeyRow) : result APIKey :=
  scopes ← wrap_err "failed to unmarshal api key scopes" (json_Unmarshal (k_scopes k));
  Ok {| ak_ID := k_id k; ak_UserID := k_user_id k; ak_OrganizationID := k_organization_id k;
        ak_Name := k_name k; ak_Description := k_description k; ak_KeyHash := k_key_hash k;
        ak_KeyPrefix := k_key_prefix k; ak_Scopes := scopes; ak_ExpiresAt := k_expires_at k;
        ak_LastUsedAt := k_last_used_at k;
        ak_ExpiryNotificationSentAt := k_expiry_notification_sent_at k;
        ak_CreatedAt := k_created_at k; ak_UserName := None |}.

(** LEFT JOIN users u ON ak.user_id = u.id, u.name as user_name *)
Definition user_name_of (d : DB) (k : KeyRow) : option string :=
  match k_user_id k with
  | Some u => option_map u_Name (find (fun x => u_ID x =s u) (users d))
  | None => None
  end.

Definition scanAPIKeyWithUserName (row : KeyRow * option string) : result APIKey :=
  let (k, userName) := row in
  scopes ← wrap_err "failed to unmarshal api key scopes" (json_Unmarshal (k_scopes k));
  Ok {| ak_ID := k_id k; ak_UserID := k_user_id k; ak_OrganizationID := k_organization_id k;
        ak_Name := k_name k; ak_Description := k_description k; ak_KeyHash := k_key_hash k;
        ak_KeyPrefix := k_key_prefix k; ak_Scopes := scopes; ak_ExpiresAt := k_expires_at k;
        ak_LastUsedAt := k_last_used_at k;
        ak_ExpiryNotificationSentAt := k_expiry_notification_sent_at k;
        ak_CreatedAt := k_created_at k; ak_UserName := userName |}.

Definition maxPrefixCandidates : nat := 100.
Definition ErrPrefixNotDiscriminating : error := Sentinel "store: api key prefix is not discriminating".

(** expires_at IS NULL OR expires_at > t *)
Definition live_at (t : Z) (k : KeyRow) : bool :=
  match k_expires_at k with None => true | Some e => (t <? e)%Z end.

Section Repository.
Context {St : Type} `{HasDB St}.

(** The key's identifier is fresh; the organization the caller names is looked up
    inside the scope. *)
Definition CreateAPIKey (uuid : nat -> string) (apiKey : APIKey) (scope : OrgScope) : M St APIKey :=
  id ← uuid_New uuid;
  now ← time_Now;
  let scopesJSON := json_Marshal (ak_Scopes apiKey) in
  if MatchesNothing scope then throw (notFound "api key organization")
  else
    n ← wrapping "failed to create api key" (exec (fun d =>
      if existsb (fun o => (o_ID o =s ak_OrganizationID apiKey) && admits scope (Some (o_ID o))) (organizations d)
      then insert_key
        {| k_id := id; k_user_id := ak_UserID apiKey; k_organization_id := ak_OrganizationID apiKey;
           k_name := ak_Name apiKey; k_description := ak_Description apiKey;
           k_key_hash := ak_KeyHash apiKey; k_key_prefix := ak_KeyPrefix apiKey; k_scopes := scopesJSON;
           k_expires_at := ak_ExpiresAt apiKey; k_last_used_at := ak_LastUsedAt apiKey;
           k_expiry_notification_sent_at := None; k_created_at := now |} d
      else Ok (O, d)));
    requireRow n "api key organization";;
    mret {| ak_ID := id; ak_UserID := ak_UserID apiKey; ak_OrganizationID := ak_OrganizationID apiKey;
            ak_Name := ak_Name apiKey; ak_Description := ak_Description apiKey;
            ak_KeyHash := ak_KeyHash apiKey; ak_KeyPrefix := ak_KeyPrefix apiKey;
            ak_Scopes := ak_Scopes apiKey; ak_ExpiresAt := ak_ExpiresAt apiKey;
            ak_LastUsedAt := ak_LastUsedAt apiKey;
            ak_ExpiryNotificationSentAt := ak_ExpiryNotificationSentAt apiKey;
            ak_CreatedAt := now; ak_UserName := ak_UserName apiKey |}.

Definition key_where (keyID : string) (scope : OrgScope) (k : KeyRow) : bool :=
  (k_id k =s keyID) && admits scope (Some (k_organization_id k)).

Definition GetAPIKeyByID (keyID : string) (scope : OrgScope) : M St APIKey :=
  if MatchesNothing scope then throw (notFound "api key by id")
  else
    row ← wrapping "failed to get api key by id"
      (row ← select_row (fun d => List.filter (key_where keyID scope) (api_keys d));
       match row with None => mret None | Some k => ak ← lift (scanAPIKey k); mret (Some ak) end);
    match row with None => throw (notFound "api key by id") | Some apiKey => mret apiKey end.

(** The four listings: one query each, newest first, then decoded. *)
Definition list_keys (msg : string) (p : KeyRow -> bool) : M St (list APIKey) :=
  rows ← wrapping msg (select (fun d =>
    List.map (fun k => (k, user_name_of d k)) (sort_by (newest k_created_at) (List.filter p (api_keys d)))));
  lift (scan_all scanAPIKeyWithUserName rows).

Definition ListAPIKeysByUser (userID : string) (scope : OrgScope) : M St (list APIKey) :=
  if MatchesNothing scope then mret []
  else list_keys "failed to list api keys by user" (fun k =>
         col_is (k_user_id k) userID && admits scope (Some (k_organization_id k))).

Definition ListAPIKeysByOrganization (orgID : string) (scope : OrgScope) : M St (list APIKey) :=
  if MatchesNothing scope then mret []
  else list_keys "failed to list api keys by organization" (fun k =>
         (k_organization_id k =s orgID) && admits scope (Some (k_organization_id k))).

Definition ListByUserAndOrganization (userID orgID : string) (scope : OrgScope) : M St (list APIKey) :=
  if MatchesNothing scope then mret []
  else list_keys "failed to list api keys by user and organization" (fun k =>
         col_is (k_user_id k) userID && (k_organization_id k =s orgID) && admits scope (Some (k_organization_id k))).

Definition ListAPIKeys (scope : OrgScope) : M St (list APIKey) :=
  if MatchesNothing scope then mret []
  else list_keys "failed to list api keys" (fun k => admits scope (Some (k_organization_id k))).

Definition with_last_used (v : option Z) (k : KeyRow) : KeyRow :=
  {| k_id := k_id k; k_user_id := k_user_id k; k_organization_id := k_organization_id k; k_name := k_name k;
     k_description := k_description k; k_key_hash := k_key_hash k; k_key_prefix := k_key_prefix k;
     k_scopes := k_scopes k; k_expires_at := k_expires_at k; k_last_used_at := v;
     k_expiry_notification_sent_at := k_expiry_notification_sent_at k; k_created_at := k_created_at k |}.

Definition UpdateLastUsed (keyID : string) : M St unit :=
  now ← time_Now;
  n ← wrapping "failed to update api key last used"
        (exec (update_keys (fun k => k_id k =s keyID) (with_last_used (Some now))));
  requireRow n "api key by id".

Definition RevokeAPIKey (keyID : string) (scope : OrgScope) : M St unit :=
  if MatchesNothing scope then throw (notFound "api key by id")
  else
    n ← wrapping "failed to revoke api key" (exec (delete_keys (key_where keyID scope)));
    requireRow n "api key by id".

Definition RevokeAPIKeysForUser (userID : string) (scope : OrgScope) : M St Z :=
  if MatchesNothing scope then mret 0%Z
  else
    n ← wrapping "failed to revoke api keys for user" (exec (delete_keys (fun k =>
          col_is (k_user_id k) userID && admits scope (Some (k_organization_id k)))));
    affectedRows n.

Definition expired_at (t : Z) (k : KeyRow) : bool :=
  match k_expires_at k with None => false | Some e => (e <? t)%Z end.

Definition DeleteExpiredKeys : M St Z :=
  now ← time_Now;
  n ← wrapping "failed to delete expired api keys" (exec (delete_keys (expired_at now)));
  affectedRows n.

(** ... ORDER BY created_at DESC LIMIT maxPrefixCandidates+1 *)
Definition GetAPIKeysByPrefix (keyPrefix : string) : M St (list APIKey) :=
  now ← db_NOW;
  rows ← wrapping "failed to get api keys by prefix" (select (fun d =>
    firstn (maxPrefixCandidates + 1) (sort_by (newest k_created_at)
      (List.filter (fun k => (k_key_prefix k =s keyPrefix) && live_at now k) (api_keys d)))));
  apiKeys ← lift (scan_all scanAPIKey rows);
  if (maxPrefixCandidates <? length apiKeys)%nat
  then throw (Wrap "api key prefix matched more than the allowed number of live keys" ErrPrefixNotDiscriminating)
  else mret apiKeys.

Definition day : Z := 24 * 3600 * second.

(** The expiry window, per row. *)
Definition expiring (dbnow cutoff : Z) (k : KeyRow) : bool :=
  match k_expires_at k, k_expiry_notification_sent_at k, k_user_id k with
  | Some e, None, Some _ => (dbnow <? e)%Z && (e <=? cutoff)%Z
  | _, _, _ => false
  end.

Definition soonest (x y : KeyRow) : bool := (default 0 (k_expires_at x) <=? default 0 (k_expires_at y))%Z.

Definition FindExpiringKeys (warningDays : Z) : M St (list APIKey) :=
  now ← time_Now;
  dbnow ← db_NOW;
  let cutoff := (now + warningDays * day)%Z in
  rows ← wrapping "failed to find expiring api keys" (select (fun d =>
    sort_by soonest (List.filter (expiring dbnow cutoff) (api_keys d))));
  lift (scan_all scanAPIKey rows).

Definition with_notified (t : Z) (k : KeyRow) : KeyRow :=
  {| k_id := k_id k; k_user_id := k_user_id k; k_organization_id := k_organization_id k; k_name := k_name k;
     k_description := k_description k; k_key_hash := k_key_hash k; k_key_prefix := k_key_prefix k;
     k_scopes := k_scopes k; k_expires_at := k_expires_at k; k_last_used_at := k_last_used_at k;
     k_expiry_notification_sent_at := Some t; k_created_at := k_created_at k |}.

Definition unclaimed (keyID : string) (k : KeyRow) : bool :=
  (k_id k =s keyID) && match k_expiry_notification_sent_at k with None => true | Some _ => false end.

Definition ClaimExpiryNotification (keyID : string) : M St bool :=
  now ← time_Now;
  n ← wrapping "failed to claim api key expiry notification"
        (exec (update_keys (unclaimed keyID) (with_notified now)));
  mret (0 <? n)%nat.

Definition with_details (name : string) (description : option string) (scopes : jsonb) (expires : option Z)
    (k : KeyRow) : KeyRow :=
  {| k_id := k_id k; k_user_id := k_user_id k; k_organization_id := k_organization_id k; k_name := name;
     k_description := description; k_key_hash := k_key_hash k; k_key_prefix := k_key_prefix k;
     k_scopes := scopes; k_expires_at := expires; k_last_used_at := k_last_used_at k;
     k_expiry_notification_sent_at := k_expiry_notification_sent_at k; k_created_at := k_created_at k |}.

Definition Update (apiKey : APIKey) (scope : OrgScope) : M St unit :=
  if MatchesNothing scope then throw (notFound "api key by id")
  else
    let scopesJSON := json_Marshal (ak_Scopes apiKey) in
    n ← wrapping "failed to update api key" (exec (update_keys (key_where (ak_ID apiKey) scope)
          (with_details (ak_Name apiKey) (ak_Description apiKey) scopesJSON (ak_ExpiresAt apiKey))));
    requireRow n "api key by id".
End Repository.

(** ** Lemmas *)

Lemma key_where_admits keyID scope k :
  key_where keyID scope k = true -> admits scope (Some (k_organization_id k)) = true.
Proof. unfold key_where. by intros [_ ?]%andb_prop. Qed.

Lemma with_last_used_ids v : same_key_ids (with_last_used v).
Proof. by intros []. Qed.
Lemma with_notified_ids t : same_key_ids (with_notified t).
Proof. by intros []. Qed.
Lemma with_details_ids n d s e : same_key_ids (with_details n d s e).
Proof. by intros []. Qed.

#[export] Hint Resolve key_where_admits with_last_used_ids with_notified_ids with_details_ids : isolation wf.

Lemma scanAPIKey_inv k ak : scanAPIKey k = Ok ak ->
  ak_ID ak = k_id k /\ ak_KeyHash ak = k_key_hash k /\ ak_KeyPrefix ak = k_key_prefix k /\
  ak_ExpiresAt ak = k_expires_at k /\ json_Unmarshal (k_scopes k) = Ok (ak_Scopes ak) /\
  ak_OrganizationID ak = k_organization_id k.
Proof.
  unfold scanAPIKey. destruct (json_Unmarshal (k_scopes k)) as [ss|e]; simpl; [|done].
  by intros [= <-].
Qed.

Lemma length_scan_all {A B} (scan : A -> result B) rows l : scan_all scan rows = Ok l -> length l = length rows.
Proof. intros Hs%scan_all_Ok. symmetry. by eapply Forall2_length. Qed.

(** ** Properties *)

(** The prefix lookup is complete or refuses. Whatever happens around it, if
    [GetAPIKeysByPrefix] returns a list then the list is exactly the decoded live
    keys with that prefix, in some order without repetition and at most 100 of
    them, so the bound never hides a candidate from authentication; when more than
    100 decodable live keys share the prefix it reports
    [ErrPrefixNotDiscriminating]; and an expired key is never a candidate. *)
Theorem GetAPIKeysByPrefix_complete {St} `{HasDB St} keyPrefix (w : world St) r w' :
  GetAPIKeysByPrefix keyPrefix w = (r, w') ->
  let d := the_db (db_seen w) in
  let candidates := List.filter (fun k => (k_key_prefix k =s keyPrefix) && live_at (w_dbnow w) k) (api_keys d) in
  (forall l, r = Ok l ->
     length l = length candidates /\ length l <= 100 /\
     (forall k, In k candidates -> exists ak, In ak l /\ scanAPIKey k = Ok ak) /\
     (forall ak, In ak l -> ak_KeyPrefix ak = keyPrefix /\
        (forall e, ak_ExpiresAt ak = Some e -> (w_dbnow w < e)%Z) /\
        exists k, In k candidates /\ scanAPIKey k = Ok ak)) /\
  (w_sched w = [] -> (forall k, In k (api_keys d) -> exists ak, scanAPIKey k = Ok ak) ->
     100 < length candidates -> exists e, r = Err e /\ errors_Is e "store: api key prefix is not discriminating" = true).
Proof.
  intros Hx d candidates. unfold GetAPIKeysByPrefix in Hx.
  apply bind_inv in Hx as [(now & w1 & [= <- <-] & Hx)|(e & [=] & _)].
  assert (Hc : sort_by (newest k_created_at) candidates ≡ₚ candidates) by apply sort_by_perm.
  assert (Hin : forall n k, In k (firstn n (sort_by (newest k_created_at) candidates)) -> In k candidates).
  { intros n k Hk. apply (in_sort_by (newest k_created_at)).
    rewrite <- (firstn_skipn n (sort_by _ _)). apply in_app_iff. by left. }
  split.
  - intros l ->. apply bind_Ok in Hx as (rows & w2 & H1 & H2). apply select_Ok in H1 as (-> & _ & _).
    fold d candidates in H2. apply bind_Ok in H2 as (l' & w3 & [= Hs <-] & H3).
    destruct (_ <? _)%nat eqn:El in H3; [done|]. injection H3 as -> <-. apply Nat.ltb_ge in El.
    pose proof (length_scan_all _ _ _ Hs) as Hlen.
    assert (Hall : firstn (maxPrefixCandidates + 1) (sort_by (newest k_created_at) candidates)
                   = sort_by (newest k_created_at) candidates).
    { apply firstn_all2. rewrite length_firstn in Hlen. unfold maxPrefixCandidates in *. lia. }
    change (maxPrefixCandidates + 1) with 101 in Hall. rewrite Hall in Hs, Hlen. apply scan_all_in in Hs as [Hs1 Hs2]. rewrite length_sort_by in Hlen.
    split; [done|]. split; [exact El|]. split.
    + intros k Hk. apply Hs2. by apply in_sort_by.
    + intros ak Hak. destruct (Hs1 ak Hak) as (k & Hk%in_sort_by & E).
      pose proof Hk as [_ [Hp Hlive]%andb_prop]%filter_In. apply scanAPIKey_inv in E as Hk'.
      destruct Hk' as (_ & _ & -> & -> & _). apply seqb_true in Hp. split; [done|]. split; [|by exists k].
      intros e He. unfold live_at in Hlive. rewrite He in Hlive. by apply Z.ltb_lt.
  - intros Hq Hdec Hmany. unfold mbind, M_bind in Hx. unfold wrapping, mapping_err in Hx.
    rewrite select_quiet in Hx by done.
    assert (Hd : the_db (w_db w) = d) by (unfold d, db_seen; by rewrite Hq).
    rewrite Hd in Hx. fold candidates in Hx.
    destruct (scan_all scanAPIKey (firstn _ _)) as [l|e] eqn:Es.
    + pose proof (length_scan_all _ _ _ Es) as Hlen. rewrite length_firstn, length_sort_by in Hlen.
      unfold lift in Hx. destruct (_ <? _)%nat eqn:El in Hx; [injection Hx as <- _; by eexists|].
      apply Nat.ltb_ge in El. unfold maxPrefixCandidates in *. lia.
    + exfalso. eapply scan_all_total; [|exact Es]. intros k Hk. apply Hdec.
      apply Hin, filter_In in Hk. apply Hk.
Qed.

(** A key's notice has been claimed, on every row with that id. *)
Definition notified (d : DB) (id : string) : Prop :=
  forall k, In k (api_keys d) -> k_id k = id -> k_expiry_notification_sent_at k <> None.

(** An expiry notice is claimed once. A claim that succeeds marks the key, and
    as long as no other session clears the mark, every later claim of the same
    key, from any session and under any fault, fails to claim it; of two claims
    at most one is told to send the notice. *)
Theorem ClaimExpiryNotification_once {St} `{HasDB St} keyID (w w1 w2 w3 : world St) r :
  ClaimExpiryNotification keyID w = (Ok true, w1) ->
  (notified (the_db (w_db w1)) keyID -> notified (the_db (db_seen w2)) keyID) ->
  ClaimExpiryNotification keyID w2 = (r, w3) ->
  notified (the_db (w_db w1)) keyID /\ r <> Ok true.
Proof.
  intros H1 Henv H2.
  assert (Hm : notified (the_db (w_db w1)) keyID).
  { unfold ClaimExpiryNotification in H1. apply bind_Ok in H1 as (now & w0 & [= <- <-] & H1).
    apply bind_Ok in H1 as (n & w4 & H1 & [= _ <-]). apply exec_Ok in H1 as (d & [= _ <-] & _ & ->).
    rewrite the_put. simpl. intros k (k' & Hk & ->)%in_rows_upd Hid.
    destruct (unclaimed keyID k') eqn:E; [done|]. unfold unclaimed in E.
    rewrite Hid, seqb_refl in E. simpl in E. by destruct (k_expiry_notification_sent_at k'). }
  split; [done|]. intros ->. specialize (Henv Hm).
  unfold ClaimExpiryNotification in H2. apply bind_Ok in H2 as (now & w0 & [= <- <-] & H2).
  apply bind_Ok in H2 as (n & w4 & H2 & [= Hn <-]). apply exec_Ok in H2 as (d & [= <- _] & _ & _).
  assert (rows_count (unclaimed keyID) (api_keys (the_db (db_seen w2))) = 0) as E; [|by rewrite E in Hn].
  unfold rows_count. destruct (List.filter _ _) as [|k l] eqn:Ef; [done|].
  assert (In k (k :: l)) as Hk by by left. rewrite <- Ef, filter_In in Hk. destruct Hk as [Hk Hu].
  unfold unclaimed in Hu. apply andb_prop in Hu as [Hid%seqb_true Hs].
  exfalso. apply (Henv k Hk Hid). by destruct (k_expiry_notification_sent_at k).
Qed.

(** ** Witnesses *)

Definition ex_key (id user org prefix : string) (scopes : list string) (expires : option Z) : KeyRow :=
  {| k_id := id; k_user_id := Some user; k_organization_id := org; k_name := id; k_description := None;
     k_key_hash := "h" +:+ id; k_key_prefix := prefix; k_scopes := JArray scopes; k_expires_at := expires;
     k_last_used_at := None; k_expiry_notification_sent_at := None; k_created_at := 0 |}.

Definition ex_db_keys : DB :=
  set_keys [ex_key "k1" "u1" "o1" "tsi_aaaa" ["admin"] None; ex_key "k2" "u1" "o2" "tsi_aaaa" ["users:read"] (Some 50%Z);
            ex_key "k3" "u2" "o2" "tsi_bbbb" [] (Some 500%Z)] ex_db.

Lemma GetAPIKeysByPrefix_complete_witness :
  let w := quiet ex_db_keys 100 100 0 in
  let d := the_db (db_seen w) in
  let candidates := List.filter (fun k => (k_key_prefix k =s "tsi_aaaa") && live_at (w_dbnow w) k) (api_keys d) in
  (forall l, fst (GetAPIKeysByPrefix "tsi_aaaa" w) = Ok l ->
     length l = length candidates /\ length l <= 100 /\
     (forall k, In k candidates -> exists ak, In ak l /\ scanAPIKey k = Ok ak) /\
     (forall ak, In ak l -> ak_KeyPrefix ak = "tsi_aaaa" /\
        (forall e, ak_ExpiresAt ak = Some e -> (w_dbnow w < e)%Z) /\
        exists k, In k candidates /\ scanAPIKey k = Ok ak)) /\
  (w_sched w = [] -> (forall k, In k (api_keys d) -> exists ak, scanAPIKey k = Ok ak) ->
     100 < length candidates -> exists e, fst (GetAPIKeysByPrefix "tsi_aaaa" w) = Err e /\
       errors_Is e "store: api key prefix is not discriminating" = true).
Proof.
  apply (GetAPIKeysByPrefix_complete "tsi_aaaa" (quiet ex_db_keys 100 100 0) _
           (snd (GetAPIKeysByPrefix "tsi_aaaa" (quiet ex_db_keys 100 100 0)))).
  by destruct (GetAPIKeysByPrefix "tsi_aaaa" (quiet ex_db_keys 100 100 0)).
Defined.

Lemma ClaimExpiryNotification_once_witness :
  let w := quiet ex_db_keys 9 9 0 in
  let w1 := snd (ClaimExpiryNotification "k2" w) in
  let w2 := World (w_db w1) [Event (fun d => d) (Some "timeout")] false 9 9 0 in
  notified (the_db (w_db w1)) "k2" /\ fst (ClaimExpiryNotification "k2" w2) <> Ok true.
Proof.
  apply (ClaimExpiryNotification_once "k2" (quiet ex_db_keys 9 9 0) _
           (World (w_db (snd (ClaimExpiryNotification "k2" (quiet ex_db_keys 9 9 0))))
                  [Event (fun d => d) (Some "timeout")] false 9 9 0)
           (World (w_db (snd (ClaimExpiryNotification "k2" (quiet ex_db_keys 9 9 0)))) [] false 9 9 0)).
  - vm_compute. reflexivity.
  - done.
  - vm_compute. reflexivity.
Defined.
