(* ===== verification/AuthorityReduction.v ===== *)
(** * AuthorityReduction: identity/store/authority_reduction.go

    Taking a membership's authority away and deleting the API keys that froze a
    snapshot of it, in one transaction with the application's own credentials. *)

From S2P Require Import Prelude Order Scopes Models OrgScope Db DbRel OrganizationRepo ApiKeyRepo.

(** ** Data *)

Definition ErrNoReducer : error := Sentinel "store: authority reducer has no database handle".
Definition ErrNoCredentialDecision : error :=
  Sentinel "store: authority reduction supplied no AppCredentials decision".

Record Reduced := {
  red_UserID : string;
  red_Organizations : list string;
  red_KeysRevoked : nat;
  red_KeysRetained : nat
}.

(** The application's sweep: it runs on the transaction and may change whatever the
    process state holds. *)
Definition AppCredentials (St : Type) : Type := Reduced -> M St unit.
Definition NoAppCredentials {St} : AppCredentials St := fun _ => mret tt.

(** A Reducer has a connection or not, and the scope grammar. *)
Record Reducer := { red_has_db : bool; red_rwPairs : ReadWritePairs }.
Definition NewReducer (db : bool) (rwPairs : ReadWritePairs) : Reducer :=
  {| red_has_db := db; red_rwPairs := rwPairs |}.

Fixpoint AuthorityRetained (have retained : list string) (rwPairs : ReadWritePairs) : bool :=
  match have with
  | [] => true
  | s :: rest => if negb (HasScope retained s rwPairs) then false else AuthorityRetained rest retained rwPairs
  end.

Section Reducing.
Context {St : Type} `{HasDB St}.

(** ** The sweep *)

Fixpoint retained_loop (rows : list (string * jsonb)) (retained : gmap string (list string))
    : result (gmap string (list string)) :=
  match rows with
  | [] => Ok retained
  | (orgID, scopesJSON) :: rest =>
      match json_Unmarshal scopesJSON with
      | Err e => Err (Wrap "failed to unmarshal retained authority for user" e)
      | Ok scopes => retained_loop rest (<[orgID := scopes]> retained)
      end
  end.

Definition retainedScopes (userID : string) (orgIDs : list string) : M St (gmap string (list string)) :=
  rows ← wrapping "failed to read retained authority for user" (select (fun d =>
    List.map (fun m => (m_OrganizationID m, template_scopes d (m_RoleTemplateID m)))
      (List.filter (fun m => (m_UserID m =s userID) && mem (m_OrganizationID m) orgIDs) (organization_members d))));
  lift (retained_loop rows ∅).

Definition derived_key (userID : string) (orgIDs : list string) (k : KeyRow) : bool :=
  col_is (k_user_id k) userID && mem (k_organization_id k) orgIDs.

(** The loop over the keys read FOR UPDATE: those to delete, and how many stay. *)
Fixpoint sweep_loop (rwPairs : ReadWritePairs) (retained : gmap string (list string)) (rows : list KeyRow)
    (doomed : list string) (kept : nat) : result (list string * nat) :=
  match rows with
  | [] => Ok (doomed, kept)
  | k :: rest =>
      match json_Unmarshal (k_scopes k) with
      | Err e => Err (Wrap "failed to unmarshal api key scopes for user" e)
      | Ok have =>
          if AuthorityRetained have (default [] (retained !! k_organization_id k)) rwPairs
          then sweep_loop rwPairs retained rest doomed (S kept)
          else sweep_loop rwPairs retained rest (doomed ++ [k_id k]) kept
      end
  end.

Definition sweepDerivedKeys (rwPairs : ReadWritePairs) (red : Reduced) : M St Reduced :=
  retained ← retainedScopes (red_UserID red) (red_Organizations red);
  rows ← wrapping "failed to read derived api keys for user" (select (fun d =>
    List.filter (derived_key (red_UserID red) (red_Organizations red)) (api_keys d)));
  swept ← wrapping "failed to read derived api keys for user" (lift (sweep_loop rwPairs retained rows [] 0));
  let (doomed, kept) := (swept : list string * nat) in
  let red := {| red_UserID := red_UserID red; red_Organizations := red_Organizations red;
                red_KeysRevoked := red_KeysRevoked red; red_KeysRetained := kept |} in
  if (length doomed =? 0)%nat then mret red
  else
    n ← wrapping "failed to revoke derived api keys for user" (exec (delete_keys (fun k => mem (k_id k) doomed)));
    if negb (n =? length doomed)%nat
    then throw (Plain "store: authority reduction selected and deleted different numbers of derived api keys")
    else mret {| red_UserID := red_UserID red; red_Organizations := red_Organizations red;
                 red_KeysRevoked := n; red_KeysRetained := kept |}.

(** ** The transaction *)

Definition run (r : option Reducer) (userID : string) (app : option (AppCredentials St))
    (reduce : M St (list string)) : M St Reduced :=
  match r with
  | None => throw ErrNoReducer
  | Some r =>
      if negb (red_has_db r) then throw ErrNoReducer
      else
        match app with
        | None => throw (Wrap "pass store.NoAppCredentials" ErrNoCredentialDecision)
        | Some app =>
            tx "failed to begin authority reduction for user" "failed to commit authority reduction for user" (
              orgIDs ← reduce;
              let red := {| red_UserID := userID; red_Organizations := orgIDs;
                            red_KeysRevoked := 0; red_KeysRetained := 0 |} in
              if (0 <? length orgIDs)%nat
              then
                red ← sweepDerivedKeys (red_rwPairs r) red;
                wrapping "failed to invalidate application credentials for user" (app red);;
                mret red
              else mret red)
        end
  end.

(** ** The reductions *)

Definition RemoveMember (r : option Reducer) (orgID userID : string) (scope : OrgScope)
    (app : option (AppCredentials St)) : M St Reduced :=
  if MatchesNothing scope then throw (notFound "organization member")
  else run r userID app (
    n ← wrapping "failed to remove member" (exec (delete_members (member_where orgID userID scope)));
    requireRow n "organization member";;
    mret [orgID]).

Definition UpdateMemberRoleTemplate (r : option Reducer) (orgID userID : string) (roleTemplateID : option string)
    (scope : OrgScope) (app : option (AppCredentials St)) : M St Reduced :=
  if MatchesNothing scope then throw (notFound "organization member")
  else run r userID app (
    n ← wrapping "failed to update member role template"
          (exec (update_member_role (member_where orgID userID scope) roleTemplateID));
    requireRow n "organization member";;
    mret [orgID]).

Definition UpdateMemberRole (r : option Reducer) (orgID userID roleTemplateName : string) (scope : OrgScope)
    (app : option (AppCredentials St)) : M St Reduced :=
  if MatchesNothing scope then throw (notFound "organization member")
  else run r userID app (
    id ← lookupRoleTemplateID roleTemplateName;
    n ← wrapping "failed to update member role template"
          (exec (update_member_role (member_where orgID userID scope) (Some id)));
    requireRow n "organization member";;
    mret [orgID]).

Definition RemoveAllMembershipsForUser (r : option Reducer) (userID : string) (scope : OrgScope)
    (app : option (AppCredentials St)) : M St Reduced :=
  if MatchesNothing scope
  then mret {| red_UserID := userID; red_Organizations := []; red_KeysRevoked := 0; red_KeysRetained := 0 |}
  else run r userID app (
    let p := fun m => (m_UserID m =s userID) && admits scope (Some (m_OrganizationID m)) in
    wrapping "failed to remove all memberships for user" (exec (fun d =>
      Ok (List.map m_OrganizationID (List.filter p (organization_members d)),
          set_members (rows_del p (organization_members d)) d)))).
End Reducing.

(** ** The abstract reduction

    What a reduction promises of the schema: the statement's effect, then every
    key the user holds in the affected organizations deleted unless what the user
    still holds there covers it. *)

(** What the user holds in an organization. *)
Definition retained_at (d : DB) (userID orgID : string) : list string :=
  match find (same_member orgID userID) (organization_members d) with
  | None => []
  | Some m => match json_Unmarshal (template_scopes d (m_RoleTemplateID m)) with Ok ss => ss | Err _ => [] end
  end.

Definition exceeds (rw : ReadWritePairs) (d : DB) (userID : string) (k : KeyRow) : bool :=
  match json_Unmarshal (k_scopes k) with
  | Ok have => negb (AuthorityRetained have (retained_at d userID (k_organization_id k)) rw)
  | Err _ => false
  end.

Definition doomed_key rw d userID orgs k : bool := derived_key userID orgs k && exceeds rw d userID k.

Definition swept rw userID orgs d : DB := set_keys (rows_del (doomed_key rw d userID orgs) (api_keys d)) d.

(** The effect of each reduction's own statement. *)
Definition effect : Type := DB -> result (list string * DB).

Definition remove_effect orgID userID scope : effect := fun d =>
  let p := member_where orgID userID scope in
  if (rows_count p (organization_members d) =? 0)%nat then Err (notFound "organization member")
  else Ok ([orgID], set_members (rows_del p (organization_members d)) d).

Definition role_effect orgID userID (v : option string) scope : effect := fun d =>
  let p := member_where orgID userID scope in
  if (rows_count p (organization_members d) =? 0)%nat then Err (notFound "organization member")
  else if opt_ok (template_exists d) v
  then Ok ([orgID], set_members (rows_upd p (set_role v) (organization_members d)) d)
  else Err foreign_key_violation.

Definition named_role_effect orgID userID name scope : effect := fun d =>
  match head (List.map t_id (List.filter (fun t => t_name t =s name) (role_templates d))) with
  | None => Err (Plain "role template not found")
  | Some id => role_effect orgID userID (Some id) scope d
  end.

Definition remove_all_effect userID scope : effect := fun d =>
  let p := fun m => (m_UserID m =s userID) && admits scope (Some (m_OrganizationID m)) in
  Ok (List.map m_OrganizationID (List.filter p (organization_members d)),
      set_members (rows_del p (organization_members d)) d).

(** The operations of a Reducer, each with its effect. *)
Inductive reduction {St} `{HasDB St} (r : Reducer) (app : AppCredentials St) (userID : string)
  : M St Reduced -> effect -> Prop :=
| is_RemoveMember orgID scope :
    reduction r app userID (RemoveMember (Some r) orgID userID scope (Some app)) (remove_effect orgID userID scope)
| is_UpdateMemberRoleTemplate orgID v scope :
    reduction r app userID (UpdateMemberRoleTemplate (Some r) orgID userID v scope (Some app))
              (role_effect orgID userID v scope)
| is_UpdateMemberRole orgID name scope :
    reduction r app userID (UpdateMemberRole (Some r) orgID userID name scope (Some app))
              (named_role_effect orgID userID name scope)
| is_RemoveAll scope :
    reduction r app userID (RemoveAllMembershipsForUser (Some r) userID scope (Some app))
              (remove_all_effect userID scope).

(** ** Lemmas *)

Lemma AuthorityRetained_true have retained rw :
  AuthorityRetained have retained rw = true <-> forall s, In s have -> HasScope retained s rw = true.
Proof.
  induction have as [|s have IH]; simpl; [by split|].
  destruct (HasScope retained s rw) eqn:E; simpl.
  - rewrite IH. split; [by intros Hs x [<- | Hx]; [|apply Hs]|auto].
  - split; [done|]. intros Hs. specialize (Hs s (or_introl eq_refl)). congruence.
Qed.

(** The last row of an organization wins; one that has none keeps what it had. *)
Lemma retained_loop_lookup rows acc r : retained_loop rows acc = Ok r ->
  forall o, (exists j ss, In (o, j) rows /\ json_Unmarshal j = Ok ss /\ r !! o = Some ss) \/
            (r !! o = acc !! o /\ forall j, ~ In (o, j) rows).
Proof.
  revert acc. induction rows as [|[o1 j1] rows IH]; intros acc; simpl.
  { intros [= <-] o. right. split; [done|]. intros j []. }
  destruct (json_Unmarshal j1) as [ss|e] eqn:Ej; [|done]. intros Hr o.
  destruct (IH _ Hr o) as [(j & ss' & Hin & ? & ?)|[Hl Hn]]; [left; eauto 6|].
  destruct (decide (o = o1)) as [-> | Hne].
  - left. exists j1, ss. rewrite Hl, lookup_insert_eq. eauto.
  - right. rewrite Hl, lookup_insert_ne by done. split; [done|].
    intros j [[= -> ->]|Hin]; [done|by apply (Hn j)].
Qed.

Lemma retained_at_row d userID m : db_wf d -> In m (organization_members d) -> m_UserID m = userID ->
  forall ss, json_Unmarshal (template_scopes d (m_RoleTemplateID m)) = Ok ss ->
  retained_at d userID (m_OrganizationID m) = ss.
Proof.
  intros Hwf Hm Hu ss Hs. unfold retained_at.
  destruct (find _ _) as [m'|] eqn:Ef.
  - apply find_some in Ef as [Hm' [Ho' Hu']%same_member_true].
    assert (m' = m) as -> by (eapply member_unique; eauto; congruence). by rewrite Hs.
  - eapply find_none in Ef; [|exact Hm]. unfold same_member in Ef. by rewrite Hu, !seqb_refl in Ef.
Qed.

(** What the loop decides of a key, given the map it looks organizations up in. *)
Definition over_map (rw : ReadWritePairs) (ret : gmap string (list string)) (k : KeyRow) : bool :=
  match json_Unmarshal (k_scopes k) with
  | Ok have => negb (AuthorityRetained have (default [] (ret !! k_organization_id k)) rw)
  | Err _ => false
  end.

Lemma sweep_loop_Ok rw ret rows doomed kept D K :
  sweep_loop rw ret rows doomed kept = Ok (D, K) ->
  (forall k, In k rows -> exists have, json_Unmarshal (k_scopes k) = Ok have) /\
  D = doomed ++ List.map k_id (List.filter (over_map rw ret) rows) /\
  K = kept + rows_count (fun k => negb (over_map rw ret k)) rows.
Proof.
  revert doomed kept. induction rows as [|k rows IH]; intros doomed kept; simpl.
  - intros [= <- <-]. split; [by intros ? []|]. by rewrite app_nil_r, Nat.add_0_r.
  - destruct (json_Unmarshal (k_scopes k)) as [have|e] eqn:Ek; [|done].
    assert (Ho : over_map rw ret k = negb (AuthorityRetained have (default [] (ret !! k_organization_id k)) rw))
      by (unfold over_map; by rewrite Ek).
    destruct (AuthorityRetained have _ rw); simpl; intros Hs; apply IH in Hs as (Hd & -> & ->);
      (split; [intros k' [<- | Hk']; [eauto|by apply Hd]|]); unfold rows_count; simpl; rewrite Ho; simpl.
    + split; [done|lia].
    + split; [by rewrite <- app_assoc|done].
Qed.

Lemma filter_ext_in' {A} (f g : A -> bool) l : (forall x, In x l -> f x = g x) -> List.filter f l = List.filter g l.
Proof. apply filter_ext_in. Qed.

Lemma mem_ids_unique (p : KeyRow -> bool) l k : NoDup (List.map k_id l) -> In k l ->
  mem (k_id k) (List.map k_id (List.filter p l)) = p k.
Proof.
  intros Hnd Hk. apply eq_true_iff_eq. rewrite mem_true, in_map_iff. split.
  - intros (k' & E & [Hk' Hp]%filter_In). by rewrite (NoDup_map_inj k_id l k k').
  - intros Hp. exists k. by rewrite filter_In.
Qed.

Lemma filter_filter_bool {A} (f g : A -> bool) l :
  List.filter f (List.filter g l) = List.filter (fun x => g x && f x) l.
Proof. induction l as [|x l IH]; simpl; [done|]. destruct (g x); simpl; rewrite IH; done. Qed.

Section Sweep.
Context {St : Type} `{HasDB St}.

Lemma seen_intx (w : world St) : w_intx w = true -> db_seen w = w_db w.
Proof. apply intx_seen. Qed.

Lemma retainedScopes_Ok userID orgIDs (w : world St) ret w' :
  w_intx w = true -> db_wf (the_db (w_db w)) -> retainedScopes userID orgIDs w = (Ok ret, w') ->
  frame w w' /\ w_db w' = w_db w /\
  forall o, In o orgIDs -> default [] (ret !! o) = retained_at (the_db (w_db w)) userID o.
Proof.
  intros Hi Hwf Hx. unfold retainedScopes in Hx. apply bind_Ok in Hx as (rows & w1 & H1 & H2).
  apply select_Ok in H1 as (-> & Hf & Hd). rewrite intx_seen in Hd, H2 by done.
  injection H2 as Hr <-. split; [done|]. split; [done|]. intros o Ho.
  destruct (retained_loop_lookup _ _ _ Hr o) as [(j & ss & Hin & Hj & ->)|[-> Hn]].
  - apply in_map_iff in Hin as (m & [= <- <-] & [Hm [Hu%seqb_true _]%andb_prop]%filter_In).
    symmetry. by apply retained_at_row.
  - rewrite lookup_empty. simpl. unfold retained_at.
    destruct (find _ _) as [m|] eqn:Ef; [|done]. exfalso.
    apply find_some in Ef as [Hm [Ho' Hu]%same_member_true].
    apply (Hn (template_scopes (the_db (w_db w)) (m_RoleTemplateID m))). apply in_map_iff. exists m.
    rewrite Ho'. split; [done|]. apply filter_In. split; [done|].
    rewrite Hu, seqb_refl, Ho'. by apply mem_true.
Qed.

(** The sweep is the abstract one, and its counts are what it did. *)
Lemma sweepDerivedKeys_Ok rw red (w : world St) red' w' :
  w_intx w = true -> db_wf (the_db (w_db w)) -> red_KeysRevoked red = 0 ->
  sweepDerivedKeys rw red w = (Ok red', w') ->
  let d := the_db (w_db w) in let u := red_UserID red in let orgs := red_Organizations red in
  frame w w' /\ the_db (w_db w') = swept rw u orgs d /\
  (forall k, In k (api_keys d) -> derived_key u orgs k = true -> exists have, json_Unmarshal (k_scopes k) = Ok have) /\
  red' = {| red_UserID := u; red_Organizations := orgs;
            red_KeysRevoked := rows_count (doomed_key rw d u orgs) (api_keys d);
            red_KeysRetained := rows_count (fun k => derived_key u orgs k && negb (exceeds rw d u k)) (api_keys d) |}.
Proof.
  intros Hi Hwf Hz Hx d u orgs. unfold sweepDerivedKeys in Hx.
  apply bind_Ok in Hx as (ret & w1 & H1 & Hx).
  apply retainedScopes_Ok in H1 as (Hf1 & Hd1 & Hret); [|done..]. fold d u orgs in Hret.
  assert (Hi1 : w_intx w1 = true) by (destruct Hf1 as [-> _]; done).
  apply bind_Ok in Hx as (rows & w2 & H2 & Hx). apply select_Ok in H2 as (-> & Hf2 & Hd2).
  rewrite intx_seen in Hd2, Hx by done. rewrite Hd1 in Hd2, Hx. fold d u orgs in Hx.
  assert (Hi2 : w_intx w2 = true) by (destruct Hf2 as [-> _]; done).
  apply bind_Ok in Hx as ([D K] & w3 & H3 & Hx). apply wrapping_Ok in H3. injection H3 as Hs <-.
  apply sweep_loop_Ok in Hs as (Hdec & -> & ->). rewrite Nat.add_0_l in Hx.
  assert (Hover : forall k, In k (List.filter (derived_key u orgs) (api_keys d)) ->
    over_map rw ret k = exceeds rw d u k).
  { intros k [_ [_ Ho%mem_true]%andb_prop]%filter_In. unfold exceeds, over_map. by rewrite Hret. }
  unfold rows_count in Hx.
  rewrite (filter_ext_in' (over_map rw ret) (exceeds rw d u)) in Hx by done.
  rewrite (filter_ext_in' (fun k => negb (over_map rw ret k)) (fun k => negb (exceeds rw d u k))) in Hx
    by (intros k Hk; cbv beta; f_equal; by apply Hover).
  cbn [app] in Hx.
  rewrite !filter_filter_bool in Hx. fold (doomed_key rw d u orgs) in Hx. rewrite length_map in Hx.
  assert (Hf : frame w w2) by (by transitivity w1).
  assert (Hdecoded : forall k, In k (api_keys d) -> derived_key u orgs k = true ->
     exists have, json_Unmarshal (k_scopes k) = Ok have).
  { intros k Hk Hder. apply Hdec. by rewrite filter_In. }
  assert (Hids : forall k, In k (api_keys d) ->
    mem (k_id k) (List.map k_id (List.filter (doomed_key rw d u orgs) (api_keys d))) = doomed_key rw d u orgs k).
  { intros k Hk. by apply mem_ids_unique; [apply Hwf|]. }
  fold (rows_count (doomed_key rw d u orgs) (api_keys d)) in Hx.
  fold (rows_count (fun k => derived_key u orgs k && negb (exceeds rw d u k)) (api_keys d)) in Hx.
  destruct (rows_count (doomed_key rw d u orgs) (api_keys d) =? 0)%nat eqn:E0.
  - apply Nat.eqb_eq in E0. injection Hx as <- <-. split; [done|]. split; [|split; [done|by rewrite Hz, E0]].
    rewrite Hd2. fold d. unfold swept. unfold rows_count in E0. apply length_zero_iff_nil in E0.
    assert (rows_del (doomed_key rw d u orgs) (api_keys d) = api_keys d) as ->; [|by destruct d].
    unfold rows_del. revert E0. generalize (api_keys d). intros l. induction l as [|k l IH]; simpl; [done|].
    destruct (doomed_key rw d u orgs k); [done|]. simpl. intros El. by rewrite IH.
  - apply bind_Ok in Hx as (n & w4 & H4 & Hx). apply exec_Ok in H4 as (d' & [= <- <-] & Hf4 & Hd4).
    rewrite intx_seen, Hd2 in Hd4, Hx by done. fold d in Hd4, Hx.
    assert (Hc : rows_count (fun k => mem (k_id k) (List.map k_id (List.filter (doomed_key rw d u orgs) (api_keys d)))) (api_keys d)
      = rows_count (doomed_key rw d u orgs) (api_keys d)).
    { unfold rows_count. by rewrite (filter_ext_in' _ (doomed_key rw d u orgs)). }
    rewrite Hc, Nat.eqb_refl in Hx. simpl in Hx. injection Hx as <- <-.
    split; [by transitivity w2|]. split; [|split; done].
    rewrite Hd4, the_put. unfold swept, rows_del.
    by rewrite (filter_ext_in' _ (fun k => negb (doomed_key rw d u orgs k))) by (intros k Hk; by rewrite Hids).
Qed.
End Sweep.

Section Runs.
Context {St : Type} `{HasDB St}.

(** An application sweep that keeps to its own tables and leaves the transaction
    open. *)
Definition own_tables (app : AppCredentials St) : Prop :=
  forall red w r w', app red w = (r, w') -> frame w w' /\ the_db (w_db w') = the_db (w_db w).

(** A statement inside the transaction that has the effect [eff]. *)
Definition performs (reduce : M St (list string)) (eff : effect) : Prop :=
  forall w orgs w', w_intx w = true -> reduce w = (Ok orgs, w') ->
  frame w w' /\ exists d, eff (the_db (w_db w)) = Ok (orgs, d) /\ the_db (w_db w') = d.

Definition keeps_schema (eff : effect) : Prop := forall d orgs d', eff d = Ok (orgs, d') -> db_wf d -> db_wf d'.

(** What a committed reduction did. *)
Definition committed (rw : ReadWritePairs) (userID : string) (eff : effect) (d0 : DB) (red : Reduced) (d' : DB) : Prop :=
  exists orgs d1, eff d0 = Ok (orgs, d1) /\
    red_UserID red = userID /\ red_Organizations red = orgs /\
    match orgs with
    | [] => d' = d1 /\ red_KeysRevoked red = 0 /\ red_KeysRetained red = 0
    | _ => d' = swept rw userID orgs d1 /\
        (forall k, In k (api_keys d1) -> derived_key userID orgs k = true ->
           exists have, json_Unmarshal (k_scopes k) = Ok have) /\
        red_KeysRevoked red = rows_count (doomed_key rw d1 userID orgs) (api_keys d1) /\
        red_KeysRetained red =
          rows_count (fun k => derived_key userID orgs k && negb (exceeds rw d1 userID k)) (api_keys d1)
    end.

Lemma run_inv r userID app reduce eff (w : world St) res w' :
  own_tables app -> performs reduce eff -> keeps_schema eff -> db_wf (the_db (db_seen w)) ->
  run (Some r) userID (Some app) reduce w = (res, w') ->
  (exists red, res = Ok red /\ committed (red_rwPairs r) userID eff (the_db (db_seen w)) red (the_db (w_db w'))) \/
  (exists e, res = Err e /\ (w' = w \/ w_db w' = db_seen w)).
Proof.
  intros Happ Hred Hsch Hwf Hx. unfold run in Hx. destruct (red_has_db r); simpl in Hx.
  2: { injection Hx as <- <-. right. eauto. }
  apply tx_inv in Hx as [(red & w1 & w2 & -> & Hb & Hx & Hd)|(e & -> & Hd)]; [|right; eauto].
  left. exists red. split; [done|]. destruct Hb as (Hd1 & Hi1 & _).
  apply bind_Ok in Hx as (orgs & w3 & H3 & Hx).
  apply Hred in H3 as (Hf3 & d1 & He & Hd3); [|done]. rewrite Hd1 in He.
  assert (Hi3 : w_intx w3 = true) by (destruct Hf3 as [-> _]; done).
  exists orgs, d1. split; [done|].
  destruct (0 <? length orgs)%nat eqn:El.
  - apply bind_Ok in Hx as (red1 & w4 & H4 & Hx). apply bind_Ok in Hx as (u & w5 & H5 & [= -> ->]).
    apply sweepDerivedKeys_Ok in H4 as (Hf4 & Hd4 & Hdec & ->); [|done|rewrite Hd3; by eapply Hsch|done].
    apply wrapping_Ok in H5. apply Happ in H5 as [Hf5 Hd5]. simpl in *.
    assert (w_intx w2 = true) as Hi2 by (destruct Hf5 as [-> _], Hf4 as [-> _]; done).
    destruct Hd as [Hd|Hd]; [|congruence]. rewrite Hd, Hd5, Hd4, Hd3. rewrite Hd3 in Hdec.
    split; [done|]. split; [done|]. by destruct orgs.
  - injection Hx as <- <-. destruct Hd as [Hd|Hd]; [|congruence]. destruct orgs; [|done].
    simpl. by rewrite Hd, Hd3.
Qed.

Lemma counted_inv (f : DB -> result (nat * DB)) msg what orgs (w : world St) orgs' w' :
  w_intx w = true ->
  (n ← wrapping msg (exec f); requireRow n what;; mret orgs : M St (list string)) w = (Ok orgs', w') ->
  frame w w' /\ orgs' = orgs /\ exists n, f (the_db (w_db w)) = Ok (n, the_db (w_db w')) /\ n <> 0.
Proof.
  intros Hi Hx. apply bind_Ok in Hx as (n & w1 & H1 & Hx). apply exec_Ok in H1 as (d & Hf & Hfr & Hd).
  apply bind_Ok in Hx as (u & w2 & H2 & [= <- <-]). apply requireRow_inv in H2 as [-> [[_ Hn]|[[=] _]]].
  rewrite intx_seen in Hf, Hd by done. split; [done|]. split; [done|]. exists n.
  by rewrite Hd, the_put.
Qed.

Lemma remove_performs orgID userID scope :
  performs (n ← wrapping "failed to remove member" (exec (delete_members (member_where orgID userID scope)));
            requireRow n "organization member";; mret [orgID] : M St (list string)) (remove_effect orgID userID scope).
Proof.
  intros w orgs w' Hi Hx. apply counted_inv in Hx as (Hf & -> & n & [= <- <-] & Hn); [|done].
  split; [done|]. eexists. split; [|done]. unfold remove_effect.
  by destruct (rows_count _ _ =? 0)%nat eqn:E; [apply Nat.eqb_eq in E|].
Qed.

Lemma role_performs orgID userID v scope :
  performs (n ← wrapping "failed to update member role template"
                  (exec (update_member_role (member_where orgID userID scope) v));
            requireRow n "organization member";; mret [orgID] : M St (list string)) (role_effect orgID userID v scope).
Proof.
  intros w orgs w' Hi Hx. apply counted_inv in Hx as (Hf & -> & n & Hu & Hn); [|done].
  split; [done|]. eexists. split; [|done]. unfold role_effect, update_member_role in *.
  destruct (rows_count _ _ =? 0)%nat; [by injection Hu as <- _|].
  destruct (opt_ok _ v); [|done]. by injection Hu as _ <-.
Qed.

Lemma named_role_performs orgID userID name scope :
  performs (id ← lookupRoleTemplateID name;
            n ← wrapping "failed to update member role template"
                  (exec (update_member_role (member_where orgID userID scope) (Some id)));
            requireRow n "organization member";; mret [orgID] : M St (list string)) (named_role_effect orgID userID name scope).
Proof.
  intros w orgs w' Hi Hx. apply bind_Ok in Hx as (id & w1 & H1 & Hx).
  unfold lookupRoleTemplateID in H1. apply bind_Ok in H1 as (row & w2 & H1 & H2).
  apply select_Ok in H1 as (-> & Hf1 & Hd1). rewrite intx_seen in Hd1, H2 by done.
  unfold named_role_effect. destruct (head _) as [i|]; [|done]. injection H2 as -> ->.
  apply role_performs in Hx as (Hf & d & He & Hd); [|by destruct Hf1 as [-> _]].
  rewrite Hd1 in He. split; [by transitivity w1|]. eauto.
Qed.

Lemma remove_all_performs userID scope :
  performs (wrapping "failed to remove all memberships for user" (exec (fun d =>
      Ok (List.map m_OrganizationID (List.filter (fun m => (m_UserID m =s userID) && admits scope (Some (m_OrganizationID m)))
            (organization_members d)),
          set_members (rows_del (fun m => (m_UserID m =s userID) && admits scope (Some (m_OrganizationID m)))
            (organization_members d)) d)))) (remove_all_effect userID scope).
Proof.
  intros w orgs w' Hi Hx. apply exec_Ok in Hx as (d & [= <- <-] & Hf & Hd). rewrite intx_seen in Hd |- * by done.
  split; [done|]. eexists. split; [done|]. by rewrite Hd, the_put.
Qed.

Lemma remove_effect_wf orgID userID scope : keeps_schema (remove_effect orgID userID scope).
Proof.
  intros d orgs d' He. unfold remove_effect in He. destruct (_ =? _)%nat; [done|]. injection He as _ <-.
  by eapply delete_members_wf.
Qed.

Lemma role_effect_wf orgID userID v scope : keeps_schema (role_effect orgID userID v scope).
Proof.
  intros d orgs d' He. unfold role_effect in He. destruct (_ =? _)%nat eqn:E0; [done|].
  destruct (opt_ok _ v) eqn:Ev; [|done]. injection He as _ <-.
  eapply (update_member_role_wf (member_where orgID userID scope) v). unfold update_member_role.
  by rewrite E0, Ev.
Qed.

Lemma named_role_effect_wf orgID userID name scope : keeps_schema (named_role_effect orgID userID name scope).
Proof. intros d orgs d' He. unfold named_role_effect in He. case_match; [by eapply role_effect_wf|done]. Qed.

Lemma remove_all_effect_wf userID scope : keeps_schema (remove_all_effect userID scope).
Proof. intros d orgs d' [= _ <-]. by eapply delete_members_wf. Qed.

(** Every operation of a Reducer refines its abstract reduction. *)
Lemma reduction_inv r app userID m eff (w : world St) res w' :
  own_tables app -> reduction r app userID m eff -> db_wf (the_db (db_seen w)) -> m w = (res, w') ->
  (exists red, res = Ok red /\
     (committed (red_rwPairs r) userID eff (the_db (db_seen w)) red (the_db (w_db w')) \/
      (red = {| red_UserID := userID; red_Organizations := []; red_KeysRevoked := 0; red_KeysRetained := 0 |} /\ w' = w))) \/
  (exists e, res = Err e /\ (w' = w \/ w_db w' = db_seen w)).
Proof.
  intros Happ Hm Hwf Hx.
  assert (Hrun : forall reduce, performs reduce eff -> keeps_schema eff ->
    run (Some r) userID (Some app) reduce w = (res, w') ->
    (exists red, res = Ok red /\
     (committed (red_rwPairs r) userID eff (the_db (db_seen w)) red (the_db (w_db w')) \/
      (red = {| red_UserID := userID; red_Organizations := []; red_KeysRevoked := 0; red_KeysRetained := 0 |} /\ w' = w))) \/
    (exists e, res = Err e /\ (w' = w \/ w_db w' = db_seen w))).
  { intros reduce Hp Hs Hr. destruct (run_inv _ _ _ _ _ _ _ _ Happ Hp Hs Hwf Hr) as [(red & -> & Hc)|?]; eauto. }
  destruct Hm as [orgID scope|orgID v scope|orgID name scope|scope]; revert Hx.
  - unfold RemoveMember. destruct (MatchesNothing scope); [intros [= <- <-]; eauto|].
    apply Hrun; [apply remove_performs|apply remove_effect_wf].
  - unfold UpdateMemberRoleTemplate. destruct (MatchesNothing scope); [intros [= <- <-]; eauto|].
    apply Hrun; [apply role_performs|apply role_effect_wf].
  - unfold UpdateMemberRole. destruct (MatchesNothing scope); [intros [= <- <-]; eauto|].
    apply Hrun; [apply named_role_performs|apply named_role_effect_wf].
  - unfold RemoveAllMembershipsForUser. destruct (MatchesNothing scope); [intros [= <- <-]; eauto 7|].
    apply Hrun; [apply remove_all_performs|apply remove_all_effect_wf].
Qed.
End Runs.

(** ** Progress *)

(** Every scope document in the schema is a list of strings. *)
Definition decodable (d : DB) : Prop :=
  (forall k, In k (api_keys d) -> exists ss, json_Unmarshal (k_scopes k) = Ok ss) /\
  (forall t, In t (role_templates d) -> exists ss, json_Unmarshal (t_scopes t) = Ok ss).

Lemma template_scopes_decodable d id : decodable d -> exists ss, json_Unmarshal (template_scopes d id) = Ok ss.
Proof.
  intros [_ Ht]. unfold template_scopes, template_of. destruct id as [i|]; [|by eexists].
  destruct (find _ _) as [t|] eqn:Ef; [|by eexists]. apply Ht. apply (find_some _ _ Ef).
Qed.

Lemma retained_loop_total rows acc :
  (forall o j, In (o, j) rows -> exists ss, json_Unmarshal j = Ok ss) -> exists ret, retained_loop rows acc = Ok ret.
Proof.
  revert acc. induction rows as [|[o j] rows IH]; intros acc Hj; simpl; [eauto|].
  destruct (Hj o j (or_introl eq_refl)) as [ss ->]. apply IH. intros o' j' Hin. eapply Hj. by right.
Qed.

Lemma sweep_loop_total rw ret rows doomed kept :
  (forall k, In k rows -> exists ss, json_Unmarshal (k_scopes k) = Ok ss) ->
  exists D K, sweep_loop rw ret rows doomed kept = Ok (D, K).
Proof.
  revert doomed kept. induction rows as [|k rows IH]; intros doomed kept Hk; simpl; [eauto|].
  destruct (Hk k (or_introl eq_refl)) as [ss ->]. case_match; apply IH; intros k' Hk'; apply Hk; by right.
Qed.

Section Progress.
Context {St : Type} `{HasDB St}.

Lemma sweepDerivedKeys_total rw red (w : world St) :
  w_sched w = [] -> db_wf (the_db (w_db w)) -> decodable (the_db (w_db w)) ->
  exists red' w', sweepDerivedKeys rw red w = (Ok red', w') /\ w_sched w' = [].
Proof.
  intros Hq Hwf Hdec. unfold sweepDerivedKeys, retainedScopes.
  set (d := the_db (w_db w)) in *.
  destruct (retained_loop_total (List.map (fun m => (m_OrganizationID m, template_scopes d (m_RoleTemplateID m)))
    (List.filter (fun m => (m_UserID m =s red_UserID red) && mem (m_OrganizationID m) (red_Organizations red))
       (organization_members d))) ∅) as [ret Hret].
  { intros o j (m & [= <- <-] & _)%in_map_iff. by apply template_scopes_decodable. }
  destruct (sweep_loop_total rw ret (List.filter (derived_key (red_UserID red) (red_Organizations red)) (api_keys d)) [] 0)
    as (D & K & Hs). { intros k [Hk _]%filter_In. by apply Hdec. }
  unfold mbind, M_bind, wrapping, mapping_err. rewrite !select_quiet by done. simpl. fold d. rewrite Hret. simpl.
  rewrite select_quiet by done. fold d. rewrite Hs. simpl.
  apply sweep_loop_Ok in Hs as (_ & -> & _). cbn [app].
  destruct (_ =? 0)%nat; [by eexists _, _|]. rewrite exec_quiet by done. simpl. fold d.
  rewrite filter_filter_bool.
  match goal with |- context [List.filter ?p (api_keys d)] => set (q := p) end.
  assert (E : rows_count (fun k => mem (k_id k) (List.map k_id (List.filter q (api_keys d)))) (api_keys d)
              = length (List.map k_id (List.filter q (api_keys d)))).
  { unfold rows_count. rewrite length_map. f_equal. apply filter_ext_in. intros k Hk.
    apply mem_ids_unique; [apply Hwf|done]. }
  rewrite E, Nat.eqb_refl. simpl. by eexists _, _.
Qed.

(** A statement that a quiet database cannot refuse for any other reason. *)
Definition obeys (reduce : M St (list string)) (eff : effect) : Prop :=
  forall w, w_sched w = [] ->
  match eff (the_db (w_db w)) with
  | Ok (orgs, d) => exists w', reduce w = (Ok orgs, w') /\ w_sched w' = [] /\ w_intx w' = w_intx w /\ the_db (w_db w') = d
  | Err _ => True
  end.

Lemma run_total r userID reduce eff (w : world St) orgs d :
  red_has_db r = true -> obeys reduce eff -> keeps_schema eff ->
  w_sched w = [] -> db_wf (the_db (w_db w)) -> decodable d -> eff (the_db (w_db w)) = Ok (orgs, d) ->
  exists red w', run (Some r) userID (Some NoAppCredentials) reduce w = (Ok red, w').
Proof.
  intros Hdb Hob Hsch Hq Hwf Hdec He. unfold run. rewrite Hdb. simpl.
  unfold tx, tx_by, tx_on, wrapping, mapping_err at 1, tick. rewrite Hq. simpl.
  pose proof (Hob (set_intx true w) Hq) as Ho. simpl in Ho. rewrite He in Ho.
  destruct Ho as (w1 & H1 & Hq1 & _ & Hd1). unfold mbind, M_bind. rewrite H1. simpl.
  destruct (0 <? length orgs)%nat.
  - destruct (sweepDerivedKeys_total (red_rwPairs r)
      {| red_UserID := userID; red_Organizations := orgs; red_KeysRevoked := 0; red_KeysRetained := 0 |} w1)
      as (red & w2 & H2 & Hq2); [done|rewrite Hd1; by eapply Hsch|by rewrite Hd1|].
    rewrite H2. simpl. unfold wrapping, mapping_err, NoAppCredentials, tick, mret, M_ret. rewrite Hq2. by eexists _, _.
  - unfold wrapping, mapping_err, tick, mret, M_ret. rewrite Hq1. by eexists _, _.
Qed.

Lemma counted_obeys (f : DB -> result (nat * DB)) msg what orgs (eff : effect) :
  (forall d, match eff d with
             | Ok (orgs', d') => orgs' = orgs /\ exists n, f d = Ok (n, d') /\ n <> 0
             | Err _ => True end) ->
  obeys (n ← wrapping msg (exec f); requireRow n what;; mret orgs) eff.
Proof.
  intros Hf w Hq. specialize (Hf (the_db (w_db w))). destruct (eff _) as [[orgs' d]|]; [|done].
  destruct Hf as [-> (n & Hf & Hn)]. unfold mbind, M_bind, wrapping, mapping_err. rewrite exec_quiet, Hf by done.
  unfold requireRow. destruct (n =? 0)%nat eqn:E; [by apply Nat.eqb_eq in E|].
  eexists. split; [done|]. simpl. by rewrite the_put.
Qed.

Lemma remove_counts orgID userID scope d :
  match remove_effect orgID userID scope d with
  | Ok (orgs', d') => orgs' = [orgID] /\ exists n, delete_members (member_where orgID userID scope) d = Ok (n, d') /\ n <> 0
  | Err _ => True end.
Proof.
  unfold remove_effect, delete_members. destruct (_ =? 0)%nat eqn:E; [done|]. apply Nat.eqb_neq in E. eauto.
Qed.

Lemma role_counts orgID userID v scope d :
  match role_effect orgID userID v scope d with
  | Ok (orgs', d') => orgs' = [orgID] /\
      exists n, update_member_role (member_where orgID userID scope) v d = Ok (n, d') /\ n <> 0
  | Err _ => True end.
Proof.
  unfold role_effect, update_member_role. destruct (_ =? 0)%nat eqn:E; [done|]. apply Nat.eqb_neq in E.
  destruct (opt_ok _ v); [|done]. eauto.
Qed.

Lemma no_match_no_rows {A} scope (p : A -> bool) (org : A -> string) l :
  MatchesNothing scope = true -> (forall x, p x = true -> admits scope (Some (org x)) = true) -> rows_count p l = 0.
Proof.
  intros Hn Hp. unfold rows_count. induction l as [|x l IH]; simpl; [done|].
  destruct (p x) eqn:E; [|done]. apply Hp in E. by rewrite (MatchesNothing_admits _ Hn) in E.
Qed.

Lemma reduction_total r userID m eff (w : world St) orgs d :
  red_has_db r = true -> reduction r NoAppCredentials userID m eff ->
  w_sched w = [] -> db_wf (the_db (w_db w)) -> decodable d -> eff (the_db (w_db w)) = Ok (orgs, d) ->
  exists red w', m w = (Ok red, w').
Proof.
  intros Hdb Hm Hq Hwf Hdec He. destruct Hm as [orgID scope|orgID v scope|orgID name scope|scope].
  - unfold RemoveMember. destruct (MatchesNothing scope) eqn:Hn.
    { unfold remove_effect in He. rewrite (no_match_no_rows scope _ m_OrganizationID) in He; [done|done|].
      intros x. apply member_where_admits. }
    eapply run_total; try done; [|apply remove_effect_wf]. apply counted_obeys, remove_counts.
  - unfold UpdateMemberRoleTemplate. destruct (MatchesNothing scope) eqn:Hn.
    { unfold role_effect in He. rewrite (no_match_no_rows scope _ m_OrganizationID) in He; [done|done|].
      intros x. apply member_where_admits. }
    eapply run_total; try done; [|apply role_effect_wf]. apply counted_obeys, role_counts.
  - unfold UpdateMemberRole. destruct (MatchesNothing scope) eqn:Hn.
    { unfold named_role_effect, role_effect in He. case_match; [|done].
      rewrite (no_match_no_rows scope _ m_OrganizationID) in He; [done|done|]. intros x. apply member_where_admits. }
    eapply run_total; try done; [|apply named_role_effect_wf].
    intros w1 Hq1. unfold named_role_effect. destruct (head _) as [id|] eqn:Eh; [|done].
    pose proof (counted_obeys _ "failed to update member role template" "organization member" _ _
      (role_counts orgID userID (Some id) scope) w1 Hq1) as Ho.
    destruct (role_effect _ _ _ _ _) as [[orgs' d']|]; [|done]. destruct Ho as (w2 & Ho & ?).
    exists w2. split; [|done].
    assert (Hl : lookupRoleTemplateID name w1 = (Ok id, w1)).
    { unfold lookupRoleTemplateID, mbind, M_bind, wrapping, mapping_err, select_row.
      rewrite select_quiet by done. by rewrite Eh. }
    by rewrite (bind_step _ _ _ _ _ Hl).
  - unfold RemoveAllMembershipsForUser. destruct (MatchesNothing scope); [by eexists _, _|].
    eapply run_total; try done; [|apply remove_all_effect_wf].
    intros w1 Hq1. simpl. unfold wrapping, mapping_err. rewrite exec_quiet by done. eexists. split; [done|]. simpl.
    by rewrite the_put.
Qed.
End Progress.

(** ** Properties *)

Lemma in_swept rw u orgs d k :
  In k (api_keys (swept rw u orgs d)) <-> In k (api_keys d) /\ doomed_key rw d u orgs k = false.
Proof. apply in_rows_del. Qed.

Lemma retained_at_scopes {St} `{HasDB St} u o (w : world St) l :
  w_sched w = [] -> db_wf (the_db (w_db w)) -> fst (GetUserScopesForOrg u o w) = Ok l ->
  forall s, In s l <-> In s (retained_at (the_db (w_db w)) u o).
Proof.
  intros Hq Hwf Hx s. destruct (GetUserScopesForOrg u o w) as [r w'] eqn:E. simpl in Hx. subst r.
  apply GetUserScopesForOrg_inv in E. unfold db_seen in E. rewrite Hq in E.
  destruct E as [(m & ss & [= ->] & Hm & Ho & Hu & Hss)|[([= ->] & Hn)|(e & [=] & _)]].
  - rewrite in_distinct, <- Ho. unfold role_scopes, unmarshalRoleTemplateScopes in Hss.
    rewrite (retained_at_row _ _ _ Hwf Hm Hu ss); [done|].
    destruct (json_Unmarshal _) as [x|x]; simpl in Hss; [by injection Hss as ->|done].
  - unfold retained_at. destruct (find _ _) as [m|] eqn:Ef; [|done]. exfalso.
    apply find_some in Ef as [Hm Hs%same_member_true]. by apply (Hn m Hm).
Qed.


(** C7: the reductions refine their specification and reach it. A committed
    reduction is the statement's effect followed by the deletion of exactly the
    user's keys in the affected organizations that ask for more than the user
    kept, no other row and no other table of the schema, with counts equal to what
    was deleted and left; and on a quiet database whose scope documents decode, the
    operation does commit whenever its statement has an effect. *)
Theorem reduction_refines {St} `{HasDB St} r app userID m eff (w : world St) :
  own_tables app -> reduction r app userID m eff -> db_wf (the_db (db_seen w)) ->
  (forall red w', m w = (Ok red, w') -> w' <> w ->
     committed (red_rwPairs r) userID eff (the_db (db_seen w)) red (the_db (w_db w'))) /\
  (app = NoAppCredentials -> red_has_db r = true -> w_sched w = [] ->
     forall orgs d, eff (the_db (w_db w)) = Ok (orgs, d) -> decodable d -> exists red w', m w = (Ok red, w')).
Proof.
  intros Happ Hm Hwf. split.
  - intros red w' Hx Hne.
    destruct (reduction_inv _ _ _ _ _ _ _ _ Happ Hm Hwf Hx) as [(red' & [= <-] & [Hc|[_ ->]])|(e & [=] & _)]; done.
  - intros -> Hdb Hq orgs d He Hdec. unfold db_seen in Hwf. rewrite Hq in Hwf. by eapply reduction_total.
Qed.

(** ** Witnesses *)

Definition ex_reducer : Reducer := NewReducer true ({["users:read" := "users:write"]}).

Lemma NoAppCredentials_own {St} `{HasDB St} : own_tables (St := St) NoAppCredentials.
Proof. by intros red w r w' [= <- <-]. Qed.

Lemma ex_db_keys_wf : db_wf ex_db_keys.
Proof.
  apply (update_keys_wf (fun _ => false) (fun k => k) ex_db_keys 0 ex_db_keys); [done|done|].
  constructor; try (by apply (bool_decide_unpack _); vm_compute);
    simpl; intros x Hx; repeat (destruct Hx as [<- | Hx]; [reflexivity|]); destruct Hx.
Qed.


Lemma reduction_refines_witness :
  let m := RemoveMember (Some ex_reducer) "o1" "u1" OrgScopeAllOrganizations (Some NoAppCredentials) in
  let w := quiet ex_db_keys 0 0 0 in
  (forall red w', m w = (Ok red, w') -> w' <> w ->
     committed (red_rwPairs ex_reducer) "u1" (remove_effect "o1" "u1" OrgScopeAllOrganizations)
       (the_db (db_seen w)) red (the_db (w_db w'))) /\
  ((NoAppCredentials : AppCredentials DB) = NoAppCredentials -> red_has_db ex_reducer = true -> w_sched w = [] ->
     forall orgs d, remove_effect "o1" "u1" OrgScopeAllOrganizations (the_db (w_db w)) = Ok (orgs, d) ->
     decodable d -> exists red w', m w = (Ok red, w')).
Proof.
  cbv zeta. apply (reduction_refines ex_reducer NoAppCredentials "u1").
  - apply NoAppCredentials_own.
  - apply is_RemoveMember.
  - exact ex_db_keys_wf.
Defined.

(** Removing the admin membership deletes the admin key and keeps the other. *)
Example reduction_on_example :
  List.map k_id (api_keys (w_db (snd (RemoveMember (Some ex_reducer) "o1" "u1" OrgScopeAllOrganizations
    (Some NoAppCredentials) (quiet ex_db_keys 0 0 0))))) = ["k2"; "k3"].
Proof. vm_compute. reflexivity. Qed.
