(* ===== verification/RoleTemplateRepo.v ===== *)
(** * RoleTemplateRepo: identity/store/role_template_repository.go

    Role templates: reads, creation, and the two mutations, which refuse system
    templates in the statement itself. *)

From S2P Require Import Prelude Order Scopes Models OrgScope Db DbRel.

Definition toModel (row : TemplateRow) : result RoleTemplate :=
  scopes ← wrap_err "failed to unmarshal role template scopes" (json_Unmarshal (t_scopes row));
  Ok {| rt_ID := t_id row; rt_Name := t_name row; rt_DisplayName := t_display_name row;
        rt_Description := t_description row; rt_Scopes := scopes; rt_IsSystem := t_is_system row;
        rt_CreatedAt := t_created_at row; rt_UpdatedAt := t_updated_at row |}.

Definition by_name (x y : TemplateRow) : bool := String.leb (t_name x) (t_name y).

(** WHERE id = $1 AND is_system = false *)
Definition mutable_template (id : string) (t : TemplateRow) : bool := (t_id t =s id) && negb (t_is_system t).

Definition with_template (template : RoleTemplate) (now : Z) (t : TemplateRow) : TemplateRow :=
  {| t_id := t_id t; t_name := t_name t; t_display_name := rt_DisplayName template;
     t_description := rt_Description template; t_scopes := json_Marshal (rt_Scopes template);
     t_is_system := t_is_system t; t_created_at := t_created_at t; t_updated_at := now |}.

Section Repository.
Context {St : Type} `{HasDB St}.

Definition ListRoleTemplates : M St (list RoleTemplate) :=
  rows ← wrapping "failed to list role templates" (select (fun d => sort_by by_name (role_templates d)));
  lift (scan_all toModel rows).

Definition GetRoleTemplate (id : string) : M St RoleTemplate :=
  row ← wrapping "failed to get role template" (select_row (fun d =>
    List.filter (fun t => t_id t =s id) (role_templates d)));
  match row with None => throw (notFound "role template by id") | Some row => lift (toModel row) end.

Definition GetRoleTemplateByName (name : string) : M St RoleTemplate :=
  row ← wrapping "failed to get role template by name" (select_row (fun d =>
    List.filter (fun t => t_name t =s name) (role_templates d)));
  match row with None => throw (notFound "role template by name") | Some row => lift (toModel row) end.

Definition CreateRoleTemplate (template : RoleTemplate) : M St unit :=
  wrapping "failed to create role template" (exec (insert_template
    {| t_id := rt_ID template; t_name := rt_Name template; t_display_name := rt_DisplayName template;
       t_description := rt_Description template; t_scopes := json_Marshal (rt_Scopes template);
       t_is_system := rt_IsSystem template; t_created_at := rt_CreatedAt template;
       t_updated_at := rt_UpdatedAt template |}));;
  mret tt.

(** The statement a mutation runs is its row effect. *)
Definition execRoleTemplateMutation (statement : DB -> result (nat * DB)) : M St unit :=
  n ← wrapping "failed to mutate role template" (exec statement);
  if (n =? 0)%nat
  then throw (Wrap "role template not found or is a system template (immutable)" ErrNotFound)
  else mret tt.

Definition updateRoleTemplateStmt (template : RoleTemplate) (now : Z) : DB -> result (nat * DB) :=
  update_templates (mutable_template (rt_ID template)) (with_template template now).

Definition deleteRoleTemplateStmt (id : string) : DB -> result (nat * DB) :=
  delete_templates (mutable_template id).

Definition UpdateRoleTemplate (template : RoleTemplate) : M St unit :=
  now ← time_Now;
  execRoleTemplateMutation (updateRoleTemplateStmt template now).

Definition DeleteRoleTemplate (id : string) : M St unit :=
  execRoleTemplateMutation (deleteRoleTemplateStmt id).
End Repository.

(** ** Lemmas *)

Lemma with_template_ids template now : same_template_ids (with_template template now).
Proof. by intros []. Qed.
#[export] Hint Resolve with_template_ids : wf.

(** The system templates of a schema. *)
Definition system_templates (d : DB) : list TemplateRow := List.filter t_is_system (role_templates d).
Definition keeps_system (d d' : DB) : Prop := system_templates d' = system_templates d.

#[export] Instance keeps_system_preorder : PreOrder keeps_system.
Proof. split; [done|]. intros a b c E1 E2. unfold keeps_system in *. congruence. Qed.

Lemma update_keeps_system template now d a d' :
  updateRoleTemplateStmt template now d = Ok (a, d') -> keeps_system d d'.
Proof.
  intros [= _ <-]. unfold keeps_system, system_templates, rows_upd, mutable_template. simpl.
  induction (role_templates d) as [|t l IH]; simpl; [done|].
  destruct (t_id t =s rt_ID template); destruct (t_is_system t) eqn:E; simpl; rewrite ?E; simpl; by rewrite IH.
Qed.

Lemma delete_keeps_system id d a d' : deleteRoleTemplateStmt id d = Ok (a, d') -> keeps_system d d'.
Proof.
  intros [= _ <-]. unfold keeps_system, system_templates, rows_del, mutable_template. simpl.
  induction (role_templates d) as [|t l IH]; simpl; [done|].
  destruct (t_id t =s id); destruct (t_is_system t) eqn:E; simpl; rewrite ?E; simpl; by rewrite IH.
Qed.
