(* ===== verification/TemplateReconcile.v ===== *)
(** * TemplateReconcile: identity/store/template_reconcile.go, template_write.go

    The bounded, resumable sweep that precedes a role-template mutation, its
    preview, and the writer that cannot mutate a template before the sweep has
    reached the end of the template's membership. *)

From S2P Require Import Prelude Order Scopes Models OrgScope Db DbRel OrganizationRepo.
From S2P Require Import ApiKeyRepo AuthorityReduction RoleTemplateRepo.

(** ** Data *)

Definition ErrNoTemplateReconciler : error := Sentinel "store: role-template reconciliation has no database handle".
Definition ErrReconciliationIncomplete : error :=
  Sentinel "store: role-template reconciliation did not finish; the template was not modified".

Record TemplateAffected := { ta_OrganizationID : string; ta_UserID : string }.

#[export] Instance TemplateAffected_eq : EqDecision TemplateAffected.
Proof. solve_decision. Defined.
#[export] Instance TemplateAffected_countable : Countable TemplateAffected.
Proof.
  apply (inj_countable' (fun p => (ta_OrganizationID p, ta_UserID p))
    (fun p => {| ta_OrganizationID := fst p; ta_UserID := snd p |})). by intros [].
Defined.

Record TemplateReconcileImpact := { Scanned : nat; Principals : nat; Keys : nat }.

Record TemplateReconcileResult := {
  BatchesRun : nat; PrincipalsChecked : nat; KeysSwept : nat; KeysSpared : nat;
  Cursor : option TemplateAffected; Done : bool
}.

Record ReconcileOptions := { BatchSize : Z; MaxBatches : nat; After : option TemplateAffected }.

Record TemplateWritten := { Reconciled : TemplateReconcileResult; Mutated : bool }.

(** Row comparison on (organization_id, user_id). *)
Definition pair_leb (x y : TemplateAffected) : bool :=
  if ta_OrganizationID x =s ta_OrganizationID y then String.leb (ta_UserID x) (ta_UserID y)
  else String.leb (ta_OrganizationID x) (ta_OrganizationID y).

Definition pair_ltb (x y : TemplateAffected) : bool := negb (pair_leb y x).

Definition after_cursor (after : option TemplateAffected) (p : TemplateAffected) : bool :=
  match after with None => true | Some c => pair_ltb c p end.

Definition principal_of (m : OrganizationMember) : TemplateAffected :=
  {| ta_OrganizationID := m_OrganizationID m; ta_UserID := m_UserID m |}.

Definition holds (templateID : string) (m : OrganizationMember) : bool := col_is (m_RoleTemplateID m) templateID.

(** A key of this (organization, user) pair; a service key has no user. *)
Definition key_of (p : TemplateAffected) (k : KeyRow) : bool :=
  (k_organization_id k =s ta_OrganizationID p) && col_is (k_user_id k) (ta_UserID p).

(** ** Preview *)

(** templateAffectedWithKeysQuery: the LEFT JOIN, one row per key or one without. *)
Definition affected_rows (templateID : string) (d : DB) : list (TemplateAffected * option jsonb) :=
  List.flat_map (fun p =>
      match List.filter (key_of p) (api_keys d) with
      | [] => [(p, None)]
      | ks => List.map (fun k => (p, Some (k_scopes k))) ks
      end)
    (sort_by pair_leb (List.map principal_of (List.filter (holds templateID) (organization_members d)))).

Fixpoint preview_loop (proposedScopes : list string) (rwPairs : ReadWritePairs)
    (rows : list (TemplateAffected * option jsonb)) (keys : nat) (scanned doomed : gset TemplateAffected)
    : result TemplateReconcileImpact :=
  match rows with
  | [] => Ok {| Scanned := size scanned; Principals := size doomed; Keys := keys |}
  | (principal, None) :: rest =>
      preview_loop proposedScopes rwPairs rest keys ({[principal]} ∪ scanned) doomed
  | (principal, Some scopesJSON) :: rest =>
      match json_Unmarshal scopesJSON with
      | Err e => Err (Wrap "role-template reconciliation preview" (Wrap "unmarshalling api key scopes" e))
      | Ok have =>
          if AuthorityRetained have proposedScopes rwPairs
          then preview_loop proposedScopes rwPairs rest keys ({[principal]} ∪ scanned) doomed
          else preview_loop proposedScopes rwPairs rest (S keys) ({[principal]} ∪ scanned) ({[principal]} ∪ doomed)
      end
  end.

Section Reconciliation.
Context {St : Type} `{HasDB St}.

(** [db] says whether a handle was given. *)
Definition PreviewRoleTemplateReconciliation (db : bool) (templateID : string) (proposedScopes : list string)
    (rwPairs : ReadWritePairs) : M St TemplateReconcileImpact :=
  if negb db then throw ErrNoTemplateReconciler
  else if templateID =s "" then throw (Plain "role-template reconciliation preview: empty template id")
  else
    rows ← wrapping "role-template reconciliation preview: reading membership"
             (select (affected_rows templateID));
    lift (preview_loop proposedScopes rwPairs rows 0 ∅ ∅).

(** ** One batch *)

Definition planBatch (templateID : string) (after : option TemplateAffected) (batchSize : nat)
    : M St (list TemplateAffected) :=
  wrapping "role-template reconciliation: planning batch" (select (fun d =>
    firstn batchSize (sort_by pair_leb (List.filter (after_cursor after)
      (List.map principal_of (List.filter (holds templateID) (organization_members d))))))).

(** batchKeysQuery: keys of the page's principals whose membership still names the
    template. (organization_id, user_id) is unique on both joined sides, so the
    joins select and do not multiply. *)
Definition batch_key (templateID : string) (page : list TemplateAffected) (d : DB) (k : KeyRow) : bool :=
  existsb (fun p => key_of p k) page &&
  existsb (fun m => key_of (principal_of m) k && holds templateID m) (organization_members d).

Fixpoint batch_loop (proposedScopes : list string) (rwPairs : ReadWritePairs) (rows : list KeyRow)
    (doomed : list string) (spared : nat) : result (list string * nat) :=
  match rows with
  | [] => Ok (doomed, spared)
  | k :: rest =>
      match json_Unmarshal (k_scopes k) with
      | Err e => Err (Wrap "unmarshalling api key scopes" e)
      | Ok have =>
          if AuthorityRetained have proposedScopes rwPairs
          then batch_loop proposedScopes rwPairs rest doomed (S spared)
          else batch_loop proposedScopes rwPairs rest (doomed ++ [k_id k]) spared
      end
  end.

Definition sweepBatchKeys (templateID : string) (proposedScopes : list string) (rwPairs : ReadWritePairs)
    (page : list TemplateAffected) : M St (nat * nat) :=
  rows ← wrapping "role-template reconciliation: reading locked api keys" (select (fun d =>
    List.filter (batch_key templateID page d) (api_keys d)));
  res ← wrapping "role-template reconciliation: reading locked api keys"
          (lift (batch_loop proposedScopes rwPairs rows [] 0));
  let (doomed, spared) := (res : list string * nat) in
  if (length doomed =? 0)%nat then mret (0, spared)
  else
    n ← wrapping "role-template reconciliation: sweeping api keys"
          (exec (delete_keys (fun k => mem (k_id k) doomed)));
    if negb (n =? length doomed)%nat
    then throw (Plain "role-template reconciliation: selected and deleted different numbers of api keys")
    else mret (n, spared).

Definition reconcileOneBatch (templateID : string) (proposedScopes : list string) (rwPairs : ReadWritePairs)
    (batchSize : nat) (after : option TemplateAffected) : M St (list TemplateAffected * nat * nat) :=
  tx "role-template reconciliation: beginning batch" "role-template reconciliation: committing batch" (
    page ← planBatch templateID after batchSize;
    if (length page =? 0)%nat then mret (page, 0, 0)
    else
      res ← sweepBatchKeys templateID proposedScopes rwPairs page;
      mret (page, fst res, snd res)).

(** ** The loop *)

Definition stopped (r : TemplateReconcileResult) (cursor : option TemplateAffected) (fin : bool) : TemplateReconcileResult :=
  {| BatchesRun := BatchesRun r; PrincipalsChecked := PrincipalsChecked r; KeysSwept := KeysSwept r;
     KeysSpared := KeysSpared r; Cursor := cursor; Done := fin |}.

Definition counted (r : TemplateReconcileResult) (page : list TemplateAffected) (swept spared : nat) : TemplateReconcileResult :=
  {| BatchesRun := S (BatchesRun r); PrincipalsChecked := PrincipalsChecked r + length page;
     KeysSwept := KeysSwept r + swept; KeysSpared := KeysSpared r + spared; Cursor := Cursor r; Done := Done r |}.

Definition out_of_fuel : error := Sentinel "model: out of fuel".

(** [ctx n] says whether the context is cancelled at the n-th check. *)
Fixpoint reconcile_loop (fuel : nat) (ctx : nat -> bool) (templateID : string) (proposedScopes : list string)
    (rwPairs : ReadWritePairs) (opts : ReconcileOptions) (result : TemplateReconcileResult)
    (cursor : option TemplateAffected) : M St TemplateReconcileResult :=
  match fuel with
  | O => throw out_of_fuel
  | S fuel =>
      if ctx (BatchesRun result) then mret (stopped result cursor false)
      else if ((0 <? MaxBatches opts) && (MaxBatches opts <=? BatchesRun result))%nat
      then mret (stopped result cursor false)
      else
        batch ← reconcileOneBatch templateID proposedScopes rwPairs (Z.to_nat (BatchSize opts)) cursor;
        let '(page, swept, spared) := (batch : list TemplateAffected * nat * nat) in
        let result := counted result page swept spared in
        match last page with
        | None => mret (stopped result None true)
        | Some c =>
            if (length page <? Z.to_nat (BatchSize opts))%nat then mret (stopped result None true)
            else reconcile_loop fuel ctx templateID proposedScopes rwPairs opts result (Some c)
        end
  end.

Definition zero_result : TemplateReconcileResult :=
  {| BatchesRun := 0; PrincipalsChecked := 0; KeysSwept := 0; KeysSpared := 0; Cursor := None; Done := false |}.

Definition ReconcileRoleTemplate (fuel : nat) (ctx : nat -> bool) (db : bool) (templateID : string)
    (proposedScopes : list string) (rwPairs : ReadWritePairs) (opts : ReconcileOptions)
    : M St TemplateReconcileResult :=
  if negb db then throw ErrNoTemplateReconciler
  else if templateID =s "" then throw (Plain "role-template reconciliation: empty template id")
  else if (BatchSize opts <=? 0)%Z then throw (Plain "role-template reconciliation: BatchSize must be positive")
  else reconcile_loop fuel ctx templateID proposedScopes rwPairs opts zero_result (After opts).

(** ** The writer (template_write.go)

    Its result is Go's pair of a value and an error, since an incomplete run
    reports how far it got beside its error; an error with the zero value is the
    computation's. *)

Definition write (fuel : nat) (ctx : nat -> bool) (db : bool) (rwPairs : ReadWritePairs) (id : string)
    (proposedScopes : list string) (opts : ReconcileOptions) (mutate : M St unit)
    : M St (TemplateWritten * option error) :=
  if negb db then throw ErrNoTemplateReconciler
  else
    existing ← GetRoleTemplate id;
    if rt_IsSystem existing
    then throw (Wrap "role template not found or is a system template (immutable)" ErrNotFound)
    else
      reconciled ← ReconcileRoleTemplate fuel ctx db id proposedScopes rwPairs opts;
      if negb (Done reconciled)
      then mret ({| Reconciled := reconciled; Mutated := false |},
                 Some (Wrap "role template: did not reach the end of its membership" ErrReconciliationIncomplete))
      else
        r ← try mutate;
        match r with
        | Err err => mret ({| Reconciled := reconciled; Mutated := false |}, Some err)
        | Ok _ => mret ({| Reconciled := reconciled; Mutated := true |}, None)
        end.

(** A nil template is [None]. *)
Definition TemplateWriter_UpdateRoleTemplate (fuel : nat) (ctx : nat -> bool) (db : bool) (rwPairs : ReadWritePairs)
    (template : option RoleTemplate) (opts : ReconcileOptions) : M St (TemplateWritten * option error) :=
  match template with
  | None => throw (Plain "role-template write: nil template")
  | Some template =>
      now ← time_Now;
      write fuel ctx db rwPairs (rt_ID template) (rt_Scopes template) opts
        (execRoleTemplateMutation (updateRoleTemplateStmt template now))
  end.

Definition TemplateWriter_DeleteRoleTemplate (fuel : nat) (ctx : nat -> bool) (db : bool) (rwPairs : ReadWritePairs)
    (id : string) (opts : ReconcileOptions) : M St (TemplateWritten * option error) :=
  write fuel ctx db rwPairs id [] opts (execRoleTemplateMutation (deleteRoleTemplateStmt id)).
End Reconciliation.

(** ** The order of principals *)

Lemma pair_leb_total x y : pair_leb x y = true \/ pair_leb y x = true.
Proof.
  unfold pair_leb. rewrite (seqb_sym (ta_OrganizationID y)).
  destruct (ta_OrganizationID x =s ta_OrganizationID y); apply String.leb_total.
Qed.

Lemma pair_leb_antisym x y : pair_leb x y = true -> pair_leb y x = true -> x = y.
Proof.
  unfold pair_leb. rewrite (seqb_sym (ta_OrganizationID y)).
  destruct x as [o u], y as [o' u']; simpl. destruct (o =s o') eqn:E; intros H1 H2.
  - apply seqb_true in E as ->. f_equal. by apply String.leb_antisym.
  - apply seqb_false in E. destruct E. by apply String.leb_antisym.
Qed.

Lemma pair_leb_trans x y z : pair_leb x y = true -> pair_leb y z = true -> pair_leb x z = true.
Proof.
  unfold pair_leb. destruct x as [o u], y as [o' u'], z as [o'' u'']; simpl.
  destruct (o =s o') eqn:E1; [apply seqb_true in E1 as ->|apply seqb_false in E1];
    (destruct (o' =s o'') eqn:E2; [apply seqb_true in E2 as ->|apply seqb_false in E2]).
  - apply string_leb_trans.
  - done.
  - apply seqb_false in E1. by rewrite E1.
  - intros H1 H2. destruct (o =s o'') eqn:E3; [|by eapply string_leb_trans].
    apply seqb_true in E3 as ->. destruct E1. by apply String.leb_antisym.
Qed.

Lemma pair_ltb_trans x y z : pair_ltb x y = true -> pair_ltb y z = true -> pair_ltb x z = true.
Proof.
  unfold pair_ltb. rewrite !negb_true_iff. intros H1 H2. apply not_true_iff_false. intros H3.
  destruct (pair_leb_total y z) as [H|H]; [|congruence].
  assert (pair_leb y x = true) by (by eapply pair_leb_trans). congruence.
Qed.

(** The principals holding the template, in the sweep's order. *)
Definition holders (templateID : string) (d : DB) : list TemplateAffected :=
  sort_by pair_leb (List.map principal_of (List.filter (holds templateID) (organization_members d))).

Definition remaining (templateID : string) (after : option TemplateAffected) (d : DB) : list TemplateAffected :=
  List.filter (after_cursor after) (holders templateID d).

Lemma planned templateID after d :
  sort_by pair_leb (List.filter (after_cursor after) (List.map principal_of (List.filter (holds templateID) (organization_members d))))
  = remaining templateID after d.
Proof. apply sort_by_filter; eauto using pair_leb_total, pair_leb_trans, pair_leb_antisym. Qed.

Lemma in_holders templateID d p : In p (holders templateID d) <->
  exists m, In m (organization_members d) /\ holds templateID m = true /\ principal_of m = p.
Proof. unfold holders. rewrite in_sort_by, in_map_iff. setoid_rewrite filter_In. naive_solver. Qed.

Lemma nodup_holders templateID d : db_wf d -> NoDup (holders templateID d).
Proof.
  intros Hwf. unfold holders. rewrite sort_by_perm. apply NoDup_map_filter.
  destruct Hwf. revert wf_members. generalize (organization_members d). intros l.
  induction l as [|m l IH]; simpl; [intros; constructor|]. rewrite !NoDup_cons. intros [Hm Hl]. split; [|by apply IH].
  intros Hin%list_elem_of_In. apply Hm. apply in_map_iff in Hin as (m' & E & Hm').
  apply list_elem_of_In, in_map_iff. exists m'.
  split; [|done]. unfold principal_of in E. injection E as E1 E2. congruence.
Qed.

Lemma sorted_holders templateID d : StronglySorted (fun a b => pair_leb a b = true) (holders templateID d).
Proof. apply sort_by_strongly_sorted; eauto using pair_leb_total, pair_leb_trans. Qed.

(** Keyset pagination: what is after the last principal of a page is what the
    page did not cover. *)
Lemma remaining_after templateID after d page rest c :
  db_wf d -> remaining templateID after d = page ++ rest -> last page = Some c ->
  remaining templateID (Some c) d = rest.
Proof.
  intros Hwf E Hl. apply last_Some in Hl as [page' ->].
  assert (Hs : StronglySorted (fun a b => pair_leb a b = true) (remaining templateID after d))
    by apply sorted_filter, sorted_holders.
  assert (Hnd : NoDup (remaining templateID after d)).
  { pose proof (nodup_holders templateID d Hwf) as Hn.
    eapply sublist_NoDup; [exact Hn|]. unfold remaining. clear.
    induction (holders templateID d) as [|x l IH]; simpl; [done|]. by destruct (after_cursor after x); constructor. }
  assert (Hc : after_cursor after c = true).
  { assert (In c (remaining templateID after d)) as Hin by (rewrite E, !in_app_iff; simpl; tauto).
    apply filter_In in Hin. apply Hin. }
  assert (Hrem : remaining templateID (Some c) d = List.filter (pair_ltb c) (remaining templateID after d)).
  { unfold remaining. rewrite filter_filter_bool. apply filter_ext_in. intros x _. simpl.
    destruct (pair_ltb c x) eqn:Ex; [|by rewrite andb_false_r]. rewrite andb_true_r.
    destruct after as [a|]; simpl in *; [|done]. symmetry. by eapply pair_ltb_trans. }
  rewrite Hrem, E in *. rewrite <- app_assoc in *. cbn [app] in *. clear Hrem E Hc.
  rewrite !List.filter_app. simpl. unfold pair_ltb at 2.
  assert (pair_leb c c = true) as -> by (by destruct (pair_leb_total c c)). simpl.
  assert (H1 : List.filter (pair_ltb c) page' = []).
  { assert (Hall : forall x, In x page' -> pair_ltb c x = false).
    { intros x Hx. unfold pair_ltb. apply negb_false_iff.
      apply StronglySorted_app_1_elem_of with (x1 := x) (x2 := c) in Hs; [done|by apply list_elem_of_In|set_solver]. }
    clear -Hall. induction page' as [|x l IH]; simpl; [done|].
    rewrite (Hall x) by (by left). apply IH. intros y Hy. apply Hall. by right. }
  assert (H2 : List.filter (pair_ltb c) rest = rest).
  { assert (Hall : forall x, In x rest -> pair_ltb c x = true).
    { intros x Hx. unfold pair_ltb. apply negb_true_iff, not_true_iff_false. intros Hle.
      apply StronglySorted_app_1_r in Hs. apply StronglySorted_cons in Hs as [Hfa _].
      rewrite Forall_forall in Hfa. apply list_elem_of_In in Hx. pose proof (Hfa x Hx) as Hcx.
      rewrite (pair_leb_antisym c x Hcx Hle) in Hnd.
      apply NoDup_app in Hnd as (_ & _ & Hnd). apply NoDup_cons in Hnd as [Hn _]. done. }
    clear -Hall. induction rest as [|x l IH]; simpl; [done|].
    rewrite (Hall x) by (by left). f_equal. apply IH. intros y Hy. apply Hall. by right. }
  by rewrite H1, H2.
Qed.

(** ** What a batch does *)

Definition within (ps : list TemplateAffected) (k : KeyRow) : bool := existsb (fun p => key_of p k) ps.

(** A key that asks for more than the proposed scopes grant. *)
Definition uncovered (proposed : list string) (rw : ReadWritePairs) (k : KeyRow) : bool :=
  match json_Unmarshal (k_scopes k) with
  | Ok have => negb (AuthorityRetained have proposed rw)
  | Err _ => false
  end.

Definition stranded proposed rw ps (k : KeyRow) : bool := within ps k && uncovered proposed rw k.

Definition sweep_of proposed rw ps (d : DB) : DB := set_keys (rows_del (stranded proposed rw ps) (api_keys d)) d.

Lemma rows_del_del {A} (p q : A -> bool) l : rows_del p (rows_del q l) = rows_del (fun x => q x || p x) l.
Proof.
  unfold rows_del. rewrite filter_filter_bool. apply filter_ext. intros x. by rewrite negb_orb.
Qed.

Lemma rows_count_del {A} (p q : A -> bool) l :
  rows_count q l + rows_count p (rows_del q l) = rows_count (fun x => q x || p x) l.
Proof.
  unfold rows_count, rows_del. induction l as [|x l IH]; simpl; [done|].
  destruct (q x); simpl; [by rewrite IH|]. destruct (p x); simpl; [|done]. rewrite <- IH. lia.
Qed.

Lemma rows_del_none {A} (p : A -> bool) l : rows_count p l = 0 -> rows_del p l = l.
Proof.
  unfold rows_count, rows_del. induction l as [|x l IH]; simpl; [done|].
  destruct (p x); simpl; [done|]. intros E. by rewrite IH.
Qed.

Lemma rows_count_ext {A} (p q : A -> bool) l : (forall x, In x l -> p x = q x) -> rows_count p l = rows_count q l.
Proof. intros E. unfold rows_count. by rewrite (filter_ext_in p q). Qed.

Lemma rows_del_ext {A} (p q : A -> bool) l : (forall x, In x l -> p x = q x) -> rows_del p l = rows_del q l.
Proof. intros E. unfold rows_del. apply filter_ext_in. intros x Hx. by rewrite E. Qed.

Lemma within_app ps qs k : within (ps ++ qs) k = within ps k || within qs k.
Proof. apply existsb_app. Qed.

Lemma stranded_app proposed rw ps qs k :
  stranded proposed rw (ps ++ qs) k = stranded proposed rw ps k || stranded proposed rw qs k.
Proof. unfold stranded. rewrite within_app. by destruct (within ps k), (within qs k), (uncovered _ _ k). Qed.

Lemma sweep_of_app proposed rw ps qs d :
  sweep_of proposed rw qs (sweep_of proposed rw ps d) = sweep_of proposed rw (ps ++ qs) d.
Proof.
  unfold sweep_of. simpl. rewrite rows_del_del. unfold set_keys. simpl. f_equal.
  unfold rows_del. apply filter_ext. intros k. by rewrite stranded_app.
Qed.

Lemma sweep_of_wf proposed rw ps d : db_wf d -> db_wf (sweep_of proposed rw ps d).
Proof. by apply (delete_keys_wf (stranded proposed rw ps) d _ _ eq_refl). Qed.

Lemma sweep_of_decodable proposed rw ps d : decodable d -> decodable (sweep_of proposed rw ps d).
Proof. intros [Hk Ht]. split; [|done]. intros k [Hin _]%in_rows_del. by apply Hk. Qed.

Lemma batch_loop_total proposed rw rows doomed spared :
  (forall k, In k rows -> exists ss, json_Unmarshal (k_scopes k) = Ok ss) ->
  exists s, batch_loop proposed rw rows doomed spared =
    Ok (doomed ++ List.map k_id (List.filter (uncovered proposed rw) rows), s).
Proof.
  revert doomed spared. induction rows as [|k rows IH]; intros doomed spared Hk; simpl.
  { rewrite app_nil_r. eauto. }
  destruct (Hk k (or_introl eq_refl)) as [ss Hss].
  assert (Hu : uncovered proposed rw k = negb (AuthorityRetained ss proposed rw)) by (unfold uncovered; by rewrite Hss).
  assert (Hk' : forall k, In k rows -> exists ss, json_Unmarshal (k_scopes k) = Ok ss) by (intros; apply Hk; by right).
  rewrite Hss, Hu. destruct (AuthorityRetained ss proposed rw); simpl; [by apply IH|].
  destruct (IH (doomed ++ [k_id k]) spared Hk') as [s ->]. exists s. by rewrite <- app_assoc.
Qed.

(** A page of the template's holders: the re-verification finds each of them. *)
Lemma batch_key_page templateID page d k :
  (forall p, In p page -> In p (holders templateID d)) -> batch_key templateID page d k = within page k.
Proof.
  intros Hp. unfold batch_key, within. destruct (existsb (fun p => key_of p k) page) eqn:E; [|done]. simpl.
  apply existsb_exists in E as (p & Hin & Hk). apply Hp, in_holders in Hin as (m & Hm & Hh & <-).
  apply existsb_exists. exists m. by rewrite Hk, Hh.
Qed.

Section Loop.
Context {St : Type} `{HasDB St}.

Lemma sweepBatchKeys_quiet templateID proposed rw page (w : world St) :
  let d := the_db (w_db w) in
  w_sched w = [] -> db_wf d -> decodable d -> (forall p, In p page -> In p (holders templateID d)) ->
  exists spared w', sweepBatchKeys templateID proposed rw page w =
      (Ok (rows_count (stranded proposed rw page) (api_keys d), spared), w') /\
    w_sched w' = [] /\ w_intx w' = w_intx w /\ the_db (w_db w') = sweep_of proposed rw page d.
Proof.
  intros d Hq Hwf Hdec Hp. unfold sweepBatchKeys.
  assert (Hrows : List.filter (batch_key templateID page d) (api_keys d) = List.filter (within page) (api_keys d)).
  { apply filter_ext. intros k. by apply batch_key_page. }
  destruct (batch_loop_total proposed rw (List.filter (within page) (api_keys d)) [] 0) as [spared Hl].
  { intros k [Hk _]%filter_In. by apply Hdec. }
  cbn [app] in Hl. rewrite filter_filter_bool in Hl. fold (stranded proposed rw page) in Hl.
  unfold mbind, M_bind, wrapping, mapping_err. rewrite select_quiet by done. fold d. rewrite Hrows. unfold lift. rewrite Hl.
  rewrite length_map. fold (rows_count (stranded proposed rw page) (api_keys d)).
  destruct (_ =? 0)%nat eqn:E0.
  - apply Nat.eqb_eq in E0. exists spared, w. rewrite E0. split; [done|]. split; [done|]. split; [done|].
    fold d. unfold sweep_of. rewrite rows_del_none by done. by destruct d.
  - rewrite exec_quiet by done. fold d. simpl.
    assert (Hids : forall k, In k (api_keys d) ->
      mem (k_id k) (List.map k_id (List.filter (stranded proposed rw page) (api_keys d))) = stranded proposed rw page k).
    { intros k Hk. apply mem_ids_unique; [apply Hwf|done]. }
    rewrite (rows_count_ext _ (stranded proposed rw page)) by done. rewrite Nat.eqb_refl. simpl.
    eexists spared, _. split; [done|]. split; [done|]. split; [done|]. simpl. rewrite the_put.
    unfold sweep_of. by rewrite (rows_del_ext _ (stranded proposed rw page)).
Qed.

Lemma reconcileOneBatch_quiet templateID proposed rw bs after (w : world St) :
  let d := the_db (w_db w) in let page := firstn bs (remaining templateID after d) in
  w_sched w = [] -> db_wf d -> decodable d ->
  exists spared w', reconcileOneBatch templateID proposed rw bs after w =
      (Ok (page, rows_count (stranded proposed rw page) (api_keys d), spared), w') /\
    w_sched w' = [] /\ w_intx w' = w_intx w /\ the_db (w_db w') = sweep_of proposed rw page d.
Proof.
  intros d page Hq Hwf Hdec. unfold reconcileOneBatch.
  assert (Hplan : planBatch templateID after bs (set_intx true w) = (Ok page, set_intx true w)).
  { unfold planBatch, wrapping, mapping_err. rewrite select_quiet by done. simpl. fold d. by rewrite planned. }
  destruct page as [|p ps] eqn:Ep.
  - exists 0, (set_intx (w_intx w) (set_intx true w)). split; [|split; [done|split; [done|]]].
    + rewrite (tx_quiet _ _ _ w ([], 0, 0) (set_intx true w)); [|done| |done].
      * assert (rows_count (stranded proposed rw []) (api_keys d) = 0) as ->; [|done].
        unfold rows_count. by induction (api_keys d).
      * by rewrite (bind_step _ _ _ _ _ Hplan).
    + simpl. fold d. unfold sweep_of. rewrite rows_del_none; [by destruct d|]. unfold rows_count. by induction (api_keys d).
  - destruct (sweepBatchKeys_quiet templateID proposed rw page (set_intx true w)) as (spared & w1 & H1 & Hq1 & Hi1 & Hd1);
      [done|done|done| |].
    { intros q Hin. unfold page in Hin.
      assert (In q (remaining templateID after d)) as Hr.
      { rewrite <- (firstn_skipn bs (remaining templateID after d)). apply in_app_iff. by left. }
      apply filter_In in Hr. apply Hr. }
    rewrite Ep in *. exists spared, (set_intx (w_intx w) w1). split; [|by split].
    apply tx_quiet; [done| |done]. rewrite (bind_step _ _ _ _ _ Hplan). simpl.
    by rewrite (bind_step _ _ _ _ _ H1).
Qed.

(** ** What a run does *)

(** The options and the context never stop it. *)
Definition unstopped (ctx : nat -> bool) (opts : ReconcileOptions) : Prop :=
  MaxBatches opts = 0 /\ forall n, ctx n = false.

Lemma loop_quiet fuel ctx templateID proposed rw opts r cursor (w : world St) :
  let d := the_db (w_db w) in
  w_sched w = [] -> db_wf d -> decodable d -> (0 < BatchSize opts)%Z ->
  length (remaining templateID cursor d) < fuel ->
  exists res w' P rest, reconcile_loop fuel ctx templateID proposed rw opts r cursor w = (Ok res, w') /\
    w_sched w' = [] /\ w_intx w' = w_intx w /\
    remaining templateID cursor d = P ++ rest /\ the_db (w_db w') = sweep_of proposed rw P d /\
    PrincipalsChecked res = PrincipalsChecked r + length P /\
    KeysSwept res = KeysSwept r + rows_count (stranded proposed rw P) (api_keys d) /\
    (if Done res then rest = [] /\ Cursor res = None
     else remaining templateID (Cursor res) d = rest) /\
    (unstopped ctx opts -> Done res = true).
Proof.
  revert r cursor w. induction fuel as [|fuel IH]; intros r cursor w d Hq Hwf Hdec Hbs Hf; [lia|].
  assert (Hstop : exists P rest, remaining templateID cursor d = P ++ rest /\ P = [] /\
    d = sweep_of proposed rw P d /\ rows_count (stranded proposed rw P) (api_keys d) = 0).
  { exists [], (remaining templateID cursor d). split; [done|]. split; [done|].
    assert (rows_count (stranded proposed rw []) (api_keys d) = 0) as E by (unfold rows_count; by induction (api_keys d)).
    split; [|done]. unfold sweep_of. rewrite rows_del_none by done. by destruct d. }
  simpl. destruct (ctx (BatchesRun r)) eqn:Ec.
  { destruct Hstop as (P & rest & HP & -> & Hd & Hz). eexists _, w, [], rest. split; [done|].
    rewrite Hz. simpl. repeat split; try done; try lia. intros [_ Hn]. by rewrite Hn in Ec. }
  destruct (_ && _) eqn:Em.
  { destruct Hstop as (P & rest & HP & -> & Hd & Hz). eexists _, w, [], rest. split; [done|].
    rewrite Hz. simpl. repeat split; try done; try lia. intros [Hn _]. by rewrite Hn in Em. }
  clear Hstop. set (bs := Z.to_nat (BatchSize opts)). assert (Hbs' : 0 < bs) by (unfold bs; lia).
  destruct (reconcileOneBatch_quiet templateID proposed rw bs cursor w Hq Hwf Hdec)
    as (spared & w1 & H1 & Hq1 & Hi1 & Hd1). fold d in H1, Hd1.
  rewrite (bind_step _ _ _ _ _ H1). cbv beta iota zeta.
  set (page := firstn bs (remaining templateID cursor d)) in *.
  assert (Hsplit : remaining templateID cursor d = page ++ skipn bs (remaining templateID cursor d))
    by (symmetry; apply firstn_skipn).
  assert (Hpl : length page = Nat.min bs (length (remaining templateID cursor d))) by apply length_firstn.
  destruct (last page) as [c|] eqn:El.
  2: { apply last_None in El. eexists _, w1, page, []. split; [done|]. split; [done|]. split; [done|].
       rewrite El in *. simpl in Hpl. split; [|by rewrite Hd1]. destruct (remaining _ _ _); [done|]. simpl in Hpl. lia. }
  destruct (length page <? bs)%nat eqn:Elt.
  { apply Nat.ltb_lt in Elt. eexists _, w1, page, []. split; [done|]. split; [done|]. split; [done|].
    split; [|by rewrite Hd1]. rewrite app_nil_r. symmetry. apply firstn_all2. lia. }
  apply Nat.ltb_ge in Elt.
  assert (Hrem : remaining templateID (Some c) d = skipn bs (remaining templateID cursor d))
    by (by eapply remaining_after).
  assert (Hlen : length (remaining templateID (Some c) d) < fuel) by (rewrite Hrem, length_skipn; lia).
  destruct (IH (counted r page (rows_count (stranded proposed rw page) (api_keys d)) spared) (Some c) w1)
    as (res & w' & P & rest & Hrun & Hq' & Hi' & HP & Hd' & Hpc & Hks & Hdone & Hun);
    [done|rewrite Hd1; by apply sweep_of_wf|rewrite Hd1; by apply sweep_of_decodable|done|by rewrite Hd1|].
  rewrite Hd1 in HP, Hd', Hks, Hdone.
  change (remaining templateID (Some c) (sweep_of proposed rw page d)) with (remaining templateID (Some c) d) in HP.
  exists res, w', (page ++ P), rest. split; [exact Hrun|]. split; [done|]. split; [congruence|].
  split; [by rewrite Hsplit, <- Hrem, HP, app_assoc|].
  split; [by rewrite Hd', sweep_of_app|]. split; [rewrite Hpc; simpl; rewrite length_app; lia|].
  split; [|by split].
  rewrite Hks. simpl. rewrite <- Nat.add_assoc. f_equal. rewrite rows_count_del.
  unfold rows_count. f_equal. apply filter_ext. intros k. by rewrite stranded_app.
Qed.
End Loop.

(** ** The preview *)

Definition row_over proposed rw (row : TemplateAffected * option jsonb) : bool :=
  match snd row with
  | Some j => match json_Unmarshal j with Ok have => negb (AuthorityRetained have proposed rw) | Err _ => false end
  | None => false
  end.

Lemma impact_eq a b c a' b' c' : a = a' -> b = b' -> c = c' ->
  Ok {| Scanned := a; Principals := b; Keys := c |} = Ok {| Scanned := a'; Principals := b'; Keys := c' |}.
Proof. congruence. Qed.

Lemma preview_loop_total proposed rw rows keys scanned doomed :
  (forall p j, In (p, Some j) rows -> exists ss, json_Unmarshal j = Ok ss) ->
  preview_loop proposed rw rows keys scanned doomed =
  Ok {| Scanned := size (list_to_set (List.map fst rows) ∪ scanned);
        Principals := size (list_to_set (List.map fst (List.filter (row_over proposed rw) rows)) ∪ doomed);
        Keys := keys + length (List.filter (row_over proposed rw) rows) |}.
Proof.
  revert keys scanned doomed. induction rows as [|[p oj] rows IH]; intros keys scanned doomed Hj; simpl.
  { apply impact_eq; [f_equal; set_solver|f_equal; set_solver|lia]. }
  assert (Hj' : forall p j, In (p, Some j) rows -> exists ss, json_Unmarshal j = Ok ss).
  { intros q j Hin. eapply Hj. by right. }
  destruct oj as [j|].
  - destruct (Hj p j (or_introl eq_refl)) as [ss Hss].
    assert (Ho : row_over proposed rw (p, Some j) = negb (AuthorityRetained ss proposed rw))
      by (unfold row_over; simpl; by rewrite Hss).
    rewrite Hss, Ho. destruct (AuthorityRetained ss proposed rw); simpl; rewrite IH by done;
      (apply impact_eq; [f_equal; set_solver|f_equal; set_solver|lia]).
  - rewrite IH by done. apply impact_eq; [f_equal; set_solver|done|done].
Qed.

Definition rows_of (d : DB) (p : TemplateAffected) : list (TemplateAffected * option jsonb) :=
  match List.filter (key_of p) (api_keys d) with
  | [] => [(p, None)]
  | ks => List.map (fun k => (p, Some (k_scopes k))) ks
  end.

Lemma rows_of_fst d p x : In x (rows_of d p) -> fst x = p.
Proof.
  unfold rows_of. destruct (List.filter _ _) as [|k ks]; [by intros [<- | []]|].
  intros (k' & <- & _)%in_map_iff. done.
Qed.

Lemma rows_of_some d p : exists x, In x (rows_of d p).
Proof. unfold rows_of. destruct (List.filter _ _) as [|k ks]; eexists; by left. Qed.

Lemma rows_of_over proposed rw d p :
  length (List.filter (row_over proposed rw) (rows_of d p)) =
  rows_count (fun k => key_of p k && uncovered proposed rw k) (api_keys d).
Proof.
  unfold rows_of, rows_count. rewrite <- filter_filter_bool.
  destruct (List.filter (key_of p) (api_keys d)) as [|k ks]; [done|].
  generalize (k :: ks). intros l. induction l as [|k' l IH]; simpl; [done|].
  unfold row_over at 1, uncovered at 1. simpl.
  destruct (json_Unmarshal (k_scopes k')); simpl; [|apply IH]. destruct (negb _); simpl; by rewrite IH.
Qed.

Lemma key_of_inj p q k : key_of p k = true -> key_of q k = true -> p = q.
Proof.
  unfold key_of. destruct p as [o u], q as [o' u']; simpl. rewrite !andb_true_iff, !seqb_true, !col_is_true.
  intros [-> Hu] [<- Hu']. congruence.
Qed.

Lemma rows_count_or {A} (p q : A -> bool) l : (forall x, p x = true -> q x = true -> False) ->
  rows_count (fun x => p x || q x) l = rows_count p l + rows_count q l.
Proof.
  intros Hd. unfold rows_count. induction l as [|x l IH]; simpl; [done|]. specialize (Hd x).
  destruct (p x), (q x); simpl; [by destruct Hd|rewrite IH; lia..].
Qed.

(** Each stranded key belongs to one principal. *)
Lemma over_count proposed rw d ps : NoDup ps ->
  length (List.filter (row_over proposed rw) (List.flat_map (rows_of d) ps)) =
  rows_count (stranded proposed rw ps) (api_keys d).
Proof.
  induction ps as [|p ps IH]; simpl.
  - intros _. unfold rows_count. by induction (api_keys d).
  - rewrite NoDup_cons. intros [Hp Hps]. rewrite List.filter_app, length_app, IH, rows_of_over by done.
    rewrite <- rows_count_or.
    + unfold rows_count. f_equal. apply filter_ext. intros k. unfold stranded. simpl.
      by destruct (key_of p k), (within ps k), (uncovered proposed rw k).
    + intros k [Hk _]%andb_prop [Hw _]%andb_prop. apply existsb_exists in Hw as (q & Hq & Hkq).
      apply Hp, list_elem_of_In. by rewrite (key_of_inj p q k).
Qed.

Lemma preview_quiet {St} `{HasDB St} templateID proposed rw (w : world St) :
  let d := the_db (w_db w) in
  w_sched w = [] -> db_wf d -> decodable d -> templateID <> "" ->
  exists imp, PreviewRoleTemplateReconciliation true templateID proposed rw w = (Ok imp, w) /\
    Scanned imp = length (holders templateID d) /\
    Keys imp = rows_count (stranded proposed rw (holders templateID d)) (api_keys d).
Proof.
  intros d Hq Hwf Hdec Hid. unfold PreviewRoleTemplateReconciliation. simpl.
  apply seqb_false in Hid. rewrite Hid. unfold mbind, M_bind, wrapping, mapping_err. rewrite select_quiet by done. fold d.
  change (affected_rows templateID d) with (List.flat_map (rows_of d) (holders templateID d)).
  unfold lift. rewrite preview_loop_total.
  - eexists. split; [done|]. simpl. split.
    + assert (list_to_set (List.map fst (List.flat_map (rows_of d) (holders templateID d))) ∪ ∅ =
        (list_to_set (holders templateID d) : gset TemplateAffected)) as ->.
      { apply set_eq. intros x. rewrite elem_of_union, !elem_of_list_to_set, !list_elem_of_In, in_map_iff.
        split.
        - intros [(y & <- & Hy)|Hx]; [|set_solver]. apply in_flat_map in Hy as (p & Hp & Hy).
          by rewrite (rows_of_fst _ _ _ Hy).
        - intros Hx. left. destruct (rows_of_some d x) as [y Hy]. exists y.
          split; [by eapply rows_of_fst|]. apply in_flat_map. eauto. }
      by apply size_list_to_set, nodup_holders.
    + by apply over_count, nodup_holders.
  - intros p j Hin. apply in_flat_map in Hin as (q & _ & Hin). unfold rows_of in Hin.
    destruct (List.filter (key_of q) (api_keys d)) as [|k ks] eqn:Ef; [by destruct Hin|].
    rewrite <- Ef in Hin. apply in_map_iff in Hin as (k' & [= _ <-] & [Hk _]%filter_In). by apply Hdec.
Qed.

(** ** Properties *)

Lemma remaining_start templateID d : remaining templateID None d = holders templateID d.
Proof. unfold remaining. induction (holders templateID d) as [|x l IH]; simpl; [done|by rewrite IH]. Qed.

(** No surviving key of these principals asks for more than [proposed]. *)
Definition covered proposed rw (ps : list TemplateAffected) (d : DB) : Prop :=
  forall p k, In p ps -> In k (api_keys d) -> key_of p k = true ->
  exists have, json_Unmarshal (k_scopes k) = Ok have /\ forall s, In s have -> HasScope proposed s rw = true.

Lemma sweep_of_covered proposed rw ps d : decodable d -> covered proposed rw ps (sweep_of proposed rw ps d).
Proof.
  intros Hdec p k Hp [Hk Hs]%in_rows_del Hkp. destruct Hdec as [Hdec _]. destruct (Hdec k Hk) as [have Hh].
  exists have. split; [done|]. unfold stranded, within, uncovered in Hs. rewrite Hh in Hs.
  assert (existsb (fun p => key_of p k) ps = true) as Hw by (apply existsb_exists; eauto).
  rewrite Hw in Hs. apply negb_false_iff in Hs. by apply AuthorityRetained_true.
Qed.

Lemma ReconcileRoleTemplate_quiet {St} `{HasDB St} fuel ctx templateID proposed rw opts (w : world St) :
  let d := the_db (w_db w) in
  w_sched w = [] -> db_wf d -> decodable d -> templateID <> "" -> (0 < BatchSize opts)%Z ->
  length (remaining templateID (After opts) d) < fuel ->
  exists res w' P rest, ReconcileRoleTemplate fuel ctx true templateID proposed rw opts w = (Ok res, w') /\
    w_sched w' = [] /\ w_intx w' = w_intx w /\
    remaining templateID (After opts) d = P ++ rest /\ the_db (w_db w') = sweep_of proposed rw P d /\
    PrincipalsChecked res = length P /\ KeysSwept res = rows_count (stranded proposed rw P) (api_keys d) /\
    (if Done res then rest = [] /\ Cursor res = None
     else remaining templateID (Cursor res) d = rest) /\
    (unstopped ctx opts -> Done res = true).
Proof.
  intros d Hq Hwf Hdec Hid Hbs Hf. unfold ReconcileRoleTemplate. simpl. apply seqb_false in Hid. rewrite Hid.
  destruct (BatchSize opts <=? 0)%Z eqn:E; [lia|].
  exact (loop_quiet fuel ctx templateID proposed rw opts zero_result (After opts) w Hq Hwf Hdec Hbs Hf).
Qed.

(** C5: an uninterrupted reconciliation terminates, is complete, and is what the
    preview announced. On a database nobody else is writing, with at least one
    unit of fuel more than the template has principals, [ReconcileRoleTemplate]
    with no stop condition returns [Done]; it has examined every principal holding
    the template and deleted exactly their keys that the proposed scopes do not
    cover, so every key they keep is covered; and
    [PreviewRoleTemplateReconciliation] before it reports the same principals and
    the same number of keys. *)
Theorem reconcile_complete {St} `{HasDB St} fuel ctx templateID proposed rw opts (w : world St) :
  w_sched w = [] -> db_wf (the_db (w_db w)) -> decodable (the_db (w_db w)) -> templateID <> "" ->
  (0 < BatchSize opts)%Z -> After opts = None -> unstopped ctx opts ->
  length (holders templateID (the_db (w_db w))) < fuel ->
  exists res w' imp,
    ReconcileRoleTemplate fuel ctx true templateID proposed rw opts w = (Ok res, w') /\
    fst (PreviewRoleTemplateReconciliation true templateID proposed rw w) = Ok imp /\
    Done res = true /\
    Scanned imp = PrincipalsChecked res /\ Keys imp = KeysSwept res /\
    PrincipalsChecked res = length (holders templateID (the_db (w_db w))) /\
    the_db (w_db w') = sweep_of proposed rw (holders templateID (the_db (w_db w))) (the_db (w_db w)) /\
    covered proposed rw (holders templateID (the_db (w_db w))) (the_db (w_db w')).
Proof.
  intros Hq Hwf Hdec Hid Hbs Ha Hun Hf.
  destruct (ReconcileRoleTemplate_quiet fuel ctx templateID proposed rw opts w)
    as (res & w' & P & rest & Hrun & _ & _ & HP & Hd & Hpc & Hks & Hdone & Hd');
    [done..|by rewrite Ha, remaining_start|].
  destruct (preview_quiet templateID proposed rw w) as (imp & Hprev & Hsc & Hk); [done..|].
  rewrite (Hd' Hun) in Hdone. destruct Hdone as [-> _].
  rewrite Ha, remaining_start, app_nil_r in HP. subst P.
  exists res, w', imp. rewrite Hrun, Hprev. split; [done|]. split; [done|]. split; [by apply Hd'|].
  split; [congruence|]. split; [congruence|]. split; [done|]. split; [done|].
  rewrite Hd. by apply sweep_of_covered.
Qed.

(** A stopped reconciliation resumes without loss or repetition. However many
    batches the first run was allowed and whenever its context was cancelled, if it
    stopped before the end then running again from its [Cursor] to the end leaves
    the database exactly as one uninterrupted run would, and the two runs'
    counts of principals and of deleted keys add up to that run's. *)
Theorem reconcile_resumes {St} `{HasDB St} fuel ctx1 ctx2 templateID proposed rw opts1 (w w1 : world St) res1 :
  w_sched w = [] -> db_wf (the_db (w_db w)) -> decodable (the_db (w_db w)) -> templateID <> "" ->
  (0 < BatchSize opts1)%Z -> After opts1 = None -> (forall n, ctx2 n = false) ->
  length (holders templateID (the_db (w_db w))) < fuel ->
  ReconcileRoleTemplate fuel ctx1 true templateID proposed rw opts1 w = (Ok res1, w1) -> Done res1 = false ->
  let opts2 := {| BatchSize := BatchSize opts1; MaxBatches := 0; After := Cursor res1 |} in
  let opts := {| BatchSize := BatchSize opts1; MaxBatches := 0; After := None |} in
  exists res2 w2 res w',
    ReconcileRoleTemplate fuel ctx2 true templateID proposed rw opts2 w1 = (Ok res2, w2) /\
    ReconcileRoleTemplate fuel ctx2 true templateID proposed rw opts w = (Ok res, w') /\
    Done res2 = true /\ Done res = true /\
    the_db (w_db w2) = the_db (w_db w') /\
    PrincipalsChecked res1 + PrincipalsChecked res2 = PrincipalsChecked res /\
    KeysSwept res1 + KeysSwept res2 = KeysSwept res.
Proof.
  intros Hq Hwf Hdec Hid Hbs Ha Hc Hf H1 Hnd opts2 opts.
  destruct (ReconcileRoleTemplate_quiet fuel ctx1 templateID proposed rw opts1 w)
    as (r1 & w1' & P & rest & Hrun & Hq1 & _ & HP & Hd1 & Hpc1 & Hks1 & Hdone & _);
    [done..|by rewrite Ha, remaining_start|].
  rewrite H1 in Hrun. injection Hrun as <- <-. rewrite Hnd in Hdone. rewrite Ha, remaining_start in HP.
  set (d := the_db (w_db w)) in *.
  assert (Hrem : forall a, remaining templateID a (the_db (w_db w1)) = remaining templateID a d) by (intros; by rewrite Hd1).
  assert (Hlr : length rest < fuel) by (rewrite HP, length_app in Hf; lia).
  destruct (ReconcileRoleTemplate_quiet fuel ctx2 templateID proposed rw opts2 w1)
    as (r2 & w2 & P2 & rest2 & Hrun2 & _ & _ & HP2 & Hd2 & Hpc2 & Hks2 & Hdone2 & Hun2);
    [done|rewrite Hd1; by apply sweep_of_wf|rewrite Hd1; by apply sweep_of_decodable|done|done| |].
  { simpl. by rewrite Hrem, Hdone. }
  destruct (ReconcileRoleTemplate_quiet fuel ctx2 templateID proposed rw opts w)
    as (r & w' & P3 & rest3 & Hrun3 & _ & _ & HP3 & Hd3 & Hpc3 & Hks3 & Hdone3 & Hun3);
    [done..|by rewrite remaining_start|].
  assert (Hu2 : Done r2 = true) by (by apply Hun2). assert (Hu3 : Done r = true) by (by apply Hun3).
  rewrite Hu2 in Hdone2. rewrite Hu3 in Hdone3. destruct Hdone2 as [-> _], Hdone3 as [-> _].
  simpl in HP2, HP3. rewrite Hrem, Hdone, app_nil_r in HP2. fold d in Hd3, Hks3, HP3.
  rewrite remaining_start, app_nil_r, HP in HP3. subst P2 P3.
  exists r2, w2, r, w'. split; [done|]. split; [done|]. split; [done|]. split; [done|].
  split; [by rewrite Hd2, Hd3, Hd1, sweep_of_app|]. split; [rewrite Hpc3, length_app; lia|].
  rewrite Hks1, Hks2, Hks3, Hd1. simpl. rewrite rows_count_del. unfold rows_count. f_equal.
  apply filter_ext. intros k. by rewrite stranded_app.
Qed.

(** ** The writer's guarantees *)

Definition same_templates (d d' : DB) : Prop := role_templates d' = role_templates d.

#[export] Instance same_templates_preorder : PreOrder same_templates.
Proof. split; [done|]. intros a b c E1 E2. unfold same_templates in *. congruence. Qed.

Section Writer.
Context {St : Type} `{HasDB St}.

(** The sweep writes api_keys alone. *)
Lemma reconcile_evolves R `{!PreOrder R} fuel ctx db templateID proposed rw opts :
  (forall l d, R d (set_keys l d)) ->
  evolves (over_db R) (ReconcileRoleTemplate (St := St) fuel ctx db templateID proposed rw opts).
Proof.
  intros HR.
  assert (Hbatch : forall bs after, evolves (over_db R) (reconcileOneBatch (St := St) templateID proposed rw bs after)).
  { intros bs after. unfold reconcileOneBatch, planBatch, sweepBatchKeys. evolve.
    apply evolves_exec; [apply _|]. intros d x d' [= _ <-]. apply HR. }
  assert (Hloop : forall r c, evolves (over_db R) (reconcile_loop (St := St) fuel ctx templateID proposed rw opts r c)).
  { induction fuel as [|fuel IH]; intros r c; simpl; [eauto with evolve|]. evolve. }
  unfold ReconcileRoleTemplate. evolve.
Qed.

Lemma GetRoleTemplate_evolves R `{!PreOrder R} id : evolves (over_db R) (GetRoleTemplate (St := St) id).
Proof. unfold GetRoleTemplate, select_row. evolve. Qed.

Lemma mutation_evolves R `{!PreOrder R} (f : DB -> result (nat * DB)) :
  (forall d n d', f d = Ok (n, d') -> R d d') -> evolves (over_db R) (execRoleTemplateMutation (St := St) f).
Proof. intros Hf. unfold execRoleTemplateMutation. evolve. by apply evolves_exec. Qed.

(** A statement that reports no row has changed none. *)
Definition zero_is_nothing (f : DB -> result (nat * DB)) : Prop := forall d d', f d = Ok (0, d') -> same_templates d d'.

Lemma rows_upd_none {A} (p : A -> bool) f l : rows_count p l = 0 -> rows_upd p f l = l.
Proof.
  unfold rows_count, rows_upd. induction l as [|x l IH]; simpl; [done|].
  destruct (p x); [done|]. intros E. by rewrite IH.
Qed.

Lemma update_zero template now : zero_is_nothing (updateRoleTemplateStmt template now).
Proof. intros d d' [= E <-]. unfold same_templates. simpl. by rewrite rows_upd_none. Qed.

Lemma delete_zero id : zero_is_nothing (deleteRoleTemplateStmt id).
Proof. intros d d' [= E <-]. unfold same_templates. simpl. by rewrite rows_del_none. Qed.

Lemma mutation_error (f : DB -> result (nat * DB)) (w w' : world St) e : zero_is_nothing f ->
  sched_respects (over_db same_templates) w ->
  execRoleTemplateMutation f w = (Err e, w') -> over_db same_templates (w_db w) (w_db w').
Proof.
  intros Hz Hs Hx.
  assert (Hseen : over_db same_templates (w_db w) (db_seen w)).
  { unfold db_seen. unfold sched_respects in Hs. destruct (w_sched w) as [|ev l]; [done|].
    apply Forall_cons in Hs as [He _]. destruct (w_intx w); [done|apply He]. }
  unfold execRoleTemplateMutation in Hx. apply bind_inv in Hx as [(n & w1 & H1 & H2)|(e' & H1 & _)].
  - apply exec_Ok in H1 as (d & Hf & _ & Hd). destruct n as [|n]; [|done]. simpl in H2. injection H2 as _ <-.
    rewrite Hd. unfold over_db in *. rewrite the_put. transitivity (the_db (db_seen w)); [done|by apply Hz].
  - apply wrapping_Err in H1 as (e0 & H1 & _). apply exec_inv in H1 as (_ & [(a & d & [=] & _)|(e1 & _ & ->)]). done.
Qed.

Lemma write_inv fuel ctx db rw id proposed opts (f : DB -> result (nat * DB)) (w w' : world St) r :
  zero_is_nothing f -> sched_respects (over_db same_templates) w ->
  write fuel ctx db rw id proposed opts (execRoleTemplateMutation f) w = (r, w') ->
  (exists tw, r = Ok (tw, None) /\ Mutated tw = true /\ Done (Reconciled tw) = true) \/
  (over_db same_templates (w_db w) (w_db w') /\
   ((exists e, r = Err e) \/ exists tw e, r = Ok (tw, Some e) /\ Mutated tw = false /\
      (Done (Reconciled tw) = false -> errors_Is e "store: role-template reconciliation did not finish; the template was not modified" = true))).
Proof.
  intros Hz Hs Hx. unfold write in Hx. destruct db; simpl in Hx; [|injection Hx as <- <-; right; split; [done|eauto]].
  apply bind_inv in Hx as [(t & w1 & H1 & Hx)|(e & H1 & ->)].
  2: { apply (GetRoleTemplate_evolves same_templates) in H1 as [H1 _]; [done|]. right. eauto. }
  destruct (GetRoleTemplate_evolves same_templates _ _ _ _ H1 Hs) as [He1 Hs1].
  destruct (rt_IsSystem t); [injection Hx as <- <-; right; eauto|].
  assert (Hrec := reconcile_evolves same_templates fuel ctx true id proposed rw opts (fun _ _ => eq_refl)).
  apply bind_inv in Hx as [(rec & w2 & H2 & Hx)|(e & H2 & ->)].
  2: { destruct (Hrec _ _ _ H2 Hs1) as [He2 _]. right. split; [by etrans|eauto]. }
  destruct (Hrec _ _ _ H2 Hs1) as [He2 Hs2].
  destruct (Done rec) eqn:Ed; simpl in Hx.
  - apply bind_try in Hx as (rm & w3 & H3 & Hx). destruct rm as [u|e]; injection Hx as <- <-.
    + left. by eexists.
    + right. apply mutation_error in H3; [|done|done]. split; [by do 2 (etrans; [done|])|]. right.
      eexists _, e. split; [done|]. split; [done|]. simpl. by rewrite Ed.
  - injection Hx as <- <-. right. split; [by etrans|]. right. by eexists _, _.
Qed.
End Writer.

(** C4: a template is not mutated unless its sweep finished. Under every schedule
    of faults, and of other sessions that leave the role-template table alone,
    [TemplateWriter.UpdateRoleTemplate] and [DeleteRoleTemplate] either report
    success, having completed the reconciliation, or leave every template as it
    was; an interrupted reconciliation is reported as
    [ErrReconciliationIncomplete] with what it did; and no schedule lets them
    touch a system template. *)
Theorem template_writer_guarded {St} `{HasDB St} fuel ctx db rw opts template id (w w' : world St) r :
  let update := TemplateWriter_UpdateRoleTemplate fuel ctx db rw (Some template) opts in
  let delete := TemplateWriter_DeleteRoleTemplate fuel ctx db rw id opts in
  sched_respects (over_db same_templates) w -> update w = (r, w') \/ delete w = (r, w') ->
  ((exists tw, r = Ok (tw, None) /\ Mutated tw = true /\ Done (Reconciled tw) = true) \/
   (role_templates (the_db (w_db w')) = role_templates (the_db (w_db w)) /\
    ((exists e, r = Err e) \/ exists tw e, r = Ok (tw, Some e) /\ Mutated tw = false /\
       (Done (Reconciled tw) = false ->
        errors_Is e "store: role-template reconciliation did not finish; the template was not modified" = true)))) /\
  evolves (over_db keeps_system) update /\ evolves (over_db keeps_system) delete.
Proof.
  intros update delete Hs Hx. split; [|split].
  - destruct Hx as [Hx|Hx].
    + apply (write_inv _ _ _ _ _ _ _ _ _ _ _ (update_zero template (w_now w)) Hs Hx).
    + apply (write_inv _ _ _ _ _ _ _ _ _ _ _ (delete_zero id) Hs Hx).
  - apply evolves_bind; [apply _|apply evolves_time_Now, _|]. intros now. unfold write. evolve.
    + apply GetRoleTemplate_evolves, _.
    + by apply reconcile_evolves; [apply _|].
    + apply mutation_evolves; [apply _|]. intros d n d'. apply update_keeps_system.
  - unfold delete, TemplateWriter_DeleteRoleTemplate, write. evolve.
    + apply GetRoleTemplate_evolves, _.
    + by apply reconcile_evolves; [apply _|].
    + apply mutation_evolves; [apply _|]. intros d n d'. apply delete_keeps_system.
Qed.

(** ** Witnesses *)

Definition ex_opts (max : nat) : ReconcileOptions := {| BatchSize := 1; MaxBatches := max; After := None |}.
Definition running : nat -> bool := fun _ => false.

(** Both members of o2 read. *)
Definition ex_db_two : DB :=
  set_members [ex_member "o1" "u1" (Some "readers"); ex_member "o2" "u1" (Some "readers"); ex_member "o2" "u2" (Some "readers")]
    ex_db_keys.

Lemma ex_db_two_wf : db_wf ex_db_two.
Proof.
  constructor; try (by apply (bool_decide_unpack _); vm_compute);
    simpl; intros x Hx; repeat (destruct Hx as [<- | Hx]; [reflexivity|]); destruct Hx.
Qed.

Lemma ex_db_two_decodable : decodable ex_db_two.
Proof.
  split; simpl; intros x Hx; repeat (destruct Hx as [<- | Hx]; [eexists; reflexivity|]); destruct Hx.
Qed.

Lemma reconcile_complete_witness :
  exists res w' imp,
    ReconcileRoleTemplate 4 running true "readers" [] ∅ (ex_opts 0) (quiet ex_db_two 0 0 0) = (Ok res, w') /\
    fst (PreviewRoleTemplateReconciliation true "readers" [] ∅ (quiet ex_db_two 0 0 0)) = Ok imp /\
    Done res = true /\
    Scanned imp = PrincipalsChecked res /\ Keys imp = KeysSwept res /\
    PrincipalsChecked res = length (holders "readers" (the_db (w_db (quiet ex_db_two 0 0 0)))) /\
    the_db (w_db w') = sweep_of [] ∅ (holders "readers" (the_db (w_db (quiet ex_db_two 0 0 0))))
                         (the_db (w_db (quiet ex_db_two 0 0 0))) /\
    covered [] ∅ (holders "readers" (the_db (w_db (quiet ex_db_two 0 0 0)))) (the_db (w_db w')).
Proof.
  apply (reconcile_complete 4 running "readers" [] ∅ (ex_opts 0) (quiet ex_db_two 0 0 0)).
  - reflexivity.
  - exact ex_db_two_wf.
  - exact ex_db_two_decodable.
  - discriminate.
  - reflexivity.
  - reflexivity.
  - split; reflexivity.
  - vm_compute. lia.
Defined.

Lemma reconcile_resumes_witness :
  let w := quiet ex_db_two 0 0 0 in
  let run1 := ReconcileRoleTemplate 4 running true "readers" [] ∅ (ex_opts 1) w in
  let w1 := snd run1 in
  let res1 := {| BatchesRun := 1; PrincipalsChecked := 1; KeysSwept := 1; KeysSpared := 0;
                 Cursor := Some {| ta_OrganizationID := "o1"; ta_UserID := "u1" |}; Done := false |} in
  let opts2 := {| BatchSize := BatchSize (ex_opts 1); MaxBatches := 0; After := Cursor res1 |} in
  let opts := {| BatchSize := BatchSize (ex_opts 1); MaxBatches := 0; After := None |} in
  exists res2 w2 res w',
    ReconcileRoleTemplate 4 running true "readers" [] ∅ opts2 w1 = (Ok res2, w2) /\
    ReconcileRoleTemplate 4 running true "readers" [] ∅ opts w = (Ok res, w') /\
    Done res2 = true /\ Done res = true /\
    the_db (w_db w2) = the_db (w_db w') /\
    PrincipalsChecked res1 + PrincipalsChecked res2 = PrincipalsChecked res /\
    KeysSwept res1 + KeysSwept res2 = KeysSwept res.
Proof.
  cbv zeta.
  apply (reconcile_resumes 4 running running "readers" [] ∅ (ex_opts 1) (quiet ex_db_two 0 0 0)
    (snd (ReconcileRoleTemplate 4 running true "readers" [] ∅ (ex_opts 1) (quiet ex_db_two 0 0 0)))
    {| BatchesRun := 1; PrincipalsChecked := 1; KeysSwept := 1; KeysSpared := 0;
       Cursor := Some {| ta_OrganizationID := "o1"; ta_UserID := "u1" |}; Done := false |}).
  - reflexivity.
  - exact ex_db_two_wf.
  - exact ex_db_two_decodable.
  - discriminate.
  - reflexivity.
  - reflexivity.
  - reflexivity.
  - vm_compute. lia.
  - vm_compute. reflexivity.
  - reflexivity.
Defined.

Definition ex_edit : RoleTemplate :=
  {| rt_ID := "readers"; rt_Name := "readers"; rt_DisplayName := "Readers"; rt_Description := None;
     rt_Scopes := []; rt_IsSystem := false; rt_CreatedAt := 0; rt_UpdatedAt := 0 |}.

(** Another session deletes every key while the sweep runs. *)
Definition ex_interfered : world DB :=
  World ex_db_two [Event (fun d => d) None; Event (fun d => set_keys [] d) None] false 0 0 0.

Lemma template_writer_guarded_witness :
  let update := TemplateWriter_UpdateRoleTemplate 4 running true ∅ (Some ex_edit) (ex_opts 1) in
  let delete := TemplateWriter_DeleteRoleTemplate (St := DB) 4 running true ∅ "readers" (ex_opts 1) in
  let w := ex_interfered in
  let r := fst (update w) in let w' := snd (update w) in
  ((exists tw, r = Ok (tw, None) /\ Mutated tw = true /\ Done (Reconciled tw) = true) \/
   (role_templates (the_db (w_db w')) = role_templates (the_db (w_db w)) /\
    ((exists e, r = Err e) \/ exists tw e, r = Ok (tw, Some e) /\ Mutated tw = false /\
       (Done (Reconciled tw) = false ->
        errors_Is e "store: role-template reconciliation did not finish; the template was not modified" = true)))) /\
  evolves (over_db keeps_system) update /\ evolves (over_db keeps_system) delete.
Proof.
  cbv zeta.
  apply (template_writer_guarded 4 running true ∅ (ex_opts 1) ex_edit "readers" ex_interfered
    (snd (TemplateWriter_UpdateRoleTemplate 4 running true ∅ (Some ex_edit) (ex_opts 1) ex_interfered))
    (fst (TemplateWriter_UpdateRoleTemplate 4 running true ∅ (Some ex_edit) (ex_opts 1) ex_interfered))).
  - repeat constructor; intros s; reflexivity.
  - left. apply surjective_pairing.
Defined.
