(* ===== verification/UserRepo.v ===== *)
(** * UserRepo: identity/store/user_repository.go

    Users behind a membership scope, and the login path that finds, links or
    creates the user of an OIDC subject. *)

From S2P Require Import Prelude Order Scopes Models OrgScope Db DbRel OrganizationRepo.

Definition isUniqueViolation (err : error) : bool := errors_Is err "SQLSTATE 23505".

Section Repository.
Context {St : Type} `{HasDB St}.

Definition CreateUser (uuid : nat -> string) (user : User) : M St User :=
  id ← uuid_New uuid;
  now ← time_Now;
  let user := {| u_ID := id; u_Email := u_Email user; u_Name := u_Name user; u_OIDCSub := u_OIDCSub user;
                 u_CreatedAt := now; u_UpdatedAt := now |} in
  wrapping "failed to create user" (exec (insert_user user));;
  mret user.

Definition user_where (userID : string) (scope : OrgScope) (d : DB) (u : User) : bool :=
  (u_ID u =s userID) && admits_user scope (member_pairs d) (u_ID u).

Definition GetUserByID (userID : string) (scope : OrgScope) : M St User :=
  if MatchesNothing scope then throw (notFound "user by id")
  else
    row ← wrapping "failed to get user by id" (select_row (fun d => List.filter (user_where userID scope d) (users d)));
    match row with None => throw (notFound "user by id") | Some user => mret user end.

Definition GetUserByEmail (email : string) : M St User :=
  row ← wrapping "failed to get user by email" (select_row (fun d =>
    List.filter (fun u => u_Email u =s email) (users d)));
  match row with None => throw (notFound "user by email") | Some user => mret user end.

Definition GetUserByOIDCSub (oidcSub : string) : M St User :=
  row ← wrapping "failed to get user by oidc sub" (select_row (fun d =>
    List.filter (fun u => col_is (u_OIDCSub u) oidcSub) (users d)));
  match row with None => throw (notFound "user by oidc sub") | Some user => mret user end.

(** SET email, name, oidc_sub, updated_at *)
Definition set_identity (email name : string) (sub : option string) (now : Z) (u : User) : User :=
  {| u_ID := u_ID u; u_Email := email; u_Name := name; u_OIDCSub := sub;
     u_CreatedAt := u_CreatedAt u; u_UpdatedAt := now |}.

Definition UpdateUser (user : User) (scope : OrgScope) : M St unit :=
  if MatchesNothing scope then throw (notFound "user by id")
  else
    now ← time_Now;
    n ← wrapping "failed to update user" (exec (fun d =>
      update_users (user_where (u_ID user) scope d)
                   (set_identity (u_Email user) (u_Name user) (u_OIDCSub user) now) d));
    requireRow n "user by id".

(** WHERE id = $1 AND oidc_sub IS NULL *)
Definition linkable (userID : string) (u : User) : bool :=
  (u_ID u =s userID) && match u_OIDCSub u with None => true | Some _ => false end.

Definition linkOIDCIdentity (userID oidcSub email name : string) : M St bool :=
  now ← time_Now;
  n ← wrapping "failed to link oidc identity"
        (exec (update_users (linkable userID) (set_identity email name (Some oidcSub) now)));
  mret (0 <? n)%nat.

Definition DeleteUser (userID : string) (scope : OrgScope) : M St unit :=
  if MatchesNothing scope then throw (notFound "user by id")
  else
    n ← wrapping "failed to delete user" (exec (fun d => delete_users (user_where userID scope d) d));
    requireRow n "user by id".

Definition listUsersPage (limit offset : Z) (scope : OrgScope) : M St (list User) :=
  wrapping "failed to list users" (
    rows ← select (fun d => page limit offset (sort_by (newest u_CreatedAt)
      (List.filter (fun u => admits_user scope (member_pairs d) (u_ID u)) (users d))));
    lift rows).

Definition count_users (scope : OrgScope) : M St nat :=
  wrapping "failed to count users" (select (fun d =>
    rows_count (fun u => admits_user scope (member_pairs d) (u_ID u)) (users d))).

Definition ListUsers (limit offset : Z) (scope : OrgScope) : M St (list User * nat) :=
  if MatchesNothing scope then mret ([], O)
  else
    total ← count_users scope;
    users ← listUsersPage limit offset scope;
    mret (users, total).

Definition Count (scope : OrgScope) : M St nat :=
  if MatchesNothing scope then mret O else count_users scope.

Definition Search (fold : Ascii.ascii -> Ascii.ascii) (query : string) (limit offset : Z) (scope : OrgScope) : M St (list User) :=
  if MatchesNothing scope then mret []
  else
    let searchPattern := "%" +:+ escapeLikePattern query +:+ "%" in
    wrapping "failed to search users" (
      rows ← select (fun d => page limit offset (sort_by (newest u_CreatedAt)
        (List.filter (fun u => (ilike fold (u_Email u) searchPattern || ilike fold (u_Name u) searchPattern)
                               && admits_user scope (member_pairs d) (u_ID u)) (users d))));
      lift rows).

(** ** The OIDC login *)

Definition linked_elsewhere (u : User) (oidcSub : string) : bool :=
  match u_OIDCSub u with Some s => s <>s oidcSub | None => false end.

Definition refused_linked : error :=
  Plain "oidc account linking refused: email is already linked to a different OIDC subject".
Definition refused_unverified_link : error :=
  Plain "oidc account linking refused: email is not verified by the identity provider".
Definition refused_unverified_create : error :=
  Plain "oidc account creation refused: email is not verified by the identity provider".

(** The user found by subject: refresh the profile when it moved. *)
Definition login_known (user : User) (email name : string) : M St User :=
  if (u_Email user <>s email) || (u_Name user <>s name) then
    let user := {| u_ID := u_ID user; u_Email := email; u_Name := name; u_OIDCSub := u_OIDCSub user;
                   u_CreatedAt := u_CreatedAt user; u_UpdatedAt := u_UpdatedAt user |} in
    UpdateUser user OrgScopeAllOrganizations;;
    now ← time_Now;
    mret {| u_ID := u_ID user; u_Email := email; u_Name := name; u_OIDCSub := u_OIDCSub user;
            u_CreatedAt := u_CreatedAt user; u_UpdatedAt := now |}
  else mret user.

(** The user found by email. *)
Definition login_link (emailUser : User) (oidcSub email name : string) (emailVerified : bool) : M St User :=
  if linked_elsewhere emailUser oidcSub then throw refused_linked
  else if negb emailVerified then throw refused_unverified_link
  else
    linked ← linkOIDCIdentity (u_ID emailUser) oidcSub email name;
    if (linked : bool)
    then mret {| u_ID := u_ID emailUser; u_Email := email; u_Name := name; u_OIDCSub := Some oidcSub;
                 u_CreatedAt := u_CreatedAt emailUser; u_UpdatedAt := u_UpdatedAt emailUser |}
    else
      r ← try (GetUserByID (u_ID emailUser) OrgScopeAllOrganizations);
      match r with
      | Err werr => if is_not_found werr then throw (Plain "oidc account linking: user vanished while linking")
                    else throw werr
      | Ok winner => if linked_elsewhere winner oidcSub then throw refused_linked else mret winner
      end.

(** Nobody has the subject or the email. *)
Definition login_create (uuid : nat -> string) (oidcSub email name : string) (emailVerified : bool) : M St User :=
  if negb emailVerified then throw refused_unverified_create
  else
    id ← uuid_New uuid;
    now ← time_Now;
    let newUser := {| u_ID := id; u_Email := email; u_Name := name; u_OIDCSub := Some oidcSub;
                      u_CreatedAt := now; u_UpdatedAt := now |} in
    result ← try (exec (insert_user_ignoring_sub newUser));
    let reread :=
      r ← try (GetUserByOIDCSub oidcSub);
      match r with
      | Ok winner => mret winner
      | Err werr => if negb (is_not_found werr) then throw werr
                    else throw (Plain "oidc user creation: conflicting row not found on re-read")
      end in
    match result with
    | Err err => if negb (isUniqueViolation err) then throw (Wrap "failed to create user from oidc" err) else reread
    | Ok n => if (0 <? n)%nat then mret newUser else reread
    end.

Definition GetOrCreateUserFromOIDC (uuid : nat -> string) (oidcSub email name : string) (emailVerified : bool)
    : M St User :=
  r ← try (GetUserByOIDCSub oidcSub);
  match r with
  | Ok user => login_known user email name
  | Err err =>
      if negb (is_not_found err) then throw err
      else
        r ← try (GetUserByEmail email);
        match r with
        | Ok emailUser => login_link emailUser oidcSub email name emailVerified
        | Err err => if negb (is_not_found err) then throw err
                     else login_create uuid oidcSub email name emailVerified
        end
  end.

(** ** Users with memberships *)

Definition GetUserWithOrgRoles (userID : string) (scope : OrgScope) : M St UserWithOrgRoles :=
  if MatchesNothing scope then throw (notFound "user by id")
  else
    user ← GetUserByID userID scope;
    rows ← wrapping "failed to get user memberships" (select (fun d =>
      List.map (userMembershipRow d) (sort_by (newest m_CreatedAt)
        (List.filter (fun m => (m_UserID m =s userID) && admits scope (Some (m_OrganizationID m)))
                     (organization_members d)))));
    memberships ← lift (scan_all scanUserMembership rows);
    mret {| uw_User := user; uw_Memberships := memberships |}.

(** ORDER BY om.user_id, om.created_at DESC *)
Definition by_user_newest (x y : OrganizationMember) : bool :=
  if m_UserID x =s m_UserID y then newest m_CreatedAt x y else String.leb (m_UserID x) (m_UserID y).

Definition append_membership (userID : string) (m : UserMembership) (result : list UserWithOrgRoles) : list UserWithOrgRoles :=
  List.map (fun uw => if u_ID (uw_User uw) =s userID
                      then {| uw_User := uw_User uw; uw_Memberships := uw_Memberships uw ++ [m] |} else uw) result.

Definition loadMembershipsForUsers (us : list User) (scope : OrgScope) : M St (list UserWithOrgRoles) :=
  let result := List.map (fun u => {| uw_User := u; uw_Memberships := [] |}) us in
  if (length us =? 0)%nat then mret result
  else
    let userIDs := List.map u_ID us in
    rows ← wrapping "failed to load memberships for users" (select (fun d =>
      List.map (fun m => (m_UserID m, userMembershipRow d m)) (sort_by by_user_newest
        (List.filter (fun m => mem (m_UserID m) userIDs && admits scope (Some (m_OrganizationID m)))
                     (organization_members d)))));
    scanned ← lift (scan_all (fun row => m ← scanUserMembership (snd row); Ok (fst row, m)) rows);
    mret (foldl (fun acc row => append_membership (fst row) (snd row) acc) result (scanned : list (string * UserMembership))).

Definition ListUsersWithMemberships (limit offset : Z) (scope : OrgScope) : M St (list UserWithOrgRoles * nat) :=
  ut ← ListUsers limit offset scope;
  result ← loadMembershipsForUsers (fst ut) scope;
  mret (result, snd ut).

Definition SearchWithMemberships (fold : Ascii.ascii -> Ascii.ascii) (query : string) (limit offset : Z) (scope : OrgScope)
    : M St (list UserWithOrgRoles) :=
  us ← Search fold query limit offset scope;
  loadMembershipsForUsers us scope.
End Repository.

(** ** Lemmas *)

(** Accounts persist and a subject once linked stays linked to its account. *)
Definition kept (d d' : DB) : Prop :=
  forall u, In u (users d) -> exists u', In u' (users d') /\ u_ID u' = u_ID u /\
    forall s, u_OIDCSub u = Some s -> u_OIDCSub u' = Some s.

Definition steady (d d' : DB) : Prop := db_wf d -> db_wf d' /\ kept d d'.

#[export] Instance kept_preorder : PreOrder kept.
Proof.
  split; [intros d u Hu; eauto|]. intros a b c H1 H2 u Hu. destruct (H1 u Hu) as (u1 & Hu1 & E1 & Hs1).
  destruct (H2 u1 Hu1) as (u2 & Hu2 & E2 & Hs2). exists u2. split; [done|]. split; [congruence|]. auto.
Qed.

#[export] Instance steady_preorder : PreOrder steady.
Proof.
  split; [by intros d Hd|]. intros a b c H1 H2 Hwf. destruct (H1 Hwf) as [Hb H1']. destruct (H2 Hb) as [Hc H2'].
  split; [done|by etrans].
Qed.

(** The account of a subject. *)
Definition bound (d : DB) (id sub : string) : Prop := exists u, In u (users d) /\ u_ID u = id /\ u_OIDCSub u = Some sub.

Lemma bound_kept d d' id sub : kept d d' -> bound d id sub -> bound d' id sub.
Proof. intros Hk (u & Hu & <- & Hs). destruct (Hk u Hu) as (u' & ? & ? & Hs'). exists u'. auto. Qed.

Lemma bound_unique d id sub u : db_wf d -> bound d id sub -> In u (users d) -> u_ID u = id -> u_OIDCSub u = Some sub.
Proof.
  intros Hwf (u' & Hu' & E & Hs) Hu <-. by rewrite (NoDup_map_inj u_ID (users d) u u' (wf_users _ Hwf) Hu Hu' (eq_sym E)).
Qed.

(** A statement that moves a known account's profile keeps its subject. *)
Definition steady_if_bound (id sub : string) (d d' : DB) : Prop := db_wf d -> bound d id sub -> db_wf d' /\ kept d d'.

#[export] Instance steady_if_bound_preorder id sub : PreOrder (steady_if_bound id sub).
Proof.
  split; [by intros d Hd|]. intros a b c H1 H2 Hwf Hb. destruct (H1 Hwf Hb) as [Hwf1 H1'].
  destruct (H2 Hwf1 (bound_kept _ _ _ _ H1' Hb)) as [Hwf2 H2']. split; [done|by etrans].
Qed.

Lemma update_users_kept p f d n d' :
  (forall u, u_ID (f u) = u_ID u) ->
  (forall u s, In u (users d) -> p u = true -> u_OIDCSub u = Some s -> u_OIDCSub (f u) = Some s) ->
  update_users p f d = Ok (n, d') -> kept d d'.
Proof.
  unfold update_users. intros Hid Hs E. destruct (users_unique _); [|done]. injection E as _ <-.
  intros u Hu. simpl. exists (if p u then f u else u). split; [apply in_rows_upd; eauto|].
  destruct (p u) eqn:Ep; [|done]. split; [apply Hid|]. intros s. by apply Hs.
Qed.

Lemma insert_user_kept u d n d' : insert_user u d = Ok (n, d') -> kept d d'.
Proof.
  unfold insert_user. destruct (existsb _ _); [done|]. destruct (users_unique _); [|done]. intros [= _ <-] v Hv.
  exists v. simpl. rewrite in_app_iff. auto.
Qed.

Section Login.
Context {St : Type} `{HasDB St}.

Lemma seen_respects (R : St -> St -> Prop) `{!PreOrder R} (w : world St) :
  sched_respects R w -> R (w_db w) (db_seen w).
Proof.
  unfold sched_respects, db_seen. destruct (w_sched w) as [|ev l]; [done|]. intros [He _]%Forall_cons.
  destruct (w_intx w); [done|apply He].
Qed.

Lemma sched_weaken (R R' : St -> St -> Prop) (w : world St) :
  (forall s s', R s s' -> R' s s') -> sched_respects R w -> sched_respects R' w.
Proof. intros Hw. unfold sched_respects. intros Hs. eapply Forall_impl; [exact Hs|]. auto. Qed.

Lemma update_user_steady id sub email name now :
  evolves (over_db (steady_if_bound id sub)) (exec (St := St) (fun d =>
      update_users (user_where id OrgScopeAllOrganizations d) (set_identity email name (Some sub) now) d)).
Proof.
  apply evolves_exec; [apply _|]. intros d n d' E Hwf Hb. split.
  - by eapply update_users_wf; [|exact E|exact Hwf].
  - eapply update_users_kept; [| |exact E]; [done|]. intros u s Hu [Hid%seqb_true _]%andb_prop Hs. simpl.
    by rewrite <- Hs, (bound_unique d id sub u).
Qed.

Lemma login_known_evolves user sub email name : u_OIDCSub user = Some sub ->
  evolves (over_db (steady_if_bound (u_ID user) sub)) (login_known (St := St) user email name).
Proof.
  intros Hsub. unfold login_known, UpdateUser. simpl. rewrite Hsub. evolve. apply update_user_steady.
Qed.

Lemma link_steady userID sub email name : evolves (over_db steady) (linkOIDCIdentity (St := St) userID sub email name).
Proof.
  unfold linkOIDCIdentity. evolve. apply evolves_exec; [apply _|]. intros d n d' E Hwf. split.
  - by eapply update_users_wf; [|exact E|exact Hwf].
  - eapply update_users_kept; [| |exact E]; [done|]. intros u s _ [_ Hn]%andb_prop Hs. by rewrite Hs in Hn.
Qed.

Lemma GetUserByID_evolves R `{!PreOrder R} id scope : evolves (over_db R) (GetUserByID (St := St) id scope).
Proof. unfold GetUserByID, select_row. evolve. Qed.
Lemma GetUserByOIDCSub_evolves R `{!PreOrder R} sub : evolves (over_db R) (GetUserByOIDCSub (St := St) sub).
Proof. unfold GetUserByOIDCSub, select_row. evolve. Qed.
Lemma GetUserByEmail_evolves R `{!PreOrder R} email : evolves (over_db R) (GetUserByEmail (St := St) email).
Proof. unfold GetUserByEmail, select_row. evolve. Qed.
End Login.

#[export] Hint Resolve GetUserByID_evolves GetUserByOIDCSub_evolves GetUserByEmail_evolves link_steady : evolve.

Section Steps.
Context {St : Type} `{HasDB St}.

Lemma login_link_steady u sub email name v : evolves (over_db steady) (login_link (St := St) u sub email name v).
Proof. unfold login_link. evolve. Qed.

Lemma login_create_steady uuid sub email name v : evolves (over_db steady) (login_create (St := St) uuid sub email name v).
Proof.
  unfold login_create. evolve. apply evolves_exec; [apply _|]. intros d n d' E Hwf. split.
  - by eapply insert_user_ignoring_sub_wf; [exact E|].
  - unfold insert_user_ignoring_sub in E. destruct (existsb _ _); [by injection E as _ <-|by eapply insert_user_kept].
Qed.
End Steps.

Section Results.
Context {St : Type} `{HasDB St}.

Lemma lookup_inv {A} msg what (f : DB -> list A) (w : world St) r w1 :
  (row ← wrapping msg (select_row f); match row with None => throw (notFound what) | Some x => mret x end : M St A) w = (r, w1) ->
  w_db w1 = db_seen w /\
  ((exists x, r = Ok x /\ In x (f (the_db (w_db w1)))) \/
   (exists e, r = Err e /\ (is_not_found e = true -> f (the_db (w_db w1)) = []))).
Proof.
  intros Hx. apply bind_inv in Hx as [(row & w2 & H1 & H2)|(e & H1 & ->)].
  - apply select_Ok in H1 as (-> & _ & Hd). destruct (f (the_db (db_seen w))) as [|x l] eqn:Ef; injection H2 as <- <-;
      (split; [done|]); rewrite Hd, Ef.
    + right. eexists. split; [done|done].
    + left. exists x. split; [done|by left].
  - apply wrapping_Err in H1 as (e0 & H1 & ->). unfold select_row in H1.
    pose proof (select_fault _ _ _ _ H1) as Hn. apply select_inv in H1 as (_ & _ & Hd). split; [done|].
    right. eexists. split; [done|]. simpl. unfold is_not_found in *. simpl. congruence.
Qed.

Lemma GetUserByOIDCSub_inv sub (w : world St) r w1 : GetUserByOIDCSub sub w = (r, w1) ->
  w_db w1 = db_seen w /\
  ((exists u, r = Ok u /\ In u (users (the_db (w_db w1))) /\ u_OIDCSub u = Some sub) \/ exists e, r = Err e).
Proof.
  intros Hx. apply lookup_inv in Hx as [Hd [(u & -> & [Hin Hs]%filter_In)|(e & -> & _)]]; (split; [done|]); [left|eauto].
  apply col_is_true in Hs. eauto.
Qed.

Lemma login_known_Ok user email name (w w' : world St) u :
  login_known user email name w = (Ok u, w') -> u_ID u = u_ID user /\ u_OIDCSub u = u_OIDCSub user.
Proof.
  unfold login_known. destruct (_ || _); [|by intros [= -> _]]. intros Hx.
  apply bind_Ok in Hx as (x & w1 & _ & Hx). by apply bind_Ok in Hx as (now & w2 & [= <- <-] & [= <- _]).
Qed.

Lemma not_elsewhere u sub s : linked_elsewhere u sub = false -> u_OIDCSub u = Some s -> s = sub.
Proof. unfold linked_elsewhere. intros E Hs. rewrite Hs in E. by apply negb_false_iff, seqb_true in E. Qed.

Lemma login_link_Ok emailUser sub email name v (w w' : world St) u :
  sched_respects (over_db steady) w -> db_wf (the_db (w_db w)) -> In emailUser (users (the_db (w_db w))) ->
  login_link emailUser sub email name v w = (Ok u, w') ->
  u_OIDCSub u = Some sub /\ bound (the_db (w_db w')) (u_ID u) sub.
Proof.
  intros Hs Hwf Hin Hx. unfold login_link in Hx.
  destruct (linked_elsewhere emailUser sub); [done|]. destruct v; [|done]. simpl in Hx.
  apply bind_Ok in Hx as (linked & w1 & H1 & Hx).
  pose proof (seen_respects _ _ Hs) as Hseen. unfold over_db in Hseen. destruct (Hseen Hwf) as [Hwf1 Hk1].
  destruct (link_steady _ _ _ _ _ _ _ H1 Hs) as [_ Hs1].
  unfold linkOIDCIdentity in H1. apply bind_Ok in H1 as (now & w0 & [= <- <-] & H1).
  apply bind_Ok in H1 as (n & w2 & H1 & [= Hn <-]). apply exec_Ok in H1 as (d & Hf & _ & Hd).
  set (d1 := the_db (db_seen w)) in *.
  pose proof Hf as Hf'. unfold update_users in Hf'. destruct (users_unique _); [|done]. injection Hf' as En Ed.
  destruct linked.
  - injection Hx as <- <-. split; [done|]. simpl. rewrite Hd, the_put.
    unfold rows_count in En. destruct (List.filter _ _) as [|x l] eqn:Ef; [by subst n|].
    assert (In x (x :: l)) as Hx by by left. rewrite <- Ef, filter_In in Hx. destruct Hx as [Hx Hp].
    exists (set_identity email name (Some sub) (w_now w) x). rewrite <- Ed. simpl. split; [|split; [|done]].
    + apply in_rows_upd. exists x. by rewrite Hp.
    + by apply andb_prop in Hp as [Hp%seqb_true _].
  - apply bind_try in Hx as (r & w3 & H3 & Hx). destruct r as [winner|e]; [|by destruct (is_not_found e)].
    destruct (linked_elsewhere winner sub) eqn:El; [done|]. injection Hx as <- <-.
    assert (Hd3 : steady (the_db (w_db w2)) (the_db (w_db w3))) by apply (GetUserByID_evolves steady _ _ _ _ _ H3 Hs1).
    apply lookup_inv in H3 as [_ [(x & [= <-] & [Hw [Hid%seqb_true _]%andb_prop]%filter_In)|(e & [=] & _)]].
    assert (Hwf' : db_wf (the_db (w_db w2))).
    { rewrite Hd, the_put. by eapply update_users_wf; [|exact Hf|]. }
    destruct (Hd3 Hwf') as [Hwf3 Hk3].
    destruct (Hk1 emailUser Hin) as (u1 & Hu1 & Eu1 & _).
    assert (Hu1d : In u1 (users d)).
    { rewrite <- Ed. simpl. apply in_rows_upd. exists u1. split; [done|].
      destruct (linkable (u_ID emailUser) u1) eqn:Elk; [|done].
      unfold rows_count in En. assert (In u1 (List.filter (linkable (u_ID emailUser)) (users d1))) as Hc by by rewrite filter_In.
      destruct (List.filter _ _); [done|]. simpl in En. subst n. done. }
    assert (Hsub1 : exists s, u_OIDCSub u1 = Some s).
    { destruct (u_OIDCSub u1) as [s|] eqn:Es; [eauto|]. exfalso.
      assert (In u1 (List.filter (linkable (u_ID emailUser)) (users d1))) as Hc.
      { rewrite filter_In. split; [done|]. unfold linkable. by rewrite Eu1, seqb_refl, Es. }
      unfold rows_count in En. destruct (List.filter _ _); [done|]. simpl in En. subst n. done. }
    destruct Hsub1 as [s Hs1'].
    destruct (Hk3 u1) as (u3 & Hu3 & Eu3 & Hsu3); [by rewrite Hd, the_put|].
    assert (u3 = winner) as ->.
    { apply (NoDup_map_inj u_ID _ _ _ (wf_users _ Hwf3) Hu3 Hw). congruence. }
    specialize (Hsu3 s Hs1'). rewrite (not_elsewhere _ _ _ El Hsu3) in Hsu3. split; [done|]. by exists winner.
Qed.

Lemma login_create_Ok uuid sub email name v (w w' : world St) u :
  login_create uuid sub email name v w = (Ok u, w') ->
  v = true /\ u_OIDCSub u = Some sub /\ bound (the_db (w_db w')) (u_ID u) sub.
Proof.
  unfold login_create. destruct v; [|done]. simpl. intros Hx. split; [done|].
  apply bind_Ok in Hx as (id & w0 & [= <- <-] & Hx). apply bind_Ok in Hx as (now & w0 & [= <- <-] & Hx).
  apply bind_try in Hx as (rn & w1 & H1 & Hx).
  set (newUser := {| u_ID := _ |}) in *.
  assert (Hre : forall w1 : world St, (r ← try (GetUserByOIDCSub sub);
      match r with
      | Ok winner => mret winner
      | Err werr => if negb (is_not_found werr) then throw werr
                    else throw (Plain "oidc user creation: conflicting row not found on re-read")
      end) w1 = (Ok u, w') -> u_OIDCSub u = Some sub /\ bound (the_db (w_db w')) (u_ID u) sub).
  { intros w2 Hr. apply bind_try in Hr as (r & w3 & H3 & Hr).
    apply GetUserByOIDCSub_inv in H3 as [_ [(x & -> & Hin & Hs)|(e & ->)]]; [|by destruct (is_not_found e)].
    injection Hr as <- <-. split; [done|]. by exists x. }
  destruct rn as [n|e].
  - destruct n as [|n]; [by apply (Hre w1)|]. injection Hx as <- <-. split; [done|].
    apply exec_inv in H1 as (_ & [(a & d & [= <-] & Hf & Hd)|(e & [=] & _)]). rewrite Hd, the_put.
    unfold insert_user_ignoring_sub in Hf. destruct (existsb _ _); [done|]. unfold insert_user in Hf.
    destruct (existsb _ _); [done|]. destruct (users_unique _); [|done]. injection Hf as _ <-.
    exists newUser. simpl. rewrite in_app_iff. simpl. auto.
  - destruct (isUniqueViolation e); [by apply (Hre w1)|done].
Qed.
End Results.

(** ** Properties *)

(** An unverified email opens no door. Under every schedule of faults and other
    sessions, with no assumption about them, a login whose email the provider has
    not verified yields only an account that was already linked to the same subject
    when the login first looked; it never links an existing account and never
    creates one. *)
Theorem unverified_login_only_returning {St} `{HasDB St} uuid oidcSub email name (w w' : world St) u :
  GetOrCreateUserFromOIDC uuid oidcSub email name false w = (Ok u, w') ->
  bound (the_db (db_seen w)) (u_ID u) oidcSub /\ u_OIDCSub u = Some oidcSub.
Proof.
  unfold GetOrCreateUserFromOIDC. intros Hx. apply bind_try in Hx as (r1 & w1 & H1 & Hx).
  apply GetUserByOIDCSub_inv in H1 as [Hd [(x & -> & Hin & Hs)|(e & ->)]].
  - apply login_known_Ok in Hx as [-> ->]. rewrite <- Hd. split; [|done]. by exists x.
  - destruct (is_not_found e); [|done]. simpl in Hx. apply bind_try in Hx as (r2 & w2 & _ & Hx).
    destruct r2 as [x|e2].
    + unfold login_link in Hx. by destruct (linked_elsewhere x oidcSub).
    + destruct (is_not_found e2); [|done]. by apply login_create_Ok in Hx as [? _].
Qed.

(** C3: a login binds at most what was free. Whatever races with it, as long as the
    other sessions keep the schema well formed, delete no account and re-link no
    subject, [GetOrCreateUserFromOIDC] does the same: every account linked to a
    subject stays linked to it, on success and on error alike; and the user it
    returns is one that the database, when it returns, has linked to exactly
    the subject that logged in. So no login returns, or takes over, an account
    linked to another subject. *)
Theorem login_never_rebinds {St} `{HasDB St} uuid oidcSub email name verified (w w' : world St) r :
  sched_respects (over_db steady) w -> db_wf (the_db (w_db w)) ->
  GetOrCreateUserFromOIDC uuid oidcSub email name verified w = (r, w') ->
  db_wf (the_db (w_db w')) /\ kept (the_db (w_db w)) (the_db (w_db w')) /\
  forall u, r = Ok u -> u_OIDCSub u = Some oidcSub /\ bound (the_db (w_db w')) (u_ID u) oidcSub.
Proof.
  intros Hs Hwf Hx. unfold GetOrCreateUserFromOIDC in Hx. apply bind_try in Hx as (r1 & w1 & H1 & Hx).
  destruct (GetUserByOIDCSub_evolves steady _ _ _ _ H1 Hs) as [Hst Hs1]. destruct (Hst Hwf) as [Hwf1 Hk1].
  apply GetUserByOIDCSub_inv in H1 as [_ [(x & -> & Hin & Hsub)|(e & ->)]].
  - assert (Hb : bound (the_db (w_db w1)) (u_ID x) oidcSub) by (by exists x).
    destruct (login_known_evolves x oidcSub email name Hsub _ _ _ Hx) as [Hst2 _].
    { eapply sched_weaken; [|exact Hs1]. intros s s' Hss Hd _. by apply Hss. }
    destruct (Hst2 Hwf1 Hb) as [Hwf2 Hk2]. split; [done|]. split; [by etrans|].
    intros u ->. apply login_known_Ok in Hx as [-> ->]. split; [done|]. by eapply bound_kept.
  - destruct (is_not_found e); [|by injection Hx as <- <-]. simpl in Hx.
    apply bind_try in Hx as (r2 & w2 & H2 & Hx).
    destruct (GetUserByEmail_evolves steady _ _ _ _ H2 Hs1) as [Hst2 Hs2]. destruct (Hst2 Hwf1) as [Hwf2 Hk2].
    assert (Hk : kept (the_db (w_db w)) (the_db (w_db w2))) by (by etrans).
    apply lookup_inv in H2 as [_ [(x & -> & [Hin _]%filter_In)|(e2 & -> & _)]].
    + destruct (login_link_steady _ _ _ _ _ _ _ _ Hx Hs2) as [Hst3 _]. destruct (Hst3 Hwf2) as [Hwf3 Hk3].
      split; [done|]. split; [by etrans|]. intros u ->. by eapply login_link_Ok.
    + destruct (is_not_found e2); [|by injection Hx as <- <-]. simpl in Hx.
      destruct (login_create_steady _ _ _ _ _ _ _ _ Hx Hs2) as [Hst3 _]. destruct (Hst3 Hwf2) as [Hwf3 Hk3].
      split; [done|]. split; [by etrans|]. intros u ->. by apply login_create_Ok in Hx as [_ ?].
Qed.

(** ** Witnesses *)

Definition ex_linked : DB :=
  set_users [ {| u_ID := "u1"; u_Email := "a@x"; u_Name := "A"; u_OIDCSub := Some "sub1"; u_CreatedAt := 0; u_UpdatedAt := 0 |};
              {| u_ID := "u2"; u_Email := "b@x"; u_Name := "B"; u_OIDCSub := None; u_CreatedAt := 0; u_UpdatedAt := 0 |} ]
    (MkDB [] [] [] [] [] []).

Lemma ex_linked_wf : db_wf ex_linked.
Proof.
  constructor; try (by apply (bool_decide_unpack _); vm_compute);
    simpl; intros x Hx; repeat (destruct Hx as [<- | Hx]; [reflexivity|]); destruct Hx.
Qed.

Lemma unverified_login_only_returning_witness :
  bound (the_db (db_seen (quiet ex_linked 5 5 0))) "u1" "sub1" /\ Some "sub1" = Some "sub1".
Proof.
  apply (unverified_login_only_returning (fun _ => "new") "sub1" "a2@x" "A" (quiet ex_linked 5 5 0)
    (snd (GetOrCreateUserFromOIDC (fun _ => "new") "sub1" "a2@x" "A" false (quiet ex_linked 5 5 0)))
    {| u_ID := "u1"; u_Email := "a2@x"; u_Name := "A"; u_OIDCSub := Some "sub1"; u_CreatedAt := 0; u_UpdatedAt := 5 |}).
  vm_compute. reflexivity.
Defined.

Lemma login_never_rebinds_witness :
  let w := World ex_linked [Event (fun d => d) None; Event (fun d => d) None; Event (fun d => d) None] false 5 5 0 in
  let r := fst (GetOrCreateUserFromOIDC (fun _ => "new") "sub2" "b@x" "B" true w) in
  let w' := snd (GetOrCreateUserFromOIDC (fun _ => "new") "sub2" "b@x" "B" true w) in
  db_wf (the_db (w_db w')) /\ kept (the_db (w_db w)) (the_db (w_db w')) /\
  forall u, r = Ok u -> u_OIDCSub u = Some "sub2" /\ bound (the_db (w_db w')) (u_ID u) "sub2".
Proof.
  cbv zeta.
  apply (login_never_rebinds (fun _ => "new") "sub2" "b@x" "B" true
    (World ex_linked [Event (fun d => d) None; Event (fun d => d) None; Event (fun d => d) None] false 5 5 0)).
  - unfold sched_respects; simpl. repeat (apply Forall_cons_2; [intros s; reflexivity|]). apply Forall_nil_2.
  - exact ex_linked_wf.
  - apply surjective_pairing.
Defined.

Example login_links_free_account :
  option_map u_OIDCSub (match fst (GetOrCreateUserFromOIDC (fun _ => "new") "sub2" "b@x" "B" true (quiet ex_linked 5 5 0))
                        with Ok u => Some u | Err _ => None end) = Some (Some "sub2").
Proof. vm_compute. reflexivity. Qed.
