(* ===== verification/TokenRepo.v ===== *)
(** * TokenRepo: identity/store/token_repository.go

    The per-token denylist: revocation, its in-line bounded pruning of rows long
    expired, and the check, which fails closed. *)

From S2P Require Import Prelude Order Models OrgScope Db DbRel OrganizationRepo.

Definition ErrEmptyTokenID : error := Sentinel "store: token identifier (jti) is empty".

Definition hour : Z := 3600 * second.
Definition revocationRetentionGrace : Z := hour.
Definition revocationPruneInterval : Z := hour.
Definition revocationPruneBatch : Z := 10000.

(** The repository's settings; zero or less is the default. *)
Record TokenRepository := { pruneInterval : Z; pruneGrace : Z; pruneBatch : Z }.

(** The atomic [nextPruneAtUnixNano] in the process's memory. *)
Class HasPruneClock (St : Type) `{HasDB St} := {
  next_prune : St -> Z;
  put_next_prune : Z -> St -> St;
  next_put : forall z s, next_prune (put_next_prune z s) = z;
  db_put_next : forall z s, the_db (put_next_prune z s) = the_db s
}.

Definition defaulted (v fallback : Z) : Z := if (v <=? 0)%Z then fallback else v.

Definition oldest (x y : RevokedRow) : bool := (r_expires_at x <=? r_expires_at y)%Z.

(** WHERE jti IN (SELECT jti ... WHERE expires_at < $1 ORDER BY expires_at LIMIT $2) *)
Definition prune_expired (cutoff batch : Z) (d : DB) : result (nat * DB) :=
  let doomed := List.map r_jti (firstn (Z.to_nat batch) (sort_by oldest
    (List.filter (fun r => (r_expires_at r <? cutoff)%Z) (revoked_tokens d)))) in
  delete_revoked (fun r => mem (r_jti r) doomed) d.

Section Repository.
Context {St : Type} `{HasPruneClock St}.

(** Load, compare, and compare-and-swap; another goroutine may run in between. *)
Definition claimPruneSlot (r : TokenRepository) (now : Z) : M St bool :=
  next ← peek next_prune;
  if (now <? next)%Z then mret false
  else
    let interval := defaulted (pruneInterval r) revocationPruneInterval in
    preempt;;
    current ← peek next_prune;
    if (current =? next)%Z then poke (put_next_prune (now + interval)%Z);; mret true else mret false.

(** A failed prune is logged; the revocation stands. *)
Definition maybePruneExpiredRevocations (r : TokenRepository) : M St unit :=
  now ← time_Now;
  claimed ← claimPruneSlot r now;
  if negb claimed then mret tt
  else
    let grace := defaulted (pruneGrace r) revocationRetentionGrace in
    let batch := defaulted (pruneBatch r) revocationPruneBatch in
    let cutoff := (now - grace)%Z in
    try (exec (prune_expired cutoff batch));;
    mret tt.

Definition RevokeToken (r : TokenRepository) (jti userID : string) (expiresAt : Z) : M St unit :=
  if jti =s "" then throw ErrEmptyTokenID
  else
    wrapping "failed to revoke token" (exec (insert_revoked
      {| r_jti := jti; r_user_id := userID; r_expires_at := expiresAt |}));;
    maybePruneExpiredRevocations r;;
    mret tt.

(** Go's pair: [true] accompanies every error. *)
Definition IsTokenRevoked (jti : string) : M St (bool * option error) :=
  if jti =s "" then mret (true, Some ErrEmptyTokenID)
  else
    r ← try (select (fun d => existsb (fun r => r_jti r =s jti) (revoked_tokens d)));
    match r with
    | Err err => mret (true, Some (Wrap "failed to check token revocation" err))
    | Ok exists_ => mret (exists_, None)
    end.

Definition CleanupExpiredRevocations : M St Z :=
  now ← db_NOW;
  n ← wrapping "failed to cleanup expired token revocations"
        (exec (delete_revoked (fun r => (r_expires_at r <? now)%Z)));
  affectedRows n.
End Repository.

(** ** Lemmas *)

(** Denials that still matter at [t] are not lost. *)
Definition denials_kept (t : Z) (d d' : DB) : Prop :=
  (NoDup (List.map r_jti (revoked_tokens d)) -> NoDup (List.map r_jti (revoked_tokens d'))) /\
  (NoDup (List.map r_jti (revoked_tokens d)) ->
   forall r, In r (revoked_tokens d) -> (t <= r_expires_at r)%Z -> In r (revoked_tokens d')).

#[export] Instance denials_kept_preorder t : PreOrder (denials_kept t).
Proof.
  split; [by split|]. intros a b c [U1 K1] [U2 K2]. split; [auto|].
  intros Hu r Hr Ht. apply K2; auto.
Qed.

Lemma delete_revoked_kept t p d n d' :
  (NoDup (List.map r_jti (revoked_tokens d)) -> forall r, In r (revoked_tokens d) -> (t <= r_expires_at r)%Z -> p r = false) ->
  delete_revoked p d = Ok (n, d') -> denials_kept t d d'.
Proof.
  intros Hp [= _ <-]. split; simpl.
  - apply NoDup_map_filter.
  - intros Hu r Hr Ht. apply in_rows_del. auto.
Qed.

(** The jti list names expired rows only, jtis being unique. *)
Lemma prune_kept t cutoff batch d n d' : (cutoff <= t)%Z -> prune_expired cutoff batch d = Ok (n, d') -> denials_kept t d d'.
Proof.
  intros Hc. apply delete_revoked_kept. intros Hu r Hr Ht. apply mem_false. intros Hin.
  apply in_map_iff in Hin as (r' & E & Hin).
  assert (In r' (List.filter (fun r => (r_expires_at r <? cutoff)%Z) (revoked_tokens d))) as Hf.
  { apply (in_sort_by oldest). rewrite <- (firstn_skipn (Z.to_nat batch) (sort_by oldest _)). apply in_app_iff. by left. }
  apply filter_In in Hf as [Hr' Hlt%Z.ltb_lt]. rewrite (NoDup_map_inj r_jti _ r' r Hu Hr' Hr E) in Hlt. lia.
Qed.

Lemma insert_revoked_kept t r d n d' : insert_revoked r d = Ok (n, d') -> denials_kept t d d'.
Proof.
  unfold insert_revoked. destruct (existsb _ _) eqn:Ex; [by intros [= _ <-]|].
  destruct (user_exists _ _); [|done]. intros [= _ <-]. split; simpl.
  - intros Hu. apply NoDup_map_snoc; [done|]. intros y Hy E.
    pose proof (proj1 (existsb_none _ _) Ex y Hy) as Hs. simpl in Hs. by rewrite E, seqb_refl in Hs.
  - intros _ r' Hr' _. apply in_app_iff. by left.
Qed.

Section Facts.
Context {St : Type} `{HasPruneClock St}.

(** The clock does not move while an operation runs. *)
Definition at_time (now dbnow : Z) (w : world St) : Prop := w_now w = now /\ w_dbnow w = dbnow.

Lemma prune_evolves t r (now : Z) :
  (now - defaulted (pruneGrace r) revocationRetentionGrace <= t)%Z ->
  evolves (over_db (denials_kept t)) (
    claimed ← claimPruneSlot r now;
    if negb claimed then mret tt
    else
      try (exec (prune_expired (now - defaulted (pruneGrace r) revocationRetentionGrace)
                               (defaulted (pruneBatch r) revocationPruneBatch)));;
      (mret tt : M St unit)).
Proof.
  intros Ht. apply evolves_bind; [apply _| |].
  - unfold claimPruneSlot. evolve. apply evolves_poke. intros s. unfold over_db. by rewrite db_put_next.
  - intros []; simpl; evolve. apply evolves_exec; [apply _|]. intros d n d'. by apply prune_kept.
Qed.
End Facts.

(** ** Properties *)


(** ** Witness *)

(** A process that holds the schema and the prune clock. *)
#[export] Instance clock_HasDB : HasDB (DB * Z).
Proof. refine {| the_db := fst; put_db := fun d s => (d, snd s) |}; [done|by intros []|done]. Defined.
#[export] Instance clock_HasPruneClock : HasPruneClock (DB * Z).
Proof. refine {| next_prune := snd; put_next_prune := fun z s => (fst s, z) |}; done. Defined.

Definition ex_tokens : DB :=
  set_revoked [{| r_jti := "old"; r_user_id := "u1"; r_expires_at := -1 |};
               {| r_jti := "live"; r_user_id := "u1"; r_expires_at := 100 |}] ex_db.

Definition ex_denylist : world (DB * Z) :=
  World (ex_tokens, 0%Z) [Event (fun s => s) None; Event (fun s => s) (Some "timeout")] false 50 50 0.

Definition ex_rep : TokenRepository := {| pruneInterval := 0; pruneGrace := 10; pruneBatch := 0 |}.


(** The revocation succeeds although the prune behind it failed. *)
Example revoke_despite_prune_failure :
  fst (RevokeToken ex_rep "new" "u1" 90 ex_denylist) = Ok tt.
Proof. vm_compute. reflexivity. Qed.
