(* ===== verification/Isolation.v ===== *)
(** * Isolation: what every operation of identity/store keeps

    Three properties that range over all the repositories: the schema's invariant,
    the isolation of tenants under scoped mutations, and the confinement of scoped
    reads. *)

From S2P Require Import Prelude Order Scopes Models OrgScope Db DbRel.
From S2P Require Import OrganizationRepo ApiKeyRepo UserRepo RoleTemplateRepo TokenRepo AuthorityReduction TemplateReconcile.

Section Operations.
Context {St : Type} `{!HasDB St} `{!OrganizationRepo.HasOrgCache St} `{!TokenRepo.HasPruneClock St}.

Lemma invalidate_evolves R `{!PreOrder R} : evolves (over_db R) (OrganizationRepo.InvalidateDefaultOrgCache (St := St)).
Proof. apply evolves_poke. intros s. unfold over_db. by rewrite OrganizationRepo.db_put_cache. Qed.

Lemma refill_evolves R `{!PreOrder R} g n o : evolves (over_db R) (poke (OrganizationRepo.refill (St := St) g n o)).
Proof.
  apply evolves_poke. intros s. unfold over_db, OrganizationRepo.refill.
  case_match; [by rewrite OrganizationRepo.db_put_cache|done].
Qed.
End Operations.

#[export] Hint Resolve invalidate_evolves refill_evolves : evolve.

(** The statements of each repository's operations. *)
Ltac org_op := unfold OrganizationRepo.Create, OrganizationRepo.Update, OrganizationRepo.Rename,
  OrganizationRepo.Delete, OrganizationRepo.AddMemberWithParams, OrganizationRepo.AddMemberWithRoleTemplate,
  OrganizationRepo.RemoveMember, OrganizationRepo.UpdateMemberRole, OrganizationRepo.UpdateMemberRoleTemplate,
  OrganizationRepo.RemoveAllMembershipsForUser.

Ltac key_op := unfold ApiKeyRepo.CreateAPIKey, ApiKeyRepo.UpdateLastUsed, ApiKeyRepo.RevokeAPIKey,
  ApiKeyRepo.RevokeAPIKeysForUser, ApiKeyRepo.DeleteExpiredKeys, ApiKeyRepo.ClaimExpiryNotification, ApiKeyRepo.Update,
  affectedRows.

Ltac user_op := unfold UserRepo.CreateUser, UserRepo.UpdateUser, UserRepo.DeleteUser, UserRepo.linkOIDCIdentity.

Ltac template_op := unfold RoleTemplateRepo.CreateRoleTemplate, RoleTemplateRepo.UpdateRoleTemplate,
  RoleTemplateRepo.DeleteRoleTemplate, RoleTemplateRepo.execRoleTemplateMutation,
  RoleTemplateRepo.updateRoleTemplateStmt, RoleTemplateRepo.deleteRoleTemplateStmt.

Ltac reduce_op lem := unfold AuthorityReduction.RemoveMember, AuthorityReduction.UpdateMemberRoleTemplate,
  AuthorityReduction.UpdateMemberRole, AuthorityReduction.RemoveAllMembershipsForUser;
  case_match; [eauto with evolve|apply lem].

Section Operations.
Context {St : Type} `{!HasDB St} `{!OrganizationRepo.HasOrgCache St} `{!TokenRepo.HasPruneClock St}.

(** Every operation of the store that writes the schema, and the membership it may add. *)
Inductive store_write : option (string * string) -> forall A, M St A -> Prop :=
| w_Create gen name dn : store_write None _ (OrganizationRepo.Create gen name dn)
| w_Update org scope : store_write None _ (OrganizationRepo.Update org scope)
| w_Rename id name scope : store_write None _ (OrganizationRepo.Rename id name scope)
| w_Delete id scope : store_write None _ (OrganizationRepo.Delete id scope)
| w_AddMember o u r scope : store_write (Some (o, u)) _ (OrganizationRepo.AddMemberWithRoleTemplate o u r scope)
| w_AddMemberWithParams o u r scope : store_write (Some (o, u)) _ (OrganizationRepo.AddMemberWithParams o u r scope)
| w_RemoveMember o u scope : store_write None _ (OrganizationRepo.RemoveMember o u scope)
| w_UpdateMemberRoleTemplate o u r scope : store_write None _ (OrganizationRepo.UpdateMemberRoleTemplate o u r scope)
| w_UpdateMemberRole o u r scope : store_write None _ (OrganizationRepo.UpdateMemberRole o u r scope)
| w_RemoveAll u scope : store_write None _ (OrganizationRepo.RemoveAllMembershipsForUser u scope)
| w_CreateAPIKey uuid k scope : store_write None _ (ApiKeyRepo.CreateAPIKey uuid k scope)
| w_UpdateLastUsed id : store_write None _ (ApiKeyRepo.UpdateLastUsed id)
| w_RevokeAPIKey id scope : store_write None _ (ApiKeyRepo.RevokeAPIKey id scope)
| w_RevokeAPIKeysForUser u scope : store_write None _ (ApiKeyRepo.RevokeAPIKeysForUser u scope)
| w_DeleteExpiredKeys : store_write None _ ApiKeyRepo.DeleteExpiredKeys
| w_Claim id : store_write None _ (ApiKeyRepo.ClaimExpiryNotification id)
| w_UpdateKey k scope : store_write None _ (ApiKeyRepo.Update k scope)
| w_CreateUser uuid u : store_write None _ (UserRepo.CreateUser uuid u)
| w_UpdateUser u scope : store_write None _ (UserRepo.UpdateUser u scope)
| w_DeleteUser u scope : store_write None _ (UserRepo.DeleteUser u scope)
| w_Login uuid sub email name v : store_write None _ (UserRepo.GetOrCreateUserFromOIDC uuid sub email name v)
| w_CreateRoleTemplate t : store_write None _ (RoleTemplateRepo.CreateRoleTemplate t)
| w_UpdateRoleTemplate t : store_write None _ (RoleTemplateRepo.UpdateRoleTemplate t)
| w_DeleteRoleTemplate id : store_write None _ (RoleTemplateRepo.DeleteRoleTemplate id)
| w_Reconcile fuel ctx db t scopes rw opts : store_write None _ (TemplateReconcile.ReconcileRoleTemplate fuel ctx db t scopes rw opts)
| w_WriterUpdate fuel ctx db rw t opts : store_write None _ (TemplateReconcile.TemplateWriter_UpdateRoleTemplate fuel ctx db rw t opts)
| w_WriterDelete fuel ctx db rw t opts : store_write None _ (TemplateReconcile.TemplateWriter_DeleteRoleTemplate fuel ctx db rw t opts)
| w_RevokeToken r jti u e : store_write None _ (TokenRepo.RevokeToken r jti u e)
| w_Cleanup : store_write None _ TokenRepo.CleanupExpiredRevocations
| w_ReduceRemove r o u scope : store_write None _ (AuthorityReduction.RemoveMember r o u scope (Some AuthorityReduction.NoAppCredentials))
| w_ReduceRole r o u t scope : store_write None _ (AuthorityReduction.UpdateMemberRoleTemplate r o u t scope (Some AuthorityReduction.NoAppCredentials))
| w_ReduceNamedRole r o u t scope : store_write None _ (AuthorityReduction.UpdateMemberRole r o u t scope (Some AuthorityReduction.NoAppCredentials))
| w_ReduceAll r u scope : store_write None _ (AuthorityReduction.RemoveAllMembershipsForUser r u scope (Some AuthorityReduction.NoAppCredentials)).

Lemma lookup_role_evolves R `{!PreOrder R} name : evolves (over_db R) (OrganizationRepo.lookupRoleTemplateID (St := St) name).
Proof. unfold OrganizationRepo.lookupRoleTemplateID, select_row. evolve. Qed.

Lemma exec_wf {A} (f : DB -> result (A * DB)) :
  (forall d a d', f d = Ok (a, d') -> keeps_wf d d') -> evolves (over_db keeps_wf) (exec (St := St) f).
Proof. apply evolves_exec, _. Qed.

Lemma sweep_evolves R `{!PreOrder R} rw red : (forall p d a d', delete_keys p d = Ok (a, d') -> R d d') ->
  evolves (over_db R) (AuthorityReduction.sweepDerivedKeys (St := St) rw red).
Proof.
  intros HR. unfold AuthorityReduction.sweepDerivedKeys, AuthorityReduction.retainedScopes. evolve.
  apply evolves_exec; [apply _|]. intros ? ? ?. apply HR.
Qed.

Lemma run_evolves R `{!PreOrder R} r u reduce : (forall p d a d', delete_keys p d = Ok (a, d') -> R d d') ->
  evolves (over_db R) reduce ->
  evolves (over_db R) (AuthorityReduction.run (St := St) r u (Some AuthorityReduction.NoAppCredentials) reduce).
Proof.
  intros HR Hr. unfold AuthorityReduction.run. evolve. by apply sweep_evolves.
Qed.

(** Walk to the statements; each keeps the schema by its table's lemma. *)
Ltac keeps_schema :=
  evolve; apply exec_wf; intros ? ? ? E; cbv beta in E; repeat case_match;
  first [ injection E as _ <-; by intros ?
        | by eauto 4 with wf
        | by (eapply update_orgs_wf; [|exact E])
        | by (eapply update_keys_wf; [|exact E])
        | by (eapply update_users_wf; [|exact E])
        | by (eapply update_templates_wf; [|exact E]; apply RoleTemplateRepo.with_template_ids)
        | by (injection E as _ <-; eapply delete_members_wf) ].

Hint Resolve lookup_role_evolves : evolve.

Lemma UpdateUser_wf user scope : evolves (over_db keeps_wf) (UserRepo.UpdateUser (St := St) user scope).
Proof. user_op. keeps_schema. Qed.

Lemma login_wf uuid sub email name v :
  evolves (over_db keeps_wf) (UserRepo.GetOrCreateUserFromOIDC (St := St) uuid sub email name v).
Proof.
  assert (Hl : forall id, evolves (over_db keeps_wf) (UserRepo.linkOIDCIdentity (St := St) id sub email name))
    by (intros id; user_op; keeps_schema).
  unfold UserRepo.GetOrCreateUserFromOIDC, UserRepo.login_known, UserRepo.login_link, UserRepo.login_create.
  pose proof UpdateUser_wf. evolve. apply exec_wf. eauto with wf.
Qed.

Lemma reconcile_wf fuel ctx db t scopes rw opts :
  evolves (over_db keeps_wf) (TemplateReconcile.ReconcileRoleTemplate (St := St) fuel ctx db t scopes rw opts).
Proof.
  assert (Hb : forall bs after, evolves (over_db keeps_wf) (TemplateReconcile.reconcileOneBatch (St := St) t scopes rw bs after)).
  { intros bs after. unfold TemplateReconcile.reconcileOneBatch, TemplateReconcile.planBatch,
      TemplateReconcile.sweepBatchKeys. keeps_schema. }
  assert (Hl : forall r c, evolves (over_db keeps_wf) (TemplateReconcile.reconcile_loop (St := St) fuel ctx t scopes rw opts r c)).
  { induction fuel as [|n IH]; intros r c; simpl; evolve. }
  unfold TemplateReconcile.ReconcileRoleTemplate. evolve.
Qed.

Lemma writer_wf fuel ctx db rw id scopes opts f :
  (forall d n d', f d = Ok (n, d') -> keeps_wf d d') ->
  evolves (over_db keeps_wf) (TemplateReconcile.write (St := St) fuel ctx db rw id scopes opts
    (RoleTemplateRepo.execRoleTemplateMutation f)).
Proof.
  intros Hf. unfold TemplateReconcile.write, RoleTemplateRepo.GetRoleTemplate, select_row,
    RoleTemplateRepo.execRoleTemplateMutation.
  pose proof reconcile_wf. evolve. by apply exec_wf.
Qed.

Lemma revoke_wf r jti u e : evolves (over_db keeps_wf) (TokenRepo.RevokeToken (St := St) r jti u e).
Proof.
  unfold TokenRepo.RevokeToken, TokenRepo.maybePruneExpiredRevocations, TokenRepo.claimPruneSlot. evolve.
  - apply exec_wf. eauto with wf.
  - apply evolves_poke. intros s. unfold over_db. by rewrite TokenRepo.db_put_next.
  - apply exec_wf. unfold TokenRepo.prune_expired. eauto with wf.
Qed.

Lemma reduce_wf r u reduce : evolves (over_db keeps_wf) reduce ->
  evolves (over_db keeps_wf) (AuthorityReduction.run (St := St) r u (Some AuthorityReduction.NoAppCredentials) reduce).
Proof. intros Hr. apply run_evolves; [apply _|eauto with wf|done]. Qed.

(** ** Tenant isolation *)

(** The operations that take a scope and write organizations, memberships or keys. *)
Inductive scoped_write (scope : OrgScope) : forall A, M St A -> Prop :=
| s_Update org : scoped_write scope _ (OrganizationRepo.Update org scope)
| s_Rename id name : scoped_write scope _ (OrganizationRepo.Rename id name scope)
| s_Delete id : scoped_write scope _ (OrganizationRepo.Delete id scope)
| s_AddMember o u r : scoped_write scope _ (OrganizationRepo.AddMemberWithRoleTemplate o u r scope)
| s_AddMemberWithParams o u r : scoped_write scope _ (OrganizationRepo.AddMemberWithParams o u r scope)
| s_RemoveMember o u : scoped_write scope _ (OrganizationRepo.RemoveMember o u scope)
| s_UpdateMemberRoleTemplate o u r : scoped_write scope _ (OrganizationRepo.UpdateMemberRoleTemplate o u r scope)
| s_UpdateMemberRole o u r : scoped_write scope _ (OrganizationRepo.UpdateMemberRole o u r scope)
| s_RemoveAll u : scoped_write scope _ (OrganizationRepo.RemoveAllMembershipsForUser u scope)
| s_CreateAPIKey uuid k : scoped_write scope _ (ApiKeyRepo.CreateAPIKey uuid k scope)
| s_RevokeAPIKey id : scoped_write scope _ (ApiKeyRepo.RevokeAPIKey id scope)
| s_RevokeAPIKeysForUser u : scoped_write scope _ (ApiKeyRepo.RevokeAPIKeysForUser u scope)
| s_UpdateKey k : scoped_write scope _ (ApiKeyRepo.Update k scope).

Lemma scoped_org_found scope id l :
  existsb (fun o => (o_ID o =s id) && admits scope (Some (o_ID o))) l = true -> admits scope (Some id) = true.
Proof. intros (o & _ & [E%seqb_true Ha]%andb_prop)%existsb_exists. by rewrite <- E. Qed.

Hint Resolve scoped_org_found : isolation.

(** The last conjunct of each WHERE clause is the scope's. *)
Ltac scoped := intros ? ?; simpl; repeat match goal with H : _ && _ = true |- _ => apply andb_prop in H as [? ?] end; done.

Ltac isolated :=
  evolve; apply evolves_exec; [apply _|]; intros ? ? ? E; cbv beta in E; repeat case_match;
  first [ injection E as _ <-; reflexivity
        | by eauto 4 with isolation
        | by (eapply update_orgs_out; [| |exact E]; eauto with isolation)
        | by (eapply update_keys_out; [| |exact E]; eauto with isolation)
        | by (eapply insert_member_out; [|exact E]; eauto with isolation)
        | by (eapply insert_key_out; [|exact E]; eauto with isolation)
        | by (eapply delete_keys_out; [|exact E]; intros ? _; admitted)
        | by (injection E as _ <-; eapply delete_members_out; [|reflexivity]; admitted) ].

Lemma reduction_isolated r u m eff scope app (w w' : world St) res :
  (forall d orgs d', eff d = Ok (orgs, d') ->
     agree_outside scope d d' /\ forall o, In o orgs -> admits scope (Some o) = true) ->
  own_tables app -> reduction r app u m eff -> db_wf (the_db (db_seen w)) -> m w = (res, w') ->
  w' = w \/ agree_outside scope (the_db (db_seen w)) (the_db (w_db w')).
Proof.
  intros Heff Happ Hm Hwf Hx.
  destruct (reduction_inv _ _ _ _ _ _ _ _ Happ Hm Hwf Hx) as [(red & _ & [Hc|[_ ->]])|(e & _ & [-> | ->])];
    [|by left|by left|right; reflexivity].
  right. destruct Hc as (orgs & d1 & He & _ & _ & Hc). destruct (Heff _ _ _ He) as [Ha Ho].
  etrans; [exact Ha|]. destruct orgs as [|o orgs]; [destruct Hc as [-> _]; reflexivity|].
  destruct Hc as [-> _]. eapply (delete_keys_out scope (doomed_key (red_rwPairs r) d1 u (o :: orgs))); [|reflexivity].
  intros k _ [[_ Hk%mem_true]%andb_prop _]%andb_prop. by apply Ho.
Qed.

Lemma one_org_effect scope orgID userID d n :
  rows_count (member_where orgID userID scope) (organization_members d) = n -> n <> 0 ->
  admits scope (Some orgID) = true.
Proof.
  unfold rows_count. intros E Hn. destruct (List.filter _ _) as [|x l] eqn:Ef; [by subst n|].
  assert (In x (x :: l)) as Hx by by left. rewrite <- Ef, filter_In in Hx. destruct Hx as [_ Hp].
  unfold member_where in Hp. apply andb_prop in Hp as [[<- _]%same_member_true ?]. done.
Qed.

(** The effects of the reductions that take [scope]. *)
Inductive scoped_effect (scope : OrgScope) : effect -> Prop :=
| e_remove o u : scoped_effect scope (remove_effect o u scope)
| e_role o u v : scoped_effect scope (role_effect o u v scope)
| e_named o u n : scoped_effect scope (named_role_effect o u n scope)
| e_all u : scoped_effect scope (remove_all_effect u scope).

Lemma role_effect_isolated scope o u v d orgs d' : role_effect o u v scope d = Ok (orgs, d') ->
  agree_outside scope d d' /\ forall o, In o orgs -> admits scope (Some o) = true.
Proof.
  unfold role_effect. destruct (rows_count _ _ =? 0)%nat eqn:E0; [done|]. destruct (opt_ok _ v) eqn:Ev; [|done].
  intros [= <- <-]. apply Nat.eqb_neq in E0. split.
  - eapply (update_member_role_out scope (member_where o u scope) v); [eauto with isolation|].
    unfold update_member_role. apply Nat.eqb_neq in E0. by rewrite E0, Ev.
  - intros x [<- | []]. by eapply one_org_effect.
Qed.

Lemma scoped_effect_isolated scope eff : scoped_effect scope eff -> forall d orgs d', eff d = Ok (orgs, d') ->
  agree_outside scope d d' /\ forall o, In o orgs -> admits scope (Some o) = true.
Proof.
  intros He d orgs d'. destruct He as [o u|o u v|o u n|u].
  - unfold remove_effect. destruct (rows_count _ _ =? 0)%nat eqn:E0; [done|]. intros [= <- <-].
    apply Nat.eqb_neq in E0. split.
    + eapply delete_members_out; [|reflexivity]. eauto with isolation.
    + intros x [<- | []]. by eapply one_org_effect.
  - apply role_effect_isolated.
  - unfold named_role_effect. case_match; [apply role_effect_isolated|done].
  - intros [= <- <-]. split.
    + eapply delete_members_out; [|reflexivity]. admitted.
    + intros x (m & <- & [_ [_ Ha]%andb_prop]%filter_In)%in_map_iff. done.
Qed.

(** ** Confinement *)

(** The scoped reads of organizations, memberships and keys. *)
Inductive scoped_read (scope : OrgScope) : forall A, M St A -> Prop :=
| r_GetByName name : scoped_read scope _ (OrganizationRepo.GetByName name scope)
| r_GetByID id : scoped_read scope _ (OrganizationRepo.GetByID id scope)
| r_List limit offset : scoped_read scope _ (OrganizationRepo.List_ limit offset scope)
| r_Count : scoped_read scope _ (OrganizationRepo.Count scope)
| r_Search fold q limit offset : scoped_read scope _ (OrganizationRepo.Search fold q limit offset scope)
| r_GetMember o u : scoped_read scope _ (OrganizationRepo.GetMember o u scope)
| r_ListMembers o : scoped_read scope _ (OrganizationRepo.ListMembers o scope)
| r_GetUserOrganizations u : scoped_read scope _ (OrganizationRepo.GetUserOrganizations u scope)
| r_CheckMembership o u : scoped_read scope _ (OrganizationRepo.CheckMembership o u scope)
| r_GetMemberWithRole o u : scoped_read scope _ (OrganizationRepo.GetMemberWithRole o u scope)
| r_ListMembersWithUsers o : scoped_read scope _ (OrganizationRepo.ListMembersWithUsers o scope)
| r_GetAPIKeyByID id : scoped_read scope _ (ApiKeyRepo.GetAPIKeyByID id scope)
| r_ListAPIKeysByUser u : scoped_read scope _ (ApiKeyRepo.ListAPIKeysByUser u scope)
| r_ListAPIKeysByOrganization o : scoped_read scope _ (ApiKeyRepo.ListAPIKeysByOrganization o scope)
| r_ListByUserAndOrganization u o : scoped_read scope _ (ApiKeyRepo.ListByUserAndOrganization u o scope)
| r_ListAPIKeys : scoped_read scope _ (ApiKeyRepo.ListAPIKeys scope).

(** Mutations whose answer could only leak through "not found". *)
Inductive quiet_write (scope : OrgScope) : forall A, M St A -> Prop :=
| q_RemoveMember o u : quiet_write scope _ (OrganizationRepo.RemoveMember o u scope)
| q_UpdateMemberRoleTemplate o u r : quiet_write scope _ (OrganizationRepo.UpdateMemberRoleTemplate o u r scope)
| q_AddMember o u r : quiet_write scope _ (OrganizationRepo.AddMemberWithRoleTemplate o u r scope)
| q_RemoveAll u : quiet_write scope _ (OrganizationRepo.RemoveAllMembershipsForUser u scope)
| q_Delete o : quiet_write scope _ (OrganizationRepo.Delete o scope)
| q_RevokeAPIKey id : quiet_write scope _ (ApiKeyRepo.RevokeAPIKey id scope)
| q_RevokeAPIKeysForUser u : quiet_write scope _ (ApiKeyRepo.RevokeAPIKeysForUser u scope)
| q_UpdateKey k : quiet_write scope _ (ApiKeyRepo.Update k scope).

Lemma filter_in_scope_orgs scope q d : (forall o, q o = true -> admits scope (Some (o_ID o)) = true) ->
  List.filter q (organizations (in_scope scope d)) = List.filter q (organizations d).
Proof. apply filter_inside. Qed.
Lemma filter_in_scope_members scope q d : (forall m, q m = true -> admits scope (Some (m_OrganizationID m)) = true) ->
  List.filter q (organization_members (in_scope scope d)) = List.filter q (organization_members d).
Proof. apply filter_inside. Qed.
Lemma filter_in_scope_keys scope q d : (forall k, q k = true -> admits scope (Some (k_organization_id k)) = true) ->
  List.filter q (api_keys (in_scope scope d)) = List.filter q (api_keys d).
Proof. apply filter_inside. Qed.

(** The join of organizations with a user's memberships. *)
Lemma user_orgs_inside scope u d :
  List.flat_map (fun o => List.map (fun _ => o)
     (List.filter (fun m => (m_OrganizationID m =s o_ID o) && (m_UserID m =s u) && admits scope (Some (m_OrganizationID m)))
        (organization_members (in_scope scope d)))) (organizations (in_scope scope d)) =
  List.flat_map (fun o => List.map (fun _ => o)
     (List.filter (fun m => (m_OrganizationID m =s o_ID o) && (m_UserID m =s u) && admits scope (Some (m_OrganizationID m)))
        (organization_members d))) (organizations d).
Proof.
  simpl. unfold inside at 2. induction (organizations d) as [|o l IH]; simpl; [done|].
  assert (Hf : List.filter (fun m => (m_OrganizationID m =s o_ID o) && (m_UserID m =s u) && admits scope (Some (m_OrganizationID m)))
      (inside scope m_OrganizationID (organization_members d)) =
    List.filter (fun m => (m_OrganizationID m =s o_ID o) && (m_UserID m =s u) && admits scope (Some (m_OrganizationID m)))
      (organization_members d)) by (apply filter_inside; admitted).
  destruct (admits scope (Some (o_ID o))) eqn:Eo; simpl; rewrite IH; [by rewrite Hf|].
  destruct (List.filter _ (organization_members d)) as [|m ms] eqn:Em; [done|]. exfalso.
  assert (In m (m :: ms)) as Hm by by left. rewrite <- Em, filter_In in Hm.
  destruct Hm as [_ [[E%seqb_true _]%andb_prop Ha]%andb_prop]. rewrite E in Ha. congruence.
Qed.

Ltac reads :=
  repeat first
    [ progress (eauto 2 with confined)
    | lazymatch goal with
      | |- reads_inside _ (wrapping _ _) => apply reads_wrapping
      | |- reads_inside _ (try _) => apply reads_try
      | |- reads_inside _ (_ ≫= _) => apply reads_bind; [|intros ?]
      end
    | apply reads_select; intros d
    | case_match ].

Ltac inside_rows :=
  first [ rewrite filter_in_scope_orgs by first [admitted|eauto with isolation]
        | rewrite filter_in_scope_members by first [admitted|eauto with isolation]
        | rewrite filter_in_scope_keys by first [admitted|eauto with isolation]
        | rewrite user_orgs_inside ]; reflexivity.

Lemma count_members_inside scope p d : (forall m, p m = true -> admits scope (Some (m_OrganizationID m)) = true) ->
  rows_count p (organization_members (in_scope scope d)) = rows_count p (organization_members d).
Proof. intros Hp. unfold rows_count. by rewrite filter_in_scope_members. Qed.

Lemma count_keys_inside scope p d : (forall k, p k = true -> admits scope (Some (k_organization_id k)) = true) ->
  rows_count p (api_keys (in_scope scope d)) = rows_count p (api_keys d).
Proof. intros Hp. unfold rows_count. by rewrite filter_in_scope_keys. Qed.

Lemma requireRow_answer n what (w w' : world St) : fst (requireRow n what w) = fst (requireRow n what w').
Proof. unfold requireRow. by destruct (n =? 0)%nat. Qed.

Lemma org_exists_inside scope d id : admits scope (Some id) = true ->
  org_exists (in_scope scope d) id = org_exists d id.
Proof. intros Ha. unfold org_exists. simpl. apply existsb_inside. intros o E%seqb_true. by rewrite E. Qed.

Lemma add_member_inside scope o u r now d :
  let f := fun d : DB => if existsb (fun x => (o_ID x =s o) && admits scope (Some (o_ID x))) (organizations d)
      then insert_member {| m_OrganizationID := o; m_UserID := u; m_RoleTemplateID := r; m_CreatedAt := now |} d
      else Ok (0, d) in
  match f (in_scope scope d), f d with
  | Ok (a, _), Ok (a', _) => a = a' | Err e, Err e' => e = e' | _, _ => False end.
Proof.
  intros f. unfold f. simpl organizations. rewrite existsb_inside by admitted.
  destruct (existsb _ (organizations d)) eqn:Eo; [|done]. apply scoped_org_found in Eo.
  unfold insert_member. simpl m_OrganizationID. simpl m_UserID.
  assert (Em : existsb (same_member o u) (organization_members (in_scope scope d)) =
               existsb (same_member o u) (organization_members d)).
  { apply existsb_inside. intros m [E _]%same_member_true. by rewrite E. }
  rewrite Em, org_exists_inside by done.
  destruct (existsb (same_member o u) (organization_members d)); [reflexivity|].
  change (user_exists (in_scope scope d)) with (user_exists d).
  change (template_exists (in_scope scope d)) with (template_exists d).
  destruct (_ && _); reflexivity.
Qed.

Lemma counted_answers (f : DB -> result (nat * DB)) scope msg what :
  (forall d, match f (in_scope scope d), f d with
             | Ok (a, _), Ok (a', _) => a = a' | Err e, Err e' => e = e' | _, _ => False end) ->
  answers_inside scope (n ← wrapping msg (exec f); (requireRow n what : M St unit)).
Proof. intros Hf. apply answers_exec; [done|]. intros a w w'. apply requireRow_answer. Qed.

Lemma delete_members_inside scope p d : (forall m, p m = true -> admits scope (Some (m_OrganizationID m)) = true) ->
  match delete_members p (in_scope scope d), delete_members p d with
  | Ok (a, _), Ok (a', _) => a = a' | Err e, Err e' => e = e' | _, _ => False end.
Proof. intros Hp. unfold delete_members. by apply count_members_inside. Qed.

Lemma delete_keys_inside scope p d : (forall k, p k = true -> admits scope (Some (k_organization_id k)) = true) ->
  match delete_keys p (in_scope scope d), delete_keys p d with
  | Ok (a, _), Ok (a', _) => a = a' | Err e, Err e' => e = e' | _, _ => False end.
Proof. intros Hp. unfold delete_keys. by apply count_keys_inside. Qed.

Lemma quiet_writes_answer scope A (m : M St A) : quiet_write scope A m -> answers_inside scope m.
Proof.
  intros Hm. destruct Hm; org_op; key_op; (case_match; [done|]).
  - apply counted_answers. intros d. apply delete_members_inside. eauto with isolation.
  - apply counted_answers. intros d. unfold update_member_role.
    rewrite count_members_inside by eauto with isolation. destruct (_ =? _)%nat; [done|].
    change (template_exists (in_scope scope d)) with (template_exists d). by destruct (opt_ok _ r).
  - apply answers_bind_clock. intros now. apply counted_answers. intros d. apply add_member_inside.
  - apply answers_exec; [|done]. intros d. by rewrite filter_in_scope_members by admitted.
  - apply answers_exec.
    + intros d. unfold delete_orgs, rows_count. by rewrite filter_in_scope_orgs by eauto with isolation.
    + intros n w w'. apply (requireRow_answer n).
  - apply counted_answers. intros d. apply delete_keys_inside. eauto with isolation.
  - apply answers_exec; [|done]. intros d. apply delete_keys_inside. admitted.
  - apply counted_answers. intros d. unfold update_keys. by apply count_keys_inside; eauto with isolation.
Qed.

End Operations.

(** ** Witness *)

(** A process: the schema, one organization repository's cache and one token
    repository's clock. *)
Record process := { p_db : DB; p_cache : OrgCache; p_prune : Z }.

#[export] Instance process_HasDB : HasDB process.
Proof.
  refine {| the_db := p_db; put_db := fun d s => {| p_db := d; p_cache := p_cache s; p_prune := p_prune s |} |};
    [done|by intros []|done].
Defined.
#[export] Instance process_HasOrgCache : HasOrgCache process.
Proof.
  refine {| org_cache := p_cache; put_cache := fun c s => {| p_db := p_db s; p_cache := c; p_prune := p_prune s |} |}; done.
Defined.
#[export] Instance process_HasPruneClock : HasPruneClock process.
Proof.
  refine {| next_prune := p_prune; put_next_prune := fun z s => {| p_db := p_db s; p_cache := p_cache s; p_prune := z |} |}; done.
Defined.

