(* ===== verification/PlatformAdmin.v ===== *)
(** * PlatformAdmin: identity/platformadmin

    The carrier of platform-administrator authority: a grant table of the
    consuming application, read on every request and mutated only together with
    its audit record, with a floor of one exercisable administrator.

    [Carrier], [Carrier_Grant], [Revoke], [IsPlatformAdmin] and [SessionScopes]
    are the code's methods; section [Locking] is the row-lock protocol of
    concurrent revocations, statement by statement. The test-only hook
    [insideLock] is nil in production and left out. *)

From S2P Require Import Prelude GoStrings Order PgQuote Scopes Db.
From Stdlib Require Import Ascii.

(** ** Errors (platformadmin.go:78-130) *)

Definition ErrNotConfigured : error := Sentinel "platformadmin: carrier is not usable as configured".
Definition ErrAlreadyPlatformAdmin : error := Sentinel "platformadmin: user already holds platform-admin".
Definition ErrNotPlatformAdmin : error :=
  Wrap2 "a value of its own that wraps the store's sentinel" (Sentinel "platformadmin: user does not hold platform-admin") ErrNotFound.
Definition ErrAuditIntentRequired : error :=
  Sentinel "platformadmin: privileged mutation requires an audit intent writer".
Definition ErrLastPlatformAdmin : error := Sentinel "platformadmin: the last platform administrator cannot be revoked".
Definition ErrIdentityUnavailable : error := Sentinel "platformadmin: identity lookup failed".
Definition ErrNotSerialized : error := Sentinel "platformadmin: could not take the platform-admin floor lock".

(** audit_actions.go *)
Definition AuditActionGranted : string := "platform_admin.granted".
Definition AuditActionRevoked : string := "platform_admin.revoked".
Definition AuditResourceType : string := "platform_admin".

(** ** Data *)

Record Grant := { g_UserID : string; g_GrantedBy : option string; g_GrantedAt : Z; g_Note : option string }.

Record Carrier := { c_table : string; c_lockKey : Z }.

(** The grant table a quoted reference resolves to on the connection; [None] when
    there is no such relation. Two references may name one table. *)
Class HasCarriers (St : Type) := {
  carrier_rows : string -> St -> option (list Grant);
  put_carrier : string -> list Grant -> St -> St;
  rows_put : forall t s l l', carrier_rows t s = Some l -> carrier_rows t (put_carrier t l' s) = Some l'
}.

(** ** Construction *)

(** hash/fnv, New64a: 64-bit FNV-1a. *)
Definition fnv_offset64 : Z := 14695981039346656037.
Definition fnv_prime64 : Z := 1099511628211.
Definition fnv64a (l : list ascii) : Z :=
  fold_left (fun h b => (Z.lxor h (Z.of_N (code b)) * fnv_prime64) mod 2 ^ 64)%Z l fnv_offset64.

(** [int64(u)] of a uint64. *)
Definition to_int64 (u : Z) : Z := if (u <? 2 ^ 63)%Z then u else (u - 2 ^ 64)%Z.

Definition advisoryLockKey (quotedTable : string) : Z :=
  to_int64 (fnv64a (bytes_of "terraform-suite-identity/platformadmin" ++ ascii_of_N 0 :: bytes_of quotedTable)).

Section Construction.
Context `{PgxIdentifier}.

Definition quoteTable (table : string) : result string :=
  let trimmed := TrimSpace table in
  if trimmed =s "" then Err (Wrap "no table name" ErrNotConfigured)
  else
    let parts := Split trimmed "." in
    if (2 <? length parts)%nat then Err (Wrap "table name has too many parts" ErrNotConfigured)
    else if forallb ValidIdentifier parts then Ok (quote_parts parts)
    else Err (Wrap "not a bare SQL identifier in table name" ErrNotConfigured).

(** [db] says whether the handle is not nil. *)
Definition New (db : bool) (table : string) : result Carrier :=
  if negb db then Err (Wrap "no database connection" ErrNotConfigured)
  else
    q ← quoteTable table;
    mret {| c_table := q; c_lockKey := advisoryLockKey q |}.
End Construction.

(** ** Operations *)

(** ORDER BY granted_at ASC, user_id ASC *)
Definition oldest_grant (x y : Grant) : bool :=
  (g_GrantedAt x <? g_GrantedAt y)%Z ||
  ((g_GrantedAt x =? g_GrantedAt y)%Z && String.leb (g_UserID x) (g_UserID y)).

Definition holds_grant (userID : string) (g : Grant) : bool := g_UserID g =s userID.

(** INSERT ... ON CONFLICT (user_id) DO NOTHING RETURNING ... : no row back on a conflict. *)
Definition insert_grant (g : Grant) (rows : list Grant) : result (option Grant * list Grant) :=
  if existsb (holds_grant (g_UserID g)) rows then Ok (None, rows) else Ok (Some g, rows ++ [g]).

Definition delete_grant (userID : string) (rows : list Grant) : result (nat * list Grant) :=
  Ok (length (List.filter (holds_grant userID) rows), List.filter (fun g => negb (holds_grant userID g)) rows).

(** The loop of [lockCarrier] over the locked rows. *)
Fixpoint lock_loop (userID : string) (rows : list Grant) (target : option Grant) (remaining : list Grant)
    : option Grant * list Grant :=
  match rows with
  | [] => (target, remaining)
  | g :: rows =>
      if g_UserID g =s userID then lock_loop userID rows (Some g) remaining
      else lock_loop userID rows target (remaining ++ [g])
  end.

(** scopes.go *)
Definition withoutAdmin (scopes : list string) : list string :=
  List.filter (fun s => negb (s =s ScopeAdmin)) scopes.
Definition KeyScopes (scopes : list string) : list string := withoutAdmin scopes.

Section Carriers.
Context {St : Type} `{HasCarriers St}.

(** The audit record is written on the mutation's transaction. *)
Definition AuditIntentWriter : Type := M St unit.
Definition Predicate : Type := list Grant -> M St unit.
Definition Resolver : Type := string -> M St bool.

Definition carrier_stmt {A} (t : string) (f : list Grant -> result (A * list Grant)) : M St A :=
  table_stmt (carrier_rows t) (put_carrier t) (fun _ => f).
Definition carrier_read {A} (t : string) (f : list Grant -> A) : M St A :=
  table_read (carrier_rows t) (fun _ => f).

Definition IsPlatformAdmin (c : option Carrier) (userID : string) : M St bool :=
  match c with
  | None => throw (Wrap "IsPlatformAdmin on an unconstructed carrier" ErrNotConfigured)
  | Some c =>
      if userID =s "" then mret false
      else carrier_read (c_table c) (existsb (holds_grant userID))
  end.

Definition Carrier_List (c : option Carrier) : M St (list Grant) :=
  match c with
  | None => throw (Wrap "List on an unconstructed carrier" ErrNotConfigured)
  | Some c => carrier_read (c_table c) (sort_by oldest_grant)
  end.

(** The transaction of [Carrier_Grant]. *)
Definition grant_body (c : Carrier) (userID : string) (grantedBy note : option string) (audit : AuditIntentWriter)
    : M St Grant :=
  now ← db_NOW;
  g ← carrier_stmt (c_table c) (insert_grant
        {| g_UserID := userID; g_GrantedBy := grantedBy; g_GrantedAt := now; g_Note := note |});
  match g with
  | None => throw ErrAlreadyPlatformAdmin
  | Some g => audit;; mret g
  end.

Definition Carrier_Grant (c : option Carrier) (userID : string) (grantedBy note : option string)
    (writeAuditIntent : option AuditIntentWriter) : M St Grant :=
  match c with
  | None => throw (Wrap "Grant on an unconstructed carrier" ErrNotConfigured)
  | Some c =>
      match writeAuditIntent with
      | None => throw ErrAuditIntentRequired
      | Some audit =>
          if TrimSpace userID =s "" then throw (Wrap "Grant names no principal" ErrNotConfigured)
          else
            tx_by id id (grant_body c userID grantedBy note audit)
      end
  end.

Definition lockCarrier (t userID : string) : M St (option Grant * list Grant) :=
  rows ← carrier_read t (sort_by oldest_grant);
  mret (lock_loop userID rows None []).

(** The transaction of [Revoke]. *)
Definition revoke_body (c : Carrier) (userID : string) (keeps : Predicate) (audit : AuditIntentWriter) : M St Grant :=
  locked ← lockCarrier (c_table c) userID;
  match (locked : option Grant * list Grant) with
  | (None, _) => throw ErrNotPlatformAdmin
  | (Some target, remaining) =>
      keeps remaining;;
      affected ← carrier_stmt (c_table c) (delete_grant userID);
      if negb (affected =? 1)%nat
      then throw (Plain "platformadmin: revoking removed an unexpected number of rows")
      else audit;; mret target
  end.

Definition Revoke (c : option Carrier) (userID : string) (keepsAnAdmin : option Predicate)
    (writeAuditIntent : option AuditIntentWriter) : M St Grant :=
  match c with
  | None => throw (Wrap "Revoke on an unconstructed carrier" ErrNotConfigured)
  | Some c =>
      match writeAuditIntent, keepsAnAdmin with
      | None, _ => throw ErrAuditIntentRequired
      | Some _, None => throw (Wrap "Revoke requires a floor predicate" ErrNotConfigured)
      | Some audit, Some keeps =>
          if TrimSpace userID =s "" then throw (Wrap "Revoke names no principal" ErrNotConfigured)
          else
            tx_by id id (revoke_body c userID keeps audit)
      end
  end.

(** The advisory lock is taken on a transaction of its own, held while [fn] runs
    on whatever connections it likes and released by the deferred rollback. *)
Definition Serialize (c : option Carrier) (fn : option (M St unit)) : M St unit :=
  match fn with
  | None => throw (Wrap "Serialize was given nothing to run" ErrNotConfigured)
  | Some fn =>
      match c with
      | None => throw (Wrap "Serialize on an unconstructed carrier" ErrNotConfigured)
      | Some c =>
          mapping_err (fun _ => Wrap "begin" ErrNotSerialized) tick;;
          mapping_err (fun _ => Wrap "pg_advisory_xact_lock" ErrNotSerialized) tick;;
          fn
      end
  end.

(** floor.go *)
Fixpoint floor_loop (r : Resolver) (seen : gmap string bool) (remaining : list Grant) : M St unit :=
  match remaining with
  | [] => throw ErrLastPlatformAdmin
  | g :: remaining =>
      match seen !! g_UserID g with
      | Some true => mret tt
      | Some false => floor_loop r seen remaining
      | None =>
          exists_ ← mapping_err (Wrap2 "resolving remaining platform-admin grant" ErrIdentityUnavailable)
                      (r (g_UserID g));
          if (exists_ : bool) then mret tt
          else floor_loop r (<[g_UserID g := exists_]> seen) remaining
      end
  end.

Definition RequireAnotherExercisableAdmin (r : option Resolver) : Predicate := fun remaining =>
  match r with
  | None => throw (Wrap "no resolver was supplied" ErrIdentityUnavailable)
  | Some r => floor_loop r ∅ remaining
  end.

(** scopes.go: Go's pair; the scopes accompany the error too. *)
Definition SessionScopes (c : option Carrier) (userID : string) (scopes : list string)
    : M St (list string * option error) :=
  let base := withoutAdmin scopes in
  isAdmin ← try (IsPlatformAdmin c userID);
  match isAdmin with
  | Err err => mret (base, Some err)
  | Ok isAdmin => if negb isAdmin then mret (base, None) else mret (base ++ [ScopeAdmin], None)
  end.
End Carriers.
Arguments AuditIntentWriter : clear implicits.
Arguments Predicate : clear implicits.
Arguments Resolver : clear implicits.

(** ** Concurrent revocations

    Several connections run [Revoke] on one carrier at once. [SELECT ... FOR
    UPDATE] takes a snapshot and then locks its rows one by one in order, waiting
    for a row another transaction holds and skipping a row deleted meanwhile
    (READ COMMITTED); a delete is invisible until its commit, and locks last until
    the transaction ends. Grants commit in between. *)
Inductive phase :=
| Reading (userID : string) (todo got : list Grant)
| Deleting (userID : string) (got : list Grant).

Record locking := { committed : list Grant; locks : gmap string nat; running : gmap nat phase }.

Definition release (p : nat) (l : gmap string nat) : gmap string nat := base.filter (fun kv => kv.2 <> p) l.

(** What the floor predicate decides when lookups answer [exercisable]. *)
Definition floor_keeps (exercisable : string -> bool) (remaining : list Grant) : bool :=
  existsb (fun g => exercisable (g_UserID g)) remaining.

Inductive lstep (exercisable : string -> bool) : locking -> locking -> Prop :=
| step_begin s p u :
    running s !! p = None -> TrimSpace u <> "" ->
    lstep exercisable s {| committed := committed s; locks := locks s;
       running := <[p := Reading u (sort_by oldest_grant (committed s)) []]> (running s) |}
| step_lock s p u g todo got :
    running s !! p = Some (Reading u (g :: todo) got) ->
    In g (committed s) -> locks s !! g_UserID g = None ->
    lstep exercisable s {| committed := committed s; locks := <[g_UserID g := p]> (locks s);
       running := <[p := Reading u todo (got ++ [g])]> (running s) |}
| step_skip s p u g todo got :
    running s !! p = Some (Reading u (g :: todo) got) ->
    ~ In g (committed s) -> locks s !! g_UserID g = None ->
    lstep exercisable s {| committed := committed s; locks := locks s;
       running := <[p := Reading u todo got]> (running s) |}
| step_decide s p u got target remaining :
    running s !! p = Some (Reading u [] got) ->
    lock_loop u got None [] = (Some target, remaining) -> floor_keeps exercisable remaining = true ->
    lstep exercisable s {| committed := committed s; locks := locks s;
       running := <[p := Deleting u got]> (running s) |}
| step_commit s p u got :
    running s !! p = Some (Deleting u got) ->
    lstep exercisable s {| committed := List.filter (fun g => negb (holds_grant u g)) (committed s);
       locks := release p (locks s); running := delete p (running s) |}
| step_abort s p ph :
    running s !! p = Some ph ->
    lstep exercisable s {| committed := committed s; locks := release p (locks s);
       running := delete p (running s) |}
| step_grant s g :
    ~ In (g_UserID g) (List.map g_UserID (committed s)) -> TrimSpace (g_UserID g) <> "" ->
    lstep exercisable s {| committed := committed s ++ [g]; locks := locks s; running := running s |}.

(** ** Facts *)


Lemma lock_loop_spec u rows t rem :
  lock_loop u rows t rem =
    (match last (List.filter (holds_grant u) rows) with Some g => Some g | None => t end,
     rem ++ List.filter (fun g => negb (holds_grant u g)) rows).
Proof.
  revert t rem. induction rows as [|g rows IH]; intros t rem; simpl; [by rewrite app_nil_r|].
  unfold holds_grant in *. destruct (g_UserID g =s u); rewrite IH; simpl.
  - rewrite last_cons. by destruct (last (List.filter _ rows)).
  - by rewrite <- app_assoc.
Qed.

Lemma holds_grant_true u g : holds_grant u g = true <-> g_UserID g = u.
Proof. apply seqb_true. Qed.

Lemma release_lookup p l x q : release p l !! x = Some q <-> l !! x = Some q /\ q <> p.
Proof. unfold release. rewrite map_lookup_filter_Some. done. Qed.

(** *** The locking protocol's invariant *)

Definition phase_got (ph : phase) : list Grant := match ph with Reading _ _ got | Deleting _ got => got end.

Definition phase_ok (exercisable : string -> bool) (ph : phase) : Prop :=
  match ph with
  | Reading _ _ _ => True
  | Deleting u got =>
      (exists g, In g got /\ g_UserID g = u) /\
      (exists g, In g got /\ g_UserID g <> u /\ exercisable (g_UserID g) = true)
  end.

Record locks_hold (exercisable : string -> bool) (s : locking) : Prop := {
  lh_got : forall p ph g, running s !! p = Some ph -> In g (phase_got ph) ->
             In g (committed s) /\ locks s !! g_UserID g = Some p;
  lh_phase : forall p ph, running s !! p = Some ph -> phase_ok exercisable ph
}.

Definition floor_holds (exercisable : string -> bool) (s : locking) : Prop :=
  exists g, In g (committed s) /\ exercisable (g_UserID g) = true.

Lemma deciding_ok exercisable u got target remaining :
  lock_loop u got None [] = (Some target, remaining) -> floor_keeps exercisable remaining = true ->
  phase_ok exercisable (Deleting u got).
Proof.
  rewrite lock_loop_spec. intros [= E <-] Hf. split.
  - destruct (last (List.filter (holds_grant u) got)) as [g|] eqn:El; [|done].
    apply last_Some in El as [l' El]. exists g. rewrite <- (holds_grant_true u g), <- filter_In, El.
    rewrite in_app_iff. by right; left.
  - apply existsb_exists in Hf as (g & Hg & He). apply filter_In in Hg as [Hg Hn].
    exists g. repeat split; [done| |done]. rewrite <- (holds_grant_true u g). by destruct (holds_grant u g).
Qed.

Lemma lstep_phases exercisable s s' :
  lstep exercisable s s' -> locks_hold exercisable s ->
  forall p ph, running s' !! p = Some ph -> phase_ok exercisable ph.
Proof.
  intros Hst [_ Hp] q ph Hq. destruct Hst; simpl in Hq;
    rewrite ?lookup_insert_Some, ?lookup_delete_Some in Hq; try destruct Hq as [[_ <-]|[_ Hq]];
    try done; try (by eapply Hp).
  - by eapply deciding_ok.
  - by eapply Hp, Hq.
  - by eapply Hp, Hq.
Qed.

Lemma lstep_got exercisable s s' :
  lstep exercisable s s' -> locks_hold exercisable s ->
  forall p ph g, running s' !! p = Some ph -> In g (phase_got ph) ->
    In g (committed s') /\ locks s' !! g_UserID g = Some p.
Proof.
  intros Hst [Hg Hp] q ph g' Hq Hin. destruct Hst; simpl in *;
    rewrite ?lookup_insert_Some, ?lookup_delete_Some in Hq.
  - destruct Hq as [[<- <-]|[Hn Hq]]; [done|by eapply Hg].
  - destruct Hq as [[<- <-]|[Hn Hq]].
    + simpl in Hin. apply in_app_iff in Hin as [Hin|[<-|[]]].
      * destruct (Hg _ _ g' H Hin) as [Hc Hl]. split; [done|]. rewrite lookup_insert_ne by congruence. done.
      * by rewrite lookup_insert_eq.
    + destruct (Hg _ _ g' Hq Hin) as [Hc Hl]. split; [done|]. by rewrite lookup_insert_ne by congruence.
  - destruct Hq as [[<- <-]|[Hn Hq]]; [|by eapply Hg]. by apply (Hg _ _ g' H).
  - destruct Hq as [[<- <-]|[Hn Hq]]; [|by eapply Hg]. by apply (Hg _ _ g' H).
  - destruct Hq as [Hn Hq]. destruct (Hg _ _ g' Hq Hin) as [Hc Hl]. rewrite filter_In, release_lookup.
    split; [|by split; [|congruence]]. split; [done|]. apply negb_true_iff, not_true_iff_false.
    rewrite holds_grant_true. intros E. destruct (Hp _ _ H) as [(gu & Hgu & Eu) _].
    destruct (Hg _ _ gu H Hgu) as [_ Hlu]. congruence.
  - destruct Hq as [Hn Hq]. destruct (Hg _ _ g' Hq Hin) as [Hc Hl]. rewrite release_lookup.
    by split; [|split; [|congruence]].
  - destruct (Hg _ _ g' Hq Hin). rewrite in_app_iff. tauto.
Qed.

Lemma lstep_floor exercisable s s' :
  lstep exercisable s s' -> locks_hold exercisable s -> floor_holds exercisable s -> floor_holds exercisable s'.
Proof.
  intros Hst [Hg Hp] (g0 & Hc & He). destruct Hst; try by exists g0.
  - destruct (Hp _ _ H) as [_ (g1 & Hin & Hne & He1)]. exists g1. simpl. rewrite filter_In.
    split; [|done]. split; [by apply (Hg _ _ g1 H)|]. apply negb_true_iff, not_true_iff_false. by rewrite holds_grant_true.
  - exists g0. simpl. rewrite in_app_iff. tauto.
Qed.

(** *** The operations *)

Section Operations.
Context {St : Type} `{HasCarriers St}.

Lemma carrier_stmt_inv {A} t (f : list Grant -> result (A * list Grant)) (w : world St) r w' :
  carrier_stmt t f w = (r, w') ->
  frame w w' /\
  ((exists rows rows' a, carrier_rows t (db_seen w) = Some rows /\ f rows = Ok (a, rows') /\
      r = Ok a /\ w_db w' = put_carrier t rows' (db_seen w)) \/
   (exists e, r = Err e /\ w_db w' = db_seen w)).
Proof. apply table_stmt_inv. Qed.

Lemma carrier_read_inv {A} t (f : list Grant -> A) (w : world St) r w' :
  carrier_read t f w = (r, w') ->
  frame w w' /\ w_db w' = db_seen w /\
  ((exists rows, carrier_rows t (db_seen w) = Some rows /\ r = Ok (f rows)) \/ (exists e, r = Err e)).
Proof. apply table_read_inv. Qed.

(** An audit writer that works inside the transaction and leaves the carrier's
    table to the carrier. *)
Definition audits_elsewhere (t : string) (audit : AuditIntentWriter St) : Prop :=
  forall w r w', audit w = (r, w') -> w_intx w = true ->
    w_intx w' = true /\ carrier_rows t (w_db w') = carrier_rows t (w_db w).

(** A predicate that reads: whatever it answers, the database is as it was. *)
Definition reads_only {A} (m : M St A) : Prop :=
  forall w r w', m w = (r, w') -> w_intx w = true -> w_db w' = w_db w /\ w_intx w' = true.

(** The resolver was asked about [u] over the database [s] and answered [b]. *)
Definition answered (r : Resolver St) (u : string) (b : bool) (s : St) : Prop :=
  exists w1 w2, r u w1 = (Ok b, w2) /\ w_db w1 = s.

Lemma floor_loop_inv (r : Resolver St) remaining s seen w res w' :
  (forall u, reads_only (r u)) -> w_intx w = true -> w_db w = s ->
  (forall u, seen !! u <> Some true) -> (forall u, seen !! u = Some false -> answered r u false s) ->
  floor_loop r seen remaining w = (res, w') ->
  (w_db w' = s /\ w_intx w' = true) /\
  match res with
  | Ok _ => exists g, In g remaining /\ answered r (g_UserID g) true s
  | Err e =>
      (e = ErrLastPlatformAdmin /\ forall g, In g remaining -> answered r (g_UserID g) false s) \/
      errors_Is e "platformadmin: identity lookup failed" = true
  end.
Proof.
  intros Hr. revert seen w. induction remaining as [|g remaining IH]; intros seen w Hi Hs Ht Hf E; simpl in E.
  { injection E as <- <-. split; [done|]. left. by split; [|intros g []]. }
  assert (Hnext : answered r (g_UserID g) false s ->
    (match res with
     | Ok _ => exists g', In g' remaining /\ answered r (g_UserID g') true s
     | Err e => (e = ErrLastPlatformAdmin /\ forall g', In g' remaining -> answered r (g_UserID g') false s) \/
                errors_Is e "platformadmin: identity lookup failed" = true
     end) ->
    match res with
    | Ok _ => exists g', In g' (g :: remaining) /\ answered r (g_UserID g') true s
    | Err e => (e = ErrLastPlatformAdmin /\ forall g', In g' (g :: remaining) -> answered r (g_UserID g') false s) \/
               errors_Is e "platformadmin: identity lookup failed" = true
    end).
  { intros Hg. destruct res as [u|e]; [intros (g' & ? & ?); exists g'; by split; [right|]|].
    intros [[-> Hall]|He]; [left|by right]. split; [done|]. intros g' [<-|Hin]; [done|by apply Hall]. }
  destruct (seen !! g_UserID g) as [[|]|] eqn:Eg; [by destruct (Ht _ Eg)| |].
  - destruct (IH _ _ Hi Hs Ht Hf E) as [? Hres]. split; [done|]. apply Hnext; [by apply Hf|done].
  - apply bind_inv in E as [(b & w1 & E1 & E2)|(e & E1 & ->)].
    2: { apply mapping_Err in E1 as (e0 & E1 & ->). destruct (Hr _ _ _ _ E1 Hi) as [Hd ->].
         split; [by rewrite Hd|by right]. }
    apply mapping_Ok in E1. destruct (Hr _ _ _ _ E1 Hi) as [Hd Hi1]. rewrite Hs in Hd.
    assert (Ha : answered r (g_UserID g) b s) by by exists w, w1.
    destruct b; [injection E2 as <- <-; split; [done|]; exists g; by split; [left|]|].
    apply IH in E2 as [? Hres]; [split; [done|by apply Hnext]|done|done|..].
    + intros u Hu. apply lookup_insert_Some in Hu as [[_ ?]|[_ Hu]]; [done|by eapply Ht].
    + intros u Hu. apply lookup_insert_Some in Hu as [[<- _]|[_ Hu]]; [done|by apply Hf].
Qed.

(** A mutation's transaction, from its body: the world its body and audit ran in. *)
Lemma audited_tx {A} t (body : M St A) (w : world St) res w' :
  tx_by id id body w = (res, w') ->
  (forall w1 a w2, body w1 = (Ok a, w2) -> w_intx w1 = true -> w_intx w2 = true) ->
  match res with
  | Ok a => exists w1 w2, tx_begun w w1 /\ body w1 = (Ok a, w2) /\ w_db w' = w_db w2 /\
              carrier_rows t (w_db w1) = carrier_rows t (db_seen w)
  | Err _ => w_db w' = db_seen w
  end.
Proof.
  intros E Hb. apply tx_by_inv in E as [(a & w1 & w2 & -> & Hbg & Eb & Hd)|(e & -> & Hd)]; [|done].
  pose proof Hbg as (Hdb & Hi & _). exists w1, w2. split; [done|]. split; [done|]. split; [|by rewrite Hdb].
  destruct Hd as [?|Hd]; [done|]. by rewrite (Hb _ _ _ Eb Hi) in Hd.
Qed.

Lemma lockCarrier_inv t u (w : world St) res w' :
  lockCarrier t u w = (res, w') ->
  frame w w' /\ w_db w' = db_seen w /\
  match res with
  | Ok (target, remaining) => exists rows, carrier_rows t (db_seen w) = Some rows /\
      (forall g, target = Some g -> In g rows /\ g_UserID g = u) /\
      (forall g, In g remaining -> In g rows /\ g_UserID g <> u)
  | Err _ => True
  end.
Proof.
  intros E. apply bind_inv in E as [(rows & w1 & E & [= <- <-])|(e & E & ->)];
    apply carrier_read_inv in E as (Hf & Hd & Hr); [|done].
  split; [done|]. split; [done|]. destruct Hr as [(rows0 & Hrows & [= ->])|[e [=]]].
  rewrite lock_loop_spec. exists rows0. split; [done|]. split; intros g Hg.
  - destruct (last _) as [g'|] eqn:El; [|done]. injection Hg as ->.
    apply last_Some in El as [l El]. assert (Hin : In g (List.filter (holds_grant u) (sort_by oldest_grant rows0))).
    { rewrite El, in_app_iff. by right; left. }
    apply filter_In in Hin as [Hin Hu]. rewrite in_sort_by in Hin. by rewrite holds_grant_true in Hu.
  - simpl in Hg. apply filter_In in Hg as [Hg Hn]. rewrite in_sort_by in Hg. split; [done|].
    rewrite <- holds_grant_true. by destruct (holds_grant u g).
Qed.

(** The mutation's record: what the audit writer saw, and that the transaction
    ends in the state it left. *)
Definition recorded (audit : AuditIntentWriter St) (before after : St) : Prop :=
  exists w1 w2, w_intx w1 = true /\ w_db w1 = before /\ audit w1 = (Ok tt, w2) /\ w_db w2 = after.

(** What a revocation's transaction does when its body succeeds. *)
Lemma revoke_body_inv c u (r : Resolver St) audit (w : world St) target w' :
  audits_elsewhere (c_table c) audit -> (forall u, reads_only (r u)) -> w_intx w = true ->
  revoke_body c u (RequireAnotherExercisableAdmin (Some r)) audit w = (Ok target, w') ->
  w_intx w' = true /\
  exists rows, let rows' := List.filter (fun g => negb (holds_grant u g)) rows in
    carrier_rows (c_table c) (w_db w) = Some rows /\ In target rows /\ g_UserID target = u /\
    carrier_rows (c_table c) (w_db w') = Some rows' /\
    (exists g, In g rows' /\ answered r (g_UserID g) true (w_db w)) /\
    recorded audit (put_carrier (c_table c) rows' (w_db w)) (w_db w').
Proof.
  intros Ha Hr Hi E. apply bind_Ok in E as ([[g|] rem] & w1 & E1 & E); [|done].
  apply lockCarrier_inv in E1 as ((Hi1 & _) & Hd1 & rows & Hrows & Hg & Hrem).
  rewrite intx_seen in Hd1, Hrows by done. rewrite Hi in Hi1. destruct (Hg g eq_refl) as [Hin Hu].
  apply bind_Ok in E as ([] & w2 & E2 & E).
  eapply floor_loop_inv in E2 as [[Hd2 Hi2] (g' & Hin' & Hans)]; [|done|done|exact Hd1|by intros ?|by intros ?].
  apply bind_Ok in E as (n & w3 & E3 & E).
  apply carrier_stmt_inv in E3 as ((Hi3 & _) & [(rows0 & rows' & n' & Hrows0 & [= <- <-] & [= ->] & Hd3)|(? & [=] & _)]).
  rewrite intx_seen, Hd2 in Hrows0, Hd3 by done. rewrite Hrows in Hrows0. injection Hrows0 as <-.
  destruct (negb _); [done|]. apply bind_Ok in E as ([] & w4 & E4 & [= <- <-]). rewrite Hi2 in Hi3.
  destruct (Ha _ _ _ E4 Hi3) as [Hi4 Hc4]. split; [done|]. exists rows. rewrite Hc4, Hd3.
  split; [done|]. split; [done|]. split; [done|]. split; [by eapply rows_put|]. split.
  - exists g'. split; [|done]. apply Hrem in Hin' as [Hin' Hne]. apply filter_In. split; [done|].
    rewrite <- holds_grant_true in Hne. by destruct (holds_grant u g').
  - by exists w3, w4.
Qed.

Lemma grant_body_inv c u by_ note audit (w : world St) g w' :
  audits_elsewhere (c_table c) audit -> w_intx w = true -> grant_body c u by_ note audit w = (Ok g, w') ->
  w_intx w' = true /\
  g = {| g_UserID := u; g_GrantedBy := by_; g_GrantedAt := w_dbnow w; g_Note := note |} /\
  exists rows, carrier_rows (c_table c) (w_db w) = Some rows /\ existsb (holds_grant u) rows = false /\
    carrier_rows (c_table c) (w_db w') = Some (rows ++ [g]) /\
    recorded audit (put_carrier (c_table c) (rows ++ [g]) (w_db w)) (w_db w').
Proof.
  intros Ha Hi E. apply bind_Ok in E as (now & w1 & [= <- <-] & E).
  apply bind_Ok in E as (o & w2 & E2 & E).
  apply carrier_stmt_inv in E2 as ((Hi2 & _) & [(rows & rows' & o' & Hrows & Hins & [= ->] & Hd)|(? & [=] & _)]).
  rewrite intx_seen in Hrows, Hd by done. unfold insert_grant in Hins. cbn [g_UserID] in Hins.
  destruct (existsb (holds_grant u) rows) eqn:Ex; injection Hins as <- <-; [done|].
  apply bind_Ok in E as ([] & w3 & E3 & [= <- <-]). rewrite Hi in Hi2.
  destruct (Ha _ _ _ E3 Hi2) as [Hi3 Hc3]. split; [done|]. split; [done|]. exists rows. rewrite Hc3, Hd.
  split; [done|]. split; [done|]. split; [by eapply rows_put|]. by exists w2, w3.
Qed.
End Operations.

Lemma floor_holds_keeps exercisable s : floor_holds exercisable s <-> floor_keeps exercisable (committed s) = true.
Proof. unfold floor_keeps. rewrite existsb_exists. done. Qed.

(** ** Properties *)

(** C10: The floor is never zero: however the statements of concurrent revocations of
    one carrier interleave with each other, with grants and with aborts, if some
    grant in the table belongs to a user who still resolves then one does at every
    later moment. *)
Theorem floor_never_zero exercisable rows s :
  rtc (lstep exercisable) {| committed := rows; locks := ∅; running := ∅ |} s ->
  floor_keeps exercisable rows = true -> floor_keeps exercisable (committed s) = true.
Proof.
  intros Hs Hf.
  assert (Hstart : locks_hold exercisable {| committed := rows; locks := ∅; running := ∅ |}) by by split.
  apply (floor_holds_keeps exercisable {| committed := rows; locks := ∅; running := ∅ |}) in Hf.
  apply floor_holds_keeps. induction Hs as [|x y z Hst Hs IH]; [done|]. apply IH.
  - by eapply lstep_floor.
  - split; [by eapply lstep_got|by eapply lstep_phases].
Qed.

(** A revocation that succeeds removed exactly the named principal's row, while
    at least one other row of the table belonged to a user the resolver had just
    confirmed, and ended with the state its audit writer left on the same
    transaction; one that reports any error, an audit refusal included, changed
    nothing. *)
Theorem Revoke_keeps_floor {St} `{HasCarriers St} c u (r : Resolver St) audit (w : world St) res w' :
  audits_elsewhere (c_table c) audit -> (forall u, reads_only (r u)) ->
  Revoke (Some c) u (Some (RequireAnotherExercisableAdmin (Some r))) (Some audit) w = (res, w') ->
  match res with
  | Ok target => exists rows, let rows' := List.filter (fun g => negb (holds_grant u g)) rows in
      carrier_rows (c_table c) (db_seen w) = Some rows /\ In target rows /\ g_UserID target = u /\
      carrier_rows (c_table c) (w_db w') = Some rows' /\
      (exists g, In g rows' /\ answered r (g_UserID g) true (db_seen w)) /\
      recorded audit (put_carrier (c_table c) rows' (db_seen w)) (w_db w')
  | Err _ => w_db w' = w_db w \/ w_db w' = db_seen w
  end.
Proof.
  intros Ha Hr E. unfold Revoke in E. destruct (TrimSpace u =s ""); [injection E as <- <-; by left|].
  apply (audited_tx (c_table c)) in E.
  2: { intros w1 a w2 E1 Hi. by apply revoke_body_inv in E1 as [? _]. }
  destruct res as [target|e]; [|by right]. destruct E as (w1 & w2 & (Hd & Hi & _) & Eb & Hd2 & _).
  apply revoke_body_inv in Eb as (_ & Hb); [|done..]. by rewrite Hd, <- Hd2 in Hb.
Qed.

(** A grant that succeeds added the one row it returns, for a principal who held
    none, on a transaction that ends in the state its audit writer left; any error,
    a repeated grant and a refused audit included, leaves every row and its
    provenance as they were. *)
Theorem Grant_with_its_record {St} `{HasCarriers St} c u by_ note (audit : AuditIntentWriter St) (w : world St) res w' :
  audits_elsewhere (c_table c) audit -> Carrier_Grant (Some c) u by_ note (Some audit) w = (res, w') ->
  match res with
  | Ok g => g = {| g_UserID := u; g_GrantedBy := by_; g_GrantedAt := w_dbnow w; g_Note := note |} /\
      exists rows, carrier_rows (c_table c) (db_seen w) = Some rows /\ ~ In u (List.map g_UserID rows) /\
        carrier_rows (c_table c) (w_db w') = Some (rows ++ [g]) /\
        recorded audit (put_carrier (c_table c) (rows ++ [g]) (db_seen w)) (w_db w')
  | Err _ => w_db w' = w_db w \/ w_db w' = db_seen w
  end.
Proof.
  intros Ha E. unfold Carrier_Grant in E. destruct (TrimSpace u =s ""); [injection E as <- <-; by left|].
  apply (audited_tx (c_table c)) in E.
  2: { intros w1 a w2 E1 Hi. by apply grant_body_inv in E1 as [? _]. }
  destruct res as [g|e]; [|by right]. destruct E as (w1 & w2 & (Hd & Hi & _ & Hn) & Eb & Hd2 & _).
  apply grant_body_inv in Eb as (_ & -> & rows & Hrows & Hno & Hc & Hrec); [|done..].
  rewrite Hn, Hd, <- Hd2 in *. split; [done|]. exists rows. split; [done|]. split; [|done].
  intros Hin. apply in_map_iff in Hin as (g & Hg & Hin). apply not_true_iff_false in Hno. apply Hno.
  apply existsb_exists. exists g. by rewrite holds_grant_true.
Qed.

(** A session carries the admin scope exactly when the carrier holds the user's
    row at the moment of the request: whatever the stored scopes claim, a lookup
    that fails or finds no row withholds it, every other scope is kept, and an API
    key's scopes never carry it. *)
Theorem session_admin_is_live {St} `{HasCarriers St} c u scopes (w : world St) :
  (exists out err, (SessionScopes (Some c) u scopes w).1 = Ok (out, err) /\
     (forall s, s <> ScopeAdmin -> In s out <-> In s scopes) /\
     (err = None -> In ScopeAdmin out <->
        u <> "" /\ exists rows, carrier_rows (c_table c) (db_seen w) = Some rows /\ In u (List.map g_UserID rows)) /\
     (err <> None -> ~ In ScopeAdmin out)) /\
  ~ In ScopeAdmin (KeyScopes scopes).
Proof.
  assert (Hno : ~ In ScopeAdmin (withoutAdmin scopes)).
  { intros Hin. apply filter_In in Hin as [_ Hn]. by rewrite seqb_refl in Hn. }
  assert (Hbase : forall s, s <> ScopeAdmin -> In s (withoutAdmin scopes) <-> In s scopes).
  { intros s Hs. unfold withoutAdmin. rewrite filter_In. apply seqb_false in Hs. rewrite Hs. by split; [intros []|]. }
  split; [|done]. unfold SessionScopes, mbind, M_bind, try. destruct (IsPlatformAdmin (Some c) u w) as [r w1] eqn:E.
  unfold IsPlatformAdmin in E. destruct (u =s "") eqn:Eu.
  { injection E as <- <-. exists (withoutAdmin scopes), None. split; [done|]. split; [exact Hbase|]. split; [|done].
    intros _. split; [done|]. intros [Hu _]. by apply seqb_true in Eu. }
  apply seqb_false in Eu. apply carrier_read_inv in E as (_ & _ & [(rows & Hrows & ->)|[e ->]]).
  2: { exists (withoutAdmin scopes), (Some e). split; [done|]. split; [exact Hbase|]. by split. }
  assert (Hin : existsb (holds_grant u) rows = true <-> In u (List.map g_UserID rows)).
  { rewrite existsb_exists, in_map_iff. setoid_rewrite holds_grant_true. naive_solver. }
  destruct (existsb (holds_grant u) rows); simpl.
  - exists (withoutAdmin scopes ++ [ScopeAdmin]), None. split; [done|]. split; [|split; [|done]].
    + intros s Hs. rewrite in_app_iff, Hbase by done. simpl. naive_solver.
    + intros _. rewrite in_app_iff. simpl. split; [|by right; left]. intros _. split; [done|].
      exists rows. split; [done|]. by apply Hin.
  - exists (withoutAdmin scopes), None. split; [done|]. split; [done|]. split; [|done]. intros _.
    split; [done|]. intros (_ & rows' & Hrows' & Hu). rewrite Hrows in Hrows'. injection Hrows' as <-. by apply Hin in Hu.
Qed.

(** A carrier's table name is accepted exactly when it is one or two identifiers
    of the strict grammar joined by a dot, surrounding white space aside, and two
    names give the same quoted reference only when they are the same name: no
    accepted name can address a table other than the one it spells. *)
Theorem quoteTable_exact `{PgxIdentifier} table :
  (forall q, quoteTable table = Ok q <->
     exists parts, TrimSpace table = Join parts "." /\ (1 <= length parts <= 2)%nat /\
       Forall (fun p => ValidIdentifier p = true) parts /\ q = quote_parts parts) /\
  (forall q table', quoteTable table = Ok q -> quoteTable table' = Ok q -> TrimSpace table = TrimSpace table') /\
  (forall e, quoteTable table = Err e -> errors_Is e "platformadmin: carrier is not usable as configured" = true).
Proof.
  assert (Hex : forall table q, quoteTable table = Ok q <->
     exists parts, TrimSpace table = Join parts "." /\ (1 <= length parts <= 2)%nat /\
       Forall (fun p => ValidIdentifier p = true) parts /\ q = quote_parts parts).
  { clear table. intros table q. unfold quoteTable. split.
    - destruct (_ =s "") eqn:Et; [done|]. destruct (2 <? length _)%nat eqn:El; [done|].
      destruct (forallb _ _) eqn:Ev; [|done]. intros [= <-]. apply Nat.ltb_ge in El. rewrite forallb_forall in Ev.
      exists (Split (TrimSpace table) "."). split; [by rewrite Join_Split|]. split.
      + split; [|done]. unfold Split. rewrite length_map.
        destruct (split_byte_cons "." (bytes_of (TrimSpace table))) as (p & rest & ->). simpl. lia.
      + split; [|done]. apply List.Forall_forall. exact Ev.
    - intros (parts & -> & [H1 H2] & Hv & ->). rewrite valid_parts_split; [|intros ->; simpl in H1; lia|done].
      replace (2 <? length parts)%nat with false by (symmetry; by apply Nat.ltb_ge).
      replace (forallb ValidIdentifier parts) with true
        by (symmetry; apply forallb_forall; by apply List.Forall_forall).
      destruct (Join parts "." =s "") eqn:Et; [|done]. apply seqb_true in Et. exfalso.
      destruct parts as [|p parts]; [simpl in H1; lia|].
      assert (Hs : Split (Join (p :: parts) ".") "." = [""]) by by rewrite Et.
      rewrite valid_parts_split in Hs by done. injection Hs as -> _. by inversion Hv. }
  split; [apply Hex|]. split.
  - intros q table' (parts & -> & _ & Hv & ->)%Hex (parts' & -> & _ & Hv' & Hq)%Hex.
    unfold Join. rewrite <- (unquoted_parts parts), <- (unquoted_parts parts') by done. by rewrite Hq.
  - unfold quoteTable. intros e. repeat case_match; by intros [= <-].
Qed.

(** ** Witnesses *)

(** An application's grant tables by reference. *)
#[export] Instance tables_HasCarriers : HasCarriers (gmap string (list Grant)).
Proof.
  refine {| carrier_rows := fun t s => s !! t; put_carrier := fun t l s => <[t := l]> s |}.
  intros t s l l' _. apply lookup_insert_eq.
Defined.

Definition ex_grant (u : string) : Grant := {| g_UserID := u; g_GrantedBy := None; g_GrantedAt := 0; g_Note := None |}.
Definition ex_carrier : Carrier := {| c_table := "platform_admins"; c_lockKey := 0 |}.
Definition ex_tables : gmap string (list Grant) :=
  {[ "platform_admins" := [ex_grant "alice"; ex_grant "bob"]; "audit" := [] ]}.

(** A record in a table of its own; a resolver that knows bob alone. *)
Definition ex_audit : AuditIntentWriter (gmap string (list Grant)) :=
  carrier_stmt "audit" (fun rows => Ok (tt, rows ++ [ex_grant "recorded"])).
Definition ex_resolver : Resolver (gmap string (list Grant)) := fun u => mret (u =s "bob").

Lemma ex_audit_elsewhere : audits_elsewhere "platform_admins" ex_audit.
Proof.
  intros w r w' E Hi. apply carrier_stmt_inv in E as [(Hi' & _) [(rows & rows' & a & Hr & Hf & -> & Hd)|(e & -> & Hd)]];
    rewrite Hi', Hd, intx_seen by done; (split; [done|]); [|done]. by apply lookup_insert_ne.
Qed.

Lemma ex_resolver_reads u : reads_only (ex_resolver u).
Proof. by intros w r w' [= <- <-] Hi. Qed.

Definition ex_revoke (w : world (gmap string (list Grant))) : result Grant * world (gmap string (list Grant)) :=
  Revoke (Some ex_carrier) "alice" (Some (RequireAnotherExercisableAdmin (Some ex_resolver))) (Some ex_audit) w.

Lemma Revoke_keeps_floor_witness :
  let w := quiet ex_tables 0 0 0 in
  (fst (ex_revoke w) = Ok (ex_grant "alice")) /\
  match fst (ex_revoke w) with
  | Ok target => exists rows, let rows' := List.filter (fun g => negb (holds_grant "alice" g)) rows in
      carrier_rows "platform_admins" (db_seen w) = Some rows /\ In target rows /\ g_UserID target = "alice" /\
      carrier_rows "platform_admins" (w_db (snd (ex_revoke w))) = Some rows' /\
      (exists g, In g rows' /\ answered ex_resolver (g_UserID g) true (db_seen w)) /\
      recorded ex_audit (put_carrier "platform_admins" rows' (db_seen w)) (w_db (snd (ex_revoke w)))
  | Err _ => w_db (snd (ex_revoke w)) = w_db w \/ w_db (snd (ex_revoke w)) = db_seen w
  end.
Proof.
  intros w. split; [reflexivity|].
  exact (Revoke_keeps_floor ex_carrier "alice" ex_resolver ex_audit w _ _ ex_audit_elsewhere ex_resolver_reads
           (surjective_pairing _)).
Defined.

Definition ex_granting (w : world (gmap string (list Grant))) : result Grant * world (gmap string (list Grant)) :=
  Carrier_Grant (Some ex_carrier) "carol" None None (Some ex_audit) w.

Lemma Grant_with_its_record_witness :
  let w := quiet ex_tables 5 7 0 in
  is_ok (fst (ex_granting w)) = true /\
  match fst (ex_granting w) with
  | Ok g => g = {| g_UserID := "carol"; g_GrantedBy := None; g_GrantedAt := w_dbnow w; g_Note := None |} /\
      exists rows, carrier_rows "platform_admins" (db_seen w) = Some rows /\ ~ In "carol" (List.map g_UserID rows) /\
        carrier_rows "platform_admins" (w_db (snd (ex_granting w))) = Some (rows ++ [g]) /\
        recorded ex_audit (put_carrier "platform_admins" (rows ++ [g]) (db_seen w)) (w_db (snd (ex_granting w)))
  | Err _ => w_db (snd (ex_granting w)) = w_db w \/ w_db (snd (ex_granting w)) = db_seen w
  end.
Proof.
  intros w. split; [reflexivity|].
  exact (Grant_with_its_record ex_carrier "carol" None None ex_audit w _ _ ex_audit_elsewhere (surjective_pairing _)).
Defined.

(** Two administrators revoke each other: the second waits and is then refused. *)
Lemma floor_never_zero_witness :
  exists s, rtc (lstep (fun _ => true))
              {| committed := [ex_grant "alice"; ex_grant "bob"]; locks := ∅; running := ∅ |} s /\
    committed s = [ex_grant "bob"] /\ floor_keeps (fun _ => true) (committed s) = true.
Proof.
  assert (Hrun : exists s, rtc (lstep (fun _ => true))
      {| committed := [ex_grant "alice"; ex_grant "bob"]; locks := ∅; running := ∅ |} s /\ committed s = [ex_grant "bob"]).
  { eexists. split.
    - eapply rtc_l; [apply (step_begin _ _ 1 "alice"); [reflexivity|done]|].
      eapply rtc_l; [apply (step_begin _ _ 2 "bob"); [reflexivity|done]|]. simpl.
      eapply rtc_l; [eapply (step_lock _ _ 1); [vm_compute; reflexivity|by left|reflexivity]|].
      eapply rtc_l; [eapply (step_lock _ _ 1); [vm_compute; reflexivity|by right; left|reflexivity]|].
      eapply rtc_l; [eapply (step_decide _ _ 1); vm_compute; reflexivity|].
      eapply rtc_l; [eapply (step_commit _ _ 1); vm_compute; reflexivity|]. apply rtc_refl.
    - reflexivity. }
  destruct Hrun as (s & Hs & Hc). exists s. split; [done|]. split; [done|].
  apply (floor_never_zero (fun _ => true) [ex_grant "alice"; ex_grant "bob"] s Hs). reflexivity.
Defined.

Example fnv64a_foobar : fnv64a (bytes_of "foobar") = 9625390261332436968%Z.
Proof. reflexivity. Qed.
