(* ===== verification/FloorRefinement.v ===== *)
(** * FloorRefinement: the row locks of identity/platformadmin implement atomic revocation

    PlatformAdmin models [Revoke] twice: as a transaction that is atomic towards other
    sessions, and, in its section on concurrent revocations, as the statements of
    several connections interleaved under PostgreSQL's row locks. Here the second is
    shown to refine the first: whatever the interleaving, what is committed moves only
    by whole successful calls of [Revoke] and [Carrier_Grant], run one after the other. *)

From S2P Require Import Prelude GoStrings Order Scopes Db PlatformAdmin.

Module Floor.

(** ** The abstract machine: the code's operations, one at a time *)

Section Serial.
Context (c : Carrier) (exercisable : string -> bool).

(** A resolver that answers from [exercisable], and an audit writer that succeeds. *)
Definition lookup_of : Resolver (gmap string (list Grant)) := fun u => mret (exercisable u).
Definition audited : AuditIntentWriter (gmap string (list Grant)) := mret tt.

Definition holding (rows : list Grant) (dbnow : Z) : world (gmap string (list Grant)) := quiet {[c_table c := rows]} 0 dbnow 0.

Inductive serial_step : list Grant -> list Grant -> Prop :=
| serial_revoke rows u target w' rows' :
    Revoke (Some c) u (Some (RequireAnotherExercisableAdmin (Some lookup_of))) (Some audited) (holding rows 0) = (Ok target, w') ->
    carrier_rows (c_table c) (w_db w') = Some rows' -> serial_step rows rows'
| serial_grant rows u grantedBy note dbnow g w' rows' :
    Carrier_Grant (Some c) u grantedBy note (Some audited) (holding rows dbnow) = (Ok g, w') ->
    carrier_rows (c_table c) (w_db w') = Some rows' -> serial_step rows rows'.

(** ** The operations on a table nobody else writes *)

Lemma floor_loop_answers remaining : forall seen w,
  (forall u b, seen !! u = Some b -> b = exercisable u) -> floor_keeps exercisable remaining = true ->
  floor_loop lookup_of seen remaining w = (Ok tt, w).
Proof.
  induction remaining as [|g remaining IH]; intros seen w Hs Hf; [done|]. cbn [floor_loop].
  unfold floor_keeps in Hf. cbn [existsb] in Hf.
  destruct (seen !! g_UserID g) as [b|] eqn:Eg.
  - apply Hs in Eg as ->. destruct (exercisable (g_UserID g)); [done|]. by apply IH.
  - unfold mapping_err, lookup_of, mret, M_ret, mbind, M_bind. destruct (exercisable (g_UserID g)) eqn:Ee; [done|].
    apply IH; [|done]. intros u b. destruct (decide (u = g_UserID g)) as [->|Hne]; [by rewrite lookup_insert_eq; intros [= <-]|].
    rewrite lookup_insert_ne by done. apply Hs.
Qed.

Lemma target_found u rows : In u (List.map g_UserID rows) ->
  exists g, lock_loop u (sort_by oldest_grant rows) None [] =
    (Some g, List.filter (fun g => negb (holds_grant u g)) (sort_by oldest_grant rows)).
Proof.
  intros (g & Hu & Hin)%in_map_iff. rewrite lock_loop_spec. destruct (last _) as [g'|] eqn:El; [by exists g'|].
  apply last_None in El. assert (Hg : In g (List.filter (holds_grant u) (sort_by oldest_grant rows))).
  { apply filter_In. split; [by apply in_sort_by|by apply holds_grant_true]. }
  by rewrite El in Hg.
Qed.

Lemma one_row u rows : List.NoDup (List.map g_UserID rows) -> In u (List.map g_UserID rows) -> length (List.filter (holds_grant u) rows) = 1%nat.
Proof.
  induction rows as [|g rows IH]; [done|]. cbn. intros [Hn Hd]%List.NoDup_cons_iff [Hu|Hin].
  - unfold holds_grant at 1. rewrite Hu, seqb_refl. cbn. f_equal. apply length_zero_iff_nil. destruct (List.filter _ rows) as [|g' l] eqn:Ef; [done|].
    exfalso. apply Hn. assert (Hg : In g' (List.filter (holds_grant u) rows)) by (rewrite Ef; by left).
    apply filter_In in Hg as [Hg Eu%holds_grant_true]. rewrite Hu, <- Eu. by apply in_map.
  - unfold holds_grant at 1. destruct (String.eqb_spec (g_UserID g) u) as [E|]; [by rewrite <- E in Hin|by apply IH].
Qed.

Lemma floor_keeps_sorted u rows : floor_keeps exercisable (List.filter (fun g => negb (holds_grant u g)) rows) = true ->
  floor_keeps exercisable (List.filter (fun g => negb (holds_grant u g)) (sort_by oldest_grant rows)) = true.
Proof.
  unfold floor_keeps. rewrite !existsb_exists. intros (g & Hg & He). exists g. split; [|done].
  apply filter_In in Hg as [Hin Hne]. apply filter_In. split; [by apply in_sort_by|done].
Qed.

Lemma Revoke_serves u rows :
  TrimSpace u <> "" -> List.NoDup (List.map g_UserID rows) -> In u (List.map g_UserID rows) ->
  floor_keeps exercisable (List.filter (fun g => negb (holds_grant u g)) rows) = true ->
  serial_step rows (List.filter (fun g => negb (holds_grant u g)) rows).
Proof.
  intros Hu Hd Hin Hf. destruct (target_found u rows Hin) as [g Hl].
  set (rows' := List.filter (fun g => negb (holds_grant u g)) rows).
  eapply (serial_revoke rows u g (set_db (put_carrier (c_table c) rows' {[c_table c := rows]}) (holding rows 0)) rows'); [|by apply lookup_insert_eq].
  unfold Revoke. apply seqb_false in Hu. rewrite Hu.
  set (w0 := set_intx true (holding rows 0)). assert (Hc : carrier_rows (c_table c) (w_db w0) = Some rows) by apply lookup_singleton_eq.
  erewrite (tx_by_quiet id id _ (holding rows 0) g (set_db (put_carrier (c_table c) rows' {[c_table c := rows]}) w0)); [done|done| |done].
  unfold revoke_body. rewrite (bind_step _ _ w0 (Some g, List.filter (fun g => negb (holds_grant u g)) (sort_by oldest_grant rows)) w0).
  2: { unfold lockCarrier, carrier_read. rewrite (bind_step _ _ w0 (sort_by oldest_grant rows) w0) by by apply table_read_quiet. by rewrite Hl. }
  rewrite (bind_step _ _ w0 tt w0).
  2: { apply floor_loop_answers; [by intros ? ? ?%lookup_empty_Some|by apply floor_keeps_sorted]. }
  erewrite (bind_step _ _ w0 1%nat (set_db (put_carrier (c_table c) rows' {[c_table c := rows]}) w0)); [done|].
  unfold carrier_stmt. rewrite (table_stmt_quiet _ _ _ w0 rows) by done. unfold delete_grant. by rewrite one_row.
Qed.

Lemma Grant_serves g rows :
  TrimSpace (g_UserID g) <> "" -> ~ In (g_UserID g) (List.map g_UserID rows) -> serial_step rows (rows ++ [g]).
Proof.
  intros Hu Hn. destruct g as [u by_ at_ note]. cbn [g_UserID] in *. set (g := {| g_UserID := u; g_GrantedBy := by_; g_GrantedAt := at_; g_Note := note |}).
  assert (He : existsb (holds_grant u) rows = false).
  { apply not_true_iff_false. rewrite existsb_exists. intros (g' & Hin & <-%holds_grant_true). by apply Hn, in_map. }
  eapply (serial_grant rows u by_ note at_ g (set_db (put_carrier (c_table c) (rows ++ [g]) {[c_table c := rows]}) (holding rows at_))); [|by apply lookup_insert_eq].
  unfold Carrier_Grant. apply seqb_false in Hu. rewrite Hu.
  set (w0 := set_intx true (holding rows at_)). assert (Hc : carrier_rows (c_table c) (w_db w0) = Some rows) by apply lookup_singleton_eq.
  erewrite (tx_by_quiet id id _ (holding rows at_) g (set_db (put_carrier (c_table c) (rows ++ [g]) {[c_table c := rows]}) w0)); [done|done| |done].
  unfold grant_body. rewrite (bind_step _ _ w0 at_ w0) by done.
  erewrite (bind_step _ _ w0 (Some g) (set_db (put_carrier (c_table c) (rows ++ [g]) {[c_table c := rows]}) w0)); [done|].
  unfold carrier_stmt. rewrite (table_stmt_quiet _ _ _ w0 rows) by done. unfold insert_grant. cbn [g_UserID]. by rewrite He.
Qed.
End Serial.

(** ** The simulation *)

Definition phase_user (ph : phase) : string := match ph with Reading u _ _ | Deleting u _ => u end.

(** What every reachable state of the locking machine keeps. *)
Record runs_well (exercisable : string -> bool) (s : locking) : Prop := {
  rw_key : List.NoDup (List.map g_UserID (committed s));
  rw_locks : locks_hold exercisable s;
  rw_named : forall p ph, running s !! p = Some ph -> TrimSpace (phase_user ph) <> ""
}.

Lemma key_kept u rows : List.NoDup (List.map g_UserID rows) -> List.NoDup (List.map g_UserID (List.filter (fun g => negb (holds_grant u g)) rows)).
Proof.
  induction rows as [|g rows IH]; [done|]. cbn. intros [Hn Hd]%List.NoDup_cons_iff. destruct (negb _); [|by apply IH].
  cbn. constructor; [|by apply IH]. intros (g' & E & Hin)%in_map_iff. apply filter_In in Hin as [Hin _]. apply Hn. rewrite <- E. by apply in_map.
Qed.

Lemma lstep_named exercisable s s' :
  lstep exercisable s s' -> (forall p ph, running s !! p = Some ph -> TrimSpace (phase_user ph) <> "") ->
  forall p ph, running s' !! p = Some ph -> TrimSpace (phase_user ph) <> "".
Proof.
  intros Hst Hn q ph Hq. destruct Hst; cbn [running] in Hq; try (by eapply Hn);
    try (apply lookup_delete_Some in Hq as [_ Hq]; by eapply Hn);
    (apply lookup_insert_Some in Hq as [[_ <-]|[_ Hq]]; [|by eapply Hn]); cbn [phase_user]; try done.
  all: match goal with H : running _ !! _ = Some _ |- _ => exact (Hn _ _ H) end.
Qed.

Lemma lstep_runs_well exercisable s s' : lstep exercisable s s' -> runs_well exercisable s -> runs_well exercisable s'.
Proof.
  intros Hst [Hk Hl Hn]. split; [|split; [by eapply lstep_got|by eapply lstep_phases]|by eapply lstep_named].
  destruct Hst; cbn [committed]; try done; [by apply key_kept|].
  rewrite map_app. apply List.NoDup_app; [done|by repeat constructor; intros []|]. by intros x Hx [<-|[]].
Qed.

(** A step is a whole operation at its commit, and nothing before. *)
Lemma lstep_serial c exercisable s s' :
  lstep exercisable s s' -> runs_well exercisable s -> committed s' = committed s \/ serial_step c exercisable (committed s) (committed s').
Proof.
  intros Hst [Hk [Hg Hp] Hn]. destruct Hst as [| | | |s p u got Hr| |s g Hnew Hu]; cbn [committed]; try by left.
  - right. destruct (Hp _ _ Hr) as [(t & Ht & Eu) (g & Hin & Hne & He)].
    destruct (Hg _ _ t Hr Ht) as [Htc _]. destruct (Hg _ _ g Hr Hin) as [Hgc _].
    apply Revoke_serves; [exact (Hn _ _ Hr)|done|rewrite <- Eu; by apply in_map|].
    unfold floor_keeps. apply existsb_exists. exists g. split; [|done]. apply filter_In. split; [done|].
    apply negb_true_iff, not_true_iff_false. by rewrite holds_grant_true.
  - right. by apply Grant_serves.
Qed.

(** ** Properties *)

(** C11: The row locks make revocation atomic. Start the interleaved machine - any number of
    connections inside [Revoke], statement by statement, with grants committing and
    transactions aborting in between - on a table with its primary key. Whatever it does,
    the rows it has committed are those that some sequence of whole, successful calls of
    the code's [Revoke] (under the floor predicate) and [Carrier_Grant], one after the
    other, leaves: each lets its call succeed at the moment it commits, even where it
    decided on rows read before others committed. *)
Theorem locking_refines_Revoke c exercisable rows s :
  List.NoDup (List.map g_UserID rows) ->
  rtc (lstep exercisable) {| committed := rows; locks := ∅; running := ∅ |} s ->
  rtc (serial_step c exercisable) rows (committed s).
Proof.
  intros Hk Hs. assert (Hw : runs_well exercisable {| committed := rows; locks := ∅; running := ∅ |}) by by split.
  change rows with (committed {| committed := rows; locks := ∅; running := ∅ |}).
  induction Hs as [x|x y z Hst Hs IH]; [apply rtc_refl|].
  specialize (IH (lstep_runs_well _ _ _ Hst Hw)). destruct (lstep_serial c _ _ _ Hst Hw) as [<-|Hser]; [done|by eapply rtc_l].
Qed.
End Floor.

(** ** Two administrators revoke each other while a third is granted: one call has
    committed, the other is refused *)
Module Example_floor.
Import Floor.

Lemma locking_refines_Revoke_witness :
  exists s, rtc (lstep (fun _ => true)) {| committed := [ex_grant "alice"; ex_grant "bob"]; locks := ∅; running := ∅ |} s /\
    committed s = [ex_grant "bob"; ex_grant "carol"] /\
    rtc (serial_step ex_carrier (fun _ => true)) [ex_grant "alice"; ex_grant "bob"] (committed s).
Proof.
  assert (Hrun : exists s, rtc (lstep (fun _ => true))
      {| committed := [ex_grant "alice"; ex_grant "bob"]; locks := ∅; running := ∅ |} s /\ committed s = [ex_grant "bob"; ex_grant "carol"]).
  { eexists. split.
    - eapply rtc_l; [apply (step_begin _ _ 1 "alice"); [reflexivity|done]|].
      eapply rtc_l; [apply (step_begin _ _ 2 "bob"); [reflexivity|done]|]. simpl.
      eapply rtc_l; [eapply (step_lock _ _ 1); [vm_compute; reflexivity|by left|reflexivity]|].
      eapply rtc_l; [eapply (step_grant _ _ (ex_grant "carol")); [simpl; intros [?|[?|[]]]; done|done]|].
      eapply rtc_l; [eapply (step_lock _ _ 1); [vm_compute; reflexivity|by right; left|reflexivity]|].
      eapply rtc_l; [eapply (step_decide _ _ 1); vm_compute; reflexivity|].
      eapply rtc_l; [eapply (step_commit _ _ 1); vm_compute; reflexivity|]. apply rtc_refl.
    - reflexivity. }
  destruct Hrun as (s & Hs & Hc). exists s. split; [done|]. split; [done|].
  apply (locking_refines_Revoke ex_carrier (fun _ => true)); [|exact Hs].
  apply List.NoDup_cons_iff. split; [intros [[=]|[]]|]. apply List.NoDup_cons_iff. split; [intros []|constructor].
Defined.
End Example_floor.
