(* ===== verification/TenantScope.v ===== *)
(** * TenantScope: identity/tenantscope

    The set of organizations a request may reach, resolved once per request from
    the caller's principal, and the one organization a write belongs to.

    The application's policy is a [Resolver] of operations, as in the code: where
    its memberships come from, what makes someone platform-wide, and the two
    switches for API keys. A nil interface is [None]. *)

From S2P Require Import Prelude GoStrings Order PgQuote Scopes Models OrgScope Db DbRel OrganizationRepo.
From S2P Require Import PlatformAdmin.

(** ** Data *)

Definition ErrAdminsNotConfigured : error := Sentinel "tenantscope: platform-admin carrier is not configured".
Definition ErrNoActingOrganization : error := Sentinel "tenantscope: caller has no organization to act in".
Definition ErrAmbiguousActingOrganization : error :=
  Sentinel "tenantscope: caller must name the organization to act in".
Definition ErrActingOrganizationNotPermitted : error :=
  Sentinel "tenantscope: caller may not act in the named organization".

Inductive Credential := CredentialUnspecified | CredentialSession | CredentialAPIKey.
#[export] Instance Credential_eq : EqDecision Credential.
Proof. solve_decision. Defined.

Definition Credential_String (c : Credential) : string :=
  match c with CredentialSession => "session" | CredentialAPIKey => "apikey" | CredentialUnspecified => "unspecified" end.

Record Principal := { p_UserID : string; p_Credential : Credential; p_KeyOrgID : string }.

Record Scope := { s_PlatformAdmin : bool; s_OrgIDs : list string }.
Definition Scope_zero : Scope := {| s_PlatformAdmin := false; s_OrgIDs := [] |}.

Definition Permits (s : Scope) (orgID : string) : bool :=
  if s_PlatformAdmin s then true
  else
    let orgID := TrimSpace orgID in
    if orgID =s "" then false else existsb (fun id => id =s orgID) (s_OrgIDs s).

Definition PermitsPtr (s : Scope) (orgID : option string) : bool :=
  if s_PlatformAdmin s then true
  else match orgID with None => false | Some orgID => Permits s orgID end.

Definition Empty (s : Scope) : bool := negb (s_PlatformAdmin s) && (length (s_OrgIDs s) =? 0)%nat.

(** The interfaces Memberships and PlatformAdmins. *)
Definition MembershipSource (St : Type) : Type := string -> string -> ReadWritePairs -> M St OrgScope.
Definition PlatformAdmins (St : Type) : Type := string -> M St bool.

Record Resolver (St : Type) := {
  Memberships : option (MembershipSource St);
  Admins : option (PlatformAdmins St);
  r_ReadWritePairs : ReadWritePairs;
  AdminsApplyToAPIKeys : bool;
  KeyBindsOrganization : bool
}.
Arguments Memberships {_} _.
Arguments Admins {_} _.
Arguments r_ReadWritePairs {_} _.
Arguments AdminsApplyToAPIKeys {_} _.
Arguments KeyBindsOrganization {_} _.

(** ** Operations *)

Definition not_configured (err : error) : bool :=
  errors_Is err "tenantscope: platform-admin carrier is not configured" ||
  errors_Is err "platformadmin: carrier is not usable as configured".

Section Resolution.
Context {St : Type}.

(** Steps 3 and 4 of [Resolve]: the credential's organization, then memberships. *)
Definition resolve_tenant (r : Resolver St) (p : Principal) (userID required : string) : M St Scope :=
  let orgID := TrimSpace (p_KeyOrgID p) in
  if bool_decide (p_Credential p = CredentialAPIKey) && KeyBindsOrganization r && (orgID <>s "")
  then mret {| s_PlatformAdmin := false; s_OrgIDs := [orgID] |}
  else
    match Memberships r with
    | None => mret Scope_zero
    | Some memberships =>
        orgScope ← memberships userID required (r_ReadWritePairs r);
        mret {| s_PlatformAdmin := false; s_OrgIDs := OrganizationIDs orgScope |}
    end.

(** An error stands for Go's zero scope with that error. *)
Definition Resolve (r : Resolver St) (p : Principal) (required : string) : M St Scope :=
  let userID := TrimSpace (p_UserID p) in
  if userID =s "" then mret Scope_zero
  else
    match Admins r with
    | Some admins =>
        if bool_decide (p_Credential p = CredentialSession) || AdminsApplyToAPIKeys r then
          isAdmin ← try (admins userID);
          match isAdmin with
          | Err err => if not_configured err then resolve_tenant r p userID required else throw err
          | Ok true => mret {| s_PlatformAdmin := true; s_OrgIDs := [] |}
          | Ok false => resolve_tenant r p userID required
          end
        else resolve_tenant r p userID required
    | None => resolve_tenant r p userID required
    end.

(** acting.go; the receiver is not read. *)
Definition ActingOrganization (scope : Scope) (selected : string) : result string :=
  let selected := TrimSpace selected in
  if selected <>s "" then
    if negb (Permits scope selected) then Err (Wrap "" ErrActingOrganizationNotPermitted) else Ok selected
  else if s_PlatformAdmin scope
  then Err (Wrap "the request must name one" ErrAmbiguousActingOrganization)
  else
    match s_OrgIDs scope with
    | [] => Err (Wrap "" ErrNoActingOrganization)
    | [orgID] => Ok orgID
    | _ => Err (Wrap "the caller reaches several organizations" ErrAmbiguousActingOrganization)
    end.
End Resolution.

(** ** Facts *)

Section Wired.
Context {St : Type} `{HasDB St, HasCarriers St}.

(** The resolver an application of this module wires: the organization repository
    qualifies memberships and the carrier, when there is one, decides
    platform-wide authority. *)
Definition wired (carrier : option Carrier) (rw : ReadWritePairs) (onKeys binds : bool) : Resolver St := {|
  Memberships := Some OrgScopeForUser;
  Admins := Some (IsPlatformAdmin carrier);
  r_ReadWritePairs := rw;
  AdminsApplyToAPIKeys := onKeys;
  KeyBindsOrganization := binds
|}.

(** What the stored rows say about a principal. *)
Definition platform_wide (s : St) (carrier : option Carrier) (onKeys : bool) (p : Principal) : Prop :=
  (p_Credential p = CredentialSession \/ onKeys = true) /\
  exists c rows, carrier = Some c /\ carrier_rows (c_table c) s = Some rows /\
    In (TrimSpace (p_UserID p)) (List.map g_UserID rows).

Definition bound_to (binds : bool) (p : Principal) (org : string) : Prop :=
  p_Credential p = CredentialAPIKey /\ binds = true /\ org = TrimSpace (p_KeyOrgID p) /\ org <> "".

Definition holds_in (s : St) (userID required : string) (rw : ReadWritePairs) (org : string) : Prop :=
  exists m ss, In m (organization_members (the_db s)) /\ m_OrganizationID m = org /\ m_UserID m = userID /\
    role_scopes (the_db s) m = Ok ss /\ HasScope ss required rw = true.

Lemma existsb_in org ids : existsb (fun id => id =s org) ids = true <-> In org ids.
Proof. apply (mem_true org ids). Qed.

(** The tenant part of a resolution on rows nobody is writing. *)
Lemma resolve_tenant_wired carrier rw onKeys binds p userID required (w : world St) scope w' :
  w_sched w = [] -> userID <> "" ->
  resolve_tenant (wired carrier rw onKeys binds) p userID required w = (Ok scope, w') ->
  s_PlatformAdmin scope = false /\
  forall o, o <> "" -> In o (s_OrgIDs scope) <->
    bound_to binds p o \/
    (~ (exists o', bound_to binds p o') /\ holds_in (w_db w) userID required rw o).
Proof.
  intros Hq Hu E. unfold resolve_tenant in E. cbn [wired Memberships r_ReadWritePairs KeyBindsOrganization] in E.
  assert (Hb : bool_decide (p_Credential p = CredentialAPIKey) && binds && (TrimSpace (p_KeyOrgID p) <>s "") = true <->
               exists o, bound_to binds p o).
  { rewrite !andb_true_iff, bool_decide_eq_true, negb_true_iff, seqb_false. unfold bound_to. naive_solver. }
  destruct (_ && _ && _).
  - injection E as <- <-. split; [done|]. intros o Ho. destruct Hb as [Hb _]. destruct (Hb eq_refl) as (o' & Hb').
    destruct Hb' as (Hc & Hbs & -> & Hne). simpl. unfold bound_to. naive_solver.
  - apply bind_Ok in E as (sc & w1 & E & [= <- <-]). split; [done|]. intros o Ho. simpl.
    apply OrgScopeForUser_Ok in E as (_ & ids & -> & Hids); [|done]. unfold db_seen in Hids. rewrite Hq in Hids.
    assert (Hin : In o (OrganizationIDs (OrgScopeOrganizations ids)) <-> In o ids).
    { rewrite in_orgIDs. naive_solver. }
    rewrite Hin, Hids. split; [|by intros [Hbo|[_ ?]]; [destruct Hb as [_ Hb]; discriminate Hb; eauto|]].
    intros Hh. right. split; [|done]. intros Hbo. by apply Hb in Hbo.
Qed.
End Wired.

(** ** Properties *)

(** C23: A request resolved by the wired policy reaches an organization exactly when the
    stored rows give the principal that authority: a live platform-admin grant,
    for a session or where keys are opted in; else the organization the API key is
    bound to, where keys bind; else a membership whose role template grants the
    required scope. Without a user id it reaches nothing. *)
Theorem Resolve_reaches_only_held {St} `{HasDB St, HasCarriers St} carrier rw onKeys binds p required
    (w : world St) scope w' :
  w_sched w = [] -> Resolve (wired carrier rw onKeys binds) p required w = (Ok scope, w') ->
  forall org, Permits scope org = true <->
    let userID := TrimSpace (p_UserID p) in let o := TrimSpace org in
    userID <> "" /\
    (platform_wide (w_db w) carrier onKeys p \/
     ~ platform_wide (w_db w) carrier onKeys p /\ o <> "" /\
     (bound_to binds p o \/
      ~ (exists o', bound_to binds p o') /\ holds_in (w_db w) userID required rw o)).
Proof.
  intros Hq E org. cbv zeta. unfold Resolve in E. cbn [wired Admins AdminsApplyToAPIKeys] in E.
  destruct (TrimSpace (p_UserID p) =s "") eqn:Eu.
  { injection E as <- <-. apply seqb_true in Eu. unfold Permits. simpl. rewrite Eu. destruct (_ =s ""); naive_solver. }
  apply seqb_false in Eu.
  assert (Htenant : forall w1, w_sched w1 = [] -> w_db w1 = w_db w -> ~ platform_wide (w_db w) carrier onKeys p ->
    resolve_tenant (wired carrier rw onKeys binds) p (TrimSpace (p_UserID p)) required w1 = (Ok scope, w') ->
    Permits scope org = true <-> TrimSpace (p_UserID p) <> "" /\
      (platform_wide (w_db w) carrier onKeys p \/
       ~ platform_wide (w_db w) carrier onKeys p /\ TrimSpace org <> "" /\
       (bound_to binds p (TrimSpace org) \/
        ~ (exists o', bound_to binds p o') /\
        holds_in (w_db w) (TrimSpace (p_UserID p)) required rw (TrimSpace org)))).
  { intros w1 Hq1 Hd1 Hn E1. apply resolve_tenant_wired in E1 as [Hp Hin]; [|done..]. rewrite Hd1 in Hin.
    unfold Permits. rewrite Hp. destruct (TrimSpace org =s "") eqn:Eo.
    - apply seqb_true in Eo. naive_solver.
    - apply seqb_false in Eo. rewrite existsb_in, Hin by done. naive_solver. }
  destruct (bool_decide _ || onKeys) eqn:Ek.
  2: { eapply Htenant; [exact Hq|done| |exact E]. intros [Hk _]. apply orb_false_iff in Ek as [Ek1 Ek2].
       apply bool_decide_eq_false in Ek1. destruct Hk; congruence. }
  assert (Hk : p_Credential p = CredentialSession \/ onKeys = true).
  { apply orb_true_iff in Ek as [Ek|Ek]; [left; by apply bool_decide_eq_true in Ek|by right]. }
  apply bind_try in E as (r & w1 & E1 & E2). destruct carrier as [c|]; cbn [IsPlatformAdmin] in E1.
  2: { injection E1 as <- <-. eapply Htenant; [exact Hq|done| |exact E2]. by intros (_ & c & rows & [=] & _). }
  apply seqb_false in Eu. rewrite Eu in E1. apply seqb_false in Eu.
  unfold carrier_read, table_read in E1. rewrite stmt_quiet in E1 by done.
  destruct (carrier_rows (c_table c) (w_db w)) as [rows|] eqn:Er; [|by injection E1 as <- <-].
  assert (Hrows : existsb (holds_grant (TrimSpace (p_UserID p))) rows = true <->
                  In (TrimSpace (p_UserID p)) (List.map g_UserID rows)).
  { rewrite existsb_exists, in_map_iff. setoid_rewrite holds_grant_true. naive_solver. }
  injection E1 as <- <-. destruct (existsb _ rows).
  - injection E2 as <- <-. unfold Permits. simpl. split; [intros _|done]. split; [done|]. left. split; [done|].
    exists c, rows. repeat split; [done..|]. by apply Hrows.
  - revert E2. apply Htenant; [exact Hq|done|]. intros (_ & c' & rows' & [= <-] & Hr & Hin).
    rewrite Er in Hr. injection Hr as <-. by apply Hrows in Hin.
Qed.

(** A write is given an organization exactly when the caller's choice is one the
    scope reaches, or none was named and the scope reaches a single one; a platform
    administrator must always name one, and every refusal says which rule failed. *)
Theorem ActingOrganization_rules scope selected :
  let s := TrimSpace selected in
  (forall o, ActingOrganization scope selected = Ok o <->
     (s <> "" /\ o = s /\ Permits scope s = true) \/
     (s = "" /\ s_PlatformAdmin scope = false /\ s_OrgIDs scope = [o])) /\
  (forall e, ActingOrganization scope selected = Err e ->
     (errors_Is e "tenantscope: caller may not act in the named organization" = true <->
        s <> "" /\ Permits scope s = false) /\
     (errors_Is e "tenantscope: caller has no organization to act in" = true <->
        s = "" /\ Empty scope = true) /\
     (errors_Is e "tenantscope: caller must name the organization to act in" = true <->
        s = "" /\ (s_PlatformAdmin scope = true \/ 2 <= length (s_OrgIDs scope))%nat)).
Proof.
  cbv zeta. unfold ActingOrganization, Empty. destruct (TrimSpace selected =s "") eqn:Es; cbn [negb].
  - apply seqb_true in Es. rewrite Es. destruct (s_PlatformAdmin scope), (s_OrgIDs scope) as [|o1 [|o2 os]]; simpl;
      (split; [intros o|intros e [= <-]]); simpl; repeat split; intros; try naive_solver lia.
  - apply seqb_false in Es. destruct (Permits scope _) eqn:Ep; simpl;
      (split; [intros o|intros e [= <-]]); simpl; repeat split; intros; naive_solver.
Qed.

(** Resolution fails closed for any policy: without a principal nothing is looked
    up; platform-wide reach is given only to a session or where the policy opts
    keys in, and only on the lookup's own yes; a lookup that fails for any reason
    but an absent carrier is the request's error, never a narrower answer; and a
    policy with no membership source yields the scope that reaches nothing or the
    key's own organization. *)
Theorem Resolve_fails_closed {St} (r : Resolver St) p required (w : world St) :
  (TrimSpace (p_UserID p) = "" -> Resolve r p required w = (Ok Scope_zero, w)) /\
  (forall scope w', Resolve r p required w = (Ok scope, w') -> s_PlatformAdmin scope = true ->
     (p_Credential p = CredentialSession \/ AdminsApplyToAPIKeys r = true) /\
     exists admins, Admins r = Some admins /\ admins (TrimSpace (p_UserID p)) w = (Ok true, w')) /\
  (forall admins e w', Admins r = Some admins -> TrimSpace (p_UserID p) <> "" ->
     p_Credential p = CredentialSession -> admins (TrimSpace (p_UserID p)) w = (Err e, w') ->
     not_configured e = false -> Resolve r p required w = (Err e, w')) /\
  (forall scope w', Resolve r p required w = (Ok scope, w') -> Memberships r = None ->
     s_PlatformAdmin scope = false ->
     forall o, In o (s_OrgIDs scope) -> p_Credential p = CredentialAPIKey /\ o = TrimSpace (p_KeyOrgID p)).
Proof.
  assert (Ht : forall u w1 scope w', resolve_tenant r p u required w1 = (Ok scope, w') ->
    s_PlatformAdmin scope = false /\ (Memberships r = None ->
      forall o, In o (s_OrgIDs scope) -> p_Credential p = CredentialAPIKey /\ o = TrimSpace (p_KeyOrgID p))).
  { intros u w1 scope w'. unfold resolve_tenant. destruct (bool_decide _ && _ && _) eqn:Eb.
    - intros [= <- _]. apply andb_prop in Eb as [[Eb _]%andb_prop _]. apply bool_decide_eq_true in Eb.
      split; [done|]. intros _ o [<-|[]]. done.
    - destruct (Memberships r) as [ms|]; [|by intros [= <- _]]. intros E.
      by apply bind_Ok in E as (sc & w2 & _ & [= <- _]). }
  unfold Resolve. split; [by intros ->|]. destruct (TrimSpace (p_UserID p) =s "") eqn:Eu.
  { apply seqb_true in Eu. split; [by intros scope w' [= <- _]|]. split; [by intros|].
    by intros scope w' [= <- _]. }
  destruct (Admins r) as [admins|].
  2: { split; [|split; [by intros|]]; intros scope w' E; apply Ht in E as [Hn Hm]; [congruence|auto]. }
  destruct (bool_decide _ || AdminsApplyToAPIKeys r) eqn:Ek.
  2: { apply orb_false_iff in Ek as [Ek _]. apply bool_decide_eq_false in Ek.
       split; [|split; [by intros|]]; intros scope w' E; apply Ht in E as [Hn Hm]; [congruence|auto]. }
  apply orb_true_iff in Ek. rewrite bool_decide_eq_true in Ek.
  unfold mbind, M_bind, try. destruct (admins (TrimSpace (p_UserID p)) w) as [[[|]|e] w1] eqn:Ea.
  - split; [|split]; [intros scope w' [= <- <-] _; split; [done|]; by exists admins|by intros ? ? ? [= <-] _ _ ?; congruence|].
    by intros scope w' [= <- <-] _.
  - split; [|split]; [|by intros ? ? ? [= <-] _ _ ?; congruence|]; intros scope w' E; apply Ht in E as [Hn Hm]; [congruence|auto].
  - split; [|split].
    + intros scope w' E. destruct (not_configured e); [|done]. apply Ht in E as [Hn _]. congruence.
    + intros admins' e' w' [= <-] _ _ E Hn. rewrite Ea in E. injection E as <- <-. by rewrite Hn.
    + intros scope w' E Hm. destruct (not_configured e); [|done]. apply Ht in E as [_ Hx]. auto.
Qed.

(** ** Witnesses *)

(** The schema and the application's grant tables on one connection. *)
Record app := { a_db : DB; a_tables : gmap string (list Grant) }.

#[export] Instance app_HasDB : HasDB app.
Proof.
  refine {| the_db := a_db; put_db := fun d s => {| a_db := d; a_tables := a_tables s |} |}; [done|by intros []|done].
Defined.

#[export] Instance app_HasCarriers : HasCarriers app.
Proof.
  refine {| carrier_rows := fun t s => a_tables s !! t;
            put_carrier := fun t l s => {| a_db := a_db s; a_tables := <[t := l]> (a_tables s) |} |}.
  intros t s l l' _. apply lookup_insert_eq.
Defined.

Definition ex_world : world app := quiet {| a_db := ex_db; a_tables := ex_tables |} 0 0 0.

Definition ex_session (u : string) : Principal :=
  {| p_UserID := u; p_Credential := CredentialSession; p_KeyOrgID := "" |}.

(** u1 reads users as administrator of o1 and reader of o2; u2 holds no role. *)
Example resolve_members :
  (fst (Resolve (wired (Some ex_carrier) ∅ false false) (ex_session " u1 ") "users:read" ex_world)
     = Ok {| s_PlatformAdmin := false; s_OrgIDs := ["o1"; "o2"] |}) /\
  (fst (Resolve (wired (Some ex_carrier) ∅ false false) (ex_session "u2") "users:read" ex_world) = Ok Scope_zero) /\
  (fst (Resolve (wired (Some ex_carrier) ∅ false false) (ex_session "alice") "users:read" ex_world)
     = Ok {| s_PlatformAdmin := true; s_OrgIDs := [] |}).
Proof. by vm_compute. Qed.

Lemma Resolve_reaches_only_held_witness :
  let w := ex_world in let p := ex_session "u1" in let r := wired (Some ex_carrier) ∅ false false in
  exists scope, fst (Resolve r p "users:write" w) = Ok scope /\ s_OrgIDs scope = ["o1"] /\
  forall org, Permits scope org = true <->
    let userID := TrimSpace (p_UserID p) in let o := TrimSpace org in
    userID <> "" /\
    (platform_wide (w_db w) (Some ex_carrier) false p \/
     ~ platform_wide (w_db w) (Some ex_carrier) false p /\ o <> "" /\
     (bound_to false p o \/
      ~ (exists o', bound_to false p o') /\ holds_in (w_db w) userID "users:write" ∅ o)).
Proof.
  intros w p r. exists {| s_PlatformAdmin := false; s_OrgIDs := ["o1"] |}.
  assert (E : fst (Resolve r p "users:write" w) = Ok {| s_PlatformAdmin := false; s_OrgIDs := ["o1"] |}) by reflexivity.
  split; [exact E|]. split; [reflexivity|].
  apply (Resolve_reaches_only_held (Some ex_carrier) ∅ false false p "users:write" w _
           (snd (Resolve r p "users:write" w)) eq_refl).
  rewrite <- E. apply surjective_pairing.
Defined.
