(* ===== verification/Access.v ===== *)
(** * Access: what a membership removed takes with it, across the packages

    The composition of identity/store and identity/tenantscope: a membership pair can
    only come back through the two operations that add it, so that once a reduction
    has removed it, every later authority decision made from the rows (the qualified
    scope of the repository, the user's scopes in the organization, and the scope a
    request resolves to) leaves the organization out, whatever ran in between. *)

From S2P Require Import Prelude GoStrings Order Scopes Models OrgScope Db DbRel.
From S2P Require Import OrganizationRepo ApiKeyRepo UserRepo RoleTemplateRepo TokenRepo AuthorityReduction TemplateReconcile Isolation PlatformAdmin TenantScope.

(** ** Membership pairs *)

Section Pairs.
Context (P : string * string -> Prop).

(** Every pair that was not there is one of [P]. *)
Definition adds_within (d d' : DB) : Prop :=
  forall pair, In pair (member_pairs d') -> In pair (member_pairs d) \/ P pair.

#[export] Instance adds_within_preorder : PreOrder adds_within.
Proof. split; [by intros d pair; left|]. intros a b c H1 H2 pair [Hb|?]%H2; [by apply H1|by right]. Qed.

Lemma adds_none d d' :
  (forall pair, In pair (member_pairs d') -> In pair (member_pairs d)) -> adds_within d d'.
Proof. intros H pair Hp. left. by apply H. Qed.

Lemma pairs_del p l (pair : string * string) :
  In pair (List.map (fun m => (m_OrganizationID m, m_UserID m)) (rows_del p l)) ->
  In pair (List.map (fun m => (m_OrganizationID m, m_UserID m)) l).
Proof. rewrite !in_map_iff. intros (m & ? & [Hm _]%in_rows_del). eauto. Qed.

Lemma delete_members_adds p d a d' : delete_members p d = Ok (a, d') -> adds_within d d'.
Proof. intros [= _ <-]. apply adds_none. intros pair. apply pairs_del. Qed.

Lemma pairs_upd p v l :
  List.map (fun m => (m_OrganizationID m, m_UserID m)) (rows_upd p (set_role v) l) =
  List.map (fun m => (m_OrganizationID m, m_UserID m)) l.
Proof. by apply map_rows_upd. Qed.

Lemma update_member_role_adds p v d a d' : update_member_role p v d = Ok (a, d') -> adds_within d d'.
Proof.
  unfold update_member_role. intros E. apply adds_none. intros pair Hp.
  repeat case_match; simplify_eq/=; [done|]. revert Hp. unfold member_pairs. simpl. by rewrite pairs_upd.
Qed.

Lemma insert_member_adds m d a d' :
  P (m_OrganizationID m, m_UserID m) -> insert_member m d = Ok (a, d') -> adds_within d d'.
Proof.
  unfold insert_member. intros Hm E pair. repeat case_match; simplify_eq/=. unfold member_pairs. simpl.
  rewrite map_app, in_app_iff. simpl. intros [?|[<-|[]]]; [by left|by right].
Qed.

Lemma delete_orgs_adds p d a d' : delete_orgs p d = Ok (a, d') -> adds_within d d'.
Proof. intros [= _ <-]. apply adds_none. intros pair. apply pairs_del. Qed.

Lemma delete_users_adds p d a d' : delete_users p d = Ok (a, d') -> adds_within d d'.
Proof. intros [= _ <-]. apply adds_none. intros pair. apply pairs_del. Qed.

Lemma delete_templates_adds p d a d' : delete_templates p d = Ok (a, d') -> adds_within d d'.
Proof. intros [= _ <-]. apply adds_none. intros pair. unfold member_pairs. simpl. by rewrite pairs_upd. Qed.

(** The statements on the other tables leave the memberships alone. *)
Lemma same_members_adds d d' : organization_members d' = organization_members d -> adds_within d d'.
Proof. intros E. apply adds_none. unfold member_pairs. by rewrite E. Qed.
End Pairs.

#[export] Existing Instance adds_within_preorder.

(** ** Every operation of the store *)

Section Operations.
Context {St : Type} `{!HasDB St} `{!OrganizationRepo.HasOrgCache St} `{!TokenRepo.HasPruneClock St}.
Context (P : string * string -> Prop).

Hint Resolve lookup_role_evolves : evolve.

Abbreviation keeps m := (evolves (over_db (adds_within P)) m).

Ltac other_table :=
  match goal with E : _ = Ok (_, _) |- adds_within _ _ _ =>
    unfold delete_keys, update_keys, insert_key, update_orgs, insert_org, update_users, insert_user_ignoring_sub,
      insert_user, update_templates, insert_template, insert_revoked, delete_revoked in E end;
  repeat case_match; simplify_eq/=; by apply same_members_adds.

Ltac pairs :=
  evolve; (apply evolves_exec; [apply _|]); intros ? ? ? E; cbv beta in E; repeat case_match;
  first [ by (eapply delete_members_adds; exact E)
        | by (eapply update_member_role_adds; exact E)
        | by (eapply insert_member_adds; [|exact E]; auto)
        | by (eapply delete_orgs_adds; exact E)
        | by (eapply delete_users_adds; exact E)
        | by (eapply delete_templates_adds; exact E)
        | by (injection E as _ <-; eapply delete_members_adds)
        | other_table ].

Lemma login_pairs uuid sub email name v :
  keeps (UserRepo.GetOrCreateUserFromOIDC (St := St) uuid sub email name v).
Proof.
  unfold UserRepo.GetOrCreateUserFromOIDC, UserRepo.login_known, UserRepo.login_link, UserRepo.login_create,
    UserRepo.linkOIDCIdentity, UserRepo.UpdateUser. pairs.
Qed.
Lemma reconcile_pairs fuel ctx db t scopes rw opts :
  keeps (TemplateReconcile.ReconcileRoleTemplate (St := St) fuel ctx db t scopes rw opts).
Proof.
  assert (Hb : forall bs after, keeps (TemplateReconcile.reconcileOneBatch (St := St) t scopes rw bs after)).
  { intros bs after. unfold TemplateReconcile.reconcileOneBatch, TemplateReconcile.planBatch,
      TemplateReconcile.sweepBatchKeys. pairs. }
  assert (Hl : forall r c, keeps (TemplateReconcile.reconcile_loop (St := St) fuel ctx t scopes rw opts r c)).
  { induction fuel as [|n IH]; intros r c; simpl; evolve. }
  unfold TemplateReconcile.ReconcileRoleTemplate. evolve.
Qed.

Lemma writer_pairs fuel ctx db rw id scopes opts f :
  (forall d n d', f d = Ok (n, d') -> adds_within P d d') ->
  keeps (TemplateReconcile.write (St := St) fuel ctx db rw id scopes opts (RoleTemplateRepo.execRoleTemplateMutation f)).
Proof.
  intros Hf. unfold TemplateReconcile.write, RoleTemplateRepo.GetRoleTemplate, select_row,
    RoleTemplateRepo.execRoleTemplateMutation.
  pose proof reconcile_pairs. evolve. by apply evolves_exec; [apply _|].
Qed.

Lemma revoke_pairs r jti u e : keeps (TokenRepo.RevokeToken (St := St) r jti u e).
Proof.
  unfold TokenRepo.RevokeToken, TokenRepo.maybePruneExpiredRevocations, TokenRepo.claimPruneSlot, TokenRepo.prune_expired.
  evolve; [pairs| |pairs]. apply evolves_poke. intros s. unfold over_db. by rewrite TokenRepo.db_put_next.
Qed.

Lemma reduce_pairs r u reduce : keeps reduce ->
  keeps (AuthorityReduction.run (St := St) r u (Some AuthorityReduction.NoAppCredentials) reduce).
Proof. intros Hr. apply run_evolves; [apply _| |done]. intros p d a d' E. other_table. Qed.

(** A pair comes back only through the two operations that add a membership. *)
Lemma store_adds adds A (m : M St A) :
  store_write adds A m -> (forall pair, adds = Some pair -> P pair) -> keeps m.
Proof.
  intros Hm Hadds. destruct Hm.
  1-10: org_op; pairs.
  1-7: key_op; pairs.
  1-3: user_op; pairs.
  - apply login_pairs.
  - template_op; pairs.
  - template_op; pairs.
  - template_op; pairs.
  - apply reconcile_pairs.
  - destruct t as [t|]; simpl; evolve. apply writer_pairs. template_op. intros ? ? ? E. other_table.
  - apply writer_pairs. template_op. intros ? ? ?. apply delete_templates_adds.
  - apply revoke_pairs.
  - unfold TokenRepo.CleanupExpiredRevocations, affectedRows. pairs.
  - reduce_op reduce_pairs; pairs.
  - reduce_op reduce_pairs; pairs.
  - reduce_op reduce_pairs; pairs.
  - reduce_op reduce_pairs; pairs.
Qed.
End Operations.

(** ** After a removal *)

Definition without (o u : string) : DB -> DB -> Prop := adds_within (fun pair => pair <> (o, u)).
Definition lacks (o u : string) (d : DB) : Prop := ~ In (o, u) (member_pairs d).

Lemma without_lacks o u d d' : without o u d d' -> lacks o u d -> lacks o u d'.
Proof. intros Hw Hl Hin. by apply Hw in Hin as [?|[]]. Qed.

Lemma lacks_row o u d m : lacks o u d -> In m (organization_members d) ->
  ~ (m_OrganizationID m = o /\ m_UserID m = u).
Proof. intros Hl Hm [<- <-]. apply Hl. unfold member_pairs. rewrite in_map_iff. eauto. Qed.

Section After.
Context {St : Type} `{!HasDB St} `{!OrganizationRepo.HasOrgCache St} `{!TokenRepo.HasPruneClock St} `{!HasCarriers St}.

(** The moments after [s] at which nobody has added the user to the organization
    again: calls of the store with any arguments, outcome and schedule, and what
    other sessions do between them. *)
Inductive later (o u : string) (s : St) : St -> Prop :=
| later_now : later o u s s
| later_call adds A (m : M St A) w r w' :
    later o u s (w_db w) -> store_write adds A m -> adds <> Some (o, u) ->
    sched_respects (over_db (without o u)) w -> m w = (r, w') ->
    later o u s (w_db w')
| later_other s1 s2 : later o u s s1 -> over_db (without o u) s1 s2 -> later o u s s2.

Lemma later_without o u s s' : later o u s s' -> over_db (without o u) s s'.
Proof.
  induction 1 as [|adds A m w r w' _ IH Hm Hadds Hs Hx|s1 s2 _ IH Ho]; [done| |by etrans].
  etrans; [exact IH|]. eapply (store_adds (fun pair => pair <> (o, u)) adds A m Hm); [|exact Hx|exact Hs].
  intros pair -> ->. by apply Hadds.
Qed.

Lemma seen_without o u (w : world St) :
  sched_respects (over_db (without o u)) w -> over_db (without o u) (w_db w) (db_seen w).
Proof.
  unfold sched_respects, db_seen. destruct (w_sched w) as [|e l]; [done|]. intros [He _]%Forall_cons.
  destruct (w_intx w); [done|apply He].
Qed.

Lemma kept_lacks o u (s s' : St) : over_db (without o u) s s' -> lacks o u (the_db s) -> lacks o u (the_db s').
Proof. apply without_lacks. Qed.

(** A committed removal leaves no row of the pair. *)
Inductive removal (u : string) : effect -> Prop :=
| rm_one o scope : removal u (remove_effect o u scope)
| rm_all scope : removal u (remove_all_effect u scope).

Lemma removal_lacks u eff d orgs d' o :
  removal u eff -> eff d = Ok (orgs, d') -> In o orgs -> lacks o u d'.
Proof.
  assert (Hdel : forall p l, (forall m, In m l -> m_OrganizationID m = o -> m_UserID m = u -> p m = true) ->
    ~ In (o, u) (List.map (fun m => (m_OrganizationID m, m_UserID m)) (rows_del p l))).
  { intros p l Hp (m & [= Ho Hu] & [Hm Hn]%in_rows_del)%in_map_iff. by rewrite (Hp m Hm Ho Hu) in Hn. }
  intros [o' scope|scope] E Ho.
  - unfold remove_effect in E. destruct (_ =? 0)%nat eqn:E0; [done|]. injection E as <- <-.
    apply Nat.eqb_neq in E0. destruct Ho as [->|[]]. apply Hdel. intros m _ <- <-. unfold member_where.
    rewrite (proj2 (same_member_true _ _ _)) by done. by eapply one_org_effect.
  - injection E as <- <-. apply in_map_iff in Ho as (m0 & <- & [_ [_ Ha]%andb_prop]%filter_In).
    apply Hdel. intros m _ -> ->. by rewrite seqb_refl, Ha.
Qed.

(** What the decisions read once the pair is gone. *)
Lemma derived_scope_lacks o u required rw (w : world St) sc w' :
  lacks o u (the_db (db_seen w)) -> u <> "" -> o <> "" ->
  OrgScopeForUser u required rw w = (Ok sc, w') ->
  PermitsOrganization sc o = false /\ ~ In o (OrganizationIDs sc).
Proof.
  intros Hl Hu Ho Hx. apply OrgScopeForUser_Ok in Hx as (_ & ids & -> & Hids); [|done].
  assert (Hn : ~ In o ids).
  { rewrite Hids. intros (m & ss & Hm & Hmo & Hmu & _). by eapply lacks_row. }
  split; [|by intros [? _]%in_orgIDs]. apply not_true_iff_false. by rewrite in_orgScope.
Qed.

Lemma user_scopes_lack o u (w : world St) l w' :
  lacks o u (the_db (db_seen w)) -> GetUserScopesForOrg u o w = (Ok l, w') -> l = [].
Proof.
  intros Hl Hx. apply GetUserScopesForOrg_inv in Hx as [(m & ss & _ & Hm & ? & ? & _)|[([= ->] & _)|(e & [=] & _)]]; [|done].
  by destruct (lacks_row _ _ _ _ Hl Hm).
Qed.

Lemma resolved_lacks o u carrier rw onKeys binds p required (w : world St) scope w' :
  lacks o u (the_db (w_db w)) -> sched_respects (over_db (without o u)) w ->
  TrimSpace (p_UserID p) = u -> p_Credential p = CredentialSession ->
  TrimSpace o = o -> o <> "" ->
  Resolve (wired carrier rw onKeys binds) p required w = (Ok scope, w') ->
  s_PlatformAdmin scope = true \/ Permits scope o = false.
Proof.
  intros Hl Hs Hu Hc Ht Ho Hx. unfold Resolve in Hx. cbn [wired Admins AdminsApplyToAPIKeys] in Hx. rewrite Hu in Hx.
  destruct (u =s "") eqn:Eu; [injection Hx as <- _; right; unfold Permits; simpl; by case_match|].
  apply seqb_false in Eu. rewrite (bool_decide_eq_true_2 _ Hc) in Hx. simpl in Hx.
  apply bind_try in Hx as (r & w1 & Hr & Hx).
  assert (Hadm : evolves (over_db (without o u)) (IsPlatformAdmin (St := St) carrier u)).
  { unfold IsPlatformAdmin, carrier_read. evolve. }
  destruct (Hadm _ _ _ Hr Hs) as [Hw Hs1].
  assert (Htenant : resolve_tenant (wired carrier rw onKeys binds) p u required w1 = (Ok scope, w') ->
    Permits scope o = false).
  { unfold resolve_tenant. rewrite Hc. cbn [wired Memberships r_ReadWritePairs KeyBindsOrganization]. simpl. intros E.
    apply bind_Ok in E as (sc & w2 & E & [= <- _]).
    apply (derived_scope_lacks o) in E as [_ Hn]; [|by eauto using kept_lacks, seen_without|done..].
    unfold Permits. simpl. rewrite Ht. apply seqb_false in Ho. rewrite Ho. apply not_true_iff_false.
    by rewrite existsb_in. }
  destruct r as [[|]|e]; [left; by injection Hx as <- _|by right; auto|].
  destruct (not_configured e); [by right; auto|done].
Qed.

(** C9: offboarding is effective. Once a reduction has committed and reports that it
    took the user out of an organization, then at every later moment, as long as
    nobody has added the membership again, the scope the repository derives for the
    user does not contain the organization, the user's scopes there are none, and a
    session of the user that is not a platform administrator resolves to a scope that
    does not permit it: whatever operations of the store ran in between, in
    whatever order, with whatever outcome and under whatever schedule, logins,
    role and template changes included. *)
Theorem offboarding_effective r app u m eff (w : world St) red w' o :
  own_tables app -> reduction r app u m eff -> removal u eff -> db_wf (the_db (db_seen w)) ->
  m w = (Ok red, w') -> In o (red_Organizations red) -> u <> "" -> o <> "" ->
  forall s, later o u (w_db w') s ->
  forall w1, w_db w1 = s -> sched_respects (over_db (without o u)) w1 ->
  (forall required rw sc w2, OrgScopeForUser u required rw w1 = (Ok sc, w2) -> PermitsOrganization sc o = false) /\
  (forall l w2, GetUserScopesForOrg u o w1 = (Ok l, w2) -> l = []) /\
  (forall carrier rw onKeys binds p required scope w2,
     TrimSpace (p_UserID p) = u -> p_Credential p = CredentialSession -> TrimSpace o = o ->
     Resolve (wired carrier rw onKeys binds) p required w1 = (Ok scope, w2) ->
     s_PlatformAdmin scope = true \/ Permits scope o = false).
Proof.
  intros Happ Hm Hr Hwf Hx Ho Hu Hne s Hlater w1 <- Hs.
  assert (Hl : lacks o u (the_db (w_db w'))).
  { destruct (reduction_inv _ _ _ _ _ _ _ _ Happ Hm Hwf Hx) as [(red' & [= <-] & [Hc|[-> _]])|(e & [=] & _)]; [|done].
    destruct Hc as (orgs & d1 & He & _ & <- & Hc).
    assert (Hl1 : lacks o u d1) by (by eapply removal_lacks).
    destruct (red_Organizations red); [destruct Hc as [-> _]|destruct Hc as [-> _]]; done. }
  apply later_without in Hlater. pose proof (kept_lacks _ _ _ _ Hlater Hl) as Hl1.
  assert (Hl2 : lacks o u (the_db (db_seen w1))) by eauto using kept_lacks, seen_without.
  split; [|split].
  - intros required rw sc w2 E. by eapply (derived_scope_lacks o u) in E as [? _].
  - intros l w2. by apply user_scopes_lack.
  - intros. by eapply resolved_lacks.
Qed.
End After.

(** ** Witness *)

(** The schema, the repositories' memories and the application's grant tables. *)
Record office := { f_db : DB; f_cache : OrgCache; f_prune : Z; f_tables : gmap string (list Grant) }.

#[export] Instance office_HasDB : HasDB office.
Proof.
  refine {| the_db := f_db;
            put_db := fun d s => {| f_db := d; f_cache := f_cache s; f_prune := f_prune s; f_tables := f_tables s |} |};
    [done|by intros []|done].
Defined.
#[export] Instance office_HasOrgCache : HasOrgCache office.
Proof.
  refine {| org_cache := f_cache;
            put_cache := fun c s => {| f_db := f_db s; f_cache := c; f_prune := f_prune s; f_tables := f_tables s |} |}; done.
Defined.
#[export] Instance office_HasPruneClock : HasPruneClock office.
Proof.
  refine {| next_prune := f_prune;
            put_next_prune := fun z s => {| f_db := f_db s; f_cache := f_cache s; f_prune := z; f_tables := f_tables s |} |};
    done.
Defined.
#[export] Instance office_HasCarriers : HasCarriers office.
Proof.
  refine {| carrier_rows := fun t s => f_tables s !! t;
            put_carrier := fun t l s => {| f_db := f_db s; f_cache := f_cache s; f_prune := f_prune s;
                                           f_tables := <[t := l]> (f_tables s) |} |}.
  intros t s l l' _. apply lookup_insert_eq.
Defined.

(** u1, administrator of o1, leaves it and is then made administrator of o2. *)
Definition ex_office : world office :=
  quiet {| f_db := ex_db_keys; f_cache := ex_cache; f_prune := 0; f_tables := ex_tables |} 0 0 0.
Definition left_o1 : M office Reduced :=
  AuthorityReduction.RemoveMember (Some ex_reducer) "o1" "u1" OrgScopeAllOrganizations (Some NoAppCredentials).
Definition promoted : M office unit :=
  OrganizationRepo.UpdateMemberRoleTemplate "o2" "u1" (Some "admins") OrgScopeAllOrganizations.

Lemma offboarding_effective_witness :
  let w1 := snd (promoted (snd (left_o1 ex_office))) in
  let session := ex_session "u1" in let r := wired (Some ex_carrier) ∅ false false in
  fst (Resolve r session "users:write" ex_office) = Ok {| s_PlatformAdmin := false; s_OrgIDs := ["o1"] |} /\
  fst (Resolve r session "users:write" w1) = Ok {| s_PlatformAdmin := false; s_OrgIDs := ["o2"] |} /\
  (forall required rw sc w2, OrgScopeForUser "u1" required rw w1 = (Ok sc, w2) -> PermitsOrganization sc "o1" = false) /\
  (forall l w2, GetUserScopesForOrg "u1" "o1" w1 = (Ok l, w2) -> l = []) /\
  (forall carrier rw onKeys binds p required scope w2,
     TrimSpace (p_UserID p) = "u1" -> p_Credential p = CredentialSession -> TrimSpace "o1" = "o1" ->
     Resolve (wired carrier rw onKeys binds) p required w1 = (Ok scope, w2) ->
     s_PlatformAdmin scope = true \/ Permits scope "o1" = false).
Proof.
  intros w1 session r. split; [by vm_compute|]. split; [by vm_compute|].
  refine (offboarding_effective ex_reducer NoAppCredentials "u1" left_o1 (remove_effect "o1" "u1" OrgScopeAllOrganizations)
    ex_office {| red_UserID := "u1"; red_Organizations := ["o1"]; red_KeysRevoked := 1; red_KeysRetained := 0 |}
    (snd (left_o1 ex_office)) "o1" _ _ _ _ _ _ _ _ (w_db w1) _ w1 eq_refl _).
  - apply NoAppCredentials_own.
  - apply is_RemoveMember.
  - apply rm_one.
  - exact ex_db_keys_wf.
  - by rewrite (surjective_pairing (left_o1 ex_office)).
  - by left.
  - done.
  - done.
  - apply (later_call "o1" "u1" _ None unit promoted (snd (left_o1 ex_office)) (fst (promoted (snd (left_o1 ex_office)))) w1).
    + apply later_now.
    + apply w_UpdateMemberRoleTemplate.
    + done.
    + apply Forall_nil_2.
    + apply surjective_pairing.
  - apply Forall_nil_2.
Defined.
