(* ===== verification/OAuthState.v ===== *)
(** * OAuthState: identity/auth/oauthstate

    The single-use [state] of an authorization request and the replay markers
    beside it. [Store] is the code's interface with the contract its comments
    state; the [Manager]'s protocol is proved against the interface and
    [MemoryStore] discharges it. Both are values passed from call to call: every
    method is one critical section, so concurrent callers are sequences of calls.

    encoding/json of the stored envelope is a codec with the one law the code
    uses; crypto/rand is the argument [rnd]; the order of a range over a map is a
    parameter. *)

From S2P Require Import Prelude GoStrings Base64 ApiKey.
From Stdlib Require Import Ascii.

(** ** Errors and constants *)

Module OAuth.
Definition DefaultTTL : Z := 10 * 60 * 1000000000.
Definition stateEntropyBytes : nat := 32.
Definition statePrefix : string := "state:".
Definition reservePrefix : string := "reserve:".
Definition DefaultMaxEntries : nat := 4096.

Definition ErrNotFound : error := Sentinel "oauthstate: state not found, already consumed, or expired".
Definition ErrExpired : error := Sentinel "oauthstate: state expired".
Definition ErrPurposeMismatch : error := Sentinel "oauthstate: state was issued for a different purpose".
Definition ErrAlreadyExists : error := Sentinel "oauthstate: entry already exists".
Definition ErrCapacityExhausted : error := Sentinel "oauthstate: store capacity exhausted".

Definition is_state_not_found (e : error) : bool :=
  errors_Is e "oauthstate: state not found, already consumed, or expired".
Definition is_already_exists (e : error) : bool := errors_Is e "oauthstate: entry already exists".

(** ** The store's contract *)

(** [entry_at s k] is what [s] holds under [k] and until when. [idle] is the work a
    store does on its own between calls: a janitor's sweep, a backend's expiry. *)
Class Store (S : Type) := {
  PutIfAbsent : string -> string -> Z -> Z -> S -> result unit * S;
  Take : string -> Z -> S -> result string * S;
  idle : Z -> S -> S;
  entry_at : S -> string -> option (string * Z);

  put_only : forall k e ttl now s r s', PutIfAbsent k e ttl now s = (r, s') ->
    forall k' v, entry_at s' k' = Some v ->
      entry_at s k' = Some v \/ (r = Ok tt /\ k' = k /\ v = (e, now + ttl)%Z);
  put_stores : forall k e ttl now s s', PutIfAbsent k e ttl now s = (Ok tt, s') ->
    entry_at s' k = Some (e, now + ttl)%Z;
  put_refuses : forall k e ttl now s s' e' x, PutIfAbsent k e ttl now s = (Ok tt, s') ->
    entry_at s k = Some (e', x) -> (x <= now)%Z;
  put_keeps_markers : forall k e ttl now s r s' k' e' x, PutIfAbsent k e ttl now s = (r, s') ->
    HasPrefix k' reservePrefix = true -> entry_at s k' = Some (e', x) -> (now < x)%Z ->
    entry_at s' k' = Some (e', x);

  take_hit : forall k now s e s', Take k now s = (Ok e, s') -> (exists x, entry_at s k = Some (e, x));
  take_removes : forall k now s r s', Take k now s = (r, s') ->
    match r with Ok _ => true | Err e => is_state_not_found e end = true -> entry_at s' k = None;
  take_keeps_others : forall k now s r s' k' v, Take k now s = (r, s') ->
    entry_at s' k' = Some v -> entry_at s k' = Some v;
  take_keeps_markers : forall k now s r s' k' e' x, Take k now s = (r, s') -> k' <> k ->
    HasPrefix k' reservePrefix = true -> entry_at s k' = Some (e', x) -> (now < x)%Z ->
    entry_at s' k' = Some (e', x);

  idle_only : forall now s k v, entry_at (idle now s) k = Some v -> entry_at s k = Some v;
  idle_keeps_markers : forall now s k e x, HasPrefix k reservePrefix = true ->
    entry_at s k = Some (e, x) -> (now < x)%Z -> entry_at (idle now s) k = Some (e, x)
}.

(** ** Manager *)

Record envelope := { Purpose : string; ExpiresAt : Z; Payload : string }.

(** json.Marshal and json.Unmarshal of an envelope. [json_text] is what a JSON string
    carries of a Go string: valid UTF-8 as it is, other bytes replaced. The payload
    is a [[]byte], which travels as base64. *)
Class EnvelopeCodec := {
  json_text : string -> string;
  Marshal : envelope -> result string;
  Unmarshal : string -> result envelope;
  Unmarshal_Marshal : forall e b, Marshal e = Ok b ->
    Unmarshal b = Ok {| Purpose := json_text (Purpose e); ExpiresAt := ExpiresAt e; Payload := Payload e |}
}.

(** The random bytes come from crypto/rand, [stateEntropyBytes] of them. *)
Definition newState (rnd : result bytes) : result string :=
  match rnd with
  | Err e => Err (Wrap "oauthstate: failed to generate state" e)
  | Ok b => Ok (string_of (EncodeToString b))
  end.

(** A Manager is the store it holds; [None] is a nil store. *)
Definition NewManager {S : Type} (store : option S) : result S :=
  match store with
  | None => Err (Plain "oauthstate: NewManager requires a non-nil Store")
  | Some s => Ok s
  end.

Section Manager.
Context {S : Type} `{Store S, EnvelopeCodec}.

Definition Issue (rnd : result bytes) (purpose payload : string) (ttl now : Z) (s : S) : result string * S :=
  if purpose =s "" then (Err (Plain "oauthstate: purpose is required"), s)
  else if (ttl <=? 0)%Z then (Err (Plain "oauthstate: ttl must be positive"), s)
  else
    match newState rnd with
    | Err e => (Err e, s)
    | Ok state =>
        match Marshal {| Purpose := purpose; ExpiresAt := (now + ttl)%Z; Payload := payload |} with
        | Err e => (Err (Wrap "oauthstate: failed to encode state entry" e), s)
        | Ok encoded =>
            match PutIfAbsent (statePrefix +:+ state) encoded ttl now s with
            | (Err e, s') => (Err (Wrap "oauthstate: failed to store state" e), s')
            | (Ok _, s') => (Ok state, s')
            end
        end
    end.

Definition Consume (purpose state : string) (now : Z) (s : S) : result string * S :=
  if purpose =s "" then (Err (Plain "oauthstate: purpose is required"), s)
  else
    match Take (statePrefix +:+ state) now s with
    | (Err e, s') =>
        (if is_state_not_found e then Err ErrNotFound
         else Err (Wrap "oauthstate: failed to load state" e), s')
    | (Ok stored, s') =>
        (match Unmarshal stored with
         | Err e => Err (Wrap "oauthstate: failed to decode state entry" e)
         | Ok env =>
             if (ExpiresAt env <? now)%Z then Err ErrExpired
             else if Purpose env <>s purpose then Err ErrPurposeMismatch
             else Ok (Payload env)
         end, s')
    end.

(** Go's pair: [false] accompanies every error. *)
Definition Reserve (key : string) (ttl now : Z) (s : S) : result bool * S :=
  if key =s "" then (Err (Plain "oauthstate: key is required"), s)
  else if (ttl <=? 0)%Z then (Err (Plain "oauthstate: ttl must be positive"), s)
  else
    match PutIfAbsent (reservePrefix +:+ key) "" ttl now s with
    | (Ok _, s') => (Ok true, s')
    | (Err e, s') =>
        (if is_already_exists e then Ok false else Err (Wrap "oauthstate: failed to reserve key" e), s')
    end.

(** ** Histories

    What a process's callers see: each call with its arguments, its instant and its
    result, the latest first. The clock does not go back. *)
Inductive event :=
| EIssue (purpose payload : string) (ttl : Z) (r : result string)
| EConsume (purpose state : string) (r : result string)
| EReserve (key : string) (ttl : Z) (r : result bool).

Inductive history (s0 : S) (t0 : Z) : Z -> list (Z * event) -> S -> Prop :=
| h_start : history s0 t0 t0 [] s0
| h_later t t' h s : history s0 t0 t h s -> (t <= t')%Z -> history s0 t0 t' h s
| h_idle t h s : history s0 t0 t h s -> history s0 t0 t h (idle t s)
| h_issue t h s rnd p pl ttl r s' : history s0 t0 t h s ->
    Issue rnd p pl ttl t s = (r, s') -> history s0 t0 t ((t, EIssue p pl ttl r) :: h) s'
| h_consume t h s p st r s' : history s0 t0 t h s ->
    Consume p st t s = (r, s') -> history s0 t0 t ((t, EConsume p st r) :: h) s'
| h_reserve t h s k ttl r s' : history s0 t0 t h s ->
    Reserve k ttl t s = (r, s') -> history s0 t0 t ((t, EReserve k ttl r) :: h) s'.

End Manager.

(** ** MemoryStore *)

Record memoryEntry := { data : string; expiresAt : Z }.
Record MemoryStore := { entries : gmap string memoryEntry; maxEntries : nat }.

(** [for k, e := range m]: every entry once, in an order Go leaves open. *)
Class MapRange := {
  range_of : gmap string memoryEntry -> list (string * memoryEntry);
  range_perm : forall m, range_of m ≡ₚ map_to_list m
}.

(** A zero or negative argument takes the default; the janitor is [sweep]. *)
Definition NewMemoryStore (maxEntries : Z) : MemoryStore :=
  {| entries := ∅; maxEntries := if (maxEntries <=? 0)%Z then DefaultMaxEntries else Z.to_nat maxEntries |}.

Definition with_entries (m : gmap string memoryEntry) (s : MemoryStore) : MemoryStore :=
  {| entries := m; maxEntries := maxEntries s |}.

Definition isReplayMarker (key : string) : bool := HasPrefix key reservePrefix.

Definition markers_of (m : gmap string memoryEntry) : gmap string memoryEntry :=
  base.filter (fun kv => isReplayMarker kv.1 = true) m.
Definition states_of (m : gmap string memoryEntry) : gmap string memoryEntry :=
  base.filter (fun kv => isReplayMarker kv.1 = false) m.

(** The live entries, with how many of each kind there are. *)
Definition purgeExpiredLocked (now : Z) (m : gmap string memoryEntry) : nat * nat * gmap string memoryEntry :=
  let m' := base.filter (fun kv => ~ (expiresAt kv.2 < now)%Z) m in
  (size (states_of m'), size (markers_of m'), m').

Definition sweep (now : Z) (s : MemoryStore) : MemoryStore :=
  with_entries (purgeExpiredLocked now (entries s)).2 s.

(** The loop of [evictNearestExpiryStateLocked]; the empty key is "no victim yet". *)
Fixpoint victim_loop (l : list (string * memoryEntry)) (victim : string) (soonest : Z) : string :=
  match l with
  | [] => victim
  | (k, e) :: l =>
      if isReplayMarker k then victim_loop l victim soonest
      else if (victim =s "") || (expiresAt e <? soonest)%Z then victim_loop l k (expiresAt e)
      else victim_loop l victim soonest
  end.

Section Memory.
Context `{MapRange}.

Definition evictNearestExpiryStateLocked (m : gmap string memoryEntry) : option (gmap string memoryEntry) :=
  let victim := victim_loop (range_of m) "" 0 in
  if victim =s "" then None else Some (delete victim m).

(** [for states >= s.maxEntries { evict; states-- }] *)
Fixpoint shed (states max : nat) (m : gmap string memoryEntry) : result unit * gmap string memoryEntry :=
  if (max <=? states)%nat then
    match evictNearestExpiryStateLocked m with
    | None => (Err ErrCapacityExhausted, m)
    | Some m' => match states with O => (Ok tt, m') | Datatypes.S states => shed states max m' end
    end
  else (Ok tt, m).

Definition makeRoomLocked (key : string) (now : Z) (s : MemoryStore) : result unit * MemoryStore :=
  let '(states, markers, m) := purgeExpiredLocked now (entries s) in
  if isReplayMarker key then
    (if (maxEntries s <=? markers)%nat then Err ErrCapacityExhausted else Ok tt, with_entries m s)
  else let (r, m') := shed states (maxEntries s) m in (r, with_entries m' s).

Definition Memory_PutIfAbsent (key entry : string) (ttl now : Z) (s : MemoryStore) : result unit * MemoryStore :=
  if key =s "" then (Err (Plain "oauthstate: memory store: key is required"), s)
  else if (ttl <=? 0)%Z then (Err (Plain "oauthstate: memory store: entry ttl must be positive"), s)
  else if match entries s !! key with Some existing => (now <? expiresAt existing)%Z | None => false end
  then (Err ErrAlreadyExists, s)
  else
    match makeRoomLocked key now s with
    | (Err e, s') => (Err e, s')
    | (Ok _, s') =>
        (Ok tt, with_entries (<[key := {| data := entry; expiresAt := (now + ttl)%Z |}]> (entries s')) s')
    end.

Definition Memory_Take (key : string) (now : Z) (s : MemoryStore) : result string * MemoryStore :=
  match entries s !! key with
  | None => (Err ErrNotFound, s)
  | Some e =>
      let s' := with_entries (delete key (entries s)) s in
      if (expiresAt e <? now)%Z then (Err ErrNotFound, s') else (Ok (data e), s')
  end.

Definition Memory_Close (s : MemoryStore) : MemoryStore := with_entries ∅ s.

Definition memory_entry_at (s : MemoryStore) (key : string) : option (string * Z) :=
  (fun e => (data e, expiresAt e)) <$> entries s !! key.
End Memory.

(** *** Facts *)

Section ManagerFacts.
Context {S : Type} `{Store S, EnvelopeCodec}.

Lemma prefixes_differ st k : statePrefix +:+ st <> reservePrefix +:+ k.
Proof. done. Qed.

Lemma prefix_inj p a b : p +:+ a = p +:+ b -> a = b.
Proof. induction p as [|c p IH]; [done|]. intros [= E]. by apply IH. Qed.

Lemma reserve_is_marker k : HasPrefix (reservePrefix +:+ k) reservePrefix = true.
Proof. by destruct k. Qed.

Lemma Issue_inv rnd p pl ttl t s r s' :
  Issue rnd p pl ttl t s = (r, s') ->
  (exists st b, r = Ok st /\ Marshal {| Purpose := p; ExpiresAt := (t + ttl)%Z; Payload := pl |} = Ok b /\
     PutIfAbsent (statePrefix +:+ st) b ttl t s = (Ok tt, s')) \/
  (exists e, r = Err e /\ (s' = s \/ exists k b e', PutIfAbsent (statePrefix +:+ k) b ttl t s = (Err e', s'))).
Proof.
  unfold Issue. repeat (case_match; [intros [= <- <-]; right; eauto|]).
  destruct (newState rnd) as [st|e]; [|intros [= <- <-]; right; eauto].
  destruct (Marshal _) as [b|e]; [|intros [= <- <-]; right; eauto].
  destruct (PutIfAbsent _ _ _ _ _) as [[[]|e] s1] eqn:E; intros [= <- <-]; [left|right]; eauto 10.
Qed.

Lemma Consume_inv p st t s r s' :
  Consume p st t s = (r, s') ->
  s' = s /\ (exists m, r = Err (Plain m)) \/
  exists r0, Take (statePrefix +:+ st) t s = (r0, s') /\
    match r0 with
    | Err e => r = (if is_state_not_found e then Err ErrNotFound else Err (Wrap "oauthstate: failed to load state" e))
    | Ok stored => forall env, Unmarshal stored = Ok env ->
        r = (if (ExpiresAt env <? t)%Z then Err ErrExpired
             else if Purpose env <>s p then Err ErrPurposeMismatch else Ok (Payload env))
    end /\ (forall stored e, r0 = Ok stored -> Unmarshal stored = Err e ->
              r = Err (Wrap "oauthstate: failed to decode state entry" e)).
Proof.
  unfold Consume. case_match; [intros [= <- <-]; left; eauto|].
  destruct (Take _ _ _) as [r0 s1] eqn:E. intros Hr. right. exists r0.
  destruct r0 as [stored|e]; injection Hr as <- <-; (split; [done|]); [|by split; [|intros ? ? [=]]].
  split; [by intros env ->|]. by intros ? e [= <-] ->.
Qed.

Lemma Reserve_inv k ttl t s r s' :
  Reserve k ttl t s = (r, s') ->
  s' = s /\ (exists e, r = Err e) \/
  exists r0, PutIfAbsent (reservePrefix +:+ k) "" ttl t s = (r0, s') /\ (r = Ok true -> r0 = Ok tt).
Proof.
  unfold Reserve. repeat (case_match; [intros [= <- <-]; left; eauto|]).
  destruct (PutIfAbsent _ _ _ _ _) as [r0 s1] eqn:E. intros Hr. right. exists r0.
  destruct r0 as [[]|e]; injection Hr as <- <-; (split; [done|]); [done|]. by destruct (is_already_exists e).
Qed.

(** What a history leaves redeemable: the last successful issue of a state that no
    redemption has reached since. *)
Definition reaches (r : result string) : bool :=
  match r with Ok _ => true | Err (Sentinel _) => true | Err _ => false end.

Fixpoint outstanding (st : string) (h : list (Z * event)) : option envelope :=
  match h with
  | [] => None
  | (t, EIssue p pl ttl (Ok st')) :: h =>
      if st' =s st then Some {| Purpose := p; ExpiresAt := (t + ttl)%Z; Payload := pl |} else outstanding st h
  | (_, EConsume _ st' r) :: h => if (st' =s st) && reaches r then None else outstanding st h
  | _ :: h => outstanding st h
  end.

Definition leaves_alone (st : string) (te : Z * event) : Prop :=
  match snd te with
  | EIssue _ _ _ r => r <> Ok st
  | EConsume _ st' r => st' = st -> reaches r = false
  | EReserve _ _ _ => True
  end.

Lemma outstanding_issued st h env :
  outstanding st h = Some env ->
  exists since ti ttl before, h = since ++ (ti, EIssue (Purpose env) (Payload env) ttl (Ok st)) :: before /\
    ExpiresAt env = (ti + ttl)%Z /\ Forall (leaves_alone st) since.
Proof.
  assert (Hskip : forall te h, leaves_alone st te -> outstanding st h = Some env ->
    (outstanding st h = Some env -> exists since ti ttl before,
       h = since ++ (ti, EIssue (Purpose env) (Payload env) ttl (Ok st)) :: before /\
       ExpiresAt env = (ti + ttl)%Z /\ Forall (leaves_alone st) since) ->
    exists since ti ttl before, te :: h = since ++ (ti, EIssue (Purpose env) (Payload env) ttl (Ok st)) :: before /\
      ExpiresAt env = (ti + ttl)%Z /\ Forall (leaves_alone st) since).
  { intros te h' Hte Ho IH. destruct (IH Ho) as (since & ti & ttl & before & -> & He & Hs).
    exists (te :: since), ti, ttl, before. split; [done|]. split; [done|]. by constructor. }
  induction h as [|[t e] h IH]; [done|]. destruct e as [p pl ttl [st'|e]|p st' r|k ttl r]; cbn [outstanding]; intros Ho.
  - destruct (st' =s st) eqn:Es; [|by apply Hskip; [intros [= ->]; by rewrite seqb_refl in Es|..]].
    injection Ho as <-. apply seqb_true in Es as ->. by exists [], t, ttl, h.
  - by apply Hskip.
  - destruct (_ && _) eqn:Es; [done|]. apply Hskip; [|done..]. intros ->. by rewrite seqb_refl in Es.
  - by apply Hskip.
Qed.

Definition unused (s : S) : Prop := forall k, entry_at s k = None.

(** Whatever the store holds for a state is outstanding. *)
Lemma history_outstanding s0 t0 t h s :
  unused s0 -> history s0 t0 t h s ->
  forall st b x, entry_at s (statePrefix +:+ st) = Some (b, x) ->
    exists env, outstanding st h = Some env /\ Marshal env = Ok b.
Proof.
  intros Hun. induction 1 as [|t t' h s _ IH _|t h s _ IH|t h s rnd p pl ttl r s' _ IH E|t h s p st r s' _ IH E|t h s k ttl r s' _ IH E];
    intros st0 b0 x Hx.
  - by rewrite Hun in Hx.
  - by eapply IH.
  - apply idle_only in Hx. by eapply IH.
  - apply Issue_inv in E as [(st & b & -> & Hm & Hp)|(e & -> & [->|(k & b & e' & Hp)])]; cbn [outstanding].
    + destruct (st =s st0) eqn:Es.
      * apply seqb_true in Es as ->. apply put_stores in Hp. rewrite Hx in Hp. injection Hp as -> ->. eauto.
      * eapply put_only in Hp as [Hp|(_ & Hk & _)]; [by eapply IH| |exact Hx].
        apply prefix_inj in Hk as <-. by rewrite seqb_refl in Es.
    + by eapply IH.
    + eapply put_only in Hp as [Hp|([=] & _)]; [by eapply IH|exact Hx].
  - cbn [outstanding]. apply Consume_inv in E as [(-> & m & ->)|(r0 & Ht & Hr & _)].
    + rewrite andb_false_r. by eapply IH.
    + destruct ((st =s st0) && reaches r) eqn:Es.
      * exfalso. apply andb_prop in Es as [Es Hre]. apply seqb_true in Es as ->. apply take_removes in Ht; [congruence|].
        destruct r0 as [|e]; [done|]. destruct (is_state_not_found e); [done|]. by rewrite Hr in Hre.
      * eapply take_keeps_others in Ht; [|exact Hx]. by eapply IH.
  - cbn [outstanding]. apply Reserve_inv in E as [(-> & _)|(r0 & Hp & _)]; [by eapply IH|].
    eapply put_only in Hp as [Hp|(_ & Hk & _)]; [by eapply IH| |exact Hx]. by apply prefixes_differ in Hk.
Qed.

(** A redemption finds the outstanding issue of its state. *)
Lemma Consume_outstanding s0 t0 t h s p st pl s' :
  unused s0 -> history s0 t0 t h s -> Consume p st t s = (Ok pl, s') ->
  exists env, outstanding st h = Some env /\ json_text (Purpose env) = p /\ Payload env = pl /\ (t <= ExpiresAt env)%Z.
Proof.
  intros Hun Hb E. apply Consume_inv in E as [(_ & m & [=])|([stored|e] & Ht & Hr & Hd)].
  2: { by destruct (is_state_not_found e). }
  apply take_hit in Ht as [x Hx]. destruct (history_outstanding _ _ _ _ _ Hun Hb _ _ _ Hx) as (env & Ho & Hm).
  specialize (Hr _ (Unmarshal_Marshal _ _ Hm)). cbn [Purpose ExpiresAt Payload] in Hr.
  destruct (ExpiresAt env <? t)%Z eqn:Et; [done|]. apply Z.ltb_ge in Et.
  destruct (json_text (Purpose env) =s p) eqn:Ep; simpl in Hr; [|done]. apply seqb_true in Ep. injection Hr as ->.
  by exists env.
Qed.

(** A live reservation's marker is in the store. *)
Lemma history_marked s0 t0 t h s :
  history s0 t0 t h s ->
  forall k tk ttl, In (tk, EReserve k ttl (Ok true)) h -> (t < tk + ttl)%Z ->
    exists e, entry_at s (reservePrefix +:+ k) = Some (e, tk + ttl)%Z.
Proof.
  induction 1 as [|t t' h s _ IH Hle|t h s _ IH|t h s rnd p pl ttl r s' _ IH E|t h s p st r s' _ IH E|t h s k ttl r s' _ IH E];
    intros k0 tk ttl0 Hin Hlt.
  - done.
  - apply IH; [done|lia].
  - destruct (IH k0 tk ttl0 Hin Hlt) as [e He]. exists e. apply idle_keeps_markers; [apply reserve_is_marker|done|lia].
  - destruct Hin as [[=]|Hin]. destruct (IH k0 tk ttl0 Hin Hlt) as [e He]. exists e.
    apply Issue_inv in E as [(st & b & -> & _ & Hp)|(e1 & -> & [->|(k & b & e' & Hp)])]; [|done|];
      (eapply put_keeps_markers; [exact Hp|apply reserve_is_marker|done|lia]).
  - destruct Hin as [[=]|Hin]. destruct (IH k0 tk ttl0 Hin Hlt) as [e He]. exists e.
    apply Consume_inv in E as [(-> & _)|(r0 & Ht & _)]; [done|].
    eapply take_keeps_markers; [exact Ht|by intros ?|apply reserve_is_marker|done|lia].
  - apply Reserve_inv in E as [(-> & e & ->)|(r0 & Hp & Hok)].
    + destruct Hin as [[=]|Hin]. by apply IH.
    + destruct Hin as [[= -> -> -> ->]|Hin].
      * rewrite (Hok eq_refl) in Hp. exists "". by eapply put_stores.
      * destruct (IH k0 tk ttl0 Hin Hlt) as [e He]. exists e.
        eapply put_keeps_markers; [exact Hp|apply reserve_is_marker|done|lia].
Qed.

(** An event of a history and the store it ran on. *)
Lemma history_split s0 t0 t h s : history s0 t0 t h s ->
  forall later te before, h = later ++ te :: before ->
  exists s1 s2, history s0 t0 (fst te) before s1 /\
    match snd te with
    | EIssue p pl ttl r => exists rnd, Issue rnd p pl ttl (fst te) s1 = (r, s2)
    | EConsume p st r => Consume p st (fst te) s1 = (r, s2)
    | EReserve k ttl r => Reserve k ttl (fst te) s1 = (r, s2)
    end.
Proof.
  induction 1 as [|t t' h s _ IH _|t h s _ IH|t h s rnd p pl ttl r s' Hh IH E|t h s p st r s' Hh IH E|t h s k ttl r s' Hh IH E];
    intros later te before Heq; eauto.
  - by destruct later.
  - destruct later as [|x later]; injection Heq as <- ->; [exists s, s'; simpl; eauto|eauto].
  - destruct later as [|x later]; injection Heq as <- ->; [exists s, s'; simpl; eauto|eauto].
  - destruct later as [|x later]; injection Heq as <- ->; [exists s, s'; simpl; eauto|eauto].
Qed.
End ManagerFacts.

Section MemoryFacts.
Context `{MapRange}.

Lemma purge_lookup now m k e :
  (purgeExpiredLocked now m).2 !! k = Some e <-> m !! k = Some e /\ (now <= expiresAt e)%Z.
Proof. unfold purgeExpiredLocked. simpl. rewrite map_lookup_filter_Some. simpl. by rewrite Z.nlt_ge. Qed.

Lemma purge_sub now m : (purgeExpiredLocked now m).2 ⊆ m.
Proof. apply map_filter_subseteq. Qed.

(** The victim is a login state of the map no other login state expires before. *)
Lemma victim_loop_spec l victim soonest v :
  victim_loop l victim soonest = v -> v <> "" -> (forall k e, In (k, e) l -> k <> "") ->
  (v = victim /\ (forall k e, In (k, e) l -> isReplayMarker k = false -> (soonest <= expiresAt e)%Z)) \/
  (exists e, In (v, e) l /\ isReplayMarker v = false /\ (victim = "" \/ (expiresAt e < soonest)%Z) /\
     forall k e', In (k, e') l -> isReplayMarker k = false -> (expiresAt e <= expiresAt e')%Z).
Proof.
  revert victim soonest. induction l as [|[k e] l IH]; intros victim soonest Hv Hne Hk; simpl in Hv; [by left|].
  assert (Hk' : forall k e, In (k, e) l -> k <> "") by (intros k' e' Hin; apply (Hk k' e'); by right).
  destruct (isReplayMarker k) eqn:Em.
  - destruct (IH _ _ Hv Hne Hk') as [[-> Hall]|(e0 & Hin & Hm & Hs & Hall)]; [left|right].
    + split; [done|]. intros k' e' [[= <- <-]|Hin] Hm; [congruence|by eapply Hall].
    + exists e0. split; [by right|]. split; [done|]. split; [done|].
      intros k' e' [[= <- <-]|Hin'] Hm'; [congruence|by eapply Hall].
  - destruct ((victim =s "") || (expiresAt e <? soonest)%Z) eqn:Ec.
    + assert (Hc : victim = "" \/ (expiresAt e < soonest)%Z).
      { apply orb_true_iff in Ec as [Ec|Ec]; [left; by apply seqb_true|right; by apply Z.ltb_lt]. }
      right. destruct (IH _ _ Hv Hne Hk') as [[-> Hall]|(e0 & Hin & Hm & Hs & Hall)].
      * exists e. split; [by left|]. split; [done|]. split; [done|].
        intros k' e' [[= <- <-]|Hin] Hm; [lia|by eapply Hall].
      * exists e0. destruct Hs as [->|Hs]; [by destruct (Hk "" e); [left|]|].
        split; [by right|]. split; [done|]. split; [destruct Hc; [by left|right; lia]|].
        intros k' e' [[= <- <-]|Hin'] Hm'; [lia|by eapply Hall].
    + apply orb_false_iff in Ec as [Ec1 Ec2]. apply seqb_false in Ec1. apply Z.ltb_ge in Ec2.
      destruct (IH _ _ Hv Hne Hk') as [[-> Hall]|(e0 & Hin & Hm & Hs & Hall)]; [left|right].
      * split; [done|]. intros k' e' [[= <- <-]|Hin] Hm; [done|by eapply Hall].
      * exists e0. split; [by right|]. split; [done|]. split; [done|]. destruct Hs as [->|Hs]; [done|].
        intros k' e' [[= <- <-]|Hin'] Hm'; [lia|by eapply Hall].
Qed.

Lemma range_in m k e : In (k, e) (range_of m) <-> m !! k = Some e.
Proof.
  rewrite <- list_elem_of_In, <- elem_of_map_to_list. apply elem_of_Permutation_proper, range_perm.
Qed.

Definition no_empty_key (m : gmap string memoryEntry) : Prop := m !! "" = None.

(** An eviction drops one login state, the one nearest to expiring. *)
Lemma evict_spec m m' : no_empty_key m -> evictNearestExpiryStateLocked m = Some m' ->
  exists k e, m !! k = Some e /\ isReplayMarker k = false /\ m' = delete k m /\
    forall k' e', m !! k' = Some e' -> isReplayMarker k' = false -> (expiresAt e <= expiresAt e')%Z.
Proof.
  unfold evictNearestExpiryStateLocked. intros Hne. destruct (_ =s "") eqn:Ev; [done|]. intros [= <-].
  apply seqb_false in Ev. destruct (victim_loop_spec (range_of m) "" 0 _ eq_refl Ev) as [[Hv _]|(e & Hin & Hm & _ & Hall)].
  - intros k e Hin ->. apply range_in in Hin. congruence.
  - congruence.
  - exists (victim_loop (range_of m) "" 0), e. rewrite range_in in Hin. split; [done|]. split; [done|]. split; [done|].
    intros k' e' Hk'. apply Hall. by apply range_in.
Qed.

Lemma evict_none m : no_empty_key m -> evictNearestExpiryStateLocked m = None -> size (states_of m) = 0%nat.
Proof.
  intros Hne. unfold evictNearestExpiryStateLocked. destruct (_ =s "") eqn:Ev; [|done]. intros _. apply seqb_true in Ev.
  apply map_size_empty_iff, map_empty. intros k. unfold states_of. apply map_lookup_filter_None. right. intros e Hk Hm. simpl in Hm.
  assert (Hl : forall l v x, victim_loop l v x = "" -> (forall k e, In (k, e) l -> k <> "") -> v = "" /\
                (forall k e, In (k, e) l -> isReplayMarker k = true)).
  { clear. induction l as [|[k e] l IH]; intros v x Hv Hk; simpl in Hv; [done|].
    assert (Hk' : forall k e, In (k, e) l -> k <> "") by (intros k' e' Hin; apply (Hk k' e'); by right).
    destruct (isReplayMarker k) eqn:Em.
    - destruct (IH _ _ Hv Hk') as [-> Hall]. split; [done|]. intros k' e' [[= <- <-]|Hin]; [done|by eapply Hall].
    - destruct (_ || _) eqn:Ec.
      + destruct (IH _ _ Hv Hk') as [-> _]. by destruct (Hk "" e); [left|].
      + destruct (IH _ _ Hv Hk') as [-> _]. by rewrite seqb_refl in Ec. }
  destruct (Hl _ _ _ Ev) as [_ Hall].
  - intros k' e' Hin ->. apply range_in in Hin. congruence.
  - assert (Hin : In (k, e) (range_of m)) by by apply range_in. apply Hall in Hin. congruence.
Qed.

Lemma victim_not_marker l v x : victim_loop l v x = v \/ isReplayMarker (victim_loop l v x) = false.
Proof.
  revert v x. induction l as [|[k e] l IH]; intros v x; simpl; [by left|].
  destruct (isReplayMarker k) eqn:Em; [apply IH|]. destruct (_ || _); [|apply IH].
  destruct (IH k (expiresAt e)) as [->|?]; by right.
Qed.

(** Room is made by dropping login states alone... *)
Lemma shed_keeps n max m r m' : shed n max m = (r, m') ->
  m' ⊆ m /\ (forall k e, m !! k = Some e -> isReplayMarker k = true -> m' !! k = Some e).
Proof.
  assert (He : forall m m1, evictNearestExpiryStateLocked m = Some m1 ->
            m1 ⊆ m /\ (forall k e, m !! k = Some e -> isReplayMarker k = true -> m1 !! k = Some e)).
  { clear. intros m m1. unfold evictNearestExpiryStateLocked. destruct (_ =s "") eqn:Ev; [done|]. intros [= <-].
    split; [apply delete_subseteq|]. intros k e Hk Hm. rewrite lookup_delete_ne; [done|]. intros E.
    apply seqb_false in Ev. destruct (victim_not_marker (range_of m) "" 0); congruence. }
  revert m. induction n as [|n IH]; intros m Hs; simpl in Hs.
  - destruct (_ <=? _)%nat; [|by injection Hs as <- <-].
    destruct (evictNearestExpiryStateLocked m) eqn:E; injection Hs as <- <-; [by apply He|done].
  - destruct (_ <=? _)%nat; [|by injection Hs as <- <-].
    destruct (evictNearestExpiryStateLocked m) eqn:E; [|by injection Hs as <- <-].
    apply He in E as [H1 H2]. apply IH in Hs as [H3 H4]. split; [by etrans|]. eauto.
Qed.

(** ... until the budget has a place. *)
Lemma shed_room n max m r m' : no_empty_key m -> size (states_of m) = n -> (1 <= max)%nat ->
  shed n max m = (r, m') -> r = Ok tt /\ (size (states_of m') < max)%nat.
Proof.
  revert m. induction n as [|n IH]; intros m Hne Hn Hmax Hs; simpl in Hs.
  - destruct (max <=? 0)%nat eqn:El; [apply Nat.leb_le in El; lia|]. injection Hs as <- <-. split; [done|lia].
  - destruct (max <=? Datatypes.S n)%nat eqn:El.
    2: { injection Hs as <- <-. apply Nat.leb_gt in El. split; [done|lia]. }
    destruct (evictNearestExpiryStateLocked m) as [m1|] eqn:Ee; [|by rewrite evict_none in Hn].
    apply evict_spec in Ee as (k & e & Hk & Hm & -> & _); [|done].
    assert (Hd : states_of (delete k m) = delete k (states_of m)) by (unfold states_of; by rewrite map_filter_delete).
    eapply (IH (delete k m)); [|rewrite Hd, map_size_delete_Some, Hn; [done|]|done|exact Hs].
    + unfold no_empty_key. apply lookup_delete_None. by right.
    + exists e. unfold states_of. by apply map_lookup_filter_Some.
Qed.

Lemma makeRoom_keeps key now s r s' : makeRoomLocked key now s = (r, s') ->
  maxEntries s' = maxEntries s /\ entries s' ⊆ entries s /\
  (forall k e, entries s !! k = Some e -> isReplayMarker k = true -> (now <= expiresAt e)%Z -> entries s' !! k = Some e).
Proof.
  unfold makeRoomLocked. pose proof (purge_sub now (entries s)) as Hsub. pose proof (purge_lookup now (entries s)) as Hl.
  destruct (purgeExpiredLocked now (entries s)) as [[states markers] m]. simpl in Hsub, Hl.
  destruct (isReplayMarker key).
  - intros [= <- <-]. split; [done|]. split; [done|]. intros k e Hk _ Hle. simpl. by apply Hl.
  - destruct (shed states (maxEntries s) m) as [r0 m'] eqn:E. intros [= <- <-]. apply shed_keeps in E as [H1 H2].
    split; [done|]. split; [by etrans|]. intros k e Hk Hm Hle. apply H2; [by apply Hl|done].
Qed.

Lemma Memory_Put_inv key entry ttl now s r s' : Memory_PutIfAbsent key entry ttl now s = (r, s') ->
  ((exists e, r = Err e) /\ s' = s) \/
  (key <> "" /\ (0 < ttl)%Z /\ (forall e, entries s !! key = Some e -> (expiresAt e <= now)%Z) /\
   exists r1 s1, makeRoomLocked key now s = (r1, s1) /\
     ((exists e, r1 = Err e /\ r = Err e /\ s' = s1) \/
      (r1 = Ok tt /\ r = Ok tt /\
       s' = with_entries (<[key := {| data := entry; expiresAt := (now + ttl)%Z |}]> (entries s1)) s1))).
Proof.
  unfold Memory_PutIfAbsent. destruct (key =s "") eqn:Ek; [intros [= <- <-]; left; eauto|].
  destruct (ttl <=? 0)%Z eqn:Et; [intros [= <- <-]; left; eauto|].
  destruct (match _ with Some _ => _ | None => _ end) eqn:El; [intros [= <- <-]; left; eauto|].
  intros E. right. apply seqb_false in Ek. apply Z.leb_gt in Et. split; [done|]. split; [done|]. split.
  { intros e He. rewrite He in El. by apply Z.ltb_ge in El. }
  destruct (makeRoomLocked key now s) as [r1 s1]. exists r1, s1. split; [done|].
  destruct r1 as [[]|e]; injection E as <- <-; eauto.
Qed.

Lemma entry_at_some s k v : memory_entry_at s k = Some v <-> exists e, entries s !! k = Some e /\ v = (data e, expiresAt e).
Proof. unfold memory_entry_at. destruct (entries s !! k); simpl; naive_solver. Qed.

Lemma entry_at_sub s s' k v : entries s' ⊆ entries s -> memory_entry_at s' k = Some v -> memory_entry_at s k = Some v.
Proof.
  intros Hsub Hv. apply entry_at_some in Hv as (e & He & ->). apply entry_at_some. exists e.
  split; [|done]. by eapply lookup_weaken.
Qed.

Lemma Take_entries key now s r s' : Memory_Take key now s = (r, s') ->
  entries s' = delete key (entries s) /\ (forall e, r = Ok e -> exists x, memory_entry_at s key = Some (e, x)).
Proof.
  unfold Memory_Take. destruct (entries s !! key) as [e|] eqn:E.
  - destruct (expiresAt e <? now)%Z; intros [= <- <-]; simpl; (split; [done|]); [done|].
    intros e' [= <-]. exists (expiresAt e). apply entry_at_some. by exists e.
  - intros [= <- <-]. split; [|done]. by rewrite delete_id.
Qed.

(** ** MemoryStore keeps the contract *)

#[export] Instance MemoryStore_Store : Store MemoryStore.
Proof.
  refine {| PutIfAbsent := Memory_PutIfAbsent; Take := Memory_Take; idle := sweep; entry_at := memory_entry_at |}.
  - intros k e ttl now s r s' Hp k' v Hv.
    apply Memory_Put_inv in Hp as [(_ & ->)|(_ & _ & _ & r1 & s1 & Hr & [(e1 & _ & _ & ->)|(_ & -> & ->)])]; [by left|..];
      apply makeRoom_keeps in Hr as (_ & Hsub & _); [left; by eapply entry_at_sub|].
    apply entry_at_some in Hv as (en & Hen & ->). cbn [with_entries entries] in Hen. apply lookup_insert_Some in Hen as [[<- <-]|[_ Hen]]; [by right|].
    left. eapply entry_at_sub; [exact Hsub|]. apply entry_at_some. by exists en.
  - intros k e ttl now s s' Hp.
    apply Memory_Put_inv in Hp as [((? & [=]) & _)|(_ & _ & _ & r1 & s1 & _ & [(e1 & _ & [=] & _)|(_ & _ & ->)])].
    unfold memory_entry_at. simpl. by rewrite lookup_insert_eq.
  - intros k e ttl now s s' e' x Hp Hx.
    apply Memory_Put_inv in Hp as [((? & [=]) & _)|(_ & _ & Hle & _)].
    apply entry_at_some in Hx as (en & Hen & [= -> ->]). by apply Hle.
  - intros k e ttl now s r s' k' e' x Hp Hm Hx Hlt. apply entry_at_some in Hx as (en & Hen & [= -> ->]).
    apply entry_at_some. exists en. split; [|done].
    apply Memory_Put_inv in Hp as [(_ & ->)|(_ & _ & Hle & r1 & s1 & Hr & Hcase)]; [done|].
    apply makeRoom_keeps in Hr as (_ & _ & Hmk). specialize (Hmk k' en Hen Hm ltac:(lia)).
    destruct Hcase as [(e1 & _ & _ & ->)|(_ & _ & ->)]; [done|]. simpl. rewrite lookup_insert_ne; [done|].
    intros <-. apply Hle in Hen. lia.
  - intros k now s e s' Ht. by apply Take_entries in Ht as [_ Ht]; apply Ht.
  - intros k now s r s' Ht _. apply Take_entries in Ht as [Ht _]. unfold memory_entry_at. by rewrite Ht, lookup_delete_eq.
  - intros k now s r s' k' v Ht Hv. apply Take_entries in Ht as [Ht _]. eapply entry_at_sub; [|exact Hv].
    rewrite Ht. apply delete_subseteq.
  - intros k now s r s' k' e' x Ht Hne _ Hx _. apply Take_entries in Ht as [Ht _]. unfold memory_entry_at in *.
    by rewrite Ht, lookup_delete_ne by done.
  - intros now s k v Hv. eapply entry_at_sub; [|exact Hv]. apply purge_sub.
  - intros now s k e x _ Hx Hlt. apply entry_at_some in Hx as (en & Hen & [= -> ->]). apply entry_at_some.
    exists en. split; [|done]. apply purge_lookup. split; [done|lia].
Defined.

Lemma map_size_insert_le k e m : (size (<[k := e]> m : gmap string memoryEntry) <= Datatypes.S (size m))%nat.
Proof. rewrite map_size_insert. destruct (m !! k); unfold id; lia. Qed.

(** A store as [NewMemoryStore] makes it and its own methods keep it. *)
Record memory_wf (s : MemoryStore) : Prop := {
  mw_budget : (1 <= maxEntries s)%nat;
  mw_key : no_empty_key (entries s);
  mw_states : (size (states_of (entries s)) <= maxEntries s)%nat;
  mw_markers : (size (markers_of (entries s)) <= maxEntries s)%nat
}.

Lemma memory_wf_sub s s' : maxEntries s' = maxEntries s -> entries s' ⊆ entries s -> memory_wf s -> memory_wf s'.
Proof.
  intros Hm Hsub [Hb Hk Hs Hmk].
  assert (Hle : forall P `{forall kv, Decision (P kv)}, (size (base.filter P (entries s')) <= size (base.filter P (entries s)))%nat).
  { intros P ?. by apply map_subseteq_size, map_filter_subseteq_mono. }
  split; rewrite ?Hm; [done|..].
  - unfold no_empty_key in *. by eapply lookup_weaken_None.
  - unfold states_of in *. etrans; [apply Hle|done].
  - unfold markers_of in *. etrans; [apply Hle|done].
Qed.

Lemma makeRoom_room key now s r s1 : makeRoomLocked key now s = (r, s1) -> memory_wf s ->
  if isReplayMarker key
  then (r = Ok tt /\ (size (markers_of (entries s1)) < maxEntries s1)%nat) \/
       (r = Err ErrCapacityExhausted /\ (maxEntries s1 <= size (markers_of (entries s1)))%nat)
  else r = Ok tt /\ (size (states_of (entries s1)) < maxEntries s1)%nat.
Proof.
  intros Hr Hwf. unfold makeRoomLocked in Hr. pose proof (purge_sub now (entries s)) as Hps.
  assert (Hp : no_empty_key (purgeExpiredLocked now (entries s)).2).
  { eapply lookup_weaken_None; [|exact Hps]. apply Hwf. }
  unfold purgeExpiredLocked in Hr, Hp. cbn [snd] in Hp. destruct (isReplayMarker key).
  - destruct (maxEntries s <=? _)%nat eqn:El; injection Hr as <- <-; [right|left]; (split; [done|]); simpl.
    + by apply Nat.leb_le in El.
    + by apply Nat.leb_gt in El.
  - destruct (shed _ _ _) as [r0 m'] eqn:Esh. injection Hr as -> <-. simpl.
    by apply shed_room in Esh; [|done|done|apply Hwf].
Qed.

Lemma Put_max key entry ttl now s r s' :
  Memory_PutIfAbsent key entry ttl now s = (r, s') -> maxEntries s' = maxEntries s.
Proof.
  intros E. apply Memory_Put_inv in E as [(_ & ->)|(_ & _ & _ & r1 & s1 & Hr & Hcase)]; [done|].
  apply makeRoom_keeps in Hr as (<- & _). by destruct Hcase as [(e & _ & _ & ->)|(_ & _ & ->)].
Qed.

Lemma Put_wf key entry ttl now s r s' : Memory_PutIfAbsent key entry ttl now s = (r, s') -> memory_wf s -> memory_wf s'.
Proof.
  intros E Hwf. apply Memory_Put_inv in E as [(_ & ->)|(Hne & Ht & _ & r1 & s1 & Hr & Hcase)]; [done|].
  pose proof (makeRoom_keeps _ _ _ _ _ Hr) as (Hmax & Hsub & _).
  assert (Hwf1 : memory_wf s1) by by eapply memory_wf_sub.
  destruct Hcase as [(e & _ & _ & ->)|(-> & _ & ->)]; [done|]. destruct Hwf1 as [Hb Hk Hs Hm].
  pose proof (makeRoom_room _ _ _ _ _ Hr Hwf) as Hroom.
  split; cbn [with_entries entries maxEntries].
  - done.
  - unfold no_empty_key in *. by rewrite lookup_insert_ne.
  - unfold states_of in *. destruct (isReplayMarker key) eqn:Em.
    + rewrite map_filter_insert_False by (simpl; congruence).
      etrans; [|exact Hs]. apply map_subseteq_size, map_filter_subseteq_mono, delete_subseteq.
    + rewrite map_filter_insert_True by done. etrans; [apply map_size_insert_le|]. destruct Hroom as [_ Hroom]. lia.
  - unfold markers_of in *. destruct (isReplayMarker key) eqn:Em.
    + rewrite map_filter_insert_True by done. etrans; [apply map_size_insert_le|]. destruct Hroom as [[_ Hroom]|[[=] _]]. lia.
    + rewrite map_filter_insert_False by (simpl; congruence).
      etrans; [|exact Hm]. apply map_subseteq_size, map_filter_subseteq_mono, delete_subseteq.
Qed.

Lemma Put_state_accepted key entry ttl now s s' :
  memory_wf s -> isReplayMarker key = false -> Memory_PutIfAbsent key entry ttl now s <> (Err ErrCapacityExhausted, s').
Proof.
  intros Hwf Hm E. unfold Memory_PutIfAbsent in E. repeat (case_match; [done|]).
  destruct (makeRoomLocked key now s) as [r1 s1] eqn:Er. pose proof (makeRoom_room _ _ _ _ _ Er Hwf) as Hr.
  rewrite Hm in Hr. by destruct Hr as [-> _].
Qed.

Lemma Put_marker_full key entry ttl now s s' :
  memory_wf s -> Memory_PutIfAbsent key entry ttl now s = (Err ErrCapacityExhausted, s') ->
  size (markers_of (entries s')) = maxEntries s.
Proof.
  intros Hwf E. pose proof (Put_wf _ _ _ _ _ _ _ E Hwf) as [_ _ _ Hle].
  unfold Memory_PutIfAbsent in E. repeat (case_match; [done|]).
  destruct (makeRoomLocked key now s) as [r1 s1] eqn:Er. pose proof (makeRoom_keeps _ _ _ _ _ Er) as (Hmax & _).
  pose proof (makeRoom_room _ _ _ _ _ Er Hwf) as Hr. destruct r1 as [[]|e]; [done|]. injection E as -> ->.
  destruct (isReplayMarker key); [|by destruct Hr as [[=] _]]. destruct Hr as [[[=] _]|[_ Hge]]. lia.
Qed.

Lemma history_memory_wf `{EnvelopeCodec} s0 t0 t h s :
  history s0 t0 t h s -> memory_wf s0 -> memory_wf s /\ maxEntries s = maxEntries s0.
Proof.
  intros Hh Hwf. induction Hh as [|t t' h s _ [IH IHm] _|t h s _ [IH IHm]|t h s rnd p pl ttl r s' _ [IH IHm] E
    |t h s p st r s' _ [IH IHm] E|t h s k ttl r s' _ [IH IHm] E]; [done|done|..].
  - split; [|done]. eapply memory_wf_sub; [| |exact IH]; [done|apply purge_sub].
  - apply Issue_inv in E as [(? & b & _ & _ & Hp)|(e & _ & [->|(k & b & e' & Hp)])]; [|done|];
      (split; [exact (Put_wf _ _ _ _ _ _ _ Hp IH)|]); rewrite <- IHm; exact (Put_max _ _ _ _ _ _ _ Hp).
  - apply Consume_inv in E as [(-> & _)|(r0 & Ht & _)]; [done|].
    assert (Hmax : maxEntries s' = maxEntries s).
    { cbn in Ht. unfold Memory_Take in Ht. destruct (entries s !! _) as [e|]; [|by injection Ht as _ <-].
      by destruct (expiresAt e <? t)%Z; injection Ht as _ <-. }
    split; [|congruence]. apply Take_entries in Ht as [Ht _]. eapply memory_wf_sub; [exact Hmax| |exact IH].
    rewrite Ht. apply delete_subseteq.
  - apply Reserve_inv in E as [(-> & _)|(r0 & Hp & _)]; [done|].
    split; [exact (Put_wf _ _ _ _ _ _ _ Hp IH)|]. rewrite <- IHm. exact (Put_max _ _ _ _ _ _ _ Hp).
Qed.
End MemoryFacts.

(** ** Properties *)

(** C14: A state is redeemed at most once, by the flow it was minted for: whenever
    [Consume] returns a payload, the latest event of that state before it is an
    [Issue] that returned it with the same purpose (as JSON carries it) and exactly
    that payload, not longer ago than its ttl; so no earlier call redeemed it, and a
    presentation under a wrong purpose or after expiry has destroyed it. *)
Theorem state_redeemed_once {S} `{Store S, EnvelopeCodec} (s0 s : S) t0 now h later t p st pl before :
  unused s0 -> history s0 t0 now h s -> h = later ++ (t, EConsume p st (Ok pl)) :: before ->
  exists p0 since ti ttl earlier,
    json_text p0 = p /\ before = since ++ (ti, EIssue p0 pl ttl (Ok st)) :: earlier /\ (t <= ti + ttl)%Z /\
    Forall (leaves_alone st) since.
Proof.
  intros Hun Hh Heq. destruct (history_split _ _ _ _ _ Hh _ _ _ Heq) as (s1 & s2 & Hb & E). cbn [fst snd] in Hb, E.
  destruct (Consume_outstanding _ _ _ _ _ _ _ _ _ Hun Hb E) as (env & Ho & Hp & <- & Ht).
  apply outstanding_issued in Ho as (since & ti & ttl & earlier & -> & He & Hs).
  exists (Purpose env), since, ti, ttl, earlier. split_and!; [done|done|lia|done].
Qed.

(** A replayed identifier is refused: once [Reserve] has accepted a key, no later
    call accepts it before that reservation's ttl has run out, whatever logins,
    redemptions, other reservations and sweeps come between. *)
Theorem marker_reserved_once {S} `{Store S, EnvelopeCodec} (s0 s : S) t0 now h later t k ttl before t1 ttl1 :
  history s0 t0 now h s -> h = later ++ (t, EReserve k ttl (Ok true)) :: before ->
  In (t1, EReserve k ttl1 (Ok true)) before -> (t1 + ttl1 <= t)%Z.
Proof.
  intros Hh Heq Hin. destruct (history_split _ _ _ _ _ Hh _ _ _ Heq) as (s1 & s2 & Hb & E). cbn [fst snd] in Hb, E.
  apply Z.nlt_ge. intros Hlt. destruct (history_marked _ _ _ _ _ Hb _ _ _ Hin Hlt) as [e He].
  apply Reserve_inv in E as [(_ & e' & [=])|(r0 & Hp & Hok)]. rewrite (Hok eq_refl) in Hp.
  pose proof (put_refuses _ _ _ _ _ _ _ _ Hp He). lia.
Qed.

(** C30: The in-process store stays within its budget in both namespaces whatever is
    called, in whatever order its map is walked; at the budget a login state is
    still accepted, by dropping other login states only, while a replay marker is
    refused and none is ever dropped for room. *)
Theorem MemoryStore_budget `{MapRange, EnvelopeCodec} max t0 now h (s : MemoryStore) :
  history (NewMemoryStore max) t0 now h s ->
  let budget := maxEntries (NewMemoryStore max) in
  maxEntries s = budget /\
  (size (states_of (entries s)) <= budget)%nat /\ (size (markers_of (entries s)) <= budget)%nat /\
  (forall key entry ttl t r s', PutIfAbsent key entry ttl t s = (r, s') ->
     (isReplayMarker key = false -> r <> Err ErrCapacityExhausted) /\
     (r = Err ErrCapacityExhausted -> size (markers_of (entries s')) = budget) /\
     (forall k e, isReplayMarker k = true -> entries s !! k = Some e -> (t < expiresAt e)%Z -> entries s' !! k = Some e)).
Proof.
  intros Hh budget. assert (Hs0 : memory_wf (NewMemoryStore max)).
  { split; [|reflexivity|apply Nat.le_0_l|apply Nat.le_0_l]. unfold NewMemoryStore. simpl.
    destruct (max <=? 0)%Z eqn:E; [unfold DefaultMaxEntries; lia|]. apply Z.leb_gt in E. lia. }
  destruct (history_memory_wf _ _ _ _ _ Hh Hs0) as [Hwf Hmax].
  split; [done|]. unfold budget. rewrite <- Hmax. split; [apply Hwf|]. split; [apply Hwf|].
  intros key entry ttl t r s' Hp. split; [|split].
  - intros Hm ->. exact (Put_state_accepted _ _ _ _ _ _ Hwf Hm Hp).
  - intros ->. exact (Put_marker_full _ _ _ _ _ _ Hwf Hp).
  - intros k e Hk He Hlt.
    assert (Hx : entry_at s' k = Some (data e, expiresAt e)).
    { eapply put_keeps_markers; [exact Hp|done| |done]. apply entry_at_some. eauto. }
    apply entry_at_some in Hx as (e' & -> & [=]). destruct e, e'. simpl in *. congruence.
Qed.

(** ** Witnesses *)

#[export] Instance ex_range : MapRange.
Proof. by refine {| range_of := fun m => map_to_list m |}. Defined.

(** A codec: the purpose and the instant in unary lengths before their bytes. *)
Definition put_nat (n : nat) (l : bytes) : bytes := repeat "1"%char n ++ "0"%char :: l.
Fixpoint get_nat (l : bytes) : option (nat * bytes) :=
  match l with
  | [] => None
  | a :: l => if (a =? "0")%char then Some (O, l)
              else match get_nat l with Some (n, l') => Some (Datatypes.S n, l') | None => None end
  end.

Lemma get_put_nat n l : get_nat (put_nat n l) = Some (n, l).
Proof. induction n as [|n IH]; [done|]. unfold put_nat in *. simpl. by rewrite IH. Qed.

Definition ex_marshal (e : envelope) : result string :=
  let p := bytes_of (Purpose e) in
  Ok (string_of (put_nat (length p) (p ++ put_nat (Z.to_nat (ExpiresAt e)) (put_nat (Z.to_nat (- ExpiresAt e))
        (bytes_of (Payload e)))))).

Definition ex_unmarshal (s : string) : result envelope :=
  match get_nat (bytes_of s) with
  | Some (n, l) =>
      match get_nat (skipn n l) with
      | Some (x, l2) =>
          match get_nat l2 with
          | Some (y, pl) => Ok {| Purpose := string_of (firstn n l); ExpiresAt := (Z.of_nat x - Z.of_nat y)%Z;
                                  Payload := string_of pl |}
          | None => Err (Plain "unexpected end of input")
          end
      | None => Err (Plain "unexpected end of input")
      end
  | None => Err (Plain "unexpected end of input")
  end.

#[export] Instance ex_codec : EnvelopeCodec.
Proof.
  refine {| json_text := fun s => s; Marshal := ex_marshal; Unmarshal := ex_unmarshal |}. intros [p x pl] b [= <-]. unfold ex_unmarshal. simpl.
  rewrite bytes_of_string_of, get_put_nat, drop_app_length, get_put_nat, get_put_nat, take_app_length.
  rewrite !string_of_bytes_of. do 2 f_equal. lia.
Defined.

Definition ex_store : MemoryStore := NewMemoryStore 2.
Definition ex_random : result bytes := Ok (repeat "a"%char 3).

(** A login issued at 0 and redeemed at 5, with a reservation between. *)
Definition ex_issue : result string * MemoryStore := Issue ex_random "login" "session" 10 0 ex_store.
Definition ex_reserve : result bool * MemoryStore := Reserve "assertion" 10 1 (snd ex_issue).
Definition ex_consume : result string * MemoryStore := Consume "login" "YWFh" 5 (snd ex_reserve).
Definition ex_history : list (Z * event) :=
  [(5%Z, EConsume "login" "YWFh" (fst ex_consume)); (1%Z, EReserve "assertion" 10 (fst ex_reserve));
   (0%Z, EIssue "login" "session" 10 (fst ex_issue))].

Lemma ex_history_runs : history ex_store 0 5 ex_history (snd ex_consume).
Proof.
  eapply h_consume; [|apply surjective_pairing]. eapply (h_later _ _ 1); [|lia].
  eapply h_reserve; [|apply surjective_pairing]. eapply (h_later _ _ 0); [|lia].
  eapply h_issue; [apply h_start|apply surjective_pairing].
Qed.

Lemma state_redeemed_once_witness :
  exists p0 since ti ttl earlier, json_text p0 = "login" /\
    [(1%Z, EReserve "assertion" 10 (Ok true)); (0%Z, EIssue "login" "session" 10 (Ok "YWFh"))] =
      since ++ (ti, EIssue p0 "session" ttl (Ok "YWFh")) :: earlier /\ (5 <= ti + ttl)%Z /\
    Forall (leaves_alone "YWFh") since.
Proof.
  apply (state_redeemed_once ex_store (snd ex_consume) 0 5 ex_history [] 5 "login" "YWFh" "session").
  - by intros k.
  - exact ex_history_runs.
  - reflexivity.
Defined.

Definition ex_again : result bool * MemoryStore := Reserve "assertion" 10 11 (snd ex_consume).

(** At the instant its ttl runs out the identifier may be used again. *)
Lemma marker_reserved_once_witness :
  fst ex_again = Ok true /\ (1 + 10 <= 11)%Z.
Proof.
  split; [reflexivity|].
  apply (marker_reserved_once ex_store (snd ex_again) 0 11 ((11%Z, EReserve "assertion" 10 (fst ex_again)) :: ex_history)
           [] 11 "assertion" 10 ex_history).
  - eapply h_reserve; [|apply surjective_pairing]. eapply (h_later _ _ 5); [apply ex_history_runs|lia].
  - reflexivity.
  - right. left. reflexivity.
Defined.

Lemma MemoryStore_budget_witness :
  size (states_of (entries (snd ex_reserve))) = 1%nat /\
  (size (states_of (entries (snd ex_consume))) <= 2)%nat /\ (size (markers_of (entries (snd ex_consume))) <= 2)%nat.
Proof.
  split; [reflexivity|].
  destruct (MemoryStore_budget 2 0 5 ex_history (snd ex_consume) ex_history_runs) as (_ & H1 & H2 & _).
  split; [exact H1|exact H2].
Defined.
End OAuth.
