(* ===== verification/AuditTable.v ===== *)
(** * AuditTable: identity/auditoutbox, table.go and ddl.go

    The tables an application hands to the audit outbox: the grammar their names
    must have, the names generated from them, and the constraint trigger that
    refuses at commit a mutation whose transaction wrote no audit intent for it.

    The text of the rendered DDL is not modelled; what it declares is: the names
    it declares ([OutboxDDL], [TriggerSpec_DDL]), the function it defines
    ([assert_intent]) and the branches of the trigger ([trigger_asserts]). *)

From S2P Require Import Prelude GoStrings PgQuote.
From Stdlib Require Import Ascii.

(** ** table.go *)

Definition ErrInvalidTable : error := Sentinel "identity/auditoutbox: invalid table name".
Definition maxIdentifierLength : nat := MaxIdentifierLength.

(** The schema is empty when the name was given unqualified. *)
Record table := { tb_schema : string; tb_name : string }.

(** [strings.ToLower] as far as an identifier can tell: the ASCII capitals and the
    two other characters whose lower case is ASCII, U+0130 and U+212A. *)
Fixpoint lowered_bytes (l : list ascii) : list ascii :=
  match l with
  | [] => []
  | a :: l1 =>
      match l1 with
      | b :: l2 =>
          if ((code a =? 196) && (code b =? 176))%N then "i"%char :: lowered_bytes l2
          else match l2 with
               | c :: l3 =>
                   if ((code a =? 226) && (code b =? 132) && (code c =? 170))%N then "k"%char :: lowered_bytes l3
                   else lower a :: lowered_bytes l1
               | [] => lower a :: lowered_bytes l1
               end
      | [] => lower a :: lowered_bytes l1
      end
  end.

Definition lowered (part : string) : string := string_of (lowered_bytes (bytes_of part)).

Definition validateIdentifier (part : string) : result unit :=
  if (maxIdentifierLength <? String.length part)%nat
  then Err (Wrap "PostgreSQL truncates the identifier" ErrInvalidTable)
  else if ValidIdentifier part then Ok tt
  else if (lowered part <>s part) && ValidIdentifier (lowered part)
  then Err (Wrap "the name contains upper case" ErrInvalidTable)
  else Err (Wrap "the name is not [a-z_][a-z0-9_$]*" ErrInvalidTable).

Fixpoint validate_parts (parts : list string) : result unit :=
  match parts with
  | [] => Ok tt
  | part :: parts => match validateIdentifier part with Err e => Err e | Ok _ => validate_parts parts end
  end.

Definition parseTable (s : string) : result table :=
  let trimmed := TrimSpace s in
  if trimmed =s "" then Err (Wrap "the name is empty" ErrInvalidTable)
  else
    let parts := Split trimmed "." in
    if (2 <? length parts)%nat then Err (Wrap "too many dot-separated parts" ErrInvalidTable)
    else
      _ ← validate_parts parts;
      mret (match parts with
            | [schema; name] => {| tb_schema := schema; tb_name := name |}
            | part :: _ => {| tb_schema := ""; tb_name := part |}
            | [] => {| tb_schema := ""; tb_name := "" |}
            end).

(** [t.String()] *)
Definition table_String (t : table) : string :=
  if tb_schema t =s "" then tb_name t else tb_schema t +:+ "." +:+ tb_name t.

(** [t.sql()] *)
Definition table_sql `{PgxIdentifier} (t : table) : string :=
  if tb_schema t =s "" then Identifier (tb_name t) else Identifier (tb_schema t) +:+ "." +:+ Identifier (tb_name t).

Definition derive (t : table) (suffix : string) : result table :=
  let name := tb_name t +:+ suffix in
  if (maxIdentifierLength <? String.length name)%nat
  then Err (Wrap "PostgreSQL truncates the generated name" ErrInvalidTable)
  else Ok {| tb_schema := tb_schema t; tb_name := name |}.

(** ** ddl.go: the names the generated schema declares *)

Definition assertIntentSuffix : string := "_assert_intent".
Definition requireIntentSuffix : string := "_require_audit_intent".

Record outbox_ddl := {
  ddl_table : table; ddl_assert : table; ddl_pendingIdx : table; ddl_deliveredIdx : table; ddl_txidIdx : table
}.

Definition OutboxDDL (outboxTable : string) : result outbox_ddl :=
  t ← parseTable outboxTable;
  assert ← derive t assertIntentSuffix;
  pendingIdx ← derive t "_pending_idx";
  deliveredIdx ← derive t "_delivered_idx";
  txidIdx ← derive t "_txid_idx";
  mret {| ddl_table := t; ddl_assert := assert; ddl_pendingIdx := pendingIdx;
          ddl_deliveredIdx := deliveredIdx; ddl_txidIdx := txidIdx |}.

(** The function and the table its down migration drops. *)
Definition OutboxDropDDL (outboxTable : string) : result (table * table) :=
  t ← parseTable outboxTable;
  assert ← derive t assertIntentSuffix;
  mret (assert, t).

Record TriggerSpec := {
  ts_Outbox : string; ts_Table : string; ts_SubjectColumn : string; ts_ResourceType : string;
  OnInsert : string; OnUpdate : string; OnDelete : string
}.

Definition TriggerSpec_names (s : TriggerSpec) : result (table * table * table) :=
  outbox ← parseTable (ts_Outbox s);
  guarded ← parseTable (ts_Table s);
  if ts_SubjectColumn s =s "" then Err (Wrap "TriggerSpec names no SubjectColumn" ErrInvalidTable)
  else
    _ ← validateIdentifier (ts_SubjectColumn s);
    if TrimSpace (ts_ResourceType s) =s "" then Err (Wrap "TriggerSpec names no ResourceType" ErrInvalidTable)
    else if (OnInsert s =s "") && (OnUpdate s =s "") && (OnDelete s =s "")
    then Err (Wrap "TriggerSpec guards no operation" ErrInvalidTable)
    else
      fn ← derive guarded requireIntentSuffix;
      mret (outbox, guarded, fn).

Inductive operation := INSERT | UPDATE | DELETE.

(** The operations the trigger fires after, in the order of the events clause. *)
Definition trigger_events (s : TriggerSpec) : list operation :=
  (if OnInsert s <>s "" then [INSERT] else []) ++
  (if OnUpdate s <>s "" then [UPDATE] else []) ++
  (if OnDelete s <>s "" then [DELETE] else []).

(** The trigger function and its table, the operations it fires after and the
    function it calls. *)
Definition TriggerSpec_DDL (s : TriggerSpec) : result (table * table * list operation * table) :=
  names ← TriggerSpec_names s;
  let '(outbox, guarded, fn) := names in
  assert ← derive outbox assertIntentSuffix;
  mret (fn, guarded, trigger_events s, assert).

(** The trigger function and the table the down migration drops it from. *)
Definition TriggerSpec_DropDDL (s : TriggerSpec) : result (table * table) :=
  names ← TriggerSpec_names s;
  let '(_, guarded, fn) := names in
  mret (fn, guarded).

(** What a trigger's migration creates its down migration drops. *)
Lemma TriggerSpec_drops_what_it_creates s fn guarded events assert :
  TriggerSpec_DDL s = Ok (fn, guarded, events, assert) -> TriggerSpec_DropDDL s = Ok (fn, guarded).
Proof.
  unfold TriggerSpec_DDL, TriggerSpec_DropDDL. destruct (TriggerSpec_names s) as [[[outbox g] f]|e]; [|done]. simpl.
  by destruct (derive outbox _) as [a|e]; simpl; intros [= <- <- _ _].
Qed.

(** ** The trigger *)

(** A row the guarded table's transaction wrote, by its subject column as text. *)
Inductive row_event :=
| Inserted (new : option string)
| Updated (old new : option string)
| Deleted (old : option string).

(** What an outbox row shows the assertion: its transaction, resource and action. *)
Record intent_key := {
  ik_txid : nat; ik_resource_type : option string; ik_resource_id : option string; ik_action : string
}.

Section Trigger.
(** PostgreSQL's lower(). *)
Variable sql_lower : string -> string.

Definition check_violation : error := Sentinel "SQLSTATE 23514".

Definition names_subject (txid : nat) (subject resource action : string) (k : intent_key) : bool :=
  (ik_txid k =? txid)%nat && col_is (ik_resource_type k) resource &&
  match ik_resource_id k with Some id => sql_lower id =s sql_lower subject | None => false end &&
  (ik_action k =s action).

Definition assert_intent (txid : nat) (rows : list intent_key) (subject : option string) (resource action : string) : result unit :=
  match subject with
  | None => Err check_violation
  | Some subject => if existsb (names_subject txid subject resource action) rows then Ok tt else Err check_violation
  end.

(** The subjects and actions the trigger's branch for an event asserts. *)
Definition trigger_asserts (s : TriggerSpec) (ev : row_event) : list (option string * string) :=
  match ev with
  | Inserted new => if OnInsert s <>s "" then [(new, OnInsert s)] else []
  | Updated old new =>
      if OnUpdate s <>s ""
      then (old, OnUpdate s) :: (if bool_decide (new = old) then [] else [(new, OnUpdate s)])
      else []
  | Deleted old => if OnDelete s <>s "" then [(old, OnDelete s)] else []
  end.

Fixpoint assert_all (s : TriggerSpec) (txid : nat) (rows : list intent_key) (l : list (option string * string)) : result unit :=
  match l with
  | [] => Ok tt
  | (subject, action) :: l =>
      match assert_intent txid rows subject (ts_ResourceType s) action with
      | Err e => Err e
      | Ok _ => assert_all s txid rows l
      end
  end.

(** The deferred trigger at commit, over every row event of the transaction. *)
Definition commit_check (s : TriggerSpec) (txid : nat) (rows : list intent_key) (events : list row_event) : result unit :=
  assert_all s txid rows (List.flat_map (trigger_asserts s) events).

(** An intent of transaction [txid] accounts for one audited subject. *)
Definition accounted (s : TriggerSpec) (txid : nat) (rows : list intent_key) (subject : option string) (action : string) : Prop :=
  exists sub k, subject = Some sub /\ In k rows /\ ik_txid k = txid /\ ik_resource_type k = Some (ts_ResourceType s) /\
    (exists id, ik_resource_id k = Some id /\ sql_lower id = sql_lower sub) /\ ik_action k = action.

Lemma assert_intent_accounted s txid rows subject action :
  assert_intent txid rows subject (ts_ResourceType s) action = Ok tt <-> accounted s txid rows subject action.
Proof.
  unfold assert_intent, accounted. destruct subject as [sub|]; [|split; [done|by intros (? & ? & ? & _)]].
  split.
  - destruct (existsb _ _) eqn:E; [intros _|done]. apply existsb_exists in E as (k & Hk & E).
    unfold names_subject in E. rewrite !andb_true_iff, Nat.eqb_eq, col_is_true, seqb_true in E.
    destruct E as [[[? ?] E] ?]. destruct (ik_resource_id k) as [id|] eqn:Ei; [|done]. apply seqb_true in E.
    exists sub, k. repeat split; eauto.
  - intros (sub' & k & [= <-] & Hk & Ht & Hr & (id & Hi & El) & Ha).
    assert (existsb (names_subject txid sub (ts_ResourceType s) action) rows = true) as ->; [|done].
    apply existsb_exists. exists k. split; [done|]. unfold names_subject.
    by rewrite Ht, Hr, Hi, Ha, Nat.eqb_refl, El, !seqb_refl; simpl; rewrite seqb_refl.
Qed.

Lemma assert_all_Ok s txid rows l :
  assert_all s txid rows l = Ok tt <-> Forall (fun x => accounted s txid rows (fst x) (snd x)) l.
Proof.
  induction l as [|[sub act] l IH]; simpl; [by split|].
  rewrite Forall_cons, <- IH. simpl. rewrite <- assert_intent_accounted.
  destruct (assert_intent _ _ _ _ _) as [[]|e]; by split; [intros|intros []].
Qed.
End Trigger.

(** ** Well-formed names *)

Record wf_table (t : table) : Prop := {
  wf_schema : tb_schema t = "" \/ ValidIdentifier (tb_schema t) = true;
  wf_name : ValidIdentifier (tb_name t) = true
}.

Lemma validateIdentifier_Ok part u : validateIdentifier part = Ok u <-> ValidIdentifier part = true.
Proof.
  unfold validateIdentifier. destruct u. destruct (_ <? _)%nat eqn:El.
  - split; [done|]. unfold ValidIdentifier. apply Nat.ltb_lt in El. unfold maxIdentifierLength in El.
    rewrite (proj2 (Nat.leb_gt _ _) El). done.
  - destruct (ValidIdentifier part); [done|]. case_match; done.
Qed.

Lemma validateIdentifier_Err part e : validateIdentifier part = Err e -> errors_Is e "identity/auditoutbox: invalid table name" = true.
Proof. unfold validateIdentifier. repeat case_match; by intros [= <-]. Qed.

Lemma validate_parts_Ok parts u : validate_parts parts = Ok u <-> Forall (fun p => ValidIdentifier p = true) parts.
Proof.
  destruct u. induction parts as [|p parts IH]; simpl; [by split|]. rewrite Forall_cons, <- IH.
  rewrite <- (validateIdentifier_Ok p tt). destruct (validateIdentifier p) as [[]|]; by split; [intros|intros []].
Qed.

Lemma valid_nonempty : ValidIdentifier "" = false.
Proof. done. Qed.

Lemma parseTable_Ok s t :
  parseTable s = Ok t <->
  Split (TrimSpace s) "." = (if tb_schema t =s "" then [tb_name t] else [tb_schema t; tb_name t]) /\ wf_table t.
Proof.
  unfold parseTable. destruct (TrimSpace s =s "") eqn:Et.
  { apply seqb_true in Et. rewrite Et. split; [done|]. intros [E [_ Hv]].
    change (Split "" ".") with [""] in E. destruct (tb_schema t =s ""); [|done]. injection E as E. by rewrite <- E in Hv. }
  destruct (2 <? _)%nat eqn:El.
  { split; [done|]. intros [E _]. rewrite E in El. by destruct (tb_schema t =s ""). }
  apply Nat.ltb_ge in El. set (parts := Split (TrimSpace s) ".") in *.
  assert (Hne : parts <> []).
  { unfold parts, Split. by destruct (split_byte_cons "." (bytes_of (TrimSpace s))) as (? & ? & ->). }
  split.
  - intros E. apply result_bind_Ok in E as ([] & Hv & [= Ht]).
    apply validate_parts_Ok in Hv. destruct parts as [|p [|q [|r parts]]]; simpl in *; [done| | |lia]; subst t; simpl.
    + split; [done|]. split; [by left|]. by inversion Hv.
    + inversion Hv as [|? ? Hp Hv']; subst. inversion Hv' as [|? ? Hq _]; subst.
      destruct (p =s "") eqn:Ep; [apply seqb_true in Ep; by rewrite Ep in Hp|].
      split; [done|]. split; [by right|done].
  - intros [E [Hs Hn]]. rewrite E. destruct t as [sch nam]; simpl in *.
    destruct (sch =s "") eqn:Es; simpl.
    + apply seqb_true in Es. subst. rewrite (proj2 (validateIdentifier_Ok _ tt) Hn). done.
    + apply seqb_false in Es. destruct Hs as [Hs|Hs]; [done|].
      rewrite (proj2 (validateIdentifier_Ok sch tt) Hs), (proj2 (validateIdentifier_Ok nam tt) Hn). done.
Qed.

Lemma parseTable_wf s t : parseTable s = Ok t -> wf_table t.
Proof. by intros [_ ?]%parseTable_Ok. Qed.

Lemma table_String_parts t :
  table_String t = Join (if tb_schema t =s "" then [tb_name t] else [tb_schema t; tb_name t]) ".".
Proof.
  unfold table_String, Join. destruct (tb_schema t =s ""); simpl; [by rewrite string_of_bytes_of|].
  rewrite <- (string_of_bytes_of (_ +:+ _)). f_equal. by rewrite !bytes_of_app.
Qed.

(** The name a parsed table prints is the text it was parsed from, trimmed. *)
Lemma parse_prints s t : parseTable s = Ok t -> table_String t = TrimSpace s.
Proof. intros [E _]%parseTable_Ok. by rewrite table_String_parts, <- E, Join_Split. Qed.

(** A well-formed table's name parses back to it. *)
Lemma print_parses t : wf_table t -> parseTable (table_String t) = Ok t.
Proof.
  intros Hwf. pose proof Hwf as [Hs Hn]. apply parseTable_Ok. split; [|done].
  set (parts := if tb_schema t =s "" then [tb_name t] else [tb_schema t; tb_name t]).
  assert (Hf : Forall (fun p => ValidIdentifier p = true) parts).
  { unfold parts. destruct (tb_schema t =s "") eqn:E; [by repeat constructor|].
    apply seqb_false in E. destruct Hs; [done|]. by repeat constructor. }
  rewrite TrimSpace_plain, table_String_parts; [fold parts; apply valid_parts_split; [|done]|].
  { unfold parts. by case_match. }
  rewrite table_String_parts. fold parts. unfold Join. rewrite bytes_of_string_of.
  assert (Hp : forall p, In p parts -> Forall (fun a => plain_byte a = true) (bytes_of p)).
  { intros p Hp. apply List.Forall_forall. intros a Ha. rewrite List.Forall_forall in Hf.
    by destruct (lower_not_special a (valid_bytes p a (Hf p Hp) Ha)). }
  unfold parts in *. destruct (tb_schema t =s ""); simpl in *.
  - apply Hp. by left.
  - apply Forall_app. split; [by apply Hp; left|]. constructor; [done|]. apply Hp. by right; left.
Qed.

(** ** Generated names *)

Definition suffix_ok (suffix : string) : bool := forallb identifier_rest (bytes_of suffix).

Lemma derive_wf t suffix t' : wf_table t -> suffix_ok suffix = true -> derive t suffix = Ok t' -> wf_table t' /\
  tb_name t' = tb_name t +:+ suffix.
Proof.
  intros [Hs Hn] Hsuf. unfold derive. destruct (_ <? _)%nat eqn:El; [done|]. intros [= <-]. split; [|done].
  split; [done|]. simpl. unfold ValidIdentifier in *. apply Nat.ltb_ge in El.
  change maxIdentifierLength with MaxIdentifierLength in El. rewrite (proj2 (Nat.leb_le _ _) El). simpl. apply andb_prop in Hn as [_ Hn].
  unfold identifierPattern in *. rewrite bytes_of_app. destruct (bytes_of (tb_name t)) as [|a l]; [done|]. simpl.
  apply andb_prop in Hn as [-> Hl]. simpl. rewrite forallb_app, Hl. done.
Qed.

Lemma suffix_inj (n s1 s2 : string) : n +:+ s1 = n +:+ s2 -> s1 = s2.
Proof.
  intros E. apply (f_equal bytes_of) in E. rewrite !bytes_of_app in E. apply app_inv_head in E.
  rewrite <- (string_of_bytes_of s1), <- (string_of_bytes_of s2). by rewrite E.
Qed.

Lemma parseTable_Err s e : parseTable s = Err e -> errors_Is e "identity/auditoutbox: invalid table name" = true.
Proof.
  unfold parseTable. case_match; [by intros [= <-]|]. case_match; [by intros [= <-]|].
  destruct (validate_parts _) as [u|e'] eqn:Ev; [done|]. intros [= <-]. revert Ev.
  generalize (Split (TrimSpace s) "."). intros parts. induction parts as [|p parts IH]; simpl; [done|].
  destruct (validateIdentifier p) as [u|e''] eqn:Ep; [done|]. intros [= ->]. by eapply validateIdentifier_Err.
Qed.

Lemma derive_Err t suffix e : derive t suffix = Err e -> errors_Is e "identity/auditoutbox: invalid table name" = true.
Proof. unfold derive. case_match; by intros [= <-]. Qed.

(** A generated object belongs to the schema of the table it was generated from
    and carries its name and a suffix of its own. *)
Definition generated (t : table) (suffix : string) (t' : table) : Prop :=
  wf_table t' /\ tb_schema t' = tb_schema t /\ tb_name t' = tb_name t +:+ suffix.

Lemma derive_generated t suffix t' :
  wf_table t -> suffix_ok suffix = true -> derive t suffix = Ok t' -> generated t suffix t'.
Proof.
  intros Hwf Hs E. destruct (derive_wf _ _ _ Hwf Hs E). split; [done|]. split; [|done].
  unfold derive in E. destruct (_ <? _)%nat; [done|]. by injection E as <-.
Qed.

(** ** Properties *)

(** C31: table names are typed. What [parseTable] accepts is exactly the well-formed
    [schema.table] names (each part an identifier of the grammar, which PostgreSQL
    neither folds nor truncates), the printed name being the trimmed input, and
    printing and parsing are inverse. A schema the package renders for an outbox
    declares only well-formed names, each the table's own name and a suffix of
    its own, so that no two of them are one object after truncation. *)
Theorem table_names_typed :
  (forall s t, parseTable s = Ok t -> wf_table t /\ table_String t = TrimSpace s) /\
  (forall t, wf_table t -> parseTable (table_String t) = Ok t) /\
  (forall s d, OutboxDDL s = Ok d ->
     parseTable s = Ok (ddl_table d) /\ generated (ddl_table d) assertIntentSuffix (ddl_assert d) /\
     generated (ddl_table d) "_pending_idx" (ddl_pendingIdx d) /\
     generated (ddl_table d) "_delivered_idx" (ddl_deliveredIdx d) /\
     generated (ddl_table d) "_txid_idx" (ddl_txidIdx d) /\
     List.NoDup (List.map tb_name [ddl_table d; ddl_assert d; ddl_pendingIdx d; ddl_deliveredIdx d; ddl_txidIdx d])).
Proof.
  split; [intros s t E; split; [by eapply parseTable_wf|by apply parse_prints]|]. split; [exact print_parses|].
  intros s d E. unfold OutboxDDL in E.
  apply result_bind_Ok in E as (t & Et & E). pose proof (parseTable_wf _ _ Et) as Hwf.
  apply result_bind_Ok in E as (t1 & E1 & E). apply derive_generated in E1; [|done..].
  apply result_bind_Ok in E as (t2 & E2 & E). apply derive_generated in E2; [|done..].
  apply result_bind_Ok in E as (t3 & E3 & E). apply derive_generated in E3; [|done..].
  apply result_bind_Ok in E as (t4 & E4 & [= <-]). apply derive_generated in E4; [|done..]. simpl.
  split; [done|]. split; [done|]. split; [done|]. split; [done|]. split; [done|].
  destruct E1 as (_ & _ & ->), E2 as (_ & _ & ->), E3 as (_ & _ & ->), E4 as (_ & _ & ->).
  assert (Hself : forall suf, suf <> "" -> tb_name t <> tb_name t +:+ suf).
  { intros suf Hne E. apply Hne, (suffix_inj (tb_name t)). rewrite <- E.
    by rewrite <- (string_of_bytes_of (tb_name t +:+ "")), bytes_of_app, app_nil_r, string_of_bytes_of. }
  assert (Hne : forall s1 s2, s1 <> s2 -> tb_name t +:+ s1 <> tb_name t +:+ s2).
  { intros s1 s2 Hd E. by apply Hd, (suffix_inj (tb_name t)). }
  simpl. rewrite !NoDup_cons_iff; simpl. repeat split; [..|constructor]; intros Hin;
    repeat destruct Hin as [Hin|Hin]; try done; symmetry in Hin; revert Hin;
    first [apply Hself; discriminate|apply Hne; discriminate].
Qed.

Lemma table_names_typed_witness :
  exists d, OutboxDDL " registry.audit_outbox" = Ok d /\ ddl_txidIdx d = {| tb_schema := "registry"; tb_name := "audit_outbox_txid_idx" |} /\
    parseTable " registry.audit_outbox" = Ok (ddl_table d).
Proof.
  eexists. split; [reflexivity|]. split; [reflexivity|].
  by eapply (proj2 (proj2 table_names_typed) " registry.audit_outbox").
Defined.

(** What a row event of a guarded operation owes: the subjects to account for and
    the action that accounts for them. *)
Definition owed (s : TriggerSpec) (ev : row_event) (subject : option string) (action : string) : Prop :=
  action <> "" /\
  match ev with
  | Inserted new => subject = new /\ action = OnInsert s
  | Updated old new => (subject = old \/ subject = new) /\ action = OnUpdate s
  | Deleted old => subject = old /\ action = OnDelete s
  end.

Lemma trigger_asserts_owed s ev subject action :
  In (subject, action) (trigger_asserts s ev) <-> owed s ev subject action.
Proof.
  unfold trigger_asserts, owed. destruct ev as [new|old new|old].
  - destruct (OnInsert s =s "") eqn:E; simpl.
    + apply seqb_true in E. split; [done|]. intros (? & _ & ->). done.
    + apply seqb_false in E. split; [intros [[= <- <-]|[]]; done|intros (_ & -> & ->); by left].
  - destruct (OnUpdate s =s "") eqn:E; simpl.
    + apply seqb_true in E. split; [done|]. intros (? & _ & ->). done.
    + apply seqb_false in E. destruct (bool_decide (new = old)) eqn:Eb.
      * apply bool_decide_eq_true in Eb as ->. simpl. split; [intros [[= <- <-]|[]]; split; [done|by split; [left|]]|].
        intros (_ & [-> | ->] & ->); by left.
      * simpl. split; [intros [[= <- <-]|[[= <- <-]|[]]]; (split; [done|split; [|done]]); [by left|by right]|].
        intros (_ & [-> | ->] & ->); [by left|by right; left].
  - destruct (OnDelete s =s "") eqn:E; simpl.
    + apply seqb_true in E. split; [done|]. intros (? & _ & ->). done.
    + apply seqb_false in E. split; [intros [[= <- <-]|[]]; done|intros (_ & -> & ->); by left].
Qed.

(** The commit check is exact. A transaction passes the deferred constraint
    trigger if and only if every row it wrote under a guarded operation is
    accounted for by an outbox row of that very transaction, with the spec's
    resource type, that operation's action and the row's subject (a repointed
    subject needs one for the old and one for the new); a row without a subject,
    an intent of an earlier transaction or one under another action never passes. *)
Theorem commit_check_exact sql_lower s txid rows events :
  commit_check sql_lower s txid rows events = Ok tt <->
  (forall ev subject action, In ev events -> owed s ev subject action ->
     accounted sql_lower s txid rows subject action).
Proof.
  unfold commit_check. rewrite assert_all_Ok, List.Forall_forall. split.
  - intros Hall ev subject action Hev Ho. apply trigger_asserts_owed in Ho.
    apply (Hall (subject, action)), in_flat_map. eauto.
  - intros Hall [subject action] Hin. apply in_flat_map in Hin as (ev & Hev & Hin).
    apply trigger_asserts_owed in Hin. by eapply Hall.
Qed.

(** A trigger that renders guards at least one operation, under well-formed
    generated names; whatever does not render is an invalid table name. *)
Lemma TriggerSpec_DDL_spec s :
  match TriggerSpec_DDL s with
  | Ok (fn, guarded, events, assert) =>
      events <> [] /\ generated guarded requireIntentSuffix fn /\
      exists outbox, parseTable (ts_Outbox s) = Ok outbox /\ generated outbox assertIntentSuffix assert
  | Err e => errors_Is e "identity/auditoutbox: invalid table name" = true
  end.
Proof.
  unfold TriggerSpec_DDL, TriggerSpec_names.
  destruct (parseTable (ts_Outbox s)) as [outbox|e] eqn:Eo; [|by eapply parseTable_Err]. simpl.
  destruct (parseTable (ts_Table s)) as [guarded|e] eqn:Eg; [|by eapply parseTable_Err]. simpl.
  destruct (ts_SubjectColumn s =s ""); [done|].
  destruct (validateIdentifier _) as [u|e] eqn:Ev; [simpl|by eapply validateIdentifier_Err].
  destruct (TrimSpace _ =s ""); [done|].
  destruct (_ && _ && _) eqn:Eops; [done|].
  destruct (derive guarded _) as [fn|e] eqn:Ef; [simpl|by eapply derive_Err].
  destruct (derive outbox _) as [assert|e] eqn:Ea; [simpl|by eapply derive_Err].
  apply derive_generated in Ef, Ea; try done; try by eapply parseTable_wf.
  split; [|eauto]. unfold trigger_events. by destruct (OnInsert s =s ""), (OnUpdate s =s ""), (OnDelete s =s "").
Qed.

Definition ex_spec : TriggerSpec := {|
  ts_Outbox := "audit_outbox"; ts_Table := "platform_admins"; ts_SubjectColumn := "user_id";
  ts_ResourceType := "user"; OnInsert := "platform_admin.granted"; OnUpdate := ""; OnDelete := "platform_admin.revoked" |}.

Definition ex_key (txid : nat) (action : string) : intent_key :=
  {| ik_txid := txid; ik_resource_type := Some "user"; ik_resource_id := Some "u1"; ik_action := action |}.

(** A grant's record of an earlier transaction, or the record of a grant for a
    revocation, does not let the commit pass. *)
Example ex_commit :
  is_ok (commit_check id ex_spec 7 [ex_key 7 "platform_admin.granted"] [Inserted (Some "u1")]) = true /\
  is_ok (commit_check id ex_spec 7 [ex_key 6 "platform_admin.granted"] [Inserted (Some "u1")]) = false /\
  is_ok (commit_check id ex_spec 7 [ex_key 7 "platform_admin.granted"] [Deleted (Some "u1")]) = false /\
  is_ok (commit_check id ex_spec 7 [] [Updated (Some "u1") (Some "u2")]) = true.
Proof. done. Qed.

Example ex_trigger_ddl :
  TriggerSpec_DDL ex_spec =
    Ok ({| tb_schema := ""; tb_name := "platform_admins_require_audit_intent" |},
        {| tb_schema := ""; tb_name := "platform_admins" |}, [INSERT; DELETE],
        {| tb_schema := ""; tb_name := "audit_outbox_assert_intent" |}).
Proof. reflexivity. Qed.
