(* ===== verification/AuditOutbox.v ===== *)
(** * AuditOutbox: identity/auditoutbox, intent.go and outbox.go

    The transactional audit outbox: an audit intent is a row of the application's
    outbox table, written in the transaction of the mutation it describes. The
    sink that writes it to the audit table is in AuditSink.v, the relay that moves
    one to the other in AuditRelay.v.

    The outbox tables are the application's: a process state holds them by name
    through [HasOutbox]. JSON coding is a parameter. A statement the column types
    refuse (a UUID, a length) is a fault of that statement. *)

From S2P Require Import Prelude GoStrings Order PgQuote Db AuditTable.

(** ** Errors *)

Definition ErrNoOutbox : error := Sentinel "identity/auditoutbox: outbox not configured".
Definition ErrIntentIncomplete : error := Sentinel "identity/auditoutbox: audit intent is incomplete".
Definition ErrIntentRequired : error := Sentinel "identity/auditoutbox: privileged mutation requires an audit intent writer".

(** ** JSON *)

(** [map[string]interface{}] and encoding/json; JSON null decodes to a nil map. *)
Class JSONObjects := {
  json_object : Type;
  json_Marshal : json_object -> result string;
  json_Unmarshal : string -> result (option json_object);
  metadata_unreadable : error -> json_object
}.

(** ** Rows *)

(** The columns of an outbox row that hold the intent. *)
Record stored_intent := {
  s_event_id : string; s_occurred_at : Z; s_action : string; s_actor_user_id : option string;
  s_actor_email : option string; s_organization_id : option string; s_resource_type : option string;
  s_resource_id : option string; s_ip_address : option string; s_metadata : option string
}.

Record OutboxRow := {
  r_intent : stored_intent; r_txid : nat;
  r_delivered_at : option Z; r_attempts : Z; r_last_error : option error
}.

Definition row_id (r : OutboxRow) : string := s_event_id (r_intent r).
Definition is_pending (r : OutboxRow) : bool := match r_delivered_at r with None => true | Some _ => false end.

Definition row_key (r : OutboxRow) : intent_key := {|
  ik_txid := r_txid r; ik_resource_type := s_resource_type (r_intent r);
  ik_resource_id := s_resource_id (r_intent r); ik_action := s_action (r_intent r) |}.

(** The application's outbox tables, the id of the current transaction and the rows
    other transactions hold locked. *)
Class HasOutbox (St : Type) := {
  outbox_rows : table -> St -> option (list OutboxRow);
  put_outbox : table -> list OutboxRow -> St -> St;
  current_xact : St -> nat;
  skip_locked : St -> string -> bool;
  outbox_put : forall t s l l', outbox_rows t s = Some l -> outbox_rows t (put_outbox t l' s) = Some l';
  locked_put : forall t l s, skip_locked (put_outbox t l s) = skip_locked s
}.

(** ** Statements *)

(** INSERT: the event id is the primary key; the other columns take their defaults. *)
Definition insert_intent (i : stored_intent) (txid : nat) (rows : list OutboxRow) : result (unit * list OutboxRow) :=
  if existsb (fun r => row_id r =s s_event_id i) rows then Err unique_violation
  else Ok (tt, rows ++ [{| r_intent := i; r_txid := txid; r_delivered_at := None; r_attempts := 0; r_last_error := None |}]).

(** ORDER BY occurred_at ASC, event_id ASC *)
Definition pending_order (x y : stored_intent) : bool :=
  (s_occurred_at x <? s_occurred_at y)%Z ||
  ((s_occurred_at x =? s_occurred_at y)%Z && String.leb (s_event_id x) (s_event_id y)).

Definition claim_rows (locked : string -> bool) (limit : Z) (rows : list OutboxRow) : list OutboxRow :=
  firstn (Z.to_nat limit) (sort_by (fun x y => pending_order (r_intent x) (r_intent y))
    (List.filter (fun r => is_pending r && negb (locked (row_id r))) rows)).

Definition mark_row (now : Z) (r : OutboxRow) : OutboxRow := {|
  r_intent := r_intent r; r_txid := r_txid r; r_delivered_at := Some now;
  r_attempts := r_attempts r + 1; r_last_error := None |}.

Definition fail_row (cause : error) (r : OutboxRow) : OutboxRow := {|
  r_intent := r_intent r; r_txid := r_txid r; r_delivered_at := r_delivered_at r;
  r_attempts := r_attempts r + 1; r_last_error := Some cause |}.

(** UPDATE ... WHERE event_id = $1 *)
Definition update_row (id : string) (f : OutboxRow -> OutboxRow) (rows : list OutboxRow) : result (unit * list OutboxRow) :=
  Ok (tt, rows_upd (fun r => row_id r =s id) f rows).

(** DELETE ... WHERE event_id IN (SELECT ... delivered_at < $1 ORDER BY delivered_at LIMIT $2) *)
Definition delivered_before (before : Z) (r : OutboxRow) : bool :=
  match r_delivered_at r with Some t => (t <? before)%Z | None => false end.
Definition delivered_order (x y : OutboxRow) : bool :=
  match r_delivered_at x, r_delivered_at y with
  | Some a, Some b => (a <=? b)%Z
  | Some _, None => true
  | None, _ => false
  end.
Definition prune_rows (before limit : Z) (rows : list OutboxRow) : result (nat * list OutboxRow) :=
  let doomed := List.map row_id (firstn (Z.to_nat limit)
    (sort_by delivered_order (List.filter (delivered_before before) rows))) in
  Ok (rows_count (fun r => mem (row_id r) doomed) rows, rows_del (fun r => mem (row_id r) doomed) rows).

(** count(star), count(star) FILTER (WHERE attempts > 0), min(occurred_at) of the pending rows *)
Record Backlog := { Pending : Z; Failed : Z; OldestPending : option Z }.

Definition min_occurred (rows : list OutboxRow) : option Z :=
  fold_right (fun r m => let t := s_occurred_at (r_intent r) in
    Some (match m with None => t | Some m => Z.min t m end)) None rows.

Definition backlog_of (rows : list OutboxRow) : Backlog :=
  let pending := List.filter is_pending rows in
  {| Pending := Z.of_nat (length pending);
     Failed := Z.of_nat (rows_count (fun r => (0 <? r_attempts r)%Z) pending);
     OldestPending := min_occurred pending |}.

Definition defaultPruneLimit : Z := 1000.

Section Outbox.
Context `{JSONObjects}.

(** ** intent.go *)

(** [OccurredAt] is [None] when it is the zero time. *)
Record Intent := {
  i_EventID : string; i_OccurredAt : option Z; i_Action : string; i_ActorUserID : option string;
  i_ActorEmail : option string; i_OrganizationID : option string; i_ResourceType : option string;
  i_ResourceID : option string; i_IPAddress : option string; i_Metadata : option json_object
}.

Record pendingIntent := { p_Intent : Intent; p_Attempts : Z }.

Definition marshalMetadata (m : option json_object) : result (option string) :=
  match m with
  | None => Ok None
  | Some m => match json_Marshal m with
              | Ok encoded => Ok (Some encoded)
              | Err err => Err (Wrap2 "metadata is not JSON-encodable" ErrIntentIncomplete err)
              end
  end.

(** The row scan of [claim]. *)
Definition scan_metadata (metadata : option string) : option json_object :=
  match metadata with
  | None => None
  | Some b =>
      if b =s "" then None
      else match json_Unmarshal b with
           | Ok m => m
           | Err err => Some (metadata_unreadable err)
           end
  end.

Definition scan_intent (i : stored_intent) : Intent := {|
  i_EventID := s_event_id i; i_OccurredAt := Some (s_occurred_at i); i_Action := s_action i;
  i_ActorUserID := s_actor_user_id i; i_ActorEmail := s_actor_email i; i_OrganizationID := s_organization_id i;
  i_ResourceType := s_resource_type i; i_ResourceID := s_resource_id i; i_IPAddress := s_ip_address i;
  i_Metadata := scan_metadata (s_metadata i) |}.

Definition scan_pending (r : OutboxRow) : pendingIntent :=
  {| p_Intent := scan_intent (r_intent r); p_Attempts := r_attempts r |}.

Definition with_defaults (id : string) (now : Z) (i : Intent) : Intent := {|
  i_EventID := id; i_OccurredAt := Some (match i_OccurredAt i with Some t => t | None => now end);
  i_Action := i_Action i; i_ActorUserID := i_ActorUserID i; i_ActorEmail := i_ActorEmail i;
  i_OrganizationID := i_OrganizationID i; i_ResourceType := i_ResourceType i; i_ResourceID := i_ResourceID i;
  i_IPAddress := i_IPAddress i; i_Metadata := i_Metadata i |}.

Definition intent_args (i : Intent) (occurred : Z) (metadata : option string) : stored_intent := {|
  s_event_id := i_EventID i; s_occurred_at := occurred; s_action := i_Action i; s_actor_user_id := i_ActorUserID i;
  s_actor_email := i_ActorEmail i; s_organization_id := i_OrganizationID i; s_resource_type := i_ResourceType i;
  s_resource_id := i_ResourceID i; s_ip_address := i_IPAddress i; s_metadata := metadata |}.

(** ** outbox.go *)

Section Operations.
Context {St : Type} `{HasOutbox St}.
Variable uuid : nat -> string.

(** [*Outbox] by its table; a nil outbox, and one with a nil handle, is [None]. *)
Definition New (db : bool) (outboxTable : string) : result table :=
  if negb db then Err (Wrap "no database handle supplied" ErrNoOutbox) else parseTable outboxTable.

Definition IntentWriter : Type := M St unit.

Definition RequireIntentWriter (w : option IntentWriter) : M St unit :=
  match w with None => throw ErrIntentRequired | Some _ => mret tt end.

Definition outbox_stmt {A} (t : table) (f : St -> list OutboxRow -> result (A * list OutboxRow)) : M St A :=
  table_stmt (outbox_rows t) (put_outbox t) f.
Definition outbox_read {A} (t : table) (f : St -> list OutboxRow -> A) : M St A := table_read (outbox_rows t) f.

(** [tx] says whether the transaction is not nil. The intent comes back as the
    caller's variable holds it afterwards. *)
Definition Enqueue (o : option table) (tx : bool) (intent : option Intent) : M St Intent :=
  match o with
  | None => throw ErrNoOutbox
  | Some t =>
      if negb tx then throw (Wrap "no transaction to enlist in" ErrNoOutbox)
      else match intent with
      | None => throw (Wrap "nil intent" ErrIntentIncomplete)
      | Some intent =>
          if i_Action intent =s "" then throw (Wrap "action is empty" ErrIntentIncomplete)
          else
            id ← (if i_EventID intent =s "" then uuid_New uuid else mret (i_EventID intent));
            now ← time_Now;
            let intent := with_defaults id now intent in
            metadataArg ← lift (marshalMetadata (i_Metadata intent));
            wrapping "failed to enqueue audit intent"
              (outbox_stmt t (fun s => insert_intent
                 (intent_args intent (match i_OccurredAt intent with Some t => t | None => now end) metadataArg)
                 (current_xact s)));;
            mret intent
      end
  end.

(** The writer a repository calls on its own transaction, once. *)
Definition Writer (o : option table) (intent : option Intent) : IntentWriter := Enqueue o true intent;; mret tt.

Definition claim (t : table) (limit : Z) : M St (list pendingIntent) :=
  rows ← wrapping "failed to claim audit intents" (outbox_read t (fun s => claim_rows (skip_locked s) limit));
  mret (List.map scan_pending rows).

Definition markDelivered (t : table) (eventID : string) : M St unit :=
  now ← db_NOW;
  wrapping "failed to mark audit intent delivered" (outbox_stmt t (fun _ => update_row eventID (mark_row now))).

Definition recordFailure (t : table) (eventID : string) (cause : error) : M St unit :=
  wrapping "failed to record audit intent failure" (outbox_stmt t (fun _ => update_row eventID (fail_row cause))).

Definition Outbox_Backlog (o : option table) : M St Backlog :=
  match o with
  | None => throw ErrNoOutbox
  | Some t => wrapping "failed to read the audit outbox backlog" (outbox_read t (fun _ => backlog_of))
  end.

Definition PruneDelivered (o : option table) (before limit : Z) : M St Z :=
  match o with
  | None => throw ErrNoOutbox
  | Some t =>
      let limit := if (limit <=? 0)%Z then defaultPruneLimit else limit in
      pruned ← wrapping "failed to prune delivered audit intents" (outbox_stmt t (fun _ => prune_rows before limit));
      mret (Z.of_nat pruned)
  end.
End Operations.
End Outbox.
Arguments IntentWriter : clear implicits.
