(* ===== verification/AuditSink.v ===== *)
(** * AuditSink: identity/auditoutbox/sink.go and Outbox.Verify

    The durable destination of audit intents. [DurableSink] is what the relay
    relies on: a delivery reported as a success leaves the record at the
    destination, and no delivery removes one or touches the outbox.
    [TableSink_Deliver] inserts into the application's audit table whatever
    columns a probe of the catalogue found there, keyed on the event id, and
    forgets its plan when the table changed shape under it. *)

From S2P Require Import Prelude GoStrings PgQuote Db DbRel AuditTable AuditOutbox.

Definition ErrOutboxShape : error := Sentinel "identity/auditoutbox: outbox table".
Definition ErrDestinationShape : error := Sentinel "identity/auditoutbox: destination table".
Definition undefined_column : error := Sentinel "SQLSTATE 42703".
Definition invalid_column_reference : error := Sentinel "SQLSTATE 42P10".

(** ** Tables as the catalogue and the application know them *)

Inductive colval :=
| VText (s : option string)
| VTime (t : option Z)
| VJson (s : option string).

#[export] Instance colval_eq_dec : EqDecision colval.
Proof. solve_decision. Defined.

Definition audit_row : Type := gmap string colval.

Record tableShape := { qualified : string; columns : list string }.
Definition shape_has (sh : tableShape) (column : string) : bool := mem column (columns sh).

(** The audit tables of the application: what a name resolves to, the rows, whether
    [id] carries a unique index, the defaults of columns left out, and the rows the
    table's own constraints admit. *)
Class HasAuditTables (St : Type) := {
  relation_shape : table -> St -> option tableShape;
  audit_rows : table -> St -> list audit_row;
  put_audit : table -> list audit_row -> St -> St;
  keyed_on_id : table -> St -> bool;
  column_defaults : table -> St -> audit_row;
  row_admitted : table -> St -> audit_row -> bool;
  audit_put : forall t s l, audit_rows t (put_audit t l s) = l
}.

Definition id_of (row : audit_row) : option colval := row !! "id".

(** INSERT INTO t (names) VALUES (values) ON CONFLICT (id) DO NOTHING *)
Definition insert_audit {St} `{HasAuditTables St} (t : table) (values : list (string * colval)) (s : St) : result (unit * St) :=
  match relation_shape t s with
  | None => Err no_relation
  | Some sh =>
      if negb (forallb (fun v => shape_has sh (fst v)) values) then Err undefined_column
      else if negb (keyed_on_id t s) then Err invalid_column_reference
      else
        let row : audit_row := list_to_map values ∪ column_defaults t s in
        if negb (row_admitted t s row) then Err check_violation
        else if existsb (fun r => bool_decide (id_of r = id_of row)) (audit_rows t s) then Ok (tt, s)
        else Ok (tt, put_audit t (audit_rows t s ++ [row]) s)
  end.

Section Sinks.
Context `{JSONObjects}.

Definition Sink (St : Type) : Type := Intent -> M St unit.

(** ** What the relay relies on *)

(** What a call on another connection leaves alone: the outbox. *)
Definition same_outbox {St} `{HasOutbox St} (t : table) (s s' : St) : Prop := outbox_rows t s' = outbox_rows t s.

#[export] Instance same_outbox_preorder {St} `{HasOutbox St} t : PreOrder (same_outbox (St:=St) t).
Proof. split; [by intros s|]. intros a b c. unfold same_outbox. congruence. Qed.

Class DurableSink {St} `{HasOutbox St} (t : table) (deliver : Sink St) := {
  ready : St -> Prop;
  held : string -> St -> Prop;
  ready_put : forall l s, ready (put_outbox t l s) <-> ready s;
  held_put : forall id l s, held id (put_outbox t l s) <-> held id s;
  deliver_aside : forall i, enlisted (fun s s' =>
    same_outbox t s s' /\ (ready s -> ready s' /\ forall id, held id s -> held id s')) (deliver i);
  deliver_holds : forall i w w', deliver i w = (Ok tt, w') -> w_intx w = true -> ready (w_db w) ->
    held (i_EventID i) (w_db w')
}.

(** ** TableSink *)

Record destinationColumn := { dc_name : string; dc_required : bool; dc_value : Intent -> result colval }.

Definition column (name : string) (required : bool) (value : Intent -> result colval) : destinationColumn :=
  {| dc_name := name; dc_required := required; dc_value := value |}.

Definition destinationColumns : list destinationColumn := [
  column "id" true (fun i => Ok (VText (Some (i_EventID i))));
  column "user_id" false (fun i => Ok (VText (i_ActorUserID i)));
  column "organization_id" false (fun i => Ok (VText (i_OrganizationID i)));
  column "action" true (fun i => Ok (VText (Some (i_Action i))));
  column "resource_type" false (fun i => Ok (VText (i_ResourceType i)));
  column "resource_id" false (fun i => Ok (VText (i_ResourceID i)));
  column "metadata" false (fun i => match marshalMetadata (i_Metadata i) with Ok m => Ok (VJson m) | Err err => Err err end);
  column "ip_address" false (fun i => Ok (VText (i_IPAddress i)));
  column "created_at" false (fun i => Ok (VTime (i_OccurredAt i)));
  column "actor_email" false (fun i => Ok (VText (i_ActorEmail i)))
].

(** The cached insert: its columns, and the name the destination resolved to. *)
Record sink_plan := { pl_columns : list destinationColumn; pl_resolved : string }.

(** The [TableSink]'s memory. [invalidate] clears the statement and keeps the name. *)
Class HasSinkPlan (St : Type) := {
  cached_plan : St -> option (list destinationColumn);
  resolved_name : St -> string;
  put_plan : option (list destinationColumn) -> St -> St;
  put_resolved : string -> St -> St;
  plan_put : forall p s, cached_plan (put_plan p s) = p;
  plan_put_resolved : forall n s, cached_plan (put_resolved n s) = cached_plan s;
  resolved_put : forall n s, resolved_name (put_resolved n s) = n;
  resolved_put_plan : forall p s, resolved_name (put_plan p s) = resolved_name s
}.

(** The loop of [plan] over the canonical columns: the columns present, and the
    required ones that are missing. *)
Fixpoint plan_columns (sh : tableShape) (cols : list destinationColumn) (present : list destinationColumn) (missing : list string)
    : list destinationColumn * list string :=
  match cols with
  | [] => (present, missing)
  | c :: cols =>
      if negb (shape_has sh (dc_name c))
      then plan_columns sh cols present (if dc_required c then missing ++ [dc_name c] else missing)
      else plan_columns sh cols (present ++ [c]) missing
  end.

(** The loop of [Deliver] over the plan's extractors. *)
Fixpoint extract_all (cols : list destinationColumn) (i : Intent) : result (list (string * colval)) :=
  match cols with
  | [] => Ok []
  | c :: cols =>
      match dc_value c i with
      | Err err => Err err
      | Ok v => match extract_all cols i with Err err => Err err | Ok args => Ok ((dc_name c, v) :: args) end
      end
  end.

Section Operations.
Context {St : Type} `{HasAuditTables St} `{!HasSinkPlan St}.

Definition NewTableSink (db : bool) (destinationTable : string) : result table :=
  if negb db then Err (Wrap "no database handle supplied" ErrDestinationShape) else parseTable destinationTable.

(** Three round trips on a connection of its own; [None] when the name resolves to nothing. *)
Definition describeTable (t : table) : M St (option tableShape) :=
  wrapping "failed to acquire a connection to describe the table" tick;;
  wrapping "failed to read search_path" tick;;
  wrapping "failed to describe the table" (query (relation_shape t)).

Definition plan (t : table) : M St (list destinationColumn) :=
  cached ← peek cached_plan;
  match cached with
  | Some cols => mret cols
  | None =>
      shape ← describeTable t;
      match shape with
      | None => throw (Wrap "the table resolves to nothing on this connection" ErrDestinationShape)
      | Some shape =>
          let '(cols, missing) := plan_columns shape destinationColumns [] [] in
          if (0 <? length missing)%nat then throw (Wrap "the table is missing required columns" ErrDestinationShape)
          else
            poke (put_plan (Some cols));;
            poke (put_resolved (qualified shape));;
            mret cols
      end
  end.

Definition invalidate : M St unit := poke (put_plan None).

(** [*TableSink] by its table; a nil sink, and one with a nil handle, is [None]. *)
Definition TableSink_Deliver (s : option table) : Sink St := fun intent =>
  match s with
  | None => throw (Wrap "no connection configured" ErrDestinationShape)
  | Some t =>
      if i_EventID intent =s "" then throw (Wrap "event id is empty" ErrIntentIncomplete)
      else
        cols ← plan t;
        args ← lift (extract_all cols intent);
        r ← try (stmt (insert_audit t args));
        match r with
        | Ok _ => mret tt
        | Err err =>
            (if errors_Is err "SQLSTATE 42703" then invalidate else mret tt);;
            throw (Wrap "failed to deliver audit intent" err)
        end
  end.

Definition TableSink_Verify (s : option table) : M St string :=
  match s with
  | None => throw (Wrap "no connection configured" ErrDestinationShape)
  | Some t => plan t;; peek resolved_name
  end.

(** outbox.go *)
Definition outboxRequiredColumns : list string := [
  "event_id"; "txid"; "occurred_at"; "action"; "actor_user_id"; "actor_email";
  "organization_id"; "resource_type"; "resource_id"; "ip_address"; "metadata";
  "delivered_at"; "attempts"; "last_error"].

(** Go's pair: the resolved name accompanies the error about missing columns. *)
Definition Outbox_Verify (o : option table) : M St (string * option error) :=
  match o with
  | None => mret ("", Some ErrNoOutbox)
  | Some t =>
      shape ← try (describeTable t);
      mret (match shape with
            | Err err => ("", Some err)
            | Ok None => ("", Some (Wrap "the table resolves to nothing on this connection" ErrOutboxShape))
            | Ok (Some shape) =>
                let missing := List.filter (fun c => negb (shape_has shape c)) outboxRequiredColumns in
                if (0 <? length missing)%nat
                then (qualified shape, Some (Wrap "the table is missing columns" ErrOutboxShape))
                else (qualified shape, None)
            end)
  end.
End Operations.
End Sinks.

(** ** Separation

    The sink's memory, the audit tables and the outbox tables are different parts
    of the process state. *)

(** The audit tables are what they were. *)
Record same_audit {St} `{HasAuditTables St} (s s' : St) : Prop := {
  sa_shape : forall t, relation_shape t s' = relation_shape t s;
  sa_rows : forall t, audit_rows t s' = audit_rows t s;
  sa_keyed : forall t, keyed_on_id t s' = keyed_on_id t s;
  sa_defaults : forall t, column_defaults t s' = column_defaults t s;
  sa_admitted : forall t row, row_admitted t s' row = row_admitted t s row
}.

Class SinkFrame `{JSONObjects} (St : Type) `{HasAuditTables St} `{!HasSinkPlan St} := {
  plan_same : forall p s, same_audit s (put_plan p s);
  resolved_same : forall n s, same_audit s (put_resolved n s);
  shape_audit : forall t l t' s, relation_shape t' (put_audit t l s) = relation_shape t' s;
  keyed_audit : forall t l t' s, keyed_on_id t' (put_audit t l s) = keyed_on_id t' s;
  admitted_audit : forall t l t' s, row_admitted t' (put_audit t l s) = row_admitted t' s;
  defaults_audit : forall t l t' s, column_defaults t' (put_audit t l s) = column_defaults t' s;
  cached_audit : forall t l s, cached_plan (put_audit t l s) = cached_plan s
}.

Class OutboxFrame `{JSONObjects} (St : Type) `{HasOutbox St} `{HasAuditTables St} `{!HasSinkPlan St} := {
  outbox_audit : forall t t' l s, outbox_rows t (put_audit t' l s) = outbox_rows t s;
  outbox_plan : forall t p s, outbox_rows t (put_plan p s) = outbox_rows t s;
  outbox_resolved : forall t n s, outbox_rows t (put_resolved n s) = outbox_rows t s;
  audit_outbox : forall t l s, same_audit s (put_outbox t l s);
  cached_outbox : forall t l s, cached_plan (put_outbox t l s) = cached_plan s
}.

(** ** The plan *)

Section Plans.
Context `{JSONObjects}.

Lemma plan_columns_spec sh cols present missing :
  plan_columns sh cols present missing =
    (present ++ List.filter (fun c => shape_has sh (dc_name c)) cols,
     missing ++ List.map dc_name (List.filter (fun c => negb (shape_has sh (dc_name c)) && dc_required c) cols)).
Proof.
  revert present missing. induction cols as [|c cols IH]; intros present missing; simpl; [by rewrite !app_nil_r|].
  destruct (shape_has sh (dc_name c)); simpl; rewrite IH; [by rewrite <- app_assoc|].
  destruct (dc_required c); simpl; [by rewrite <- app_assoc|done].
Qed.

(** A plan keeps the canonical columns that satisfy a choice made once, the two
    required ones among them. *)
Definition plan_ok (cols : list destinationColumn) : Prop :=
  exists p : string -> bool, cols = List.filter (fun c => p (dc_name c)) destinationColumns /\ p "id" = true /\ p "action" = true.

Lemma planned_columns sh cols missing :
  plan_columns sh destinationColumns [] [] = (cols, missing) ->
  (length missing = 0%nat <-> shape_has sh "id" = true /\ shape_has sh "action" = true) /\
  (length missing = 0%nat -> plan_ok cols) /\
  cols = List.filter (fun c => shape_has sh (dc_name c)) destinationColumns.
Proof.
  rewrite plan_columns_spec. intros [= <- <-].
  assert (Hiff : length (List.map dc_name (List.filter (fun c => negb (shape_has sh (dc_name c)) && dc_required c) destinationColumns)) = 0%nat
    <-> shape_has sh "id" = true /\ shape_has sh "action" = true).
  { cbn -[shape_has]. destruct (shape_has sh "id"), (shape_has sh "action"); cbn -[shape_has];
      rewrite ?andb_false_r; naive_solver. }
  split; [exact Hiff|]. split; [|done]. intros Hl. apply Hiff in Hl as [H1 H2].
  exists (shape_has sh). done.
Qed.

Lemma extract_all_names cols i args : extract_all cols i = Ok args -> List.map fst args = List.map dc_name cols.
Proof.
  revert args. induction cols as [|c cols IH]; intros args; simpl; [by intros [= <-]|].
  destruct (dc_value c i); [|done]. destruct (extract_all cols i); [|done]. intros [= <-]. simpl. by rewrite IH.
Qed.

Lemma extract_all_in cols i args c :
  extract_all cols i = Ok args -> In c cols -> exists v, dc_value c i = Ok v /\ In (dc_name c, v) args.
Proof.
  revert args. induction cols as [|c' cols IH]; intros args; simpl; [done|].
  destruct (dc_value c' i) as [v|] eqn:Ev; [|done]. destruct (extract_all cols i) as [args'|]; [|done].
  intros [= <-] [<-|Hin]; [exists v; split; [done|by left]|].
  destruct (IH args' eq_refl Hin) as (v' & ? & ?). exists v'. split; [done|by right].
Qed.

(** The row a plan builds: each planned column carries the intent's value. *)
Lemma planned_row cols i args (d : audit_row) c :
  plan_ok cols -> extract_all cols i = Ok args -> In c cols ->
  exists v, dc_value c i = Ok v /\ ((list_to_map args : audit_row) ∪ d) !! dc_name c = Some v.
Proof.
  intros (p & -> & _) E Hc. destruct (extract_all_in _ _ _ _ E Hc) as (v & Hv & Hin). exists v. split; [done|].
  apply lookup_union_Some_l. apply elem_of_list_to_map; [|by apply list_elem_of_In].
  change (NoDup (List.map fst args)). rewrite (extract_all_names _ _ _ E).
  apply (NoDup_map_filter dc_name). by apply (bool_decide_unpack _).
Qed.

Lemma plan_id cols i args (d : audit_row) :
  plan_ok cols -> extract_all cols i = Ok args ->
  id_of ((list_to_map args : audit_row) ∪ d) = Some (VText (Some (i_EventID i))).
Proof.
  intros Hp E. pose proof Hp as (p & -> & Hid & _).
  destruct (planned_row _ i args d (column "id" true (fun i => Ok (VText (Some (i_EventID i))))) Hp E) as (v & [= <-] & Hv).
  - apply filter_In. split; [by left|done].
  - exact Hv.
Qed.
End Plans.

(** ** Delivery *)

Section Delivery.
Context `{JSONObjects} {St : Type} `{HasAuditTables St} `{!HasSinkPlan St} `{!SinkFrame St}.

#[export] Instance same_audit_preorder : PreOrder (same_audit (St:=St)).
Proof. split; [by intros s|]. intros a b c [] []. split; intros; congruence. Qed.

Definition plans_ok (s : St) : Prop := forall cols, cached_plan s = Some cols -> plan_ok cols.

(** The probe writes the sink's memory only. *)
Definition probed (s s' : St) : Prop := same_audit s s' /\ (plans_ok s -> plans_ok s').

#[export] Instance probed_preorder : PreOrder probed.
Proof. split; [by intros s; split|]. intros a b c [A1 P1] [A2 P2]. split; [by transitivity b|tauto]. Qed.

Lemma plan_probed t : enlisted probed (plan (St:=St) t).
Proof.
  unfold plan, describeTable. enlist.
  - unfold poke. intros w r w' [= <- <-] Hi. split; [|by split; [|exists 0%nat]]. split; [apply plan_same|].
    intros _ cols. simpl. rewrite plan_put. intros [= <-].
    match goal with E : plan_columns _ _ _ _ = (?l, ?m), Hl : (0 <? length ?m)%nat = false |- _ =>
      apply planned_columns in E as (_ & Hok & _); apply Hok; apply Nat.ltb_ge in Hl; lia end.
  - apply enlisted_poke. intros s. split; [apply resolved_same|]. intros Hp cols. rewrite plan_put_resolved. apply Hp.
Qed.

Lemma plan_Ok t w cols w' :
  plan (St:=St) t w = (Ok cols, w') -> w_intx w = true -> plans_ok (w_db w) ->
  plan_ok cols /\ cached_plan (w_db w') = Some cols.
Proof.
  intros E Hi Hp. unfold plan in E. apply bind_Ok in E as (cached & w1 & [= <- <-] & E).
  destruct (cached_plan (w_db w)) as [cols0|] eqn:Ec; [injection E as <- <-; auto|].
  apply bind_Ok in E as (shape & w2 & _ & E). destruct shape as [shape|]; [|done].
  destruct (plan_columns _ _ _ _) as [cols1 missing] eqn:Epl. destruct (0 <? _)%nat eqn:El; [done|].
  unfold poke, mbind, M_bind in E. injection E as <- <-. simpl. rewrite plan_put_resolved, plan_put. split; [|done].
  apply planned_columns in Epl as (_ & Hok & _). apply Hok. apply Nat.ltb_ge in El. lia.
Qed.

(** A row for the intent as a plan writes it. *)
Definition delivered_row (cols : list destinationColumn) (i : Intent) (row : audit_row) : Prop :=
  plan_ok cols /\ id_of row = Some (VText (Some (i_EventID i))) /\
  forall c, In c cols -> exists v, dc_value c i = Ok v /\ row !! dc_name c = Some v.

Definition recorded (t : table) (id : string) (s : St) : Prop :=
  exists row, In row (audit_rows t s) /\ id_of row = Some (VText (Some id)).

Lemma insert_audit_inv t cols args i (s s' : St) :
  plan_ok cols -> extract_all cols i = Ok args -> insert_audit t args s = Ok (tt, s') ->
  (recorded t (i_EventID i) s /\ s' = s) \/
  (~ recorded t (i_EventID i) s /\ exists row, delivered_row cols i row /\ s' = put_audit t (audit_rows t s ++ [row]) s).
Proof.
  intros Hp Ex. unfold insert_audit. destruct (relation_shape t s); [|done].
  do 3 (case_match; [done|]). pose proof (plan_id cols i args (column_defaults t s) Hp Ex) as Hid.
  case_match eqn:Eex; intros [= <-].
  - left. split; [|done]. apply existsb_exists in Eex as (row & Hin & Eq). apply bool_decide_eq_true in Eq.
    exists row. by rewrite Eq.
  - right. split.
    + intros (row & Hin & Er). rewrite existsb_none in Eex. specialize (Eex row Hin).
      apply bool_decide_eq_false in Eex. by rewrite Hid in Eex.
    + eexists. split; [|done]. split; [done|]. split; [done|]. intros c Hc. by eapply planned_row.
Qed.

(** What a delivery may leave at the destination. *)
Definition outcome (t : table) (i : Intent) (r : result unit) (before after : list audit_row) : Prop :=
  let keyed row := id_of row = Some (VText (Some (i_EventID i))) in
  match r with
  | Ok _ => (after = before /\ exists row, In row before /\ keyed row) \/
            (exists cols row, after = before ++ [row] /\ delivered_row cols i row /\ forall row0, In row0 before -> ~ keyed row0)
  | Err _ => after = before
  end.

Lemma TableSink_inv t i w r w' :
  TableSink_Deliver (Some t) i w = (r, w') -> w_intx w = true -> plans_ok (w_db w) ->
  outcome t i r (audit_rows t (w_db w)) (audit_rows t (w_db w')) /\ plans_ok (w_db w').
Proof.
  intros E Hi Hp. unfold TableSink_Deliver in E. destruct (i_EventID i =s ""); [by injection E as <- <-|].
  apply bind_inv in E as [(cols & w1 & E1 & E)|(e & E1 & ->)].
  2: { destruct (plan_probed t _ _ _ E1 Hi) as ([Ha Hk] & _). split; [apply (sa_rows _ _ Ha)|auto]. }
  destruct (plan_probed t _ _ _ E1 Hi) as ([Ha Hk] & Hi1 & _). destruct (plan_Ok t _ _ _ E1 Hi Hp) as [Hcols _].
  rewrite <- (sa_rows _ _ Ha). specialize (Hk Hp).
  apply bind_inv in E as [(args & w2 & E2 & E)|(e & E2 & ->)]; [|by injection E2 as _ <-].
  injection E2 as Ex <-. apply bind_try in E as (r0 & w3 & E3 & E).
  apply stmt_inv in E3 as ((Hi3 & _) & Hr). rewrite intx_seen in Hr by done.
  destruct Hr as [([] & -> & Ei)|(e & -> & Hd)].
  - injection E as <- <-. destruct (insert_audit_inv t cols args i _ _ Hcols Ex Ei) as [[Hrec ->]|(Hn & row & Hrow & ->)].
    + split; [left; by split|done].
    + rewrite audit_put. split; [right; exists cols, row; split; [done|]; split; [done|]|].
      * intros row0 Hin Hid. apply Hn. by exists row0.
      * intros c. rewrite cached_audit. apply Hk.
  - rewrite <- Hd in Hk |- *. destruct (errors_Is e _); unfold invalidate, poke, mbind, M_bind in E; injection E as <- <-; [|done].
    simpl. split; [apply (sa_rows _ _ (plan_same None (w_db w3)))|]. intros c. by rewrite plan_put.
Qed.

Lemma outcome_unique t i r before after :
  outcome t i r before after -> NoDup (List.map id_of before) ->
  NoDup (List.map id_of after) /\
  (r = Ok tt -> rows_count (fun row => bool_decide (id_of row = Some (VText (Some (i_EventID i))))) after = 1%nat).
Proof.
  assert (Hone : forall l, NoDup (List.map id_of l) -> (exists row, In row l /\ id_of row = Some (VText (Some (i_EventID i)))) ->
    rows_count (fun row => bool_decide (id_of row = Some (VText (Some (i_EventID i))))) l = 1%nat).
  { intros l Hn (row & Hin & Hid). unfold rows_count. induction l as [|x l IH]; [done|]. simpl in Hn |- *.
    apply NoDup_cons in Hn as [Hx Hn]. destruct Hin as [->|Hin].
    - rewrite bool_decide_true by done. simpl. f_equal. apply length_zero_iff_nil.
      assert (Hno : forall y, In y l -> id_of y <> Some (VText (Some (i_EventID i)))).
      { intros y Hy Ey. apply Hx. rewrite Hid, <- Ey. apply list_elem_of_In. by apply in_map. }
      clear -Hno. induction l as [|y l IH]; [done|]. simpl. rewrite bool_decide_false by (apply Hno; by left).
      apply IH. intros z Hz. apply Hno. by right.
    - rewrite bool_decide_false; [by apply IH|]. intros Ex. apply Hx. rewrite Ex, <- Hid. apply list_elem_of_In. by apply in_map. }
  unfold outcome. destruct r as [[]|e]; [|by intros ->]. intros [[-> Hex]|(cols & row & -> & (Hp & Hid & _) & Hnew)] Hn.
  - split; [done|]. intros _. by apply Hone.
  - assert (Hn' : NoDup (List.map id_of (before ++ [row]))).
    { apply NoDup_map_snoc; [done|]. intros y Hy. rewrite Hid. by apply Hnew. }
    split; [done|]. intros _. apply Hone; [done|]. exists row. split; [|done]. apply in_app_iff. by right; left.
Qed.

(** *** In a quiet process *)

Lemma describe_quiet t (w : world St) : w_sched w = [] -> describeTable t w = (Ok (relation_shape t (w_db w)), w).
Proof.
  intros Hq. unfold describeTable, wrapping, mapping_err, mbind, M_bind.
  unfold tick at 1. rewrite Hq. unfold tick. rewrite Hq. unfold query. rewrite stmt_quiet by done. by destruct w.
Qed.

(** The columns a probe of [sh] plans. *)
Definition fresh (sh : tableShape) : list destinationColumn :=
  List.filter (fun c => shape_has sh (dc_name c)) destinationColumns.

Record well_shaped (t : table) (sh : tableShape) (s : St) : Prop := {
  ws_shape : relation_shape t s = Some sh;
  ws_id : shape_has sh "id" = true;
  ws_action : shape_has sh "action" = true;
  ws_keyed : keyed_on_id t s = true
}.

Lemma well_shaped_same t sh s s' : same_audit s s' -> well_shaped t sh s -> well_shaped t sh s'.
Proof. intros [] []. split; [congruence|done|done|congruence]. Qed.

(** The row a plan builds for the intent is admitted by the table's constraints. *)
Definition plan_admits (t : table) (cols : list destinationColumn) (i : Intent) (s : St) : bool :=
  match extract_all cols i with
  | Ok args => row_admitted t s (list_to_map args ∪ column_defaults t s)
  | Err _ => false
  end.

Lemma admits_same t cols i s s' : same_audit s s' -> plan_admits t cols i s' = plan_admits t cols i s.
Proof. intros []. unfold plan_admits. destruct (extract_all cols i); [|done]. by rewrite sa_admitted0, sa_defaults0. Qed.

Lemma plan_fresh_quiet t sh (w : world St) :
  w_sched w = [] -> well_shaped t sh (w_db w) -> cached_plan (w_db w) = None ->
  exists s', plan t w = (Ok (fresh sh), set_db s' w) /\ well_shaped t sh s' /\ cached_plan s' = Some (fresh sh) /\
    forall cols i, plan_admits t cols i s' = plan_admits t cols i (w_db w).
Proof.
  intros Hq Hws Hc. unfold plan. rewrite (bind_step _ _ _ _ _ (eq_refl : peek cached_plan w = _)), Hc.
  rewrite (bind_step _ _ _ _ _ (describe_quiet t w Hq)), (ws_shape _ _ _ Hws).
  destruct (plan_columns sh _ _ _) as [cols missing] eqn:Ep. apply planned_columns in Ep as (Hiff & _ & ->).
  rewrite (proj2 Hiff) by (by split; [apply (ws_id _ _ _ Hws)|apply (ws_action _ _ _ Hws)]).
  unfold poke, mbind, M_bind. simpl. eexists. split; [reflexivity|].
  assert (Hsame : same_audit (w_db w) (put_resolved (qualified sh) (put_plan (Some (fresh sh)) (w_db w)))).
  { etrans; [apply plan_same|apply resolved_same]. }
  split; [by eapply well_shaped_same|]. split; [by rewrite plan_put_resolved, plan_put|].
  intros cols i. by apply admits_same.
Qed.

Lemma extract_total i : is_ok (marshalMetadata (i_Metadata i)) = true ->
  forall cols, plan_ok cols -> exists args, extract_all cols i = Ok args.
Proof.
  intros Hm cols (p & -> & _). assert (Hall : forall c, In c destinationColumns -> exists v, dc_value c i = Ok v).
  { intros c Hc. repeat (destruct Hc as [<-|Hc]; [simpl; eauto|]); [|done].
    destruct (marshalMetadata _); [eauto|done]. }
  revert Hall. generalize destinationColumns. intros l. induction l as [|c l IH]; simpl; [eauto|]. intros Hall.
  destruct (IH (fun c Hc => Hall c (or_intror Hc))) as [args Ha]. destruct (p (dc_name c)); [|eauto].
  simpl. destruct (Hall c (or_introl eq_refl)) as [v ->]. rewrite Ha. eauto.
Qed.

Lemma plan_ok_fresh t sh (s : St) : well_shaped t sh s -> plan_ok (fresh sh).
Proof. intros Hws. exists (shape_has sh). split; [done|]. by destruct Hws. Qed.

(** A planned insert into a well-shaped table: it lands, is refused, or a planned
    column is gone. What decides is as before. *)
Lemma insert_quiet t sh cols i args (s : St) :
  well_shaped t sh s -> extract_all cols i = Ok args ->
  if forallb (fun c => shape_has sh (dc_name c)) cols
  then if plan_admits t cols i s
       then exists s', insert_audit t args s = Ok (tt, s') /\ well_shaped t sh s' /\ cached_plan s' = cached_plan s /\
              forall cols i, plan_admits t cols i s' = plan_admits t cols i s
       else insert_audit t args s = Err check_violation
  else insert_audit t args s = Err undefined_column.
Proof.
  intros Hws Ex. unfold insert_audit. rewrite (ws_shape _ _ _ Hws).
  assert (Hall : forallb (fun v => shape_has sh (fst v)) args = forallb (fun c => shape_has sh (dc_name c)) cols).
  { pose proof (extract_all_names _ _ _ Ex) as En. clear Ex. revert args En.
    induction cols as [|c cols IH]; intros [|[k v] args] En; try done. injection En as Ek En. simpl in *. by rewrite Ek, IH. }
  rewrite Hall. case_match eqn:Ef; [|done]. simpl. rewrite (ws_keyed _ _ _ Hws). simpl.
  unfold plan_admits at 1. rewrite Ex. destruct (row_admitted t s _) eqn:Ea; [|done]. simpl.
  case_match; (eexists; split; [reflexivity|]); [done|]. split; [|split; [apply cached_audit|]].
  - destruct Hws. split; [by rewrite shape_audit|done|done|by rewrite keyed_audit].
  - intros cols' i'. unfold plan_admits. destruct (extract_all cols' i'); [|done]. by rewrite admitted_audit, defaults_audit.
Qed.

Lemma plan_cached t (w : world St) cols : cached_plan (w_db w) = Some cols -> plan t w = (Ok cols, w).
Proof. intros Hc. unfold plan. by rewrite (bind_step _ _ _ _ _ (eq_refl : peek cached_plan w = _)), Hc. Qed.

Lemma deliver_planned t sh cols i (w : world St) :
  w_sched w = [] -> well_shaped t sh (w_db w) -> cached_plan (w_db w) = Some cols -> plan_ok cols ->
  i_EventID i <> "" -> is_ok (marshalMetadata (i_Metadata i)) = true ->
  exists r s', TableSink_Deliver (Some t) i w = (r, set_db s' w) /\ well_shaped t sh s' /\
    (forall cols i, plan_admits t cols i s' = plan_admits t cols i (w_db w)) /\
    if forallb (fun c => shape_has sh (dc_name c)) cols
    then is_ok r = plan_admits t cols i (w_db w) /\ cached_plan s' = Some cols
    else is_ok r = false /\ cached_plan s' = None.
Proof.
  intros Hq Hws Hc Hp Hid Hm. apply seqb_false in Hid. unfold TableSink_Deliver. rewrite Hid.
  rewrite (bind_step _ _ _ _ _ (plan_cached t w cols Hc)). destruct (extract_total i Hm cols Hp) as [args Ex]. rewrite Ex.
  rewrite (bind_step _ _ w args w eq_refl).
  pose proof (insert_quiet t sh cols i args _ Hws Ex) as Hins.
  unfold try, mbind, M_bind. rewrite stmt_quiet by done. destruct (forallb _ cols).
  - destruct (plan_admits t cols i (w_db w)) eqn:Ea.
    + destruct Hins as (s' & -> & Hws' & Hc' & Ha'). exists (Ok tt), s'. rewrite Hc'. done.
    + rewrite Hins. simpl. eexists (Err _), (w_db w). split; [by destruct w|]. done.
  - rewrite Hins. simpl. eexists (Err _), _. split; [reflexivity|]. rewrite plan_put.
    split; [eapply well_shaped_same; [apply plan_same|done]|]. split; [|done].
    intros cols' i'. apply admits_same, plan_same.
Qed.

Lemma fresh_present sh : forallb (fun c => shape_has sh (dc_name c)) (fresh sh) = true.
Proof. apply forallb_forall. intros c Hc. by apply filter_In in Hc as [_ Hc]. Qed.

(** With no plan, or the plan of the present shape, a delivery succeeds exactly
    when the table plan_admits the row. *)
Lemma deliver_fresh t sh i (w : world St) :
  w_sched w = [] -> well_shaped t sh (w_db w) -> i_EventID i <> "" -> is_ok (marshalMetadata (i_Metadata i)) = true ->
  cached_plan (w_db w) = None \/ cached_plan (w_db w) = Some (fresh sh) ->
  exists r s', TableSink_Deliver (Some t) i w = (r, set_db s' w) /\ is_ok r = plan_admits t (fresh sh) i (w_db w) /\
    well_shaped t sh s' /\ cached_plan s' = Some (fresh sh) /\ forall cols i, plan_admits t cols i s' = plan_admits t cols i (w_db w).
Proof.
  intros Hq Hws Hid Hm Hc.
  assert (Hat : forall w1 : world St, w_sched w1 = [] -> well_shaped t sh (w_db w1) -> cached_plan (w_db w1) = Some (fresh sh) ->
    exists r s', TableSink_Deliver (Some t) i w1 = (r, set_db s' w1) /\ is_ok r = plan_admits t (fresh sh) i (w_db w1) /\
      well_shaped t sh s' /\ cached_plan s' = Some (fresh sh) /\ forall cols i, plan_admits t cols i s' = plan_admits t cols i (w_db w1)).
  { intros w1 Hq1 Hws1 Hc1.
    destruct (deliver_planned t sh (fresh sh) i w1 Hq1 Hws1 Hc1 (plan_ok_fresh _ _ _ Hws1) Hid Hm) as (r & s' & E & Hws' & Ha' & Hd).
    rewrite fresh_present in Hd. destruct Hd. exists r, s'. done. }
  destruct Hc as [Hc|Hc]; [|by apply Hat].
  destruct (plan_fresh_quiet t sh w Hq Hws Hc) as (s1 & Epl & Hws1 & Hc1 & Ha1).
  destruct (Hat (set_db s1 w) Hq Hws1 Hc1) as (r & s' & Ed & Hr & Hws' & Hc' & Ha'). exists r, s'.
  split; [|simpl in Hr, Ha'; rewrite Ha1 in Hr; split; [done|]; split; [done|]; split; [done|]; intros cols' i'; by rewrite Ha', Ha1].
  rewrite <- (eq_refl : set_db s' (set_db s1 w) = set_db s' w), <- Ed.
  unfold TableSink_Deliver. apply seqb_false in Hid. rewrite Hid. rewrite (bind_step _ _ _ _ _ Epl).
  by rewrite (bind_step _ _ _ _ _ (plan_cached t (set_db s1 w) _ Hc1)).
Qed.
End Delivery.

(** ** The table sink keeps the sinks' contract *)

Section Durable.
Context `{JSONObjects} {St : Type} `{HasOutbox St} `{HasAuditTables St} `{!HasSinkPlan St} `{!SinkFrame St} `{!OutboxFrame St}.

Lemma plan_same_outbox t dest : enlisted (same_outbox t) (plan (St:=St) dest).
Proof.
  unfold plan, describeTable. enlist; apply enlisted_poke; intros s; [apply outbox_plan|apply outbox_resolved].
Qed.

Lemma insert_same_outbox t dest args (s : St) u s' : insert_audit dest args s = Ok (u, s') -> same_outbox t s s'.
Proof.
  unfold insert_audit. destruct (relation_shape dest s); [|done]. repeat case_match; try done; intros [= _ <-]; [done|].
  apply outbox_audit.
Qed.

Lemma deliver_same_outbox t dest i : enlisted (same_outbox t) (TableSink_Deliver (St:=St) (Some dest) i).
Proof.
  unfold TableSink_Deliver, invalidate. enlist.
  - apply plan_same_outbox.
  - apply enlisted_stmt; [apply _|]. intros s u s'. apply insert_same_outbox.
  - apply enlisted_poke. intros s. apply outbox_plan.
Qed.

Lemma outcome_keeps t i r before after id :
  outcome t i r before after ->
  (exists row, In row before /\ id_of row = Some (VText (Some id))) ->
  exists row, In row after /\ id_of row = Some (VText (Some id)).
Proof.
  unfold outcome. destruct r; [|by intros ->]. intros [[-> _]|(cols & row & -> & _)]; [done|].
  intros (row0 & Hin & Hid). exists row0. split; [|done]. apply in_app_iff. by left.
Qed.

#[export] Instance TableSink_durable t dest : DurableSink (St:=St) t (TableSink_Deliver (Some dest)).
Proof.
  refine {| ready := plans_ok; held := recorded dest |}.
  - intros l s. unfold plans_ok. by rewrite cached_outbox.
  - intros id l s. unfold recorded. by rewrite (sa_rows _ _ (audit_outbox t l s)).
  - intros i w r w' E Hi. destruct (deliver_same_outbox t dest i _ _ _ E Hi) as (Ho & Hi' & Hc).
    split; [|done]. split; [done|]. intros Hp. destruct (TableSink_inv _ _ _ _ _ E Hi Hp) as [Hout Hp'].
    split; [done|]. intros id. by eapply outcome_keeps.
  - intros i w w' E Hi Hp. unfold recorded.
    destruct (TableSink_inv _ _ _ _ _ E Hi Hp) as [[[Hr Hex]|(cols & row & Hr & (_ & Hid & _) & _)] _]; rewrite Hr; [done|].
    exists row. rewrite in_app_iff. split; [right; by left|done].
Defined.
End Durable.

(** ** Properties *)

(** C22: delivery is exactly once in effect. Whatever faults occur, a delivery into
    the audit table either leaves it as it was or appends one row, keyed on the
    event id, whose planned columns (the required [id] and [action] among them)
    carry the intent's values; it reports success only if exactly one row of the
    id is then there, never disturbs another row, and delivering an id again
    appends nothing. *)
Theorem delivery_exactly_once `{JSONObjects} {St} `{HasAuditTables St} `{!HasSinkPlan St} `{!SinkFrame St}
    t i (w : world St) r w' :
  w_intx w = true -> plans_ok (w_db w) -> NoDup (List.map id_of (audit_rows t (w_db w))) ->
  TableSink_Deliver (Some t) i w = (r, w') ->
  outcome t i r (audit_rows t (w_db w)) (audit_rows t (w_db w')) /\
  NoDup (List.map id_of (audit_rows t (w_db w'))) /\ plans_ok (w_db w') /\
  (r = Ok tt ->
    rows_count (fun row => bool_decide (id_of row = Some (VText (Some (i_EventID i))))) (audit_rows t (w_db w')) = 1%nat /\
    forall r2 w2, w_intx w' = true -> TableSink_Deliver (Some t) i w' = (r2, w2) ->
      audit_rows t (w_db w2) = audit_rows t (w_db w')).
Proof.
  intros Hi Hp Hn E. destruct (TableSink_inv _ _ _ _ _ E Hi Hp) as [Hout Hp'].
  destruct (outcome_unique _ _ _ _ _ Hout Hn) as [Hn' Hone]. split; [done|]. split; [done|]. split; [done|].
  intros ->. split; [by apply Hone|]. intros r2 w2 Hi' E2.
  destruct (TableSink_inv _ _ _ _ _ E2 Hi' Hp') as [Hout2 _]. unfold outcome in Hout2.
  destruct r2 as [u|e]; [|done]. destruct Hout2 as [[-> _]|(cols & row & _ & _ & Hnew)]; [done|]. exfalso.
  destruct Hout as [[Er (row0 & Hin & Hid)]|(cols0 & row0 & Er & (_ & Hid & _) & _)].
  - apply (Hnew row0); [by rewrite Er|done].
  - apply (Hnew row0); [rewrite Er, in_app_iff; right; by left|done].
Qed.

(** The sink recovers from a change of the destination's shape. In a quiet
    process, with a destination that has the required columns, a unique id and
    no objection to the row, at most two calls of [Deliver] succeed whatever plan
    was cached: a plan naming a dropped column fails once, is discarded, and the
    re-probe of the next attempt delivers. *)
Theorem sink_recovers `{JSONObjects} {St} `{HasAuditTables St} `{!HasSinkPlan St} `{!SinkFrame St}
    t sh i (w : world St) :
  w_sched w = [] -> well_shaped t sh (w_db w) -> plans_ok (w_db w) ->
  (forall cols, plan_ok cols -> plan_admits t cols i (w_db w) = true) ->
  i_EventID i <> "" -> is_ok (marshalMetadata (i_Metadata i)) = true ->
  fst ((try (TableSink_Deliver (Some t) i);; TableSink_Deliver (Some t) i) w) = Ok tt.
Proof.
  intros Hq Hws Hp Hadm Hid Hm.
  assert (Hfresh : forall s1, well_shaped t sh s1 -> cached_plan s1 = None \/ cached_plan s1 = Some (fresh sh) ->
    (forall cols i, plan_admits t cols i s1 = plan_admits t cols i (w_db w)) ->
    fst (TableSink_Deliver (Some t) i (set_db s1 w)) = Ok tt).
  { intros s1 Hws1 Hc1 Ha1. destruct (deliver_fresh t sh i (set_db s1 w) Hq Hws1 Hid Hm Hc1) as (r & s' & -> & Hr & _).
    simpl in *. rewrite Ha1, Hadm in Hr by (by eapply plan_ok_fresh). by destruct r as [[]|]. }
  unfold mbind, M_bind, try. destruct (cached_plan (w_db w)) as [cols|] eqn:Ec.
  - destruct (deliver_planned t sh cols i w Hq Hws Ec (Hp _ Ec) Hid Hm) as (r & s1 & -> & Hws1 & Ha1 & Hd). simpl.
    destruct (forallb _ cols) eqn:Ef; destruct Hd as [_ Hc1]; [|apply Hfresh; auto].
    destruct (deliver_planned t sh cols i (set_db s1 w) Hq Hws1 Hc1 (Hp _ Ec) Hid Hm) as (r2 & s2 & E2 & _ & _ & Hd).
    assert (Hgoal : fst (TableSink_Deliver (Some t) i (set_db s1 w)) = r2) by by rewrite E2.
    etrans; [exact Hgoal|]. clear Hgoal E2. rewrite Ef in Hd. simpl in *. rewrite Ha1, Hadm in Hd by (by apply Hp). destruct Hd. by destruct r2 as [[]|].
  - destruct (deliver_fresh t sh i w Hq Hws Hid Hm (or_introl Ec)) as (r & s1 & -> & _ & Hws1 & Hc1 & Ha1). simpl.
    apply Hfresh; auto.
Qed.

(** ** Witnesses *)

(** JSON objects as their own text, always encodable. *)
#[export] Instance ex_json : JSONObjects := {|
  json_object := string; json_Marshal := Ok; json_Unmarshal := fun s => Ok (Some s);
  metadata_unreadable := fun _ => "unreadable" |}.

(** A process with one outbox table, one audit table and a sink. *)
Record ex_app := {
  x_outbox : list OutboxRow; x_audit : list audit_row; x_columns : list string;
  x_plan : option (list destinationColumn); x_name : string; x_bad : list string
}.

Definition ex_set_outbox l s := {| x_outbox := l; x_audit := x_audit s; x_columns := x_columns s; x_plan := x_plan s; x_name := x_name s; x_bad := x_bad s |}.
Definition ex_set_audit l s := {| x_outbox := x_outbox s; x_audit := l; x_columns := x_columns s; x_plan := x_plan s; x_name := x_name s; x_bad := x_bad s |}.
Definition ex_set_plan p s := {| x_outbox := x_outbox s; x_audit := x_audit s; x_columns := x_columns s; x_plan := p; x_name := x_name s; x_bad := x_bad s |}.
Definition ex_set_name n s := {| x_outbox := x_outbox s; x_audit := x_audit s; x_columns := x_columns s; x_plan := x_plan s; x_name := n; x_bad := x_bad s |}.

#[export] Instance ex_app_outbox : HasOutbox ex_app.
Proof.
  refine {| outbox_rows := fun _ s => Some (x_outbox s); put_outbox := fun _ => ex_set_outbox;
            current_xact := fun s => length (x_outbox s); skip_locked := fun _ _ => false |}; done.
Defined.

(** The destination refuses the rows of the ids in [x_bad]. *)
#[export] Instance ex_app_audit : HasAuditTables ex_app.
Proof.
  refine {| relation_shape := fun t s => Some {| qualified := tb_name t; columns := x_columns s |};
            audit_rows := fun _ => x_audit; put_audit := fun _ => ex_set_audit; keyed_on_id := fun _ _ => true;
            column_defaults := fun _ _ => ∅;
            row_admitted := fun _ s row => match row !! "id" with Some (VText (Some id)) => negb (mem id (x_bad s)) | _ => true end |}; done.
Defined.

#[export] Instance ex_app_plan : HasSinkPlan ex_app.
Proof.
  refine {| cached_plan := x_plan; resolved_name := x_name; put_plan := ex_set_plan; put_resolved := ex_set_name |}; done.
Defined.

#[export] Instance ex_app_sink : SinkFrame ex_app.
Proof. by split. Qed.

#[export] Instance ex_app_frame : OutboxFrame ex_app.
Proof. by split. Qed.

Definition ex_stored (n : string) (time : Z) : stored_intent := {|
  s_event_id := n; s_occurred_at := time; s_action := "platform_admin.granted"; s_actor_user_id := Some "root";
  s_actor_email := None; s_organization_id := None; s_resource_type := Some "user"; s_resource_id := Some "u1";
  s_ip_address := None; s_metadata := Some "{}" |}.

Definition ex_dest : table := {| tb_schema := ""; tb_name := "audit_logs" |}.

(** A plan of an earlier shape of the table, which had one more column. *)
Definition ex_stale : ex_app := {|
  x_outbox := []; x_audit := []; x_columns := ["id"; "action"; "created_at"];
  x_plan := Some (fresh {| qualified := "audit_logs"; columns := ["id"; "action"; "actor_email"; "created_at"] |});
  x_name := "public.audit_logs"; x_bad := [] |}.

Lemma ex_stale_plans : plans_ok ex_stale.
Proof. intros cols [= <-]. exists (fun c => mem c ["id"; "action"; "actor_email"; "created_at"]). done. Qed.

Lemma sink_recovers_witness :
  fst (TableSink_Deliver (Some ex_dest) (scan_intent (ex_stored "e1" 5)) (quiet ex_stale 0 0 0)) <> Ok tt /\
  fst ((try (TableSink_Deliver (Some ex_dest) (scan_intent (ex_stored "e1" 5)));;
        TableSink_Deliver (Some ex_dest) (scan_intent (ex_stored "e1" 5))) (quiet ex_stale 0 0 0)) = Ok tt.
Proof.
  split; [discriminate|].
  apply (sink_recovers ex_dest {| qualified := "audit_logs"; columns := ["id"; "action"; "created_at"] |}
           (scan_intent (ex_stored "e1" 5)) (quiet ex_stale 0 0 0)); try done.
  - exact ex_stale_plans.
  - intros cols Hp. unfold plan_admits.
    assert (Hm : is_ok (marshalMetadata (i_Metadata (scan_intent (ex_stored "e1" 5)))) = true) by reflexivity.
    destruct (extract_total (scan_intent (ex_stored "e1" 5)) Hm cols Hp) as [args ->].
    simpl. by repeat case_match.
Defined.

Definition ex_fresh : world ex_app := set_intx true (quiet (ex_set_plan None ex_stale) 0 0 0).

Lemma delivery_exactly_once_witness :
  let i := scan_intent (ex_stored "e1" 5) in
  let w' := snd (TableSink_Deliver (Some ex_dest) i ex_fresh) in
  fst (TableSink_Deliver (Some ex_dest) i ex_fresh) = Ok tt /\
  outcome ex_dest i (Ok tt) [] (audit_rows ex_dest (w_db w')) /\ length (audit_rows ex_dest (w_db w')) = 1%nat.
Proof.
  intros i w'. split; [reflexivity|]. split; [|reflexivity].
  refine (proj1 (delivery_exactly_once ex_dest i ex_fresh (Ok tt) w' eq_refl _ _ _)).
  - intros cols [=].
  - apply NoDup_nil_2.
  - reflexivity.
Defined.
