(* ===== verification/AuditRelay.v ===== *)
(** * AuditRelay: identity/auditoutbox/relay.go

    The relay: claim a batch of pending intents, deliver each, record the outcome
    on its row, commit; then report the backlog and prune delivered history.

    The claim and the marks run in one transaction on the outbox's connection; the
    sink writes on a connection of its own, so what it delivered survives a
    rollback and only the outbox goes back ([outbox_undo]). Log lines and observer
    callbacks are left out; a batch that fails reports no counts, as its only
    caller ignores them. [safeloop.Guard] around a cycle has nothing to recover
    here. *)

From S2P Require Import Prelude GoStrings Order PgQuote Db DbRel AuditTable AuditOutbox AuditSink.

Definition relay_second : Z := 1000000000.
Definition defaultRelayInterval : Z := 10 * relay_second.
Definition defaultRelayBatchSize : Z := 100.
Definition defaultRelayMaxBatches : nat := 10.
Definition defaultRelayBacklogWarn : Z := 100.
Definition defaultRelayDeliveredRetain : Z := 7 * 24 * 3600 * relay_second.

Record RelayConfig := { PollInterval : Z; BatchSize : Z; BacklogWarn : Z; RetainDelivered : Z }.

Definition pollInterval (c : RelayConfig) : Z := if (PollInterval c <=? 0)%Z then defaultRelayInterval else PollInterval c.
Definition batchSize (c : RelayConfig) : Z := if (BatchSize c <=? 0)%Z then defaultRelayBatchSize else BatchSize c.
Definition backlogWarn (c : RelayConfig) : Z := if (BacklogWarn c =? 0)%Z then defaultRelayBacklogWarn else BacklogWarn c.
Definition retainDelivered (c : RelayConfig) : Z :=
  if (RetainDelivered c =? 0)%Z then defaultRelayDeliveredRetain else RetainDelivered c.

Section Relay.
Context `{JSONObjects}.

(** What an external shipper sees. *)
Record Entry := {
  e_Timestamp : option Z; e_EventID : string; e_Action : string; e_UserID : string; e_ActorEmail : string;
  e_OrganizationID : string; e_ResourceType : string; e_ResourceID : string; e_IPAddress : string;
  e_Metadata : option json_object
}.

Definition derefString (s : option string) : string := match s with None => "" | Some s => s end.

Definition entry_of (i : Intent) : Entry := {|
  e_Timestamp := i_OccurredAt i; e_EventID := i_EventID i; e_Action := i_Action i;
  e_UserID := derefString (i_ActorUserID i); e_ActorEmail := derefString (i_ActorEmail i);
  e_OrganizationID := derefString (i_OrganizationID i); e_ResourceType := derefString (i_ResourceType i);
  e_ResourceID := derefString (i_ResourceID i); e_IPAddress := derefString (i_IPAddress i);
  e_Metadata := i_Metadata i |}.

Definition Shipper (St : Type) : Type := Entry -> M St unit.

(** A relay's outbox, sink and shipper may each be nil. *)
Record RelayOf (St : Type) := {
  rl_outbox : option table; rl_sink : option (Sink St); rl_shipper : option (Shipper St); rl_cfg : RelayConfig
}.

Section Operations.
Context {St : Type} `{HasOutbox St}.

Notation Relay := (RelayOf St).

Definition ship (r : Relay) (intent : Intent) : M St unit :=
  match rl_shipper _ r with
  | None => mret tt
  | Some shipper => try (shipper (entry_of intent));; mret tt
  end.

Fixpoint deliver_loop (r : Relay) (t : table) (sink : Sink St) (intents : list pendingIntent) (delivered : nat) : M St nat :=
  match intents with
  | [] => mret delivered
  | intent :: intents =>
      res ← try (sink (p_Intent intent));
      match res with
      | Err derr =>
          recordFailure t (i_EventID (p_Intent intent)) derr;;
          deliver_loop r t sink intents delivered
      | Ok _ =>
          ship r (p_Intent intent);;
          markDelivered t (i_EventID (p_Intent intent));;
          deliver_loop r t sink intents (S delivered)
      end
  end.

(** What a rollback on the outbox's connection leaves of the process. *)
Definition outbox_undo (t : table) (s0 s : St) : St :=
  match outbox_rows t s0 with Some rows => put_outbox t rows s | None => s end.

Definition batch_body (r : Relay) (t : table) (sink : Sink St) : M St (nat * nat) :=
  intents ← claim t (batchSize (rl_cfg _ r));
  if (length intents =? 0)%nat then mret (0, 0)%nat
  else
    delivered ← deliver_loop r t sink intents 0;
    mret (length intents, delivered).

Definition DeliverBatch (r : Relay) : M St (nat * nat) :=
  match rl_outbox _ r with
  | None => throw ErrNoOutbox
  | Some t =>
      match rl_sink _ r with
      | None => throw (Plain "identity/auditoutbox: relay has no sink")
      | Some sink => tx_on (outbox_undo t) id id (batch_body r t sink)
      end
  end.

Fixpoint cycle_loop (r : Relay) (n : nat) : M St unit :=
  match n with
  | O => mret tt
  | S n =>
      res ← try (DeliverBatch r);
      match res with
      | Err _ => mret tt
      | Ok (claimed, _) => if (Z.of_nat claimed <? batchSize (rl_cfg _ r))%Z then mret tt else cycle_loop r n
      end
  end.

(** The backlog only feeds a callback and a log line. *)
Definition observeBacklog (r : Relay) : M St unit := try (Outbox_Backlog (rl_outbox _ r));; mret tt.

Definition prune (r : Relay) : M St unit :=
  let retain := retainDelivered (rl_cfg _ r) in
  if (retain <? 0)%Z then mret tt
  else
    now ← time_Now;
    try (PruneDelivered (rl_outbox _ r) (now - retain)%Z
           (int64 (batchSize (rl_cfg _ r) * Z.of_nat defaultRelayMaxBatches)));;
    mret tt.

Definition RunCycle (r : Relay) : M St unit :=
  cycle_loop r defaultRelayMaxBatches;;
  observeBacklog r;;
  prune r.

(** One cycle at once, then one per tick until stopped; [ticks] came before that. *)
Fixpoint cycles (r : Relay) (n : nat) : M St unit :=
  match n with O => mret tt | S n => RunCycle r;; cycles r n end.

Definition Start (r : Relay) (ticks : nat) : M St unit :=
  match rl_outbox _ r with
  | None => throw ErrNoOutbox
  | Some _ =>
      match rl_sink _ r with
      | None => throw (Plain "identity/auditoutbox: relay has no sink; audit intents would never leave the outbox")
      | Some _ => RunCycle r;; cycles r ticks
      end
  end.
End Operations.
End Relay.
Arguments rl_outbox {_ _} _.
Arguments rl_sink {_ _} _.
Arguments rl_shipper {_ _} _.
Arguments rl_cfg {_ _} _.
Notation Relay St := (RelayOf St).

(** ** The trail is never lost *)

Section Trail.
Context `{JSONObjects} {St : Type} `{HasOutbox St} (t : table) (sink : Sink St) `{!DurableSink t sink}.

Definition rows_of (s : St) : list OutboxRow := default [] (outbox_rows t s).

(** A delivered row's record is at the destination. *)
Record trail_wf (s : St) : Prop := {
  tw_exists : is_Some (outbox_rows t s);
  tw_ready : ready s;
  tw_unique : NoDup (List.map row_id (rows_of s));
  tw_held : forall r, In r (rows_of s) -> is_pending r = false -> held (row_id r) s
}.

(** Whatever was recorded is still recorded: in the outbox or at the destination. *)
Definition trail (s s' : St) : Prop :=
  trail_wf s ->
  trail_wf s' /\ (forall id, held id s -> held id s') /\
  (forall r, In r (rows_of s) -> (exists r', In r' (rows_of s') /\ r_intent r' = r_intent r) \/ held (row_id r) s').

#[export] Instance trail_preorder : PreOrder trail.
Proof.
  split.
  - intros s Hw. split; [done|]. split; [done|]. intros r Hr. left. eauto.
  - intros a b c Hab Hbc Hw. destruct (Hab Hw) as (Hb & Hh1 & Hr1). destruct (Hbc Hb) as (Hc & Hh2 & Hr2).
    split; [done|]. split; [auto|]. intros r Hr. destruct (Hr1 r Hr) as [(r' & Hr' & E)|Hh]; [|right; auto].
    destruct (Hr2 r' Hr') as [(r'' & Hr'' & E')|Hh].
    + left. exists r''. split; [done|congruence].
    + right. unfold row_id in *. by rewrite <- E.
Qed.

Lemma rows_put s l l' : outbox_rows t s = Some l -> rows_of (put_outbox t l' s) = l'.
Proof. intros E. unfold rows_of. by rewrite (outbox_put _ _ _ l' E). Qed.

(** A rewrite of the outbox that keeps the trail: ids stay unique, a row becomes
    delivered only when held, a row goes only when delivered. *)
Lemma trail_put s l l' :
  outbox_rows t s = Some l ->
  (NoDup (List.map row_id l) -> NoDup (List.map row_id l')) ->
  (forall r', In r' l' -> is_pending r' = false ->
     held (row_id r') s \/ exists r, In r l /\ row_id r = row_id r' /\ is_pending r = false) ->
  (NoDup (List.map row_id l) -> forall r, In r l -> is_pending r = false \/ exists r', In r' l' /\ r_intent r' = r_intent r) ->
  trail s (put_outbox t l' s).
Proof.
  intros E Hn Hdel Hkeep Hw. pose proof Hw as [_ Hready Huniq Hheld].
  assert (El : rows_of s = l) by (unfold rows_of; by rewrite E). rewrite El in Huniq, Hheld.
  split; [split|split].
  - by rewrite (outbox_put _ _ _ l' E).
  - by apply ready_put.
  - rewrite (rows_put s l l' E). auto.
  - rewrite (rows_put s l l' E). intros r' Hr' Hp. apply held_put.
    destruct (Hdel r' Hr' Hp) as [?|(r & Hr & Eid & Hpr)]; [done|]. rewrite <- Eid. auto.
  - intros id. by rewrite held_put.
  - intros r Hr. rewrite El in Hr. rewrite (rows_put s l l' E).
    destruct (Hkeep Huniq r Hr) as [Hp|?]; [right; apply held_put; auto|by left].
Qed.

(** Marks keep every row's intent. *)
Lemma trail_update s l id f :
  outbox_rows t s = Some l -> (forall r, r_intent (f r) = r_intent r) ->
  (forall r, is_pending (f r) = is_pending r) \/ held id s ->
  trail s (put_outbox t (rows_upd (fun r => row_id r =s id) f l) s).
Proof.
  intros E Hf Hp. apply (trail_put s l); [done|..].
  - intros Hn. unfold row_id in *. by rewrite (map_rows_upd (fun r => s_event_id (r_intent r))) by (intros x; by rewrite Hf).
  - intros r' Hr' Hd. apply in_rows_upd in Hr' as (r & Hr & ->).
    destruct (row_id r =s id) eqn:Eid; [|right; by exists r].
    destruct Hp as [Hp|Hh].
    + right. exists r. unfold row_id. by rewrite Hf, <- Hp.
    + left. apply seqb_true in Eid. unfold row_id in *. by rewrite Hf, Eid.
  - intros _ r Hr. right. exists (if row_id r =s id then f r else r). split; [apply in_rows_upd; eauto|].
    by destruct (row_id r =s id); [apply Hf|].
Qed.

Lemma recordFailure_trail id cause : enlisted trail (recordFailure t id cause).
Proof.
  unfold recordFailure, outbox_stmt. enlist. apply enlisted_table_stmt; [apply _|].
  intros s rows a rows' Hg [= _ <-]. apply trail_update; [done|done|by left].
Qed.

(** A row is marked only once its record is held. *)
Definition holding (id : string) (s s' : St) : Prop := trail_wf s -> held id s -> trail s s' /\ held id s'.

#[export] Instance holding_preorder id : PreOrder (holding id).
Proof.
  split; [by intros s Hw Hh; split|]. intros a b c Hab Hbc Hw Hh. destruct (Hab Hw Hh) as [T1 H1].
  destruct (Hbc (proj1 (T1 Hw)) H1) as [T2 H2]. split; [by transitivity b|done].
Qed.

Lemma markDelivered_holding id : enlisted (holding id) (markDelivered t id).
Proof.
  unfold markDelivered, outbox_stmt. enlist. apply enlisted_table_stmt; [apply _|].
  intros s rows u rows' Hg [= _ <-] Hw Hh. split; [|by apply held_put]. apply trail_update; [done|done|by right].
Qed.

(** What a sink or a shipper does on its own connection. *)
Definition beside (s s' : St) : Prop :=
  same_outbox t s s' /\ (ready s -> ready s' /\ forall id, held id s -> held id s').

Lemma beside_trail s s' : beside s s' -> trail s s'.
Proof.
  intros [Ho Hr] [Hex Hready Hu Hh]. destruct (Hr Hready) as [Hready' Hh'].
  assert (E : rows_of s' = rows_of s) by (unfold rows_of; by rewrite Ho).
  split; [split; [by rewrite Ho|done|by rewrite E|rewrite E; auto]|]. split; [done|]. intros r Hin. left. exists r. by rewrite E.
Qed.

Lemma beside_holding id s s' : beside s s' -> holding id s s'.
Proof. intros Hb Hw Hh. split; [by apply beside_trail|]. destruct Hb as [_ Hb]. by apply Hb; [apply tw_ready|]. Qed.

Lemma enlisted_weaken {A} (R R' : St -> St -> Prop) (m : M St A) :
  (forall s s', R s s' -> R' s s') -> enlisted R m -> enlisted R' m.
Proof. intros HR Hm w r w' E Hi. destruct (Hm _ _ _ E Hi) as (? & ? & ?). auto. Qed.

(** A shipper that leaves the outbox and the sink's records alone. *)
Definition ships_beside (r : Relay St) : Prop := forall shipper e, rl_shipper r = Some shipper -> enlisted beside (shipper e).

Lemma ship_holding r i id : ships_beside r -> enlisted (holding id) (ship r i).
Proof.
  intros Hs. unfold ship. destruct (rl_shipper r) as [shipper|] eqn:E; enlist.
  eapply enlisted_weaken; [|by apply Hs]. apply beside_holding.
Qed.

Lemma deliver_loop_trail r intents delivered :
  ships_beside r -> enlisted trail (deliver_loop r t sink intents delivered).
Proof.
  intros Hs. revert delivered. induction intents as [|p intents IH]; intros delivered; simpl; [enlist|].
  intros w res w' E Hi. apply bind_try in E as (dres & w1 & E1 & E2).
  destruct (deliver_aside _ _ _ _ E1 Hi) as (Hb & Hi1 & Hc1). pose proof (beside_trail _ _ Hb) as Ht1.
  destruct dres as [[]|derr].
  - assert (Hen : enlisted (holding (i_EventID (p_Intent p)))
      (ship r (p_Intent p);; markDelivered t (i_EventID (p_Intent p)))).
    { apply enlisted_bind; [apply _|by apply ship_holding|intros _; apply markDelivered_holding]. }
    assert (Hassoc : (ship r (p_Intent p);; markDelivered t (i_EventID (p_Intent p));; deliver_loop r t sink intents (S delivered)) w1 =
      ((ship r (p_Intent p);; markDelivered t (i_EventID (p_Intent p)));; deliver_loop r t sink intents (S delivered)) w1).
    { unfold mbind, M_bind. by destruct (ship r (p_Intent p) w1) as [[?|?] ?]. }
    rewrite Hassoc in E2. apply bind_inv in E2 as [(u & w2 & E2 & E3)|(e & E2 & _)];
      destruct (Hen _ _ _ E2 Hi1) as (Ht2 & Hi2 & Hc2).
    + destruct (IH _ _ _ _ E3 Hi2) as (Ht3 & Hi3 & Hc3). split; [|split; [done|by transitivity w1; [|transitivity w2]]].
      intros Hw. pose proof (deliver_holds _ _ _ E1 Hi (tw_ready _ Hw)) as Hh.
      destruct (Ht2 (proj1 (Ht1 Hw)) Hh) as [Ht2' _]. revert Hw. change (trail (w_db w) (w_db w')).
      transitivity (w_db w1); [done|]. by transitivity (w_db w2).
    + split; [|split; [done|by transitivity w1]].
      intros Hw. pose proof (deliver_holds _ _ _ E1 Hi (tw_ready _ Hw)) as Hh.
      destruct (Ht2 (proj1 (Ht1 Hw)) Hh) as [Ht2' _]. revert Hw. change (trail (w_db w) (w_db w')). by transitivity (w_db w1).
  - assert (Hen : enlisted trail (recordFailure t (i_EventID (p_Intent p)) derr;; deliver_loop r t sink intents delivered)).
    { apply enlisted_bind; [apply _|apply recordFailure_trail|intros _; apply IH]. }
    destruct (Hen _ _ _ E2 Hi1) as (Ht2 & Hi2 & Hc2). split; [by transitivity (w_db w1)|]. split; [done|by transitivity w1].
Qed.

Lemma undo_trail s0 s : trail s0 s -> trail s0 (outbox_undo t s0 s).
Proof.
  intros Ht Hw. pose proof Hw as [[l E] Hready Hu Hh]. destruct (Ht Hw) as ([[l1 E1] Hready' Hu' Hh'] & Hk & Hr).
  assert (El : rows_of s0 = l) by (unfold rows_of; by rewrite E). rewrite El in *.
  unfold outbox_undo. rewrite E. pose proof (rows_put s l1 l E1) as Ep. split; [split; rewrite ?Ep|split].
  - by rewrite (outbox_put _ _ _ l E1).
  - by apply ready_put.
  - done.
  - intros r Hin Hp. apply held_put. auto.
  - intros id. rewrite held_put. auto.
  - intros r Hin. left. exists r. by rewrite Ep.
Qed.

Lemma DeliverBatch_trail r : rl_outbox r = Some t -> rl_sink r = Some sink -> ships_beside r -> evolves trail (DeliverBatch r).
Proof.
  intros Ho Hs Hship. unfold DeliverBatch. rewrite Ho, Hs. apply evolves_tx_enlisted; [apply _|exact undo_trail|].
  unfold batch_body, claim, outbox_read. enlist. by apply deliver_loop_trail.
Qed.

(** Only delivered rows are doomed. *)
Lemma doomed_delivered before limit l r :
  NoDup (List.map row_id l) -> In r l ->
  mem (row_id r) (List.map row_id (firstn (Z.to_nat limit) (sort_by delivered_order (List.filter (delivered_before before) l)))) = true ->
  is_pending r = false.
Proof.
  intros Hn Hr Hm. apply mem_true, in_map_iff in Hm as (r' & E & Hin).
  assert (Hf : In r' (List.filter (delivered_before before) l)).
  { apply (in_sort_by delivered_order). rewrite <- (firstn_skipn (Z.to_nat limit)). apply in_app_iff. by left. }
  apply filter_In in Hf as [Hr' Hd]. rewrite (NoDup_map_inj row_id _ r' r Hn Hr' Hr E) in Hd.
  unfold delivered_before in Hd. unfold is_pending. by destruct (r_delivered_at r).
Qed.

Lemma PruneDelivered_trail before limit : evolves trail (PruneDelivered (Some t) before limit).
Proof.
  unfold PruneDelivered, outbox_stmt. generalize (if (limit <=? 0)%Z then defaultPruneLimit else limit). intros lim. evolve.
  apply evolves_table_stmt; [apply _|]. intros s rows n rows' Hg [= _ <-]. apply (trail_put s rows); [done|..].
  - by apply NoDup_map_filter.
  - intros r' Hr' Hp. right. exists r'. by apply filter_In in Hr' as [Hr' _].
  - intros Hn r Hr. match goal with |- context [rows_del ?p rows] => destruct (p r) eqn:Ed end.
    + left. by eapply doomed_delivered.
    + right. exists r. split; [|done]. by apply in_rows_del.
Qed.

Lemma Enqueue_trail uuid o tx intent : (forall t', o = Some t' -> t' = t) -> evolves trail (Enqueue uuid o tx intent).
Proof.
  intros Ho. unfold Enqueue, outbox_stmt. destruct o as [t'|]; [rewrite (Ho t' eq_refl)|evolve].
  evolve; try (by apply evolves_lift; apply _).
  all: apply evolves_table_stmt; [apply _|]; intros s rows u rows' Hg E; unfold insert_intent in E.
  all: destruct (existsb _ rows) eqn:Eex; [done|]; injection E as _ <-; apply (trail_put s rows); [done|..].
  all: try (intros _ r Hr; right; exists r; rewrite in_app_iff; by split; [left|]).
  all: try (intros r' Hr' Hp; apply in_app_iff in Hr' as [Hr'|[<-|[]]]; [right; by exists r'|done]).
  all: intros Hn; apply NoDup_map_snoc; [done|]; intros y Hy; rewrite existsb_none in Eex; specialize (Eex y Hy);
    by apply seqb_false in Eex.
Qed.

Lemma cycle_loop_trail r n :
  rl_outbox r = Some t -> rl_sink r = Some sink -> ships_beside r -> evolves trail (cycle_loop r n).
Proof.
  intros Ho Hs Hship. induction n as [|n IH]; simpl; evolve. all: by apply DeliverBatch_trail.
Qed.

Lemma RunCycle_trail r :
  rl_outbox r = Some t -> rl_sink r = Some sink -> ships_beside r -> evolves trail (RunCycle r).
Proof.
  intros Ho Hs Hship. unfold RunCycle, observeBacklog, prune, Outbox_Backlog, outbox_read. rewrite Ho. evolve.
  - by apply cycle_loop_trail.
  - apply PruneDelivered_trail.
Qed.

Lemma cycles_trail r n :
  rl_outbox r = Some t -> rl_sink r = Some sink -> ships_beside r -> evolves trail (cycles r n).
Proof. intros Ho Hs Hship. induction n as [|n IH]; simpl; evolve. by apply RunCycle_trail. Qed.
End Trail.

(** ** Draining *)

Section Drain.
Context `{JSONObjects} {St : Type} `{HasOutbox St} (t : table) (r : Relay St).

(** A calm process: nothing is scheduled, no row is locked elsewhere, and the sink
    decides by the intent alone: it accepts some and refuses the others for good. *)
Record obedient (sink : Sink St) (accepts : Intent -> bool) (calm : St -> Prop) : Prop := {
  ob_outbox : rl_outbox r = Some t;
  ob_sink : rl_sink r = Some sink;
  ob_put : forall l s, calm s -> calm (put_outbox t l s);
  ob_locked : forall s id, calm s -> skip_locked s id = false;
  ob_deliver : forall i w, w_sched w = [] -> calm (w_db w) ->
    exists res s', sink i w = (res, set_db s' w) /\ is_ok res = accepts i /\ calm s' /\ same_outbox t (w_db w) s';
  ob_ship : forall shipper e w, rl_shipper r = Some shipper -> w_sched w = [] -> calm (w_db w) ->
    exists res s', shipper e w = (res, set_db s' w) /\ calm s' /\ same_outbox t (w_db w) s'
}.

Context {sink : Sink St} {accepts : Intent -> bool} {calm : St -> Prop} (Hob : obedient sink accepts calm).

Definition accepted (row : OutboxRow) : bool := accepts (scan_intent (r_intent row)).
Definition todo (l : list OutboxRow) : list OutboxRow := List.filter (fun x => is_pending x && accepted x) l.
Definition stuck (l : list OutboxRow) : list OutboxRow := List.filter (fun x => is_pending x && negb (accepted x)) l.

(** A row before and after a batch that claimed [ids]. *)
Definition settles (ids : list string) (x x' : OutboxRow) : Prop :=
  r_intent x' = r_intent x /\ is_pending x' = is_pending x && negb (mem (row_id x) ids && accepted x).

Lemma settles_app ids ids' x y z : settles ids x y -> settles ids' y z -> settles (ids ++ ids') x z.
Proof.
  intros [E1 P1] [E2 P2]. split; [congruence|]. rewrite P2, P1. unfold row_id, accepted, mem. rewrite E1, existsb_app.
  destruct (is_pending x), (accepts _), (existsb _ ids), (existsb _ ids'); done.
Qed.

Lemma settles_all_app ids ids' l1 l2 l3 :
  Forall2 (settles ids) l1 l2 -> Forall2 (settles ids') l2 l3 -> Forall2 (settles (ids ++ ids')) l1 l3.
Proof.
  intros H1. revert l3. induction H1 as [|x y l1 l2 Hxy _ IH]; intros l3 H2; inversion H2; subst; constructor.
  - by eapply settles_app.
  - by apply IH.
Qed.

Lemma settles_ids ids l l' : Forall2 (settles ids) l l' -> List.map row_id l' = List.map row_id l.
Proof. induction 1 as [|x y l l' [E _] _ IH]; [done|]. simpl. unfold row_id at 1 3. by rewrite E, IH. Qed.

(** Marking or failing the one row of an id settles that id. *)
Lemma update_settles l row f :
  NoDup (List.map row_id l) -> In row l -> (forall x, r_intent (f x) = r_intent x) ->
  (forall x, is_pending (f x) = is_pending x && negb (accepted row)) ->
  Forall2 (settles [row_id row]) l (rows_upd (fun x => row_id x =s row_id row) f l).
Proof.
  intros Hn Hrow Hf Hp.
  assert (Hall : forall x, In x l -> settles [row_id row] x (if row_id x =s row_id row then f x else x)).
  { intros x Hx. unfold settles. simpl. rewrite (seqb_sym (row_id row)). destruct (row_id x =s row_id row) eqn:E; simpl.
    - apply seqb_true in E. rewrite (NoDup_map_inj row_id l x row Hn Hx Hrow E), Hf, Hp. done.
    - by rewrite andb_true_r. }
  clear Hn Hrow. induction l as [|x l IH]; simpl; constructor; [apply Hall; by left|].
  apply IH. intros y Hy. apply Hall. by right.
Qed.

Lemma ship_quiet i (w : world St) :
  w_sched w = [] -> calm (w_db w) -> exists s', ship r i w = (Ok tt, set_db s' w) /\ calm s' /\ same_outbox t (w_db w) s'.
Proof.
  intros Hq Hc. unfold ship. destruct (rl_shipper r) as [shipper|] eqn:E.
  - destruct (ob_ship _ _ _ Hob shipper (entry_of i) w E Hq Hc) as (res & s' & Es & ? & ?).
    exists s'. unfold mbind, M_bind, try. by rewrite Es.
  - exists (w_db w). by destruct w.
Qed.

Lemma update_quiet id f msg (w : world St) l :
  w_sched w = [] -> outbox_rows t (w_db w) = Some l ->
  wrapping msg (outbox_stmt t (fun _ => update_row id f)) w =
    (Ok tt, set_db (put_outbox t (rows_upd (fun x => row_id x =s id) f l) (w_db w)) w).
Proof. intros Hq Hl. unfold wrapping, mapping_err, outbox_stmt. by rewrite (table_stmt_quiet _ _ _ w l Hq Hl). Qed.

Lemma deliver_loop_quiet claims l d (w : world St) :
  w_sched w = [] -> calm (w_db w) -> outbox_rows t (w_db w) = Some l -> NoDup (List.map row_id l) ->
  (forall row, In row claims -> exists row0, In row0 l /\ r_intent row0 = r_intent row) ->
  exists n s' l', deliver_loop r t sink (List.map scan_pending claims) d w = (Ok n, set_db s' w) /\
    calm s' /\ outbox_rows t s' = Some l' /\ Forall2 (settles (List.map row_id claims)) l l'.
Proof.
  revert l d w. induction claims as [|row claims IH]; intros l d w Hq Hc Hl Hn Hin; simpl.
  { exists d, (w_db w), l. split; [by destruct w|]. split; [done|]. split; [done|].
    clear. induction l as [|x l IH]; constructor; [|done]. split; [done|]. simpl. by rewrite andb_true_r. }
  destruct (Hin row (or_introl eq_refl)) as (row0 & Hrow0 & Erow).
  destruct (ob_deliver _ _ _ Hob (scan_intent (r_intent row)) w Hq Hc) as (res & s1 & E1 & Hres & Hc1 & Ho1).
  unfold same_outbox in Ho1. rewrite Hl in Ho1.
  assert (Hrest : forall f s, (forall x, r_intent (f x) = r_intent x) ->
      (forall x, is_pending (f x) = is_pending x && negb (accepted row0)) -> calm s -> outbox_rows t s = Some l ->
      forall d, exists n s' l',
        deliver_loop r t sink (List.map scan_pending claims) d
          (set_db (put_outbox t (rows_upd (fun x => row_id x =s row_id row) f l) s) w) = (Ok n, set_db s' w) /\
        calm s' /\ outbox_rows t s' = Some l' /\ Forall2 (settles (row_id row :: List.map row_id claims)) l l').
  { intros f s Hf Hp Hcs Hls d'. assert (Eid : row_id row = row_id row0) by (unfold row_id; by rewrite Erow).
    rewrite Eid. pose proof (update_settles l row0 f Hn Hrow0 Hf Hp) as Hs1.
    destruct (IH (rows_upd (fun x => row_id x =s row_id row0) f l) d'
                (set_db (put_outbox t (rows_upd (fun x => row_id x =s row_id row0) f l) s) w)) as (n & s' & l' & E & Hc' & Hl' & Hs2).
    - done.
    - by apply (ob_put _ _ _ Hob).
    - by apply (outbox_put _ _ l).
    - by rewrite (settles_ids _ _ _ Hs1).
    - intros row' Hrow'. destruct (Hin row' (or_intror Hrow')) as (row1 & Hrow1 & E1').
      exists (if row_id row1 =s row_id row0 then f row1 else row1). split; [apply in_rows_upd; eauto|].
      by destruct (row_id row1 =s row_id row0); rewrite ?Hf.
    - exists n, s', l'. split; [exact E|]. split; [done|]. split; [done|]. exact (settles_all_app [row_id row0] _ _ _ _ Hs1 Hs2). }
  unfold mbind at 1, M_bind at 1, try at 1. rewrite E1. destruct res as [[]|derr]; simpl in Hres.
  - destruct (ship_quiet (scan_intent (r_intent row)) (set_db s1 w) Hq Hc1) as (s2 & E2 & Hc2 & Ho2).
    unfold same_outbox in Ho2. simpl in Ho2. rewrite Ho1 in Ho2.
    cbn [p_Intent scan_pending]. rewrite (bind_step _ _ _ _ _ E2).
    assert (Em : markDelivered t (row_id row) (set_db s2 w) =
      (Ok tt, set_db (put_outbox t (rows_upd (fun x => row_id x =s row_id row) (mark_row (w_dbnow w)) l) s2) w)).
    { unfold markDelivered, mbind, M_bind, db_NOW. by rewrite (update_quiet _ _ _ (set_db s2 w) l Hq Ho2). }
    change (set_db s2 (set_db s1 w)) with (set_db s2 w). change (i_EventID (scan_intent (r_intent row))) with (row_id row).
    rewrite (bind_step _ _ _ _ _ Em). apply (Hrest (mark_row (w_dbnow w)) s2); [done| |done|done].
    intros x. unfold accepted. by rewrite Erow, <- Hres, andb_false_r.
  - change (i_EventID (p_Intent (scan_pending row))) with (row_id row). unfold recordFailure.
    rewrite (bind_step _ _ _ _ _ (update_quiet (row_id row) (fail_row derr) _ (set_db s1 w) l Hq Ho1)).
    apply (Hrest (fail_row derr) s1); [done| |done|done].
    intros x. unfold accepted. rewrite Erow, <- Hres, andb_true_r. done.
Qed.

Definition batch_of (l : list OutboxRow) : list OutboxRow := claim_rows (fun _ => false) (batchSize (rl_cfg r)) l.

Lemma batchSize_pos c : (0 < batchSize c)%Z.
Proof. unfold batchSize, defaultRelayBatchSize. destruct (Z.leb_spec (BatchSize c) 0); lia. Qed.

Lemma in_batch row l : In row (batch_of l) -> In row l /\ is_pending row = true.
Proof.
  unfold batch_of, claim_rows. intros Hin.
  assert (Hf : In row (List.filter (fun x => is_pending x && negb false) l)).
  { eapply in_sort_by. rewrite <- (firstn_skipn (Z.to_nat (batchSize (rl_cfg r)))). apply in_app_iff. left. exact Hin. }
  apply filter_In in Hf as [? Hp]. by rewrite andb_true_r in Hp.
Qed.

Lemma DeliverBatch_quiet l (w : world St) :
  w_sched w = [] -> calm (w_db w) -> outbox_rows t (w_db w) = Some l -> NoDup (List.map row_id l) ->
  exists n s' l', DeliverBatch r w = (Ok (length (batch_of l), n), set_db s' w) /\
    calm s' /\ outbox_rows t s' = Some l' /\ Forall2 (settles (List.map row_id (batch_of l))) l l'.
Proof.
  intros Hq Hc Hl Hn. set (w1 := set_intx true w).
  assert (Hclaim : claim t (batchSize (rl_cfg r)) w1 = (Ok (List.map scan_pending (batch_of l)), w1)).
  { assert (Hb : claim_rows (skip_locked (w_db w1)) (batchSize (rl_cfg r)) l = batch_of l).
    { unfold batch_of, claim_rows. do 2 f_equal. apply List.filter_ext. intros x. by rewrite (ob_locked _ _ _ Hob _ _ Hc). }
    unfold claim, wrapping, mapping_err, outbox_read, mbind, M_bind. rewrite (table_read_quiet _ _ w1 l Hq Hl). by rewrite Hb. }
  destruct (deliver_loop_quiet (batch_of l) l 0 w1 Hq Hc Hl Hn) as (n & s' & l' & E & Hc' & Hl' & Hs).
  { intros row Hrow. apply in_batch in Hrow as [? _]. eauto. }
  assert (Hbody : batch_body r t sink w1 = (Ok (length (batch_of l), n), set_db s' w1)).
  { unfold batch_body. rewrite (bind_step _ _ _ _ _ Hclaim), length_map.
    destruct (length (batch_of l) =? 0)%nat eqn:E0.
    - apply Nat.eqb_eq, length_zero_iff_nil in E0. rewrite E0 in E |- *. injection E as <- <-. by destruct w.
    - by rewrite (bind_step _ _ _ _ _ E). }
  exists n, s', l'. split; [|done]. unfold DeliverBatch. rewrite (ob_outbox _ _ _ Hob), (ob_sink _ _ _ Hob).
  rewrite (tx_on_quiet _ _ _ _ w _ _ Hq Hbody Hq). by destruct w.
Qed.

(** *** The measure *)

Lemma length_todo_settles ids l l' :
  Forall2 (settles ids) l l' ->
  length (stuck l') = length (stuck l) /\ (length (todo l') <= length (todo l))%nat /\
  ((exists x, In x (todo l) /\ In (row_id x) ids) -> (length (todo l') < length (todo l))%nat).
Proof.
  induction 1 as [|x y l l' [E P] _ (IH1 & IH2 & IH3)]; simpl; [by split; [|split; [|intros (x & [] & _)]]|].
  assert (Ea : accepted y = accepted x) by (unfold accepted; by rewrite E).
  unfold todo, stuck in *. simpl. rewrite P, Ea.
  destruct (is_pending x), (accepted x), (mem (row_id x) ids) eqn:Em; simpl;
    (split; [lia|]); (split; [lia|]); intros (z & Hz & Hid).
  all: try (apply IH3; exists z; by split).
  all: try lia.
  - destruct Hz as [<-|Hz]; [|enough (length (List.filter (fun x => is_pending x && accepted x) l') < length (List.filter (fun x => is_pending x && accepted x) l))%nat by lia; apply IH3; by exists z].
    by apply mem_false in Em.
Qed.

(** A batch that is not the whole backlog, with fewer refused intents than the
    batch holds, claims one the sink accepts. *)
Lemma batch_hits l :
  NoDup (List.map row_id l) -> (Z.of_nat (length (stuck l)) < batchSize (rl_cfg r))%Z -> todo l <> [] ->
  exists x, In x (todo l) /\ In (row_id x) (List.map row_id (batch_of l)).
Proof.
  intros Hn Hs Ht. destruct (existsb accepted (batch_of l)) eqn:Ex.
  - apply existsb_exists in Ex as (x & Hx & Ha). exists x. split; [|by apply in_map].
    apply filter_In. apply in_batch in Hx as [? ->]. by rewrite Ha.
  - exfalso. rewrite existsb_none in Ex.
    set (pending := sort_by (fun x y => pending_order (r_intent x) (r_intent y)) (List.filter (fun x => is_pending x && negb false) l)) in *.
    assert (Hnb : List.NoDup (batch_of l)).
    { apply NoDup_ListNoDup. apply (NoDup_fmap_1 row_id). change (row_id <$> batch_of l) with (List.map row_id (batch_of l)).
      unfold batch_of, claim_rows. fold pending. rewrite <- firstn_map.
      eapply sublist_NoDup; [|apply sublist_take]. unfold pending.
      rewrite (Permutation_map row_id (sort_by_perm _ _)). by apply NoDup_map_filter. }
    assert (Hincl : incl (batch_of l) (stuck l)).
    { intros x Hx. apply filter_In. specialize (Ex x Hx). apply in_batch in Hx as [? ->]. by rewrite Ex. }
    pose proof (NoDup_incl_length Hnb Hincl) as Hlen.
    assert (Hall : batch_of l = pending).
    { unfold batch_of, claim_rows. fold pending. apply firstn_all2.
      unfold batch_of, claim_rows in Hlen. fold pending in Hlen. rewrite length_firstn in Hlen. lia. }
    destruct (todo l) as [|x l0] eqn:Et; [done|]. assert (Hx : In x (todo l)) by (rewrite Et; by left).
    apply filter_In in Hx as [Hx Hp]. apply andb_prop in Hp as [Hp Ha].
    enough (Hin : In x (batch_of l)) by by rewrite (Ex x Hin) in Ha.
    rewrite Hall. unfold pending. apply in_sort_by, filter_In. split; [done|]. by rewrite Hp.
Qed.

(** *** Cycles *)

(** A backlog of at most [k] acceptable intents behind fewer refused ones than one
    batch holds. *)
Definition drainable (k : nat) (s : St) : Prop :=
  calm s /\ exists l, outbox_rows t s = Some l /\ NoDup (List.map row_id l) /\
    (Z.of_nat (length (stuck l)) < batchSize (rl_cfg r))%Z /\ (length (todo l) <= k)%nat.

(** A quiet step of the relay that leaves [k'] of [k]. *)
Definition drains {A} (m : M St A) (k k' : nat) : Prop :=
  forall w, w_sched w = [] -> drainable k (w_db w) -> exists a s', m w = (Ok a, set_db s' w) /\ drainable k' s'.

Lemma drains_bind {A B} (m : M St A) (f : A -> M St B) k k' k'' :
  drains m k k' -> (forall a, drains (f a) k' k'') -> drains (m ≫= f) k k''.
Proof.
  intros Hm Hf w Hq Hd. destruct (Hm w Hq Hd) as (a & s1 & E & Hd1).
  destruct (Hf a (set_db s1 w) Hq Hd1) as (b & s2 & E2 & Hd2). exists b, s2. by rewrite (bind_step _ _ _ _ _ E).
Qed.

Lemma drains_ret {A} (a : A) k : drains (mret a) k k.
Proof. intros w Hq Hd. exists a, (w_db w). by destruct w. Qed.

Lemma DeliverBatch_drains k : drains (DeliverBatch r) k (pred k).
Proof.
  intros w Hq (Hc & l & Hl & Hn & Hs & Ht).
  destruct (DeliverBatch_quiet l w Hq Hc Hl Hn) as (n & s' & l' & E & Hc' & Hl' & Hset).
  eexists _, s'. split; [exact E|]. split; [done|]. exists l'. split; [done|].
  rewrite (settles_ids _ _ _ Hset). split; [done|].
  destruct (length_todo_settles _ _ _ Hset) as (Hst & Hle & Hlt). rewrite Hst. split; [done|].
  destruct (decide (todo l = [])) as [E0|Hne]; [rewrite E0 in Hle; simpl in Hle; lia|].
  specialize (Hlt (batch_hits l Hn Hs Hne)). lia.
Qed.

Lemma drainable_mono k k' s : (k <= k')%nat -> drainable k s -> drainable k' s.
Proof. intros Hk (Hc & l & Hl & Hn & Hs & Ht). split; [done|]. exists l. repeat split; try done. lia. Qed.

Lemma cycle_loop_drains n k : drains (cycle_loop r n) k (if n then k else pred k).
Proof.
  revert k. induction n as [|n IH]; intros k; [apply drains_ret|]. cbn [cycle_loop].
  intros w Hq Hd. destruct (DeliverBatch_drains k w Hq Hd) as ([claimed delivered] & s1 & E & Hd1).
  unfold mbind, M_bind, try. rewrite E. destruct (_ <? _)%Z; [by exists tt, s1|].
  destruct (IH (pred k) (set_db s1 w) Hq Hd1) as (a & s2 & E2 & Hd2). exists a, s2. split; [exact E2|].
  eapply drainable_mono; [|exact Hd2]. destruct n; lia.
Qed.

Lemma observe_drains k : drains (observeBacklog r) k k.
Proof.
  intros w Hq Hd. exists tt, (w_db w). split; [|done]. destruct Hd as (_ & l & Hl & _).
  unfold observeBacklog, Outbox_Backlog, wrapping, mapping_err, outbox_read. rewrite (ob_outbox _ _ _ Hob).
  unfold mbind, M_bind, try. rewrite (table_read_quiet _ _ w l Hq Hl). by destruct w.
Qed.

(** Pruning removes delivered rows only. *)
Lemma prune_rows_pending before limit l n l' :
  NoDup (List.map row_id l) -> prune_rows before limit l = Ok (n, l') ->
  NoDup (List.map row_id l') /\ List.filter is_pending l' = List.filter is_pending l.
Proof.
  intros Hn [= _ <-]. split; [by apply NoDup_map_filter|].
  assert (Hd : forall x, In x l -> mem (row_id x) (List.map row_id (firstn (Z.to_nat limit)
      (sort_by delivered_order (List.filter (delivered_before before) l)))) = true -> is_pending x = false).
  { intros x Hx. by apply doomed_delivered. }
  revert Hd. generalize (List.map row_id (firstn (Z.to_nat limit) (sort_by delivered_order (List.filter (delivered_before before) l)))).
  clear. intros ids Hd. induction l as [|x l IH]; simpl; [done|].
  specialize (Hd x (or_introl eq_refl)) as Hx. unfold rows_del in *. simpl.
  destruct (mem (row_id x) ids); simpl; [rewrite (Hx eq_refl)|destruct (is_pending x); [f_equal|]]; apply IH; intros y Hy; apply Hd; by right.
Qed.

Lemma filter_sub (p q : OutboxRow -> bool) l :
  (forall x, q x = true -> p x = true) -> List.filter q l = List.filter q (List.filter p l).
Proof.
  intros Hpq. induction l as [|x l IH]; simpl; [done|]. destruct (p x) eqn:Ep; simpl; rewrite IH; [done|].
  destruct (q x) eqn:Eq; [|done]. by rewrite (Hpq x Eq) in Ep.
Qed.

Lemma todo_pending l : todo l = todo (List.filter is_pending l).
Proof. apply filter_sub. by intros x [? _]%andb_prop. Qed.
Lemma stuck_pending l : stuck l = stuck (List.filter is_pending l).
Proof. apply filter_sub. by intros x [? _]%andb_prop. Qed.

Lemma prune_quiet (w : world St) l :
  w_sched w = [] -> calm (w_db w) -> outbox_rows t (w_db w) = Some l -> NoDup (List.map row_id l) ->
  exists s' l', prune r w = (Ok tt, set_db s' w) /\ calm s' /\ outbox_rows t s' = Some l' /\
    NoDup (List.map row_id l') /\ List.filter is_pending l' = List.filter is_pending l.
Proof.
  intros Hq Hc Hl Hn. unfold prune. destruct (_ <? 0)%Z.
  { exists (w_db w), l. split; [by destruct w|done]. }
  unfold PruneDelivered, outbox_stmt, wrapping, mapping_err. rewrite (ob_outbox _ _ _ Hob).
  unfold mbind, M_bind, time_Now, try. rewrite (table_stmt_quiet _ _ _ w l Hq Hl).
  match goal with |- context [prune_rows ?b ?n l] =>
    destruct (prune_rows b n l) as [[k l']|e] eqn:Ep; [|done]; destruct (prune_rows_pending _ _ _ _ _ Hn Ep) as [Hn' Hpend] end.
  exists (put_outbox t l' (w_db w)), l'. split; [done|]. split; [by apply (ob_put _ _ _ Hob)|].
  split; [by apply (outbox_put _ _ l)|done].
Qed.

Lemma prune_drains k : drains (prune r) k k.
Proof.
  intros w Hq (Hc & l & Hl & Hn & Hs & Ht). destruct (prune_quiet w l Hq Hc Hl Hn) as (s' & l' & E & Hc' & Hl' & Hn' & Hp).
  exists tt, s'. split; [done|]. split; [done|]. exists l'. rewrite todo_pending, stuck_pending, Hp, <- todo_pending, <- stuck_pending. done.
Qed.

Lemma RunCycle_drains k : drains (RunCycle r) k (pred k).
Proof.
  unfold RunCycle. eapply drains_bind; [apply (cycle_loop_drains defaultRelayMaxBatches)|intros _]. cbn [defaultRelayMaxBatches].
  eapply drains_bind; [apply observe_drains|intros _; apply prune_drains].
Qed.

Lemma cycles_drains n k : drains (cycles r n) k (k - n)%nat.
Proof.
  revert k. induction n as [|n IH]; intros k; simpl.
  - rewrite Nat.sub_0_r. apply drains_ret.
  - eapply drains_bind; [apply RunCycle_drains|intros _]. replace (k - S n)%nat with (pred k - n)%nat by lia. apply IH.
Qed.

Lemma Start_drains n k : drains (Start r n) k (k - S n)%nat.
Proof.
  unfold Start. rewrite (ob_outbox _ _ _ Hob), (ob_sink _ _ _ Hob). apply (cycles_drains (S n) k).
Qed.

(** *** Starvation *)

(** The pending intents, in the order the table holds them. *)
Definition backlog (l : list OutboxRow) : list stored_intent := List.map r_intent (List.filter is_pending l).

Lemma map_insert_by {A B} (g : A -> B) (le : B -> B -> bool) x l :
  List.map g (insert_by (fun a b => le (g a) (g b)) x l) = insert_by le (g x) (List.map g l).
Proof. induction l as [|y l IH]; simpl; [done|]. destruct (le (g x) (g y)); simpl; [done|by rewrite IH]. Qed.

Lemma map_sort_by {A B} (g : A -> B) (le : B -> B -> bool) l :
  List.map g (sort_by (fun a b => le (g a) (g b)) l) = sort_by le (List.map g l).
Proof. induction l as [|y l IH]; simpl; [done|]. by rewrite map_insert_by, IH. Qed.

Lemma batch_intents l :
  List.map r_intent (batch_of l) = firstn (Z.to_nat (batchSize (rl_cfg r))) (sort_by pending_order (backlog l)).
Proof.
  unfold batch_of, claim_rows, backlog. rewrite <- firstn_map, (map_sort_by r_intent pending_order). do 3 f_equal.
  apply List.filter_ext. intros x. by rewrite andb_true_r.
Qed.

(** The batch is full and the sink refuses all of it. *)
Definition blocked (s : St) (pending : list stored_intent) : Prop :=
  calm s /\ exists l, outbox_rows t s = Some l /\ NoDup (List.map row_id l) /\ backlog l = pending /\
    forall x, In x (batch_of l) -> accepted x = false.

Lemma DeliverBatch_blocked pending (w : world St) :
  w_sched w = [] -> blocked (w_db w) pending -> exists a s', DeliverBatch r w = (Ok a, set_db s' w) /\ blocked s' pending.
Proof.
  intros Hq (Hc & l & Hl & Hn & Hp & Hrej).
  destruct (DeliverBatch_quiet l w Hq Hc Hl Hn) as (n & s' & l' & E & Hc' & Hl' & Hset).
  eexists _, s'. split; [exact E|]. split; [done|]. exists l'. split; [done|].
  rewrite (settles_ids _ _ _ Hset). split; [done|].
  assert (Hb : backlog l' = backlog l).
  { assert (Hno : forall x, In x l -> mem (row_id x) (List.map row_id (batch_of l)) && accepted x = false).
    { intros x Hx. destruct (mem _ _) eqn:Em; [|done]. apply mem_true, in_map_iff in Em as (y & Ey & Hy).
      rewrite <- (NoDup_map_inj row_id l y x Hn (proj1 (in_batch _ _ Hy)) Hx Ey). by apply Hrej. }
    revert Hset Hno. clear. generalize (List.map row_id (batch_of l)). intros ids Hset Hno.
    unfold backlog. induction Hset as [|x y l l' [Ei Epn] _ IH]; simpl; [done|].
    rewrite Epn, (Hno x (or_introl eq_refl)), andb_true_r. specialize (IH (fun z Hz => Hno z (or_intror Hz))).
    destruct (is_pending x); simpl; [by rewrite Ei, IH|done]. }
  split; [congruence|]. intros x Hx. apply (in_map r_intent) in Hx.
  rewrite batch_intents, Hb, <- batch_intents in Hx. apply in_map_iff in Hx as (y & Ey & Hy).
  unfold accepted. rewrite <- Ey. by apply Hrej.
Qed.

Lemma cycle_loop_blocked n pending (w : world St) :
  w_sched w = [] -> blocked (w_db w) pending -> exists s', cycle_loop r n w = (Ok tt, set_db s' w) /\ blocked s' pending.
Proof.
  revert w. induction n as [|n IH]; intros w Hq Hb; [exists (w_db w); by destruct w|]. cbn [cycle_loop].
  destruct (DeliverBatch_blocked pending w Hq Hb) as ([claimed d] & s1 & E & Hb1). unfold mbind, M_bind, try. rewrite E.
  destruct (_ <? _)%Z; [by exists s1|]. apply (IH (set_db s1 w) Hq Hb1).
Qed.

Lemma RunCycle_blocked pending (w : world St) :
  w_sched w = [] -> blocked (w_db w) pending -> exists s', RunCycle r w = (Ok tt, set_db s' w) /\ blocked s' pending.
Proof.
  intros Hq Hb. unfold RunCycle. destruct (cycle_loop_blocked defaultRelayMaxBatches pending w Hq Hb) as (s1 & E1 & Hb1).
  rewrite (bind_step _ _ _ _ _ E1). destruct Hb1 as (Hc1 & l1 & Hl1 & Hn1 & Hp1 & Hr1).
  assert (E2 : observeBacklog r (set_db s1 w) = (Ok tt, set_db s1 w)).
  { unfold observeBacklog, Outbox_Backlog, wrapping, mapping_err, outbox_read. rewrite (ob_outbox _ _ _ Hob).
    unfold mbind, M_bind, try. by rewrite (table_read_quiet _ _ (set_db s1 w) l1 Hq Hl1). }
  rewrite (bind_step _ _ _ _ _ E2).
  destruct (prune_quiet (set_db s1 w) l1 Hq Hc1 Hl1 Hn1) as (s' & l' & E & Hc' & Hl' & Hn' & Hp').
  exists s'. split; [exact E|]. split; [done|]. exists l'. split; [done|]. split; [done|].
  assert (Hb' : backlog l' = backlog l1) by (unfold backlog; by rewrite Hp'). split; [congruence|].
  intros x Hx. apply (in_map r_intent) in Hx. rewrite batch_intents, Hb', <- batch_intents in Hx.
  apply in_map_iff in Hx as (y & Ey & Hy). unfold accepted. rewrite <- Ey. by apply Hr1.
Qed.
End Drain.

(** ** Properties *)

(** C12: the relay never loses a record. Whatever faults the outbox, the sink and the
    shipper meet, at any point of any number of cycles, and whatever the other
    sessions do that loses none themselves: every intent that was in the outbox is
    still in it, unchanged, or its record is at the destination; a row counts as
    delivered, and may be pruned, only when its record is there; and what the
    destination held it still holds. *)
Theorem relay_never_loses `{JSONObjects} {St} `{HasOutbox St} t (sink : Sink St) `{!DurableSink t sink}
    (r : Relay St) ticks (w : world St) res w' :
  rl_outbox r = Some t -> rl_sink r = Some sink -> ships_beside t sink r -> sched_respects (trail t sink) w ->
  trail_wf t sink (w_db w) ->
  Start r ticks w = (res, w') ->
  trail_wf t sink (w_db w') /\
  (forall id, held id (w_db w) -> held id (w_db w')) /\
  (forall row, In row (rows_of t (w_db w)) ->
     (exists row', In row' (rows_of t (w_db w')) /\ r_intent row' = r_intent row) \/ held (row_id row) (w_db w')).
Proof.
  intros Ho Hs Hship Hsched Hwf E. unfold Start in E. rewrite Ho, Hs in E.
  exact (proj1 (cycles_trail t sink r (S ticks) Ho Hs Hship _ _ _ E Hsched) Hwf).
Qed.

(** C21: the relay drains its backlog. In a calm process whose sink accepts some
    intents and refuses others for good, if fewer intents are refused than one
    batch holds, then as many cycles as there are acceptable intents deliver every
    one of them: the destination holds its record, and only refused intents are
    left pending, however many there are and wherever they stand in the order. *)
Theorem relay_drains `{JSONObjects} {St} `{HasOutbox St} t (sink : Sink St) `{!DurableSink t sink}
    (r : Relay St) accepts calm ticks (w : world St) :
  obedient t r sink accepts calm -> ships_beside t sink r ->
  w_sched w = [] -> trail_wf t sink (w_db w) ->
  drainable t r (accepts := accepts) (calm := calm) (S ticks) (w_db w) ->
  exists s', Start r ticks w = (Ok tt, set_db s' w) /\
    (forall row, In row (rows_of t (w_db w)) -> accepts (scan_intent (r_intent row)) = true -> held (row_id row) s') /\
    (forall row, In row (rows_of t s') -> is_pending row = true -> accepts (scan_intent (r_intent row)) = false).
Proof.
  intros Hob Hship Hq Hwf Hd. destruct (Start_drains t r Hob ticks (S ticks) w Hq Hd) as ([] & s' & E & Hd').
  exists s'. split; [done|]. rewrite Nat.sub_diag in Hd'. destruct Hd' as (_ & l & Hl & _ & _ & Hz).
  assert (Hleft : forall row, In row (rows_of t s') -> is_pending row = true -> accepts (scan_intent (r_intent row)) = false).
  { unfold rows_of. rewrite Hl. intros row Hin Hp. destruct (accepts _) eqn:Ea; [exfalso|done].
    assert (Hin' : In row (todo (accepts := accepts) l)).
    { apply filter_In. split; [done|]. unfold accepted. by rewrite Hp, Ea. }
    destruct (todo l); [done|simpl in Hz; lia]. }
  split; [|done]. intros row Hin Ha.
  assert (Hsched : sched_respects (trail t sink) w) by (unfold sched_respects; rewrite Hq; constructor).
  assert (Ec : cycles r (S ticks) w = (Ok tt, set_db s' w)).
  { unfold Start in E. rewrite (ob_outbox _ _ _ _ _ Hob), (ob_sink _ _ _ _ _ Hob) in E. exact E. }
  destruct (cycles_trail t sink r (S ticks) (ob_outbox _ _ _ _ _ Hob) (ob_sink _ _ _ _ _ Hob) Hship _ _ _ Ec Hsched) as [Htr _].
  destruct (Htr Hwf) as (Hwf' & _ & Hrow). simpl in *.
  destruct (Hrow row Hin) as [(row' & Hin' & Ei)|?]; [|done]. unfold row_id. rewrite <- Ei.
  apply (tw_held _ _ _ Hwf' row' Hin'). destruct (is_pending row') eqn:Ep; [|done].
  by rewrite <- Ei, (Hleft row' Hin' Ep) in Ha.
Qed.

(** The relay can be starved. A full batch of refused intents at the head of the
    claim order blocks everything behind it: a cycle delivers nothing and leaves
    exactly the same pending intents, so that the next one claims the same batch
    again, for ever; an acceptable intent behind them is never tried. *)
Theorem relay_starves `{JSONObjects} {St} `{HasOutbox St} t (r : Relay St) (sink : Sink St) accepts calm pending ticks (w : world St) :
  obedient t r sink accepts calm -> w_sched w = [] -> blocked t r (accepts := accepts) (calm := calm) (w_db w) pending ->
  exists s', cycles r ticks w = (Ok tt, set_db s' w) /\ blocked t r (accepts := accepts) (calm := calm) s' pending.
Proof.
  intros Hob. revert w. induction ticks as [|n IH]; intros w Hq Hb; [exists (w_db w); by destruct w|]. cbn [cycles].
  destruct (RunCycle_blocked t r Hob pending w Hq Hb) as (s1 & E & Hb1). rewrite (bind_step _ _ _ _ _ E).
  apply (IH (set_db s1 w) Hq Hb1).
Qed.

(** ** Witnesses *)

Definition ex_shape : tableShape := {| qualified := "audit_logs"; columns := ["id"; "action"; "created_at"] |}.
Definition ex_queue : table := {| tb_schema := ""; tb_name := "audit_outbox" |}.

Definition ex_relay (batch : Z) : Relay ex_app := {|
  rl_outbox := Some ex_queue; rl_sink := Some (TableSink_Deliver (Some ex_dest)); rl_shipper := None;
  rl_cfg := {| PollInterval := 0; BatchSize := batch; BacklogWarn := 0; RetainDelivered := 0 |} |}.

(** The destination refuses one id; the sink has no plan or the present one. *)
Definition ex_calm (s : ex_app) : Prop :=
  well_shaped ex_dest ex_shape s /\ (cached_plan s = None \/ cached_plan s = Some (fresh ex_shape)) /\ x_bad s = ["poison"].
Definition ex_accepts (i : Intent) : bool := negb (i_EventID i =s "") && negb (mem (i_EventID i) ["poison"]).

Lemma ex_admits i s : ex_calm s -> plan_admits ex_dest (fresh ex_shape) i s = negb (mem (i_EventID i) ["poison"]).
Proof.
  intros (Hws & _ & Hbad). assert (Hm : is_ok (marshalMetadata (i_Metadata i)) = true) by by destruct (i_Metadata i).
  pose proof (plan_ok_fresh ex_dest ex_shape s Hws) as Hp. unfold plan_admits.
  destruct (extract_total i Hm _ Hp) as [args Ex]. rewrite Ex.
  pose proof (plan_id _ _ _ (column_defaults ex_dest s) Hp Ex) as Hid. unfold id_of in Hid. cbn -[fresh] in Hid |- *.
  by rewrite Hid, Hbad.
Qed.

(** A delivery leaves the parts of the process that are not the sink's. *)
Lemma ex_steady {B} (g : ex_app -> B) i w r w' :
  (forall l s, g (ex_set_audit l s) = g s) -> (forall p s, g (ex_set_plan p s) = g s) -> (forall n s, g (ex_set_name n s) = g s) ->
  TableSink_Deliver (Some ex_dest) i w = (r, w') -> w_sched w = [] -> g (w_db w') = g (w_db w).
Proof.
  intros Ha Hp Hn E Hq.
  assert (Hpre : PreOrder (fun s s' : ex_app => g s' = g s)) by (split; [by intros s|intros a b c; congruence]).
  assert (Hev : evolves (fun s s' : ex_app => g s' = g s) (TableSink_Deliver (Some ex_dest) i)).
  { unfold TableSink_Deliver, plan, describeTable, invalidate. evolve; try by (apply evolves_poke; intros s; simpl; rewrite ?Hp, ?Hn).
    apply evolves_stmt; [done|]. intros s u s'. unfold insert_audit. repeat case_match; try done; intros [= _ <-]; [done|apply Ha]. }
  apply (Hev _ _ _ E). unfold sched_respects. by rewrite Hq.
Qed.

Lemma ex_obedient batch : obedient ex_queue (ex_relay batch) (TableSink_Deliver (Some ex_dest)) ex_accepts ex_calm.
Proof.
  split; try done.
  { intros l s (Hws & Hp & Hbad). split; [by destruct Hws|done]. }
  intros i w Hq (Hws & Hp & Hbad). unfold ex_accepts. destruct (i_EventID i =s "") eqn:Ei.
  { unfold TableSink_Deliver. rewrite Ei. eexists (Err _), (w_db w). split; [by destruct w|]. done. }
  apply seqb_false in Ei. assert (Hm : is_ok (marshalMetadata (i_Metadata i)) = true) by by destruct (i_Metadata i).
  destruct (deliver_fresh ex_dest ex_shape i w Hq Hws Ei Hm Hp) as (res & s' & E & Hres & Hws' & Hc' & _).
  exists res, s'. split; [done|]. rewrite (ex_admits i (w_db w)) in Hres by done. split; [done|].
  pose proof (ex_steady x_bad _ _ _ _ (fun _ _ => eq_refl) (fun _ _ => eq_refl) (fun _ _ => eq_refl) E Hq) as Hb.
  pose proof (ex_steady x_outbox _ _ _ _ (fun _ _ => eq_refl) (fun _ _ => eq_refl) (fun _ _ => eq_refl) E Hq) as Hx.
  simpl in Hb, Hx. split; [|unfold same_outbox; simpl; by rewrite Hx].
  split; [done|]. split; [by right|congruence].
Qed.

Definition ex_row (n : string) (time : Z) : OutboxRow :=
  {| r_intent := ex_stored n time; r_txid := 1; r_delivered_at := None; r_attempts := 0; r_last_error := None |}.

Definition ex_pending (l : list OutboxRow) : ex_app :=
  {| x_outbox := l; x_audit := []; x_columns := columns ex_shape; x_plan := None; x_name := ""; x_bad := ["poison"] |}.

Lemma ex_pending_calm l : ex_calm (ex_pending l).
Proof. split; [by split|]. split; [by left|done]. Qed.

Lemma ex_pending_wf l :
  NoDup (List.map row_id l) -> forallb is_pending l = true -> trail_wf ex_queue (TableSink_Deliver (Some ex_dest)) (ex_pending l).
Proof.
  intros Hn Hp. split; [by exists l|by intros cols [=]|done|]. simpl. intros r Hr Hd.
  rewrite forallb_forall in Hp. by rewrite (Hp r Hr) in Hd.
Qed.

Definition ex_three : list OutboxRow := [ex_row "poison" 1; ex_row "e1" 2; ex_row "e2" 3].

Lemma ex_three_unique : NoDup (List.map row_id ex_three).
Proof. by apply (bool_decide_unpack _). Qed.

(** Two slots a batch and a refused intent at the head: two cycles deliver the rest. *)
Lemma relay_drains_witness :
  exists s', Start (ex_relay 2) 1 (quiet (ex_pending ex_three) 9 9 0) = (Ok tt, set_db s' (quiet (ex_pending ex_three) 9 9 0)) /\
    (forall row, In row ex_three -> ex_accepts (scan_intent (r_intent row)) = true -> recorded ex_dest (row_id row) s').
Proof.
  destruct (relay_drains ex_queue (TableSink_Deliver (Some ex_dest)) (ex_relay 2) ex_accepts ex_calm 1
    (quiet (ex_pending ex_three) 9 9 0) (ex_obedient 2)) as (s' & E & Hh & _).
  - intros shipper e [=].
  - reflexivity.
  - apply ex_pending_wf; [exact ex_three_unique|reflexivity].
  - split; [apply ex_pending_calm|]. exists ex_three. split; [reflexivity|]. split; [exact ex_three_unique|].
    split; vm_compute; [reflexivity|lia].
  - exists s'. split; [exact E|exact Hh].
Defined.

(** A batch of one is full of the refused intent: the others wait for ever. *)
Lemma relay_starves_witness :
  exists s', cycles (ex_relay 1) 50 (quiet (ex_pending ex_three) 9 9 0) = (Ok tt, set_db s' (quiet (ex_pending ex_three) 9 9 0)) /\
    blocked ex_queue (ex_relay 1) (accepts := ex_accepts) (calm := ex_calm) s' [ex_stored "poison" 1; ex_stored "e1" 2; ex_stored "e2" 3].
Proof.
  apply (relay_starves ex_queue (ex_relay 1) (TableSink_Deliver (Some ex_dest)) ex_accepts ex_calm _ 50 _ (ex_obedient 1)).
  - reflexivity.
  - split; [apply ex_pending_calm|]. exists ex_three. split; [reflexivity|]. split; [exact ex_three_unique|].
    split; [reflexivity|]. intros x Hx. vm_compute in Hx. by destruct Hx as [<-|[]].
Defined.

(** The commit of the first batch fails: the delivery stands, the rows are pending
    again and nothing is lost. *)
Definition ex_faulty : world ex_app :=
  World (ex_pending ex_three) (replicate 9 (Event (fun s => s) None) ++ [Event (fun s => s) (Some "connection lost")]) false 9 9 0.

Lemma relay_never_loses_witness :
  let w' := snd (Start (ex_relay 2) 0 ex_faulty) in
  trail_wf ex_queue (TableSink_Deliver (Some ex_dest)) (w_db w') /\
  (forall row, In row ex_three ->
     (exists row', In row' (rows_of ex_queue (w_db w')) /\ r_intent row' = r_intent row) \/ recorded ex_dest (row_id row) (w_db w')).
Proof.
  intros w'. destruct (relay_never_loses ex_queue (TableSink_Deliver (Some ex_dest)) (ex_relay 2) 0 ex_faulty
    (fst (Start (ex_relay 2) 0 ex_faulty)) w') as (Hwf & _ & Hrow).
  - reflexivity.
  - reflexivity.
  - intros shipper e [=].
  - unfold sched_respects, ex_faulty. cbn [w_sched]. apply Forall_app. split; [apply Forall_replicate|apply Forall_singleton];
      intros s; simpl; apply trail_preorder.
  - apply ex_pending_wf; [exact ex_three_unique|reflexivity].
  - apply surjective_pairing.
  - split; [exact Hwf|exact Hrow].
Defined.
