(* ===== verification/AuditedGrants.v ===== *)
(** * AuditedGrants: identity/platformadmin over identity/auditoutbox

    The composition the two packages exist for: a change of platform-administrator
    authority whose audit writer is the application's outbox, on the application's
    connection, with the constraint trigger installed on the carrier's table. *)

From S2P Require Import Prelude GoStrings PgQuote Db AuditTable AuditOutbox PlatformAdmin.

(** The carriers' tables and the outbox are different tables. *)
Class GrantFrame (St : Type) `{HasCarriers St} `{HasOutbox St} := {
  carrier_outbox : forall c q l s, carrier_rows c (put_outbox q l s) = carrier_rows c s;
  outbox_carrier : forall q c l s, outbox_rows q (put_carrier c l s) = outbox_rows q s;
  xact_carrier : forall c l s, current_xact (put_carrier c l s) = current_xact s
}.

Section Writers.
Context `{JSONObjects} {St : Type} `{HasOutbox St} (uuid : nat -> string).

(** The outbox row of an intent: pending, of the current transaction, with the
    intent's fields; the event id and the time are filled in when left open. *)
Definition intent_row (i : Intent) (txid : nat) (row : OutboxRow) : Prop :=
  r_txid row = txid /\ is_pending row = true /\ r_attempts row = 0%Z /\
  (i_EventID i <> "" -> row_id row = i_EventID i) /\
  (forall t, i_OccurredAt i = Some t -> s_occurred_at (r_intent row) = t) /\
  s_action (r_intent row) = i_Action i /\ s_actor_user_id (r_intent row) = i_ActorUserID i /\
  s_actor_email (r_intent row) = i_ActorEmail i /\ s_organization_id (r_intent row) = i_OrganizationID i /\
  s_resource_type (r_intent row) = i_ResourceType i /\ s_resource_id (r_intent row) = i_ResourceID i /\
  s_ip_address (r_intent row) = i_IPAddress i /\ marshalMetadata (i_Metadata i) = Ok (s_metadata (r_intent row)).

(** What an outbox writer does on its caller's transaction. *)
Definition enqueued (q : table) (i : Intent) (s s' : St) : Prop :=
  exists l row, outbox_rows q s = Some l /\ intent_row i (current_xact s) row /\
    ~ In (row_id row) (List.map row_id l) /\ s' = put_outbox q (l ++ [row]) s.

Lemma event_id_step i (w : world St) :
  exists id w1, (if i_EventID i =s "" then uuid_New uuid else mret (i_EventID i)) w = (Ok id, w1) /\
    w_db w1 = w_db w /\ w_intx w1 = w_intx w /\ w_sched w1 = w_sched w /\ (i_EventID i <> "" -> id = i_EventID i).
Proof.
  destruct (i_EventID i =s "") eqn:E; (eexists _, _; split; [reflexivity|]); repeat split; try done.
  apply seqb_true in E. by intros [].
Qed.

Lemma Enqueue_inv q i (w : world St) r w' :
  Enqueue uuid (Some q) true (Some i) w = (r, w') -> w_intx w = true ->
  w_intx w' = true /\ match r with Ok _ => enqueued q i (w_db w) (w_db w') /\ i_Action i <> "" | Err _ => w_db w' = w_db w end.
Proof.
  intros E Hi. unfold Enqueue in E. cbn [negb] in E.
  destruct (i_Action i =s "") eqn:Ea; [by injection E as <- <-|]. apply seqb_false in Ea.
  destruct (event_id_step i w) as (id & w1 & E1 & Hd1 & Hi1 & _ & Hid). rewrite (bind_step _ _ _ _ _ E1) in E.
  rewrite (bind_step time_Now _ w1 (w_now w1) w1 eq_refl) in E. cbn [i_Metadata with_defaults i_OccurredAt] in E.
  destruct (marshalMetadata (i_Metadata i)) as [m|e] eqn:Em; [|by injection E as <- <-; rewrite Hd1, Hi1].
  rewrite (bind_step (lift _) _ w1 m w1 eq_refl) in E.
  assert (Hseen : db_seen w1 = w_db w) by (rewrite intx_seen by congruence; done).
  apply bind_inv in E as [(u & w2 & E2 & [= <- <-])|(e & E2 & ->)].
  - apply wrapping_Ok, table_stmt_inv in E2 as ((Hi2 & _) & [(l & l' & u' & Hl & Hins & _ & Hd2)|(e & [=] & _)]).
    rewrite Hseen in *. split; [congruence|]. split; [|done].
    unfold insert_intent in Hins. destruct (existsb _ l) eqn:Ex; [done|]. injection Hins as <- <-.
    eexists l, _. split; [done|]. split; [|split; [|exact Hd2]].
    + repeat split; try done. by intros t ->.
    + intros Hin. apply in_map_iff in Hin as (x & Ex' & Hx). apply not_true_iff_false in Ex. apply Ex.
      apply existsb_exists. exists x. split; [done|]. by apply seqb_true.
  - apply wrapping_Err in E2 as (e0 & E2 & _).
    apply table_stmt_inv in E2 as ((Hi2 & _) & [(? & ? & ? & _ & _ & [=] & _)|(e1 & _ & Hd2)]).
    rewrite Hd2, Hseen, Hi2, Hi1. done.
Qed.

Lemma Writer_inv q i (w : world St) r w' :
  Writer uuid (Some q) (Some i) w = (r, w') -> w_intx w = true ->
  w_intx w' = true /\ match r with Ok _ => enqueued q i (w_db w) (w_db w') /\ i_Action i <> "" | Err _ => w_db w' = w_db w end.
Proof.
  intros E Hi. apply bind_inv in E as [(i' & w1 & E & [= <- <-])|(e & E & ->)]; by apply (Enqueue_inv q i w _ _ E Hi).
Qed.

(** An intent for the subject, under the action an operation requires. *)
Definition describes (s : TriggerSpec) (i : Intent) (action subject : string) : Prop :=
  i_Action i = action /\ i_ResourceType i = Some (ts_ResourceType s) /\ i_ResourceID i = Some subject.

(** Its record accounts for the subject at the commit. *)
Lemma enqueued_accounts sql_lower spec q i s s' action subject :
  enqueued q i s s' -> describes spec i action subject ->
  forall rows, outbox_rows q s' = Some rows ->
    accounted sql_lower spec (current_xact s) (List.map row_key rows) (Some subject) action.
Proof.
  intros (l & row & Hl & (Ht & _ & _ & _ & _ & Ha & _ & _ & _ & Hr & Hs & _) & _ & ->) (Ea & Er & Es) rows Hrows.
  rewrite (outbox_put _ _ _ _ Hl) in Hrows. injection Hrows as <-.
  exists subject, (row_key row). split; [done|]. split; [rewrite map_app, in_app_iff; right; by left|].
  unfold row_key; simpl. rewrite Ht, Hr, Hs, Ha, Ea, Er, Es. repeat split. eauto.
Qed.
End Writers.

Section Composition.
Context `{JSONObjects} {St : Type} `{HasCarriers St} `{HasOutbox St} `{!GrantFrame St} (uuid : nat -> string).

Lemma writer_elsewhere t q i : audits_elsewhere (St:=St) t (Writer uuid (Some q) (Some i)).
Proof.
  intros w r w' E Hi. destruct (Writer_inv uuid q i w r w' E Hi) as [Hi' Hr]. split; [done|].
  destruct r as [u|e]; [|by rewrite Hr]. destruct Hr as [(l & row & _ & _ & _ & ->) _]. apply carrier_outbox.
Qed.

(** The state between the mutation and its record. *)
Lemma recorded_enqueued c rows q i (s s' : St) :
  recorded (Writer uuid (Some q) (Some i)) (put_carrier c rows s) s' ->
  exists l row, outbox_rows q s = Some l /\ outbox_rows q s' = Some (l ++ [row]) /\
    intent_row i (current_xact s) row /\ ~ In (row_id row) (List.map row_id l) /\
    enqueued q i (put_carrier c rows s) s'.
Proof.
  intros (w1 & w2 & Hi & Hd1 & E & Hd2). destruct (Writer_inv uuid q i w1 _ w2 E Hi) as [_ [Henq _]].
  rewrite Hd1, Hd2 in Henq. pose proof Henq as (l & row & Hl & Hrow & Hn & ->).
  rewrite xact_carrier in Hrow. exists l, row. split; [by rewrite outbox_carrier in Hl|].
  split; [by apply (outbox_put _ _ l)|done].
Qed.
End Composition.

(** ** Properties *)

(** C13: a change of platform-administrator authority and its audit record are one
    event. With the application's outbox as its audit writer, a grant (and a
    revocation under the floor) that reports success has in one step changed the
    carrier and added exactly one pending intent row, of its own transaction and
    with the intent's fields, which the deferred constraint trigger accepts for
    that row; a change that reports an error, whichever statement or commit
    failed, has left both tables as they were. *)
Theorem authority_change_recorded `{JSONObjects} {St} `{HasCarriers St} `{HasOutbox St} `{!GrantFrame St}
    uuid sql_lower spec c q (i : Intent) user by_ note (resolver : Resolver St) (w w' : world St) :
  let writer := Writer uuid (Some q) (Some i) in
  let seen := db_seen w in
  let unchanged := carrier_rows (c_table c) (w_db w') = carrier_rows (c_table c) (db_seen w) /\
                   outbox_rows q (w_db w') = outbox_rows q (db_seen w) in
  let with_record (change : list Grant -> list Grant) (event : row_event) :=
    exists rows l row, carrier_rows (c_table c) seen = Some rows /\ carrier_rows (c_table c) (w_db w') = Some (change rows) /\
      outbox_rows q seen = Some l /\ outbox_rows q (w_db w') = Some (l ++ [row]) /\
      intent_row i (current_xact seen) row /\
      commit_check sql_lower spec (current_xact seen) (List.map row_key (l ++ [row])) [event] = Ok tt in
  TrimSpace user <> "" -> (forall u, reads_only (resolver u)) ->
  (forall r, describes spec i (OnInsert spec) user -> Carrier_Grant (Some c) user by_ note (Some writer) w = (r, w') ->
     match r with Ok g => with_record (fun rows => rows ++ [g]) (Inserted (Some user)) | Err _ => unchanged end) /\
  (forall r, describes spec i (OnDelete spec) user ->
     Revoke (Some c) user (Some (RequireAnotherExercisableAdmin (Some resolver))) (Some writer) w = (r, w') ->
     match r with
     | Ok _ => with_record (List.filter (fun g => negb (holds_grant user g))) (Deleted (Some user))
     | Err _ => unchanged
     end).
Proof.
  intros writer seen unchanged with_record Hu Hres. apply seqb_false in Hu.
  assert (Hchange : forall rows rows' event, describes spec i (match event with Inserted _ => OnInsert spec | Updated _ _ => OnUpdate spec | Deleted _ => OnDelete spec end) user ->
    (event = Inserted (Some user) \/ event = Deleted (Some user)) ->
    carrier_rows (c_table c) seen = Some rows -> carrier_rows (c_table c) (w_db w') = Some rows' ->
    recorded writer (put_carrier (c_table c) rows' seen) (w_db w') ->
    exists l row, outbox_rows q seen = Some l /\ outbox_rows q (w_db w') = Some (l ++ [row]) /\
      intent_row i (current_xact seen) row /\
      commit_check sql_lower spec (current_xact seen) (List.map row_key (l ++ [row])) [event] = Ok tt).
  { intros rows rows' event Hdesc Hev Hrows Hrows' Hrec. apply recorded_enqueued in Hrec as (l & row & Hl & Hl' & Hrow & _ & Henq).
    exists l, row. split; [done|]. split; [done|]. split; [done|]. unfold commit_check. apply assert_all_Ok, List.Forall_forall.
    intros [sub act] Hin. apply in_flat_map in Hin as (ev & [<-|[]] & Hin). apply trigger_asserts_owed in Hin as [_ Hin]. simpl.
    pose proof (enqueued_accounts sql_lower spec q i _ _ _ user Henq Hdesc _ Hl') as Hacc. rewrite xact_carrier in Hacc.
    by destruct Hev as [-> | ->], Hin as [-> ->]. }
  split; intros r Hdesc E.
  - unfold Carrier_Grant in E. rewrite Hu in E. apply (audited_tx (c_table c)) in E.
    2: { intros w1 a w2 E1 Hi. eapply grant_body_inv in E1 as [? _]; [done|apply writer_elsewhere|done]. }
    destruct r as [g|e]; [|unfold unchanged; by rewrite E]. destruct E as (w1 & w2 & (Hd & Hi & _) & Eb & Hd2 & _).
    apply grant_body_inv in Eb as (_ & _ & rows & Hrows & _ & Hc & Hrec); [|apply writer_elsewhere|done].
    rewrite Hd, <- Hd2 in *. destruct (Hchange rows _ (Inserted (Some user)) Hdesc (or_introl eq_refl) Hrows Hc Hrec) as (l & row & ?).
    by exists rows, l, row.
  - unfold Revoke in E. rewrite Hu in E. apply (audited_tx (c_table c)) in E.
    2: { intros w1 a w2 E1 Hi. eapply revoke_body_inv in E1 as [? _]; [done|apply writer_elsewhere|done|done]. }
    destruct r as [g|e]; [|unfold unchanged; by rewrite E]. destruct E as (w1 & w2 & (Hd & Hi & _) & Eb & Hd2 & _).
    apply revoke_body_inv in Eb as (_ & rows & Hrows & _ & _ & Hc & _ & Hrec); [|apply writer_elsewhere|done|done].
    rewrite Hd, <- Hd2 in *. destruct (Hchange rows _ (Deleted (Some user)) Hdesc (or_intror eq_refl) Hrows Hc Hrec) as (l & row & ?).
    by exists rows, l, row.
Qed.

(** ** Witness *)

Definition ex_granting : Type := list Grant * list OutboxRow.

#[export] Instance ex_granting_carriers : HasCarriers ex_granting.
Proof. refine {| carrier_rows := fun _ s => Some (fst s); put_carrier := fun _ l s => (l, snd s) |}; by intros ? ? ? ? _. Defined.

#[export] Instance ex_granting_outbox : HasOutbox ex_granting.
Proof.
  refine {| outbox_rows := fun _ s => Some (snd s); put_outbox := fun _ l s => (fst s, l);
            current_xact := fun _ => 7%nat; skip_locked := fun _ _ => false |}; done.
Defined.

#[export] Instance ex_granting_frame : GrantFrame ex_granting.
Proof. by split. Qed.

Definition ex_grant_json : JSONObjects := {|
  json_object := string; json_Marshal := Ok; json_Unmarshal := fun s => Ok (Some s);
  metadata_unreadable := fun _ => "unreadable" |}.

Definition ex_intent : Intent (H := ex_grant_json) := {|
  i_EventID := ""; i_OccurredAt := None; i_Action := "platform_admin.granted"; i_ActorUserID := Some "root";
  i_ActorEmail := None; i_OrganizationID := None; i_ResourceType := Some "user"; i_ResourceID := Some "carol";
  i_IPAddress := None; i_Metadata := None |}.

Definition ex_queue_table : table := {| tb_schema := ""; tb_name := "audit_outbox" |}.
Definition ex_ids (n : nat) : string := "fresh".

Definition ex_grant_run : result Grant * world ex_granting :=
  Carrier_Grant (Some ex_carrier) "carol" None None
    (Some (Writer (H := ex_grant_json) ex_ids (Some ex_queue_table) (Some ex_intent))) (quiet ([], []) 3 4 0).

Lemma authority_change_recorded_witness :
  is_ok (fst ex_grant_run) = true /\
  exists rows l row, rows = [] /\ l = [] /\
    carrier_rows (c_table ex_carrier) (w_db (snd ex_grant_run)) =
      Some (rows ++ [{| g_UserID := "carol"; g_GrantedBy := None; g_GrantedAt := 4; g_Note := None |}]) /\
    outbox_rows ex_queue_table (w_db (snd ex_grant_run)) = Some (l ++ [row]) /\
    commit_check id ex_spec 7 (List.map row_key (l ++ [row])) [Inserted (Some "carol")] = Ok tt.
Proof.
  split; [reflexivity|].
  destruct (proj1 (authority_change_recorded (H := ex_grant_json) ex_ids id ex_spec ex_carrier ex_queue_table ex_intent "carol" None None
    (fun _ => mret true) (quiet ([], []) 3 4 0) (snd ex_grant_run) ltac:(discriminate) ltac:(by intros u w r w' [= <- <-] Hi))
    (fst ex_grant_run) ltac:(by split) (surjective_pairing _)) as (rows & l & row & [= <-] & Hc & [= <-] & Ho & _ & Hcheck).
  exists [], [], row. split; [done|]. split; [done|]. split; [exact Hc|]. split; [exact Ho|exact Hcheck].
Defined.
