(* ===== verification/NetIP.v ===== *)
(** * NetIP: Go's net.IP, net.IPNet and their parsers

    The part of package net the egress guard computes with: addresses as byte
    lists of length 4 or 16 (any other length is no address), textual addresses
    and CIDR blocks, containment, and the address classes of RFC 1122, 1918, 3927,
    4193 and 4291. *)

From S2P Require Import Prelude GoStrings.
From Stdlib Require Import Ascii.

(** ** Addresses *)

(** A [net.IP]: bytes. *)
Definition IP : Type := list N.

Definition v4InV6Prefix : IP := [0; 0; 0; 0; 0; 0; 0; 0; 0; 0; 255; 255]%N.
Definition IPv4zero : IP := v4InV6Prefix ++ [0; 0; 0; 0]%N.
Definition IPv4bcast : IP := v4InV6Prefix ++ [255; 255; 255; 255]%N.
Definition IPv6unspecified : IP := replicate 16 0%N.
Definition IPv6loopback : IP := replicate 15 0%N ++ [1]%N.

Definition To4 (ip : IP) : option IP :=
  if (length ip =? 4)%nat then Some ip
  else if (length ip =? 16)%nat && bool_decide (firstn 12 ip = v4InV6Prefix) then Some (skipn 12 ip)
  else None.

(** [ip.Equal(x)]: an IPv4 address and its IPv6 form are equal. *)
Definition IP_Equal (ip x : IP) : bool :=
  if (length ip =? length x)%nat then bool_decide (ip = x)
  else if (length ip =? 4)%nat && (length x =? 16)%nat
  then bool_decide (firstn 12 x = v4InV6Prefix) && bool_decide (ip = skipn 12 x)
  else if (length ip =? 16)%nat && (length x =? 4)%nat
  then bool_decide (firstn 12 ip = v4InV6Prefix) && bool_decide (skipn 12 ip = x)
  else false.

(** Byte [i], zero when there is none. *)
Definition octet (ip : IP) (i : nat) : N := nth i ip 0%N.

Definition is_v6 (ip : IP) : bool := (length ip =? 16)%nat.

Definition IsUnspecified (ip : IP) : bool := IP_Equal ip IPv4zero || IP_Equal ip IPv6unspecified.

Definition IsLoopback (ip : IP) : bool :=
  match To4 ip with Some ip4 => (octet ip4 0 =? 127)%N | None => IP_Equal ip IPv6loopback end.

Definition IsPrivate (ip : IP) : bool :=
  match To4 ip with
  | Some ip4 =>
      (octet ip4 0 =? 10)%N ||
      ((octet ip4 0 =? 172)%N && (N.land (octet ip4 1) 240 =? 16)%N) ||
      ((octet ip4 0 =? 192)%N && (octet ip4 1 =? 168)%N)
  | None => is_v6 ip && (N.land (octet ip 0) 254 =? 252)%N
  end.

Definition IsMulticast (ip : IP) : bool :=
  match To4 ip with
  | Some ip4 => (N.land (octet ip4 0) 240 =? 224)%N
  | None => is_v6 ip && (octet ip 0 =? 255)%N
  end.

Definition IsLinkLocalMulticast (ip : IP) : bool :=
  match To4 ip with
  | Some ip4 => (octet ip4 0 =? 224)%N && (octet ip4 1 =? 0)%N && (octet ip4 2 =? 0)%N
  | None => is_v6 ip && (octet ip 0 =? 255)%N && (N.land (octet ip 1) 15 =? 2)%N
  end.

Definition IsLinkLocalUnicast (ip : IP) : bool :=
  match To4 ip with
  | Some ip4 => (octet ip4 0 =? 169)%N && (octet ip4 1 =? 254)%N
  | None => is_v6 ip && (octet ip 0 =? 254)%N && (N.land (octet ip 1) 192 =? 128)%N
  end.

(** ** Textual addresses *)

Definition digit (a : ascii) : option N :=
  if ((48 <=? code a) && (code a <=? 57))%N then Some (code a - 48)%N else None.

Definition hex_digit (a : ascii) : option N :=
  if ((48 <=? code a) && (code a <=? 57))%N then Some (code a - 48)%N
  else if ((97 <=? code a) && (code a <=? 102))%N then Some (code a - 87)%N
  else if ((65 <=? code a) && (code a <=? 70))%N then Some (code a - 55)%N
  else None.

Fixpoint decimal_from (acc : N) (l : list ascii) : option N :=
  match l with
  | [] => Some acc
  | a :: l => match digit a with Some d => decimal_from (acc * 10 + d) l | None => None end
  end.

(** A number of at least one digit. *)
Definition decimal (l : list ascii) : option N := match l with [] => None | _ => decimal_from 0 l end.

(** One field of a dotted address: no leading zero, at most 255. *)
Definition ipv4_field (l : list ascii) : option N :=
  match l with
  | a :: _ :: _ => if (code a =? 48)%N then None else match decimal l with Some n => if (n <=? 255)%N then Some n else None | None => None end
  | _ => decimal l
  end.

Definition parseIPv4Fields (l : list ascii) : option IP :=
  match List.map ipv4_field (split_byte "." l) with
  | [Some a; Some b; Some c; Some d] => Some [a; b; c; d]
  | _ => None
  end.

(** The leading hexadecimal digits: their value, their number, the rest. *)
Fixpoint hex_run (acc : N) (off : nat) (l : list ascii) : N * nat * list ascii :=
  match l with
  | a :: l' => match hex_digit a with Some d => hex_run (acc * 16 + d)%N (S off) l' | None => (acc, off, l) end
  | [] => (acc, off, l)
  end.

(** The loop of netip.parseIPv6: [n] groups are still free, [ip] holds the bytes
    read, [ell] where the ellipsis stood. *)
Fixpoint ipv6_groups (n : nat) (ip : IP) (ell : option nat) (s : list ascii) : option (IP * option nat * list ascii) :=
  match n with
  | O => Some (ip, ell, s)
  | S n =>
      let '(acc, off, rest) := hex_run 0 0 s in
      let ip' := ip ++ [acc / 256; acc mod 256]%N in
      if (4 <? off)%nat || (off =? 0)%nat then None
      else match rest with
      | "."%char :: _ =>
          if match ell with None => negb (length ip =? 12)%nat | Some _ => false end then None
          else if (16 <? length ip + 4)%nat then None
          else match parseIPv4Fields s with Some f => Some (ip ++ f, ell, []) | None => None end
      | [] => Some (ip', ell, [])
      | ":"%char :: [] => None
      | ":"%char :: ":"%char :: s2 =>
          match ell with
          | Some _ => None
          | None => match s2 with
                    | [] => Some (ip', Some (length ip'), [])
                    | _ => ipv6_groups n ip' (Some (length ip')) s2
                    end
          end
      | ":"%char :: s1 => ipv6_groups n ip' ell s1
      | _ => None
      end
  end.

(** The ellipsis stands for the missing groups, at least one. *)
Definition ipv6_expand (r : IP * option nat * list ascii) : option IP :=
  let '(ip, ell, rest) := r in
  match rest with
  | _ :: _ => None
  | [] =>
      if (length ip <? 16)%nat
      then match ell with
           | None => None
           | Some e => Some (firstn e ip ++ replicate (16 - length ip) 0%N ++ skipn e ip)
           end
      else match ell with Some _ => None | None => Some ip end
  end.

Definition parseIPv6 (s : list ascii) : option IP :=
  match s with
  | ":"%char :: ":"%char :: [] => Some (replicate 16 0%N)
  | ":"%char :: ":"%char :: s2 => ipv6_groups 8 [] (Some 0%nat) s2 ≫= ipv6_expand
  | _ => ipv6_groups 8 [] None s ≫= ipv6_expand
  end.

(** netip.ParseAddr of an address without a zone: IPv4 when a dot comes before any
    colon. A zone makes every caller here refuse the address. *)
Fixpoint first_mark (l : list ascii) : option ascii :=
  match l with
  | [] => None
  | a :: l => if existsb (fun m => (a =? m)%char) ["."; ":"; "%"]%char then Some a else first_mark l
  end.

(** The address and its width in bits. *)
Definition parseAddr (l : list ascii) : option (IP * nat) :=
  if existsb (fun a => (a =? "%")%char) l then None
  else match first_mark l with
  | Some "."%char => match parseIPv4Fields l with Some ip => Some (ip, 32%nat) | None => None end
  | Some ":"%char => match parseIPv6 l with Some ip => Some (ip, 128%nat) | None => None end
  | _ => None
  end.

(** [net.ParseIP]: always the 16-byte form. *)
Definition as16 (ip : IP) : IP := if (length ip =? 4)%nat then v4InV6Prefix ++ ip else ip.
Definition ParseIP (s : string) : option IP := option_map (fun a => as16 (fst a)) (parseAddr (bytes_of s)).

(** ** Blocks *)

Record IPNet := { n_IP : IP; n_Mask : IP }.

(** [net.CIDRMask(ones, 8*bytes)] *)
Fixpoint CIDRMask (ones bytes : nat) : IP :=
  match bytes with
  | O => []
  | S bytes =>
      if (8 <=? ones)%nat then 255%N :: CIDRMask (ones - 8) bytes
      else N.lxor 255 (N.shiftr 255 (N.of_nat ones)) :: CIDRMask 0 bytes
  end.

Definition mask_ip (ip mask : IP) : IP := zip_with N.land ip mask.

Fixpoint cut_slash (l : list ascii) : option (list ascii * list ascii) :=
  match l with
  | [] => None
  | a :: l => if (a =? "/")%char then Some ([], l)
              else match cut_slash l with Some (addr, m) => Some (a :: addr, m) | None => None end
  end.

(** [net.ParseCIDR]'s network. *)
Definition ParseCIDR (s : string) : option IPNet :=
  match cut_slash (bytes_of s) with
  | None => None
  | Some (addr, m) =>
      match parseAddr addr, decimal m with
      | Some (ip, bits), Some n =>
          if (n <=? N.of_nat bits)%N
          then let mask := CIDRMask (N.to_nat n) (bits / 8) in Some {| n_IP := mask_ip ip mask; n_Mask := mask |}
          else None
      | _, _ => None
      end
  end.

(** [networkNumberAndMask] *)
Definition network (n : IPNet) : option (IP * IP) :=
  match (match To4 (n_IP n) with Some ip => Some ip | None => if is_v6 (n_IP n) then Some (n_IP n) else None end) with
  | None => None
  | Some ip =>
      if (length (n_Mask n) =? 4)%nat then (if (length ip =? 4)%nat then Some (ip, n_Mask n) else None)
      else if (length (n_Mask n) =? 16)%nat
      then Some (ip, if (length ip =? 4)%nat then skipn 12 (n_Mask n) else n_Mask n)
      else None
  end.

Fixpoint masked_equal (nn m ip : IP) : bool :=
  match nn, m, ip with
  | a :: nn, b :: m, c :: ip => (N.land a b =? N.land c b)%N && masked_equal nn m ip
  | _, _, _ => true
  end.

Definition Contains (n : IPNet) (ip : IP) : bool :=
  match network n with
  | None => false
  | Some (nn, m) =>
      let ip := match To4 ip with Some ip4 => ip4 | None => ip end in
      (length ip =? length nn)%nat && masked_equal nn m ip
  end.

(** ** Facts *)

Definition octets (ip : IP) : Prop := Forall (fun b => b < 256)%N ip.

Example ParseIP_forms :
  ParseIP "10.0.0.1" = Some (v4InV6Prefix ++ [10; 0; 0; 1]%N) /\
  ParseIP "::1" = Some IPv6loopback /\ ParseIP "::" = Some IPv6unspecified /\
  ParseIP "fe80::1%eth0" = None /\ ParseIP "1:2:3:4:5:6:7::8" = None /\ ParseIP "1:2:3:4:5:6:7::" = Some [0;1;0;2;0;3;0;4;0;5;0;6;0;7;0;0]%N /\
  ParseIP "::ffff:127.0.0.1" = Some (v4InV6Prefix ++ [127; 0; 0; 1]%N) /\
  ParseIP "01.2.3.4" = None /\ ParseIP "256.1.1.1" = None /\ ParseIP "1.2.3" = None /\ ParseIP "example.com" = None /\
  ParseIP "2001:DB8::ABCD:12345" = None.
Proof. vm_compute. by repeat split. Qed.

Example Contains_forms :
  (n ← ParseCIDR "10.0.0.0/8"; Some (Contains n (v4InV6Prefix ++ [10; 1; 2; 3]%N))) = Some true /\
  (n ← ParseCIDR "::ffff:10.0.0.0/104"; Some (Contains n [10; 1; 2; 3]%N)) = Some true /\
  (n ← ParseCIDR "fc00::/7"; Some (Contains n (253%N :: replicate 15 9%N))) = Some true /\
  (n ← ParseCIDR "0.0.0.0/0"; Some (Contains n IPv6loopback)) = Some false /\
  ParseCIDR "10.0.0.0/33" = None /\ ParseCIDR "10.0.0.0" = None.
Proof. vm_compute. by repeat split. Qed.

Lemma To4_length ip ip4 : To4 ip = Some ip4 -> length ip4 = 4%nat.
Proof.
  unfold To4. destruct (length ip =? 4)%nat eqn:E4; [apply Nat.eqb_eq in E4; by intros [= <-]|].
  destruct (_ && _) eqn:E; [|done]. apply andb_prop in E as [E _]. apply Nat.eqb_eq in E. intros [= <-].
  rewrite length_skipn. lia.
Qed.

Lemma To4_octets ip ip4 : octets ip -> To4 ip = Some ip4 -> octets ip4.
Proof.
  unfold To4, octets. intros Ho. repeat case_match; try done; intros [= <-]; [done|by apply Forall_drop].
Qed.

Lemma To4_To4 ip ip4 : To4 ip = Some ip4 -> To4 ip4 = Some ip4.
Proof. intros E. apply To4_length in E. unfold To4. by rewrite E. Qed.

(** An address with a full mask is contained exactly in the block of itself. *)
Lemma land_255 a : (a < 256)%N -> N.land a 255 = a.
Proof. intros Ha. change 255%N with (N.ones 8). rewrite N.land_ones. by apply N.mod_small. Qed.

Lemma masked_equal_full nn ip :
  octets nn -> octets ip -> length ip = length nn ->
  masked_equal nn (replicate (length nn) 255%N) ip = bool_decide (ip = nn).
Proof.
  revert ip. induction nn as [|a nn IH]; intros [|b ip] Hn Hi Hl; try done. simpl.
  apply Forall_cons in Hn as [Ha Hn]. apply Forall_cons in Hi as [Hb Hi]. rewrite !land_255, IH by (done || (simpl in Hl; lia)).
  destruct (N.eqb_spec a b) as [->|Hne]; simpl.
  - apply bool_decide_ext. naive_solver.
  - symmetry. apply bool_decide_eq_false. naive_solver.
Qed.
