(* ===== verification/HttpSafe.v ===== *)
(** * HttpSafe: identity/httpsafe/httpsafe.go

    The egress guard every outbound request of the suite goes through: which
    addresses may be dialed, the dialer that resolves, checks every address and
    dials only what it checked, and the redirect policy.

    Name resolution and the connection itself are the environment's: operations of
    the process state, so that two lookups of one name may differ. URL parsing and
    Unicode case are parameters. Timeouts and transport tuning are left out; a
    lookup that times out is one that fails. *)

From S2P Require Import Prelude GoStrings NetIP.
From Stdlib Require Import Ascii Btauto.

Definition maxRedirects : nat := 10.

Record Guard := { allowHosts : list string; allowNets : list IPNet }.

(** ** The policy *)

(** [ip.To4()] normalised, then the deny list; empty when the address is public. *)
Definition deniedRange (ip : IP) : string :=
  let ip := match To4 ip with Some ip4 => ip4 | None => ip end in
  if IsLoopback ip then "loopback"
  else if IsUnspecified ip then "unspecified"
  else if IsLinkLocalUnicast ip then "link-local"
  else if IsLinkLocalMulticast ip || IsMulticast ip then "multicast"
  else if IsPrivate ip then "private"
  else match To4 ip with
  | Some ip4 =>
      if (octet ip4 0 =? 0)%N then "reserved (0.0.0.0/8)"
      else if (octet ip4 0 =? 100)%N && (N.land (octet ip4 1) 192 =? 64)%N then "carrier-grade NAT (100.64.0.0/10)"
      else if IP_Equal ip4 IPv4bcast then "broadcast"
      else ""
  | None => ""
  end.

Definition ipAllowlisted (g : option Guard) (ip : IP) : bool :=
  match g with None => false | Some g => existsb (fun n => Contains n ip) (allowNets g) end.

Definition checkIP (g : option Guard) (ip : IP) : result unit :=
  if ipAllowlisted g ip then Ok tt
  else if deniedRange ip <>s "" then Err (Plain "egress blocked") else Ok tt.

(** The loops of [ValidateURL] and [DialContext] over the resolved addresses. *)
Fixpoint check_all (g : option Guard) (ips : list IP) : result unit :=
  match ips with
  | [] => Ok tt
  | ip :: ips => match checkIP g ip with Err e => Err e | Ok _ => check_all g ips end
  end.

Section Guards.
(** [strings.ToLower] and [strings.EqualFold]. *)
Context (ToLower : string -> string) (EqualFold : string -> string -> bool).

Definition contains_any (s : string) (chars : list ascii) : bool :=
  existsb (fun a => existsb (fun c => (a =? c)%char) chars) (bytes_of s).

Definition add_host (h : string) (g : Guard) : Guard := {| allowHosts := allowHosts g ++ [h]; allowNets := allowNets g |}.
Definition add_net (n : IPNet) (g : Guard) : Guard := {| allowHosts := allowHosts g; allowNets := allowNets g ++ [n] |}.

(** The single-address block of an address. *)
Definition host_net (ip : IP) : IPNet :=
  match To4 ip with
  | Some ip4 => {| n_IP := ip4; n_Mask := CIDRMask 32 4 |}
  | None => {| n_IP := ip; n_Mask := CIDRMask 128 16 |}
  end.

Fixpoint guard_loop (entries : list string) (g : Guard) : result Guard :=
  match entries with
  | [] => Ok g
  | entry :: entries =>
      let entry := TrimSpace entry in
      if entry =s "" then guard_loop entries g
      else match ParseCIDR entry with
      | Some n => guard_loop entries (add_net n g)
      | None =>
          match ParseIP entry with
          | Some ip => guard_loop entries (add_net (host_net ip) g)
          | None =>
              if contains_any entry ["/"; " "]%char
              then Err (Plain "egress allowlist entry is not a valid hostname, IP, or CIDR")
              else guard_loop entries (add_host (ToLower entry) g)
          end
      end
  end.

Definition NewGuard (allowlist : list string) : result Guard :=
  guard_loop allowlist {| allowHosts := []; allowNets := [] |}.

Definition HostExempt (g : option Guard) (host : string) : bool :=
  match g with
  | None => false
  | Some g' =>
      if mem (ToLower host) (allowHosts g') then true
      else match ParseIP host with Some ip => ipAllowlisted g ip | None => false end
  end.

(** ** net.SplitHostPort *)

Definition has_byte (c : ascii) (l : list ascii) : bool := existsb (fun a => (a =? c)%char) l.

(** The text before and after the last colon. *)
Fixpoint cut_last_colon (l : list ascii) : option (list ascii * list ascii) :=
  match l with
  | [] => None
  | a :: l =>
      match cut_last_colon l with
      | Some (h, p) => Some (a :: h, p)
      | None => if (a =? ":")%char then Some ([], l) else None
      end
  end.

Definition SplitHostPort (addr : string) : result (string * string) :=
  match cut_last_colon (bytes_of addr) with
  | None => Err (Plain "missing port in address")
  | Some (h, p) =>
      match h with
      | "["%char :: h' =>
          (* the bracket must close right before the last colon *)
          match rev h' with
          | "]"%char :: h'' =>
              if has_byte "]" h'' || has_byte "[" h'' || has_byte "[" p || has_byte "]" p then Err (Plain "unexpected bracket in address")
              else Ok (string_of (rev h''), string_of p)
          | _ => Err (Plain "missing bracket in address")
          end
      | _ =>
          if has_byte ":" h then Err (Plain "too many colons in address")
          else if has_byte "[" h || has_byte "]" h || has_byte "[" p || has_byte "]" p then Err (Plain "unexpected bracket in address")
          else Ok (string_of h, string_of p)
      end
  end.

(** ** URLs and the network *)

(** What the code reads of a [url.URL]. *)
Record URL := { u_Scheme : string; u_Host : string; u_Hostname : string }.

(** Where a connection goes: an address this process resolved and checked, or the
    text of the request's address for the dialer to resolve. *)
Inductive target :=
| Pinned (ip : IP) (port : string)
| Named (addr : string).

Section Network.
Context {St Conn : Type} (url_Parse : string -> result URL).
Context (lookupIP : string -> M St (list IP)) (dialer : target -> M St Conn).

Definition ValidateURL (g : option Guard) (rawURL : string) : M St unit :=
  match url_Parse rawURL with
  | Err err => throw (Wrap "invalid URL format" err)
  | Ok u =>
      if negb (u_Scheme u =s "http") && negb (u_Scheme u =s "https") then throw (Plain "URL scheme not allowed")
      else
        let host := u_Hostname u in
        if host =s "" then throw (Plain "URL must have a host")
        else if HostExempt g host then mret tt
        else match ParseIP host with
        | Some ip => lift (checkIP g ip)
        | None =>
            ips ← try (lookupIP host);
            match ips with
            | Err _ => mret tt
            | Ok ips => lift (check_all g ips)
            end
        end
  end.

(** The loop over the vetted addresses; [last] is the error so far. *)
Fixpoint dial_loop (port : string) (ips : list IP) (last : error) : M St Conn :=
  match ips with
  | [] => throw (Wrap "egress dial" last)
  | ip :: ips =>
      conn ← try (dialer (Pinned ip port));
      match conn with
      | Ok conn => mret conn
      | Err err => dial_loop port ips err
      end
  end.

Definition DialContext (g : option Guard) (addr : string) : M St Conn :=
  match SplitHostPort addr with
  | Err err => throw (Wrap "egress dial" err)
  | Ok (host, port) =>
      match ParseIP host with
      | Some ip => lift (checkIP g ip);; dialer (Named addr)
      | None =>
          if HostExempt g host then dialer (Named addr)
          else
            ips ← wrapping "egress dial: resolve" (lookupIP host);
            if (length ips =? 0)%nat then throw (Plain "egress dial: no addresses resolved")
            else lift (check_all g ips);; dial_loop port ips (Plain "no address dialed")
      end
  end.

(** ** Redirects *)

Definition safeToFollow (from to : URL) : bool :=
  if negb (EqualFold (u_Host from) (u_Host to)) then false
  else if EqualFold (u_Scheme from) (u_Scheme to) then true
  else EqualFold (u_Scheme from) "http" && EqualFold (u_Scheme to) "https".

(** What [CheckRedirect] reads and writes of a request: its URL and the text of it,
    its headers by canonical name, and whether it carries a body. *)
Record Request := { r_URL : URL; r_URL_String : string; r_Header : gmap string (list string); r_GetBody : bool; r_ContentLength : Z }.

Definition strip_credentials (h : gmap string (list string)) : gmap string (list string) :=
  delete "Cookie2" (delete "Cookie" (delete "Proxy-Authorization" (delete "Authorization" h))).

(** The request as the client sends it. *)
Definition CheckRedirect (g : option Guard) (req : Request) (via : list Request) : M St Request :=
  if (maxRedirects <=? length via)%nat then throw (Plain "stopped after 10 redirects")
  else
    wrapping "redirect blocked" (ValidateURL g (r_URL_String req));;
    match via with
    | first :: _ =>
        if negb (safeToFollow (r_URL first) (r_URL req)) then
          if r_GetBody req || negb (r_ContentLength req =? 0)%Z
          then throw (Plain "refusing to follow cross-origin redirect with a non-empty request body")
          else mret {| r_URL := r_URL req; r_URL_String := r_URL_String req; r_Header := strip_credentials (r_Header req);
                       r_GetBody := r_GetBody req; r_ContentLength := r_ContentLength req |}
        else mret req
    | [] => mret req
    end.
End Network.
End Guards.

(** ** The deny list as blocks *)

(** The ranges the package promises to deny, in CIDR notation. *)
Definition denied_blocks : list string := [
  "0.0.0.0/8"; "10.0.0.0/8"; "100.64.0.0/10"; "127.0.0.0/8"; "169.254.0.0/16"; "172.16.0.0/12"; "192.168.0.0/16";
  "224.0.0.0/4"; "255.255.255.255/32"; "::/128"; "::1/128"; "fc00::/7"; "fe80::/10"; "ff00::/8"].

Definition in_block (block : string) (ip : IP) : bool :=
  match ParseCIDR block with Some n => Contains n ip | None => false end.

(** Their network numbers and masks. *)
Definition denied_networks : list (IP * IP) := Eval vm_compute in omap (fun b => n ← ParseCIDR b; network n) denied_blocks.

Definition within (ip : IP) (nm : IP * IP) : bool := (length ip =? length (fst nm))%nat && masked_equal (fst nm) (snd nm) ip.

Definition normal (ip : IP) : IP := match To4 ip with Some ip4 => ip4 | None => ip end.

Lemma denied_blocks_within ip : existsb (fun b => in_block b ip) denied_blocks = existsb (within (normal ip)) denied_networks.
Proof.
  assert (E : List.map (fun b => n ← ParseCIDR b; network n) denied_blocks = List.map Some denied_networks) by (vm_compute; reflexivity).
  revert E. generalize denied_networks. generalize denied_blocks.
  induction l as [|b l IH]; intros [|[nn m] nets] E; try done. injection E as Eb E. cbn [existsb]. rewrite (IH nets E). f_equal.
  unfold in_block. destruct (ParseCIDR b) as [n|]; [|done]. simpl in Eb. unfold Contains. by rewrite Eb.
Qed.

Lemma denied_orb (b : bool) (s t : string) : s <> "" -> ((if b then s else t) <>s "") = b || (t <>s "").
Proof. intros Hs. destruct b; [|done]. by destruct (String.eqb_spec s ""). Qed.

Lemma four_eqb (a b c d x y z w : N) :
  bool_decide ([a; b; c; d] = [x; y; z; w]) = (a =? x)%N && (b =? y)%N && (c =? z)%N && (d =? w)%N.
Proof.
  destruct (N.eqb_spec a x), (N.eqb_spec b y), (N.eqb_spec c z), (N.eqb_spec d w); simpl;
    first [apply bool_decide_eq_true; congruence|apply bool_decide_eq_false; congruence].
Qed.

(** Evaluate the comparisons between literals. *)
Ltac literals :=
  repeat match goal with
  | |- context [bool_decide (?x = v4InV6Prefix)] =>
      let v := eval vm_compute in (bool_decide (x = v4InV6Prefix)) in change (bool_decide (x = v4InV6Prefix)) with v
  | |- context [N.land (Npos ?x) (Npos ?y)] =>
      let v := eval vm_compute in (N.land (Npos x) (Npos y)) in change (N.land (Npos x) (Npos y)) with v
  end.

Lemma denied_v4 a b c d :
  (a < 256)%N -> (b < 256)%N -> (c < 256)%N -> (d < 256)%N ->
  (deniedRange [a; b; c; d] <>s "") = existsb (within [a; b; c; d]) denied_networks.
Proof.
  intros Ha Hb Hc Hd. unfold deniedRange. change (To4 [a; b; c; d]) with (Some [a; b; c; d]). cbn iota.
  rewrite !denied_orb by done. unfold denied_networks, within.
  unfold IsLoopback, IsUnspecified, IsLinkLocalUnicast, IsLinkLocalMulticast, IsMulticast, IsPrivate.
  change (To4 [a; b; c; d]) with (Some [a; b; c; d]). cbn -[N.land N.eqb bool_decide String.eqb negb].
  rewrite ?N.land_0_r, ?land_255 by done. rewrite ?four_eqb. rewrite !denied_orb by done. literals.
  rewrite !(N.eqb_sym _ a), !(N.eqb_sym _ b), !(N.eqb_sym _ c), !(N.eqb_sym _ d), !(N.eqb_sym _ (N.land _ _)).
  change (N.eqb 0 0) with true. change ("" <>s "") with false.
  destruct (N.eqb_spec a 224) as [->|_]; [literals; cbn -[N.land]; btauto|]. btauto.
Qed.

(** Two masks that leave the sixteen bytes after the first two alone. *)
Lemma within_prefix16 ip a b m n :
  length ip = 16%nat ->
  within ip (a :: b :: replicate 14 0%N, m :: n :: replicate 14 0%N) =
    (N.land a m =? N.land (octet ip 0) m)%N && (N.land b n =? N.land (octet ip 1) n)%N.
Proof.
  intros Hl. unfold within. cbn [fst snd]. rewrite Hl. destruct ip as [|x [|y ip]]; [done..|].
  unfold octet. remember (replicate 14 0%N) as z eqn:Ez. cbn [length masked_equal nth Nat.eqb andb].
  assert (Hz : forall k l, masked_equal (replicate k 0%N) (replicate k 0%N) l = true).
  { induction k as [|k IH]; intros [|v l]; try done. cbn [replicate masked_equal]. by rewrite !N.land_0_r, IH. }
  specialize (Hz 14%nat ip). rewrite <- Ez in Hz. rewrite Hz, andb_true_r, Ez. done.
Qed.

Lemma denied_v6 ip :
  octets ip -> length ip = 16%nat -> To4 ip = None -> (deniedRange ip <>s "") = existsb (within ip) denied_networks.
Proof.
  intros Ho Hl H4. unfold deniedRange. rewrite H4. rewrite !denied_orb by done.
  unfold IsLoopback, IsUnspecified, IsLinkLocalUnicast, IsLinkLocalMulticast, IsMulticast, IsPrivate, IP_Equal, is_v6.
  rewrite H4, Hl. change (length IPv6loopback) with 16%nat. change (length IPv4zero) with 16%nat. change (length IPv6unspecified) with 16%nat.
  assert (Hz : bool_decide (ip = IPv4zero) = false) by (apply bool_decide_eq_false; by intros ->). rewrite Hz.
  cbn [Nat.eqb orb andb].
  assert (Hfull : forall nn, length nn = 16%nat -> octets nn -> within ip (nn, replicate 16 255%N) = bool_decide (ip = nn)).
  { intros nn Hn Hon. unfold within. cbn [fst snd]. rewrite Hl, Hn. cbn [Nat.eqb andb].
    rewrite <- (masked_equal_full nn ip Hon Ho) by congruence. by rewrite Hn. }
  assert (Hfour : forall a b c d m, within ip ([a; b; c; d], m) = false) by (intros; unfold within; cbn [fst]; by rewrite Hl).
  assert (Hu : octets IPv6unspecified) by (repeat constructor).
  assert (Ho1 : octets IPv6loopback) by (repeat constructor).
  pose proof (fun a b m n => within_prefix16 ip a b m n Hl) as Hp. cbn [replicate] in Hp.
  unfold denied_networks. cbn [existsb]. rewrite !Hfour, !Hp, !N.land_0_r.
  repeat match goal with |- context [within ip ?x] =>
    first [rewrite (Hfull IPv6unspecified eq_refl Hu : within ip x = bool_decide (ip = IPv6unspecified))
          |rewrite (Hfull IPv6loopback eq_refl Ho1 : within ip x = bool_decide (ip = IPv6loopback))] end.
  literals.
  pose proof (proj1 (Forall_forall _ _) Ho) as Hlt.
  assert (H0 : (octet ip 0 < 256)%N) by (apply Hlt, list_elem_of_In, nth_In; lia).
  rewrite (land_255 _ H0). change ("" <>s "") with false. change (0 =? 0)%N with true. change (252 =? N.land 0 0)%N with false.
  rewrite !(N.eqb_sym _ (octet ip 0)), !(N.eqb_sym _ (N.land _ _)). btauto.
Qed.

(** Any other length is neither denied nor in a block. *)
Lemma denied_other ip :
  length ip <> 4%nat -> length ip <> 16%nat -> (deniedRange ip <>s "") = existsb (within ip) denied_networks.
Proof.
  intros H4 H16. assert (E4 : (length ip =? 4)%nat = false) by by apply Nat.eqb_neq.
  assert (E16 : (length ip =? 16)%nat = false) by by apply Nat.eqb_neq.
  assert (ET : To4 ip = None) by (unfold To4; by rewrite E4, E16).
  assert (EE : forall x, length x = 16%nat -> IP_Equal ip x = false).
  { intros x Hx. unfold IP_Equal. by rewrite Hx, E4, E16. }
  unfold deniedRange, IsLoopback, IsUnspecified, IsLinkLocalUnicast, IsLinkLocalMulticast, IsMulticast, IsPrivate, is_v6.
  rewrite ET. rewrite !EE by done. rewrite ET, E16. cbn [orb andb]. symmetry. apply not_true_iff_false.
  intros Hex. apply existsb_exists in Hex as ([nn m] & Hin & Hw). revert Hw. unfold within. cbn [fst].
  assert (Hlen : length nn = 4%nat \/ length nn = 16%nat).
  { revert Hin. unfold denied_networks. cbn [In]. intros Hin. repeat (destruct Hin as [Hin|Hin]; [injection Hin as <- _; by (left + right)|]). done. }
  by destruct Hlen as [-> | ->]; rewrite ?E4, ?E16.
Qed.

Lemma normal_normal ip : normal (normal ip) = normal ip.
Proof. unfold normal. destruct (To4 ip) as [ip4|] eqn:E; [by rewrite (To4_To4 _ _ E)|by rewrite E]. Qed.

Lemma denied_normal ip : deniedRange (normal ip) = deniedRange ip.
Proof. unfold deniedRange. fold (normal ip). fold (normal (normal ip)). by rewrite normal_normal. Qed.

(** ** Guards *)

Section GuardFacts.
Context (ToLower : string -> string).

(** What an operator's entry allows: the block, or the single address, it names. *)
Definition entry_allows (entry : string) (ip : IP) : bool :=
  match ParseCIDR (TrimSpace entry) with
  | Some n => Contains n ip
  | None => match ParseIP (TrimSpace entry) with Some a => Contains (host_net a) ip | None => false end
  end.

Lemma guard_loop_nets entries g g' ip :
  guard_loop ToLower entries g = Ok g' ->
  existsb (fun n => Contains n ip) (allowNets g') =
    existsb (fun n => Contains n ip) (allowNets g) || existsb (fun e => entry_allows e ip) entries.
Proof.
  revert g. induction entries as [|e entries IH]; intros g; simpl; [intros [= ->]; by rewrite orb_false_r|].
  unfold entry_allows at 1. destruct (TrimSpace e =s "") eqn:Ee.
  { apply seqb_true in Ee. rewrite Ee. change (ParseCIDR "") with (@None IPNet). change (ParseIP "") with (@None IP). apply IH. }
  destruct (ParseCIDR (TrimSpace e)) as [n|]; [|destruct (ParseIP (TrimSpace e)) as [a|]; [|case_match; [done|]]]; intros E.
  - rewrite (IH _ E). simpl. rewrite existsb_app. simpl. by rewrite orb_false_r, orb_assoc.
  - rewrite (IH _ E). simpl. rewrite existsb_app. simpl. by rewrite orb_false_r, orb_assoc.
  - by rewrite (IH _ E).
Qed.
End GuardFacts.

Lemma checkIP_spec g ip u :
  octets ip ->
  checkIP g ip = Ok u <-> ipAllowlisted g ip = true \/ forall block, In block denied_blocks -> in_block block ip = false.
Proof.
  intros Ho. unfold checkIP. destruct u.
  assert (Hd : (deniedRange ip <>s "") = existsb (fun b => in_block b ip) denied_blocks).
  { rewrite denied_blocks_within, <- denied_normal. assert (Hn : octets (normal ip)).
    { unfold normal. destruct (To4 ip) eqn:E; [by eapply To4_octets|done]. }
    destruct (decide (length (normal ip) = 4%nat)) as [H4|H4].
    - destruct (normal ip) as [|a [|b [|c [|d [|? ?]]]]]; try done.
      repeat (apply Forall_cons in Hn as [? Hn]). by apply denied_v4.
    - destruct (decide (length (normal ip) = 16%nat)) as [H16|H16]; [|by apply denied_other].
      apply denied_v6; [done|done|]. unfold normal in *. destruct (To4 ip) eqn:E; [|done]. by apply To4_length in E. }
  rewrite Hd. destruct (ipAllowlisted g ip); [by split; [left|]|].
  destruct (existsb _ denied_blocks) eqn:Eb.
  - split; [done|]. intros [?|Hall]; [done|]. apply existsb_exists in Eb as (b & Hb & Hin). by rewrite (Hall b Hb) in Hin.
  - split; [|done]. intros _. right. intros b Hb. apply not_true_iff_false. intros Hin.
    apply not_true_iff_false in Eb. apply Eb. apply existsb_exists. eauto.
Qed.

Lemma check_all_Ok g ips u : check_all g ips = Ok u <-> forall ip, In ip ips -> checkIP g ip = Ok tt.
Proof.
  destruct u. induction ips as [|ip ips IH]; simpl; [by split|].
  destruct (checkIP g ip) as [[]|e] eqn:E.
  - rewrite IH. naive_solver.
  - split; [done|]. intros Hall. specialize (Hall ip (or_introl eq_refl)). congruence.
Qed.

(** ** Properties *)

(** C18: the egress policy is the documented one. An address (either textual form of
    an IPv4 address counting as that address) passes the guard if and only if an
    operator's allow-list entry names a block or an address that contains it, or it
    is in none of the denied CIDR blocks: the code's hand-written byte tests are
    those fourteen blocks exactly, and a nil guard, or one with an empty list,
    denies them all. *)
Theorem egress_policy ToLower allowlist g ip :
  octets ip -> NewGuard ToLower allowlist = Ok g ->
  (checkIP (Some g) ip = Ok tt <->
     existsb (fun e => entry_allows e ip) allowlist = true \/ forall block, In block denied_blocks -> in_block block ip = false) /\
  (checkIP None ip = Ok tt <-> forall block, In block denied_blocks -> in_block block ip = false).
Proof.
  intros Ho Hg. split; rewrite checkIP_spec by done.
  - simpl. rewrite (guard_loop_nets _ _ _ _ ip Hg). done.
  - simpl. naive_solver.
Qed.

(** Where the dialer may be sent: to an address that passes the guard, or to the
    text of an address whose host is such an address or exempt by name. *)
Definition vetted ToLower (g : option Guard) (tg : target) : Prop :=
  match tg with
  | Pinned ip _ => checkIP g ip = Ok tt
  | Named addr => exists host port, SplitHostPort addr = Ok (host, port) /\
      ((exists ip, ParseIP host = Some ip /\ checkIP g ip = Ok tt) \/ HostExempt ToLower g host = true)
  end.

(** Any relation the lookups and the dials of vetted targets keep, the dial keeps. *)
Lemma DialContext_evolves {St Conn} ToLower (lookupIP : string -> M St (list IP)) (dialer : target -> M St Conn) g addr
    (R : St -> St -> Prop) `{!PreOrder R} :
  (forall host, evolves R (lookupIP host)) -> (forall tg, vetted ToLower g tg -> evolves R (dialer tg)) ->
  evolves R (DialContext ToLower lookupIP dialer g addr).
Proof.
  intros Hl Hd. unfold DialContext. destruct (SplitHostPort addr) as [[host port]|e] eqn:Es; [|evolve].
  destruct (ParseIP host) as [ip|] eqn:Ep.
  + destruct (checkIP g ip) as [[]|e] eqn:Ec.
    * apply evolves_bind; [done|apply evolves_lift; done|]. intros _. apply Hd. exists host, port. eauto.
    * intros w r w' [= <- <-] Hs. by split.
  + destruct (HostExempt ToLower g host) eqn:Ee; [apply Hd; exists host, port; auto|].
    apply evolves_bind; [done|by apply evolves_wrapping|]. intros ips. destruct (_ =? 0)%nat; [evolve|].
    destruct (check_all g ips) as [u|e] eqn:Ec; [|intros w r w' [= <- <-] Hs; by split].
    apply evolves_bind; [done|by apply evolves_lift|]. intros _.
    rewrite (check_all_Ok g ips u) in Ec. generalize (Plain "no address dialed"). revert Ec.
    induction ips as [|ip ips IH]; intros Ec last; simpl; [evolve|].
    apply evolves_bind; [done| |].
    * apply evolves_try, Hd, Ec. by left.
    * intros [c|err]; [evolve|]. apply IH. intros ip' Hin. apply Ec. by right.
Qed.

(** Only checked addresses are dialed. Whatever the resolver answers at any
    lookup (another answer to the check than to the dial included, so that no
    rebinding helps) and however the network fails, every connection a dial opens
    is to a vetted target: any relation the lookups and the dials of vetted targets
    keep, the whole dial keeps. And one refused address among the answers is
    enough: the dial then fails with nothing dialed at all. *)
Theorem dials_only_vetted {St Conn} ToLower (lookupIP : string -> M St (list IP)) (dialer : target -> M St Conn) g addr :
  (forall (R : St -> St -> Prop), PreOrder R ->
     (forall host, evolves R (lookupIP host)) -> (forall tg, vetted ToLower g tg -> evolves R (dialer tg)) ->
     evolves R (DialContext ToLower lookupIP dialer g addr)) /\
  (forall host port ips ip (w w1 : world St),
     SplitHostPort addr = Ok (host, port) -> ParseIP host = None -> HostExempt ToLower g host = false ->
     lookupIP host w = (Ok ips, w1) -> In ip ips -> checkIP g ip <> Ok tt ->
     exists e, DialContext ToLower lookupIP dialer g addr w = (Err e, w1)).
Proof.
  split.
  - intros R HR. by apply DialContext_evolves.
  - intros host port ips ip w w1 Es Ep Ee Hl Hin Hc. unfold DialContext. rewrite Es, Ep, Ee.
    assert (Hl' : wrapping "egress dial: resolve" (lookupIP host) w = (Ok ips, w1)) by (unfold wrapping, mapping_err; by rewrite Hl).
    rewrite (bind_step _ _ _ _ _ Hl'). destruct (length ips =? 0)%nat; [eexists; reflexivity|].
    destruct (check_all g ips) as [u|e] eqn:Ec; [|eexists; reflexivity].
    by rewrite (check_all_Ok g ips u) in Ec; destruct (Hc (Ec ip Hin)).
Qed.

(** Redirects carry no secret to another origin. A hop the client follows is at
    most the tenth, passed the URL policy again, and either goes to the first
    request's host over the same or an upgraded scheme, or carries no body and none
    of the credential headers; every other header is the request's own. *)
Theorem redirects_carry_no_secret {St} ToLower EqualFold url_Parse (lookupIP : string -> M St (list IP)) g req via (w : world St) req' w' :
  CheckRedirect ToLower EqualFold url_Parse lookupIP g req via w = (Ok req', w') ->
  (length via < maxRedirects)%nat /\
  ValidateURL ToLower url_Parse lookupIP g (r_URL_String req) w = (Ok tt, w') /\
  r_URL req' = r_URL req /\
  (forall name, ~ In name ["Authorization"; "Proxy-Authorization"; "Cookie"; "Cookie2"] -> r_Header req' !! name = r_Header req !! name) /\
  match via with
  | [] => req' = req
  | first :: _ =>
      (safeToFollow EqualFold (r_URL first) (r_URL req) = true /\ req' = req) \/
      (r_GetBody req' = false /\ r_ContentLength req' = 0%Z /\
       forall name, In name ["Authorization"; "Proxy-Authorization"; "Cookie"; "Cookie2"] -> r_Header req' !! name = None)
  end.
Proof.
  intros E. unfold CheckRedirect in E. destruct (maxRedirects <=? length via)%nat eqn:El; [done|].
  apply Nat.leb_gt in El. apply bind_Ok in E as ([] & w1 & E1 & E). apply wrapping_Ok in E1.
  destruct via as [|first via]; [by injection E as <- <-|].
  destruct (safeToFollow _ _ _) eqn:Es; simpl in E.
  { injection E as <- <-. split; [done|]. split; [done|]. split; [done|]. split; [done|]. by left. }
  destruct (r_GetBody req) eqn:Eb; [done|]. destruct (Z.eqb_spec (r_ContentLength req) 0) as [Ez|]; [|done].
  injection E as <- <-. split; [done|]. split; [done|]. split; [done|]. cbn [r_Header r_GetBody r_ContentLength].
  unfold strip_credentials. split.
  - intros name Hn. rewrite !lookup_delete_ne; [done|..]; intros <-; apply Hn; simpl; tauto.
  - right. split; [done|]. split; [done|]. intros name Hn.
    repeat (destruct Hn as [<-|Hn]; [repeat (rewrite lookup_delete_eq || rewrite lookup_delete_ne by done); done|]). done.
Qed.

(** ** Witnesses *)

Definition ex_guard : Guard := {| allowHosts := ["git.internal"]; allowNets := [{| n_IP := [10; 1; 0; 0]%N; n_Mask := [255; 255; 0; 0]%N |}] |}.

Lemma egress_policy_witness :
  NewGuard id ["10.1.0.0/16"; " git.internal"] = Ok ex_guard /\
  (checkIP (Some ex_guard) (v4InV6Prefix ++ [10; 1; 2; 3]%N) = Ok tt <->
     existsb (fun e => entry_allows e (v4InV6Prefix ++ [10; 1; 2; 3]%N)) ["10.1.0.0/16"; " git.internal"] = true \/
     forall block, In block denied_blocks -> in_block block (v4InV6Prefix ++ [10; 1; 2; 3]%N) = false) /\
  checkIP None (v4InV6Prefix ++ [10; 1; 2; 3]%N) <> Ok tt.
Proof.
  assert (Ho : octets (v4InV6Prefix ++ [10; 1; 2; 3]%N)) by (repeat constructor).
  split; [reflexivity|]. split; [exact (proj1 (egress_policy id ["10.1.0.0/16"; " git.internal"] ex_guard _ Ho eq_refl))|discriminate].
Defined.

(** A process that logs its dials, under a resolver that answers a public address
    first and the metadata endpoint ever after. *)
Definition ex_public : IP := [93; 184; 216; 34]%N.
Definition ex_metadata : IP := [169; 254; 169; 254]%N.
Definition ex_lookup (_ : string) : M (nat * list target) (list IP) := fun w =>
  (Ok [if (fst (w_db w) =? 0)%nat then ex_public else ex_metadata], set_db (S (fst (w_db w)), snd (w_db w)) w).
Definition ex_dialer (tg : target) : M (nat * list target) unit := poke (fun s => (fst s, tg :: snd s)).

Definition ex_logged (s s' : nat * list target) : Prop :=
  Forall (vetted id (Some ex_guard)) (snd s) -> Forall (vetted id (Some ex_guard)) (snd s').

Lemma dials_only_vetted_witness :
  let dial := DialContext id ex_lookup ex_dialer (Some ex_guard) "example.com:443" in
  let w1 := snd (dial (quiet (0%nat, []) 0 0 0)) in
  snd (w_db w1) = [Pinned ex_public "443"] /\ is_ok (fst (dial w1)) = false /\ snd (w_db (snd (dial w1))) = [Pinned ex_public "443"] /\
  ex_logged (0%nat, []) (w_db w1).
Proof.
  intros dial w1. split; [reflexivity|]. split; [reflexivity|]. split; [reflexivity|].
  apply (proj1 (dials_only_vetted id ex_lookup ex_dialer (Some ex_guard) "example.com:443") ex_logged) with
    (w := quiet (0%nat, []) 0 0 0) (r := fst (dial (quiet (0%nat, []) 0 0 0))) (w' := w1).
  - split; [by intros s H|]. intros a b c H1 H2 H. apply H2, H1, H.
  - intros host w r w' [= <- <-] Hs. split; [by intros H|done].
  - intros tg Hv w r w' [= <- <-] Hs. split; [intros H; by constructor|done].
  - apply surjective_pairing.
  - unfold sched_respects. simpl. constructor.
Defined.

Definition ex_url (host : string) : URL := {| u_Scheme := "https"; u_Host := host; u_Hostname := host |}.
Definition ex_request (host : string) : Request := {|
  r_URL := ex_url host; r_URL_String := host;
  r_Header := {["Authorization" := ["secret"]; "Accept" := ["application/json"]]}; r_GetBody := false; r_ContentLength := 0 |}.

Definition ex_redirect : result Request * world (nat * list target) :=
  CheckRedirect id String.eqb (fun s => Ok (ex_url s)) ex_lookup None (ex_request "objects.example.com") [ex_request "example.com"]
    (quiet (0%nat, []) 0 0 0).

Lemma redirects_carry_no_secret_witness :
  exists req', fst ex_redirect = Ok req' /\ r_Header req' !! "Authorization" = None.
Proof.
  destruct (fst ex_redirect) as [req'|e] eqn:E; [|exfalso; vm_compute in E; discriminate E]. exists req'. split; [done|].
  assert (Er : ex_redirect = (Ok req', snd ex_redirect)) by (rewrite <- E; apply surjective_pairing).
  destruct (redirects_carry_no_secret id String.eqb (fun s => Ok (ex_url s)) ex_lookup None (ex_request "objects.example.com")
    [ex_request "example.com"] (quiet (0%nat, []) 0 0 0) req' (snd ex_redirect) Er) as (_ & _ & _ & _ & [[Hs _]|(_ & _ & H)]).
  - discriminate Hs.
  - apply H. by left.
Defined.
