(* ===== verification/HttpClient.v ===== *)
(** * HttpClient: the clients of identity/httpsafe, and a whole call through one

    [NewClient] and [NewClientWithTLS] install the guard's dialer and redirect policy
    in a net/http client; [Do] is what that client does with them: it dials, exchanges
    a request for a response, and follows redirects, each hop built from the first
    request and submitted to the policy.

    The exchange over a connection, the resolution of a Location against a URL, the
    address a URL stands for, and net/http's own choice of headers to repeat are
    parameters. A connection kept alive is one that was dialed before. *)

From S2P Require Import Prelude GoStrings NetIP HttpSafe.

(** ** The clients *)

(** What the package sets of an [http.Client] and its transport; there is no proxy. *)
Record Client (St Conn TLS : Type) := {
  c_Timeout : Z;
  c_DialContext : string -> M St Conn;
  c_TLSClientConfig : option TLS;
  c_CheckRedirect : Request -> list Request -> M St Request
}.
Arguments c_Timeout {_ _ _} _.
Arguments c_DialContext {_ _ _} _.
Arguments c_TLSClientConfig {_ _ _} _.
Arguments c_CheckRedirect {_ _ _} _.

Record Response := { Status : Z; Location : option string }.

Section Clients.
Context {St Conn TLS : Type}.
Context (ToLower : string -> string) (EqualFold : string -> string -> bool) (url_Parse : string -> result URL).
Context (lookupIP : string -> M St (list IP)) (dialer : target -> M St Conn).

(** [tlsCfg.Clone()]: the client keeps a value of its own. *)
Definition NewClientWithTLS (timeout : Z) (g : option Guard) (tlsCfg : option TLS) : Client St Conn TLS := {|
  c_Timeout := timeout;
  c_DialContext := DialContext ToLower lookupIP dialer g;
  c_TLSClientConfig := tlsCfg;
  c_CheckRedirect := CheckRedirect ToLower EqualFold url_Parse lookupIP g
|}.

Definition NewClient (timeout : Z) (g : option Guard) : Client St Conn TLS := NewClientWithTLS timeout g None.

(** ** A call *)

Context (canonicalAddr : URL -> string) (exchange : Conn -> string -> Request -> M St Response).
Context (resolve_ref : URL -> string -> result (URL * string)) (repeated : URL -> URL -> string -> bool) (referer : URL -> URL -> option string).

(** net/http: the method of the next request and whether it repeats the body. *)
Definition redirectBehavior (method : string) (status : Z) (ireq : Request) : option (string * bool) :=
  if existsb (Z.eqb status) [301; 302; 303]%Z
  then Some (if (method =s "GET") || (method =s "HEAD") then method else "GET", false)
  else if existsb (Z.eqb status) [307; 308]%Z
  then if negb (r_GetBody ireq) && negb (r_ContentLength ireq =? 0)%Z then None else Some (method, true)
  else None.

(** The next request, with the headers of the first. *)
Definition redirected (ireq last : Request) (u : URL) (text : string) (includeBody : bool) : Request :=
  let headers := filter (fun kv => repeated (r_URL ireq) u (fst kv) = true) (r_Header ireq) in
  let body := includeBody && r_GetBody ireq in
  {| r_URL := u; r_URL_String := text;
     r_Header := match referer (r_URL last) u with Some ref => <["Referer" := [ref]]> headers | None => headers end;
     r_GetBody := body; r_ContentLength := if body then r_ContentLength ireq else 0 |}.

Definition out_of_fuel : error := Plain "out of fuel".

Fixpoint do_loop (fuel : nat) (c : Client St Conn TLS) (ireq : Request) (method : string) (via : list Request) (req : Request) : M St Response :=
  match fuel with
  | O => throw out_of_fuel
  | S fuel =>
      conn ← c_DialContext c (canonicalAddr (r_URL req));
      resp ← exchange conn method req;
      match redirectBehavior method (Status resp) ireq, Location resp with
      | Some (method, includeBody), Some loc =>
          match resolve_ref (r_URL req) loc with
          | Err e => throw (Wrap "failed to parse Location header" e)
          | Ok (u, text) =>
              next ← c_CheckRedirect c (redirected ireq req u text includeBody) (via ++ [req]);
              do_loop fuel c ireq method (via ++ [req]) next
          end
      | _, _ => mret resp
      end
  end.

Definition Do (c : Client St Conn TLS) (method : string) (req : Request) : M St Response :=
  do_loop (S maxRedirects) c req method [] req.

(** ** Lemmas *)

Lemma bind_evolves {A B} (R : St -> St -> Prop) `{!PreOrder R} (m : M St A) (k : A -> M St B) :
  evolves R m -> (forall w a w', m w = (Ok a, w') -> evolves R (k a)) -> evolves R (m ≫= k).
Proof.
  intros Hm Hk w r w' E Hs. apply bind_inv in E as [(a & w1 & E1 & E2)|(e & E1 & ->)].
  - destruct (Hm _ _ _ E1 Hs) as [H1 Hs1]. destruct (Hk _ _ _ E1 _ _ _ E2 Hs1) as [H2 Hs2]. split; [by etrans|done].
  - by eapply Hm.
Qed.

Lemma ValidateURL_evolves (R : St -> St -> Prop) `{!PreOrder R} g url :
  (forall host, evolves R (lookupIP host)) -> evolves R (ValidateURL ToLower url_Parse lookupIP g url).
Proof. intros Hl. unfold ValidateURL. evolve. Qed.

Lemma CheckRedirect_evolves (R : St -> St -> Prop) `{!PreOrder R} g req via :
  (forall host, evolves R (lookupIP host)) -> evolves R (CheckRedirect ToLower EqualFold url_Parse lookupIP g req via).
Proof. intros Hl. pose proof (ValidateURL_evolves R g (r_URL_String req) Hl). unfold CheckRedirect. evolve. Qed.

Definition credentials : list string := ["Authorization"; "Proxy-Authorization"; "Cookie"; "Cookie2"].

(** What may leave for the sake of [ireq]: itself, a request to its own origin (or to
    the https form of it), or one with no body and no credential header. *)
Definition carries (ireq req : Request) : Prop :=
  req = ireq \/ safeToFollow EqualFold (r_URL ireq) (r_URL req) = true \/
  (r_GetBody req = false /\ r_ContentLength req = 0%Z /\ forall name, In name credentials -> r_Header req !! name = None).

Lemma checked_carries g ireq req via (w : world St) req' w' :
  head via = Some ireq -> CheckRedirect ToLower EqualFold url_Parse lookupIP g req via w = (Ok req', w') ->
  carries ireq req' /\ (length via < maxRedirects)%nat.
Proof.
  intros Hh E. destruct via as [|x via]; [done|]. injection Hh as ->.
  apply redirects_carry_no_secret in E as (Hlen & _ & Hurl & _ & Hc). split; [|done].
  destruct Hc as [[Hs ->]|(? & ? & ?)]; [by right; left|by right; right].
Qed.

Lemma do_evolves (R : St -> St -> Prop) `{!PreOrder R} timeout g tlsCfg ireq fuel :
  (forall host, evolves R (lookupIP host)) -> (forall tg, vetted ToLower g tg -> evolves R (dialer tg)) ->
  (forall conn method req, carries ireq req -> evolves R (exchange conn method req)) ->
  forall method via req, carries ireq req -> head (via ++ [req]) = Some ireq ->
  evolves R (do_loop fuel (NewClientWithTLS timeout g tlsCfg) ireq method via req).
Proof.
  intros Hl Hd He. induction fuel as [|fuel IH]; intros method via req Hc Hh; simpl; [by apply evolves_throw|].
  apply evolves_bind; [done|by apply DialContext_evolves|]. intros conn.
  apply evolves_bind; [done|by apply He|]. intros resp.
  destruct (redirectBehavior _ _ _) as [[method' body]|]; [|by apply evolves_ret].
  destruct (Location resp) as [loc|]; [|by apply evolves_ret].
  destruct (resolve_ref _ _) as [[u text]|e]; [|by apply evolves_throw].
  apply bind_evolves; [done|by apply CheckRedirect_evolves|]. intros w next w' E.
  apply (checked_carries _ ireq) in E as [Hn _]; [|done]. apply IH; [done|].
  by destruct via as [|x via].
Qed.

(** The policy refuses the tenth hop, so that the loop ends by itself. *)
Lemma do_fuel timeout g tlsCfg ireq fuel fuel' method via req (w : world St) :
  head (via ++ [req]) = Some ireq ->
  (maxRedirects <= fuel + length via)%nat -> (maxRedirects <= fuel' + length via)%nat ->
  do_loop (S fuel) (NewClientWithTLS timeout g tlsCfg) ireq method via req w =
  do_loop (S fuel') (NewClientWithTLS timeout g tlsCfg) ireq method via req w.
Proof.
  revert fuel' method via req w. induction fuel as [|fuel IH]; intros fuel' method via req w Hh Hf Hf'.
  all: simpl; unfold mbind, M_bind.
  all: destruct (DialContext _ _ _ _ _ _) as [[conn|e] w1]; [|done].
  all: destruct (exchange conn method req w1) as [[resp|e] w2]; [|done].
  all: destruct (redirectBehavior _ _ _) as [[method' body]|]; [|done].
  all: destruct (Location resp) as [loc|]; [|done].
  all: destruct (resolve_ref _ _) as [[u text]|e]; [|done].
  all: destruct (CheckRedirect _ _ _ _ _ _ _ w2) as [[next|e] w3] eqn:Ec; [|done].
  all: apply (checked_carries _ ireq) in Ec as [_ Hlen]; [|done]; rewrite length_app in Hlen; simpl in Hlen; try lia.
  destruct fuel' as [|fuel']; [lia|].
  apply IH; [by destruct via as [|x via]|rewrite length_app; simpl; lia|rewrite length_app; simpl; lia].
Qed.
End Clients.

(** C17: a call through a guarded client keeps to the policy on every hop. Whatever the
    resolver answers, whatever the peers answer and wherever they redirect, every
    connection of the whole chain is to a target the guard vetted, and every request
    sent over one is the caller's own, or goes to its origin (or the https form of it),
    or carries no body and none of the credential headers: any relation the lookups,
    the dials of vetted targets and the exchanges of such requests keep, the whole call
    keeps, at whatever timeout and with whatever TLS configuration. And a call ends: the
    redirect policy stops it, so that more steps than it may take change nothing. *)
Theorem guarded_call {St Conn TLS} ToLower EqualFold url_Parse (lookupIP : string -> M St (list IP)) (dialer : target -> M St Conn)
    canonicalAddr exchange resolve_ref repeated referer timeout g (tlsCfg : option TLS) method ireq :
  let c := NewClientWithTLS ToLower EqualFold url_Parse lookupIP dialer timeout g tlsCfg in
  (forall (R : St -> St -> Prop), PreOrder R ->
     (forall host, evolves R (lookupIP host)) -> (forall tg, vetted ToLower g tg -> evolves R (dialer tg)) ->
     (forall conn m req, carries EqualFold ireq req -> evolves R (exchange conn m req)) ->
     evolves R (Do canonicalAddr exchange resolve_ref repeated referer c method ireq)) /\
  (forall fuel w, (maxRedirects < fuel)%nat ->
     do_loop canonicalAddr exchange resolve_ref repeated referer fuel c ireq method [] ireq w =
     Do canonicalAddr exchange resolve_ref repeated referer c method ireq w).
Proof.
  intros c. split.
  - intros R HR Hl Hd He. unfold Do, c. apply do_evolves; [done..|by left|done].
  - intros [|fuel] w Hf; [lia|]. unfold Do, c. apply do_fuel; [done|unfold maxRedirects in *; simpl; lia..].
Qed.

(** ** Witness *)

Module Example_client.

(** A process that logs its dials and the requests it sends. *)
Definition log : Type := list target * list (string * bool).
Definition ex_resolve (host : string) : M log (list IP) := mret [if host =s "internal" then ex_metadata else ex_public].
Definition ex_dial (tg : target) : M log unit := poke (fun s => (fst s ++ [tg], snd s)).
Definition has_secret (req : Request) : bool := bool_decide (is_Some (r_Header req !! "Authorization")).

(** [first] sends everybody on to [second], which sends them to an internal name. *)
Definition ex_exchange (_ : unit) (method : string) (req : Request) : M log Response :=
  poke (fun s => (fst s, snd s ++ [(r_URL_String req, has_secret req)]));;
  mret (if r_URL_String req =s "first" then {| Status := 302; Location := Some "second" |}
        else if r_URL_String req =s "second" then {| Status := 302; Location := Some "internal" |}
        else {| Status := 200; Location := None |}).
Definition ex_client : Client log unit unit :=
  NewClient id String.eqb (fun s => Ok (ex_url s)) ex_resolve ex_dial 10 None.
Definition ex_get (host : string) : M log Response :=
  Do (fun u => u_Host u +:+ ":443") ex_exchange (fun _ loc => Ok (ex_url loc, loc)) (fun _ _ _ => true) (fun _ _ => None)
    ex_client "GET" (ex_request host).

Definition only_vetted (s s' : log) : Prop := Forall (vetted id None) (fst s) -> Forall (vetted id None) (fst s').

Lemma guarded_call_witness :
  let r := ex_get "first" (quiet ([], []) 0 0 0) in
  is_ok (fst r) = false /\ w_db (snd r) = ([Pinned ex_public "443"; Pinned ex_public "443"], [("first", true); ("second", false)]) /\
  only_vetted ([], []) (w_db (snd r)).
Proof.
  intros r. split; [reflexivity|]. split; [reflexivity|].
  apply (proj1 (guarded_call id String.eqb (fun s => Ok (ex_url s)) ex_resolve ex_dial (fun u => u_Host u +:+ ":443") ex_exchange
    (fun _ loc => Ok (ex_url loc, loc)) (fun _ _ _ => true) (fun _ _ => None) 10 None (@None unit) "GET" (ex_request "first")) only_vetted)
    with (w := quiet ([], []) 0 0 0) (r := fst r) (w' := snd r).
  - split; [by intros s H|]. intros a b c H1 H2 H. apply H2, H1, H.
  - intros host w r1 w' [= <- <-] Hs. split; [by intros H|done].
  - intros tg Hv w r1 w' [= <- <-] Hs. split; [intros H; apply Forall_app; by split; [|constructor]|done].
  - intros conn m req _ w r1 w' [= <- <-] Hs. split; [by intros H|done].
  - apply surjective_pairing.
  - constructor.
Defined.
End Example_client.
