(* ===== verification/TokenCipher.v ===== *)
(** * TokenCipher: identity/crypto/tokencipher.go

    Authenticated encryption of the secrets kept at rest: sealing under the current
    key, opening with the fallback of a key rotation, the binding of a ciphertext to
    its storage slot, and the migration from unbound ciphertexts. [Module Cipher]
    has the operations over [Class AEAD], the interface of crypto/cipher's GCM;
    base64 is Base64's. [crypto/rand] is the argument [rnd] of the operations that
    draw from it, and PBKDF2 is a parameter. *)

From S2P Require Import Prelude GoStrings Base64.
From Stdlib Require Import Ascii.

Definition ErrKeyLengthInvalid : error := Sentinel "ErrKeyLengthInvalid".
Definition ErrCiphertextCorrupted : error := Sentinel "ErrCiphertextCorrupted".
Definition ErrDecryptionFailed : error := Sentinel "ErrDecryptionFailed".
Definition ErrSaltTooShort : error := Sentinel "ErrSaltTooShort".
Definition ErrIterationsTooLow : error := Sentinel "ErrIterationsTooLow".

Definition MinPBKDF2Iterations : Z := 600000.
Definition DefaultPBKDF2Iterations : Z := 600000.

Record TokenCipher := { masterKey : bytes; previousKey : option bytes }.

(** The AEAD that [cipher.NewGCM(aes.NewCipher(key))] builds, with a nonce and
    additional data: what it promises is that opening undoes sealing, and that the
    tag authenticates: an accepted ciphertext is the one sealing makes of the
    answer under the same key, nonce and additional data. *)
Class AEAD := {
  gcm_Seal : bytes -> bytes -> bytes -> bytes -> bytes;
  gcm_Open : bytes -> bytes -> bytes -> bytes -> option bytes;
  gcm_open_seal : forall key nonce pt ad, gcm_Open key nonce (gcm_Seal key nonce pt ad) ad = Some pt;
  gcm_authentic : forall key nonce ct ad pt, gcm_Open key nonce ct ad = Some pt -> ct = gcm_Seal key nonce pt ad
}.

(** [aead.NonceSize()] of [cipher.NewGCM]. *)
Definition NonceSize : nat := 12.

(** [aes.NewCipher]'s check of the key. *)
Definition aes_NewCipher (key : bytes) : result unit :=
  if (length key =? 16)%nat || (length key =? 24)%nat || (length key =? 32)%nat then Ok tt
  else Err (Plain "crypto/aes: invalid key size").

Module Cipher.
Section Operations.
Context `{AEAD}.

Definition NewTokenCipher (key : bytes) : result TokenCipher :=
  if negb (length key =? 32)%nat then Err ErrKeyLengthInvalid
  else Ok {| masterKey := key; previousKey := None |}.

Definition NewTokenCipherWithPrevious (currentKey prev : bytes) : result TokenCipher :=
  if negb (length currentKey =? 32)%nat then Err ErrKeyLengthInvalid
  else if negb (length prev =? 0)%nat && negb (length prev =? 32)%nat then Err ErrKeyLengthInvalid
  else Ok {| masterKey := currentKey; previousKey := if (length prev =? 32)%nat then Some prev else None |}.

(** [pbkdf2.Key(passphrase, salt, iterations, 32, sha256.New)] is a parameter. *)
Definition DeriveTokenCipher (pbkdf2_Key : string -> bytes -> Z -> nat -> bytes)
    (passphrase : string) (salt : bytes) (iterations : Z) : result TokenCipher :=
  if (length salt <? 16)%nat then Err ErrSaltTooShort
  else
    let iterations := if (iterations <=? 0)%Z then DefaultPBKDF2Iterations else iterations in
    if (iterations <? MinPBKDF2Iterations)%Z then Err (Wrap "got, minimum is" ErrIterationsTooLow)
    else NewTokenCipher (pbkdf2_Key passphrase salt iterations 32).

(** The single encryption path; [rnd] answers [io.ReadFull(rand.Reader, nonce)]. *)
Definition seal (tc : TokenCipher) (rnd : result bytes) (plaintext additionalData : bytes) : result bytes :=
  _ ← aes_NewCipher (masterKey tc);
  nonce ← rnd;
  let sealed := nonce ++ gcm_Seal (masterKey tc) nonce plaintext additionalData in
  Ok (URLEncoding_EncodeToString sealed).

Definition Seal (tc : TokenCipher) (rnd : result bytes) (plaintext : bytes) : result bytes :=
  match plaintext with
  | [] => Ok []
  | _ => seal tc rnd plaintext []
  end.

Definition SealWithContext (tc : TokenCipher) (rnd : result bytes) (plaintext context : bytes) : result bytes :=
  seal tc rnd plaintext context.

Definition decryptWithKey (key ciphertext additionalData : bytes) : result bytes :=
  _ ← aes_NewCipher key;
  if (length ciphertext <? NonceSize)%nat then Err ErrCiphertextCorrupted
  else
    let nonce := take NonceSize ciphertext in
    let actualCiphertext := drop NonceSize ciphertext in
    match gcm_Open key nonce actualCiphertext additionalData with
    | None => Err ErrDecryptionFailed
    | Some plaintext => Ok plaintext
    end.

(** The single decryption path, with the rotation fallback. *)
Definition open (tc : TokenCipher) (encodedCiphertext additionalData : bytes) : result bytes :=
  match URLEncoding_DecodeString encodedCiphertext with
  | None => Err ErrCiphertextCorrupted
  | Some ciphertext =>
      match decryptWithKey (masterKey tc) ciphertext additionalData with
      | Ok plaintext => Ok plaintext
      | Err err =>
          match previousKey tc with
          | Some prev =>
              if errors_Is err "ErrDecryptionFailed" then
                match decryptWithKey prev ciphertext additionalData with
                | Ok plaintext => Ok plaintext
                | Err _ => Err err
                end
              else Err err
          | None => Err err
          end
      end
  end.

Definition Open (tc : TokenCipher) (encodedCiphertext : bytes) : result bytes :=
  match encodedCiphertext with
  | [] => Ok []
  | _ => open tc encodedCiphertext []
  end.

Definition OpenWithContext (tc : TokenCipher) (encodedCiphertext context : bytes) : result bytes :=
  match encodedCiphertext with
  | [] => Err ErrCiphertextCorrupted
  | _ => open tc encodedCiphertext context
  end.

(** The plaintext and whether the ciphertext was bound. *)
Definition OpenWithContextOrLegacy (tc : TokenCipher) (encodedCiphertext context : bytes) : result (bytes * bool) :=
  match encodedCiphertext with
  | [] => Ok ([], false)
  | _ =>
      match open tc encodedCiphertext context with
      | Ok plaintext => Ok (plaintext, true)
      | Err _ =>
          match open tc encodedCiphertext [] with
          | Err err => Err err
          | Ok plaintext => Ok (plaintext, false)
          end
      end
  end.

Definition ReSealWithContext (tc : TokenCipher) (rnd : result bytes) (encodedCiphertext context : bytes) : result bytes :=
  plaintext ← Open tc encodedCiphertext;
  SealWithContext tc rnd plaintext context.

(** [io.ReadFull] of a fresh 32-byte key, and of a salt of at least 16 bytes. *)
Definition GenerateKey (ReadFull : nat -> result bytes) : result bytes := ReadFull 32.

Definition GenerateSalt (ReadFull : nat -> result bytes) (len : Z) : result bytes :=
  let len := if (len <? 16)%Z then 16%Z else len in
  ReadFull (Z.to_nat len).

(** ** What the constructors establish *)

Definition cipher_wf (tc : TokenCipher) : Prop :=
  length (masterKey tc) = 32 /\ (forall k, previousKey tc = Some k -> length k = 32).

(** The keys that open. *)
Definition holds_key (tc : TokenCipher) (key : bytes) : Prop := key = masterKey tc \/ previousKey tc = Some key.

(** The encoded ciphertexts that sealing makes, by key and additional data. *)
Definition sealed_as (key nonce pt ad : bytes) : bytes :=
  URLEncoding_EncodeToString (nonce ++ gcm_Seal key nonce pt ad).

(** What an encoded text stands for. *)
Definition carries (encoded key nonce pt ad : bytes) : Prop :=
  length nonce = NonceSize /\ URLEncoding_DecodeString encoded = Some (nonce ++ gcm_Seal key nonce pt ad).

(** No key of the cipher authenticates the text under these additional data: a key
    that did would have forged it. *)
Definition unauthenticated (tc : TokenCipher) (encoded ad : bytes) : Prop :=
  forall key nonce ct, holds_key tc key -> length nonce = NonceSize ->
    URLEncoding_DecodeString encoded = Some (nonce ++ ct) -> gcm_Open key nonce ct ad = None.

(** ** Lemmas *)

Lemma unauthenticated_by tc encoded full ad :
  URLEncoding_DecodeString encoded = Some full ->
  (forall key, holds_key tc key -> gcm_Open key (take NonceSize full) (drop NonceSize full) ad = None) ->
  unauthenticated tc encoded ad.
Proof.
  intros E Hk key nonce ct Hh Hn E'. rewrite E in E'. injection E' as ->. specialize (Hk key Hh).
  by rewrite (take_app_length' nonce), (drop_app_length' nonce) in Hk by done.
Qed.

Lemma aes_32 key : length key = 32 -> aes_NewCipher key = Ok tt.
Proof. intros E. unfold aes_NewCipher. by rewrite E. Qed.

Lemma NewTokenCipher_wf key tc : NewTokenCipher key = Ok tc -> cipher_wf tc /\ masterKey tc = key /\ previousKey tc = None.
Proof.
  unfold NewTokenCipher. destruct (Nat.eqb_spec (length key) 32) as [E|]; [|done]. intros [= <-]. by repeat split.
Qed.

Lemma NewTokenCipherWithPrevious_wf cur prev tc :
  NewTokenCipherWithPrevious cur prev = Ok tc ->
  cipher_wf tc /\ masterKey tc = cur /\ (length prev = 32 -> previousKey tc = Some prev).
Proof.
  unfold NewTokenCipherWithPrevious. destruct (Nat.eqb_spec (length cur) 32) as [E|]; [|done]. cbn [negb].
  destruct (_ && _); [done|]. intros [= <-]. unfold cipher_wf. simpl. split_and!; [done| |done|by intros ->].
  intros k. destruct (Nat.eqb_spec (length prev) 32); by intros [= <-].
Qed.

Lemma decryptWithKey_Ok key ct ad p :
  length key = 32 -> decryptWithKey key ct ad = Ok p <->
  exists nonce, length nonce = NonceSize /\ ct = nonce ++ gcm_Seal key nonce p ad.
Proof.
  intros Hk. unfold decryptWithKey. rewrite aes_32 by done. simpl. split.
  - destruct (Nat.ltb_spec (length ct) NonceSize) as [|Hn]; [done|].
    destruct (gcm_Open _ _ _ _) as [pt|] eqn:E; [|done]. intros [= ->]. apply gcm_authentic in E.
    exists (take NonceSize ct). split; [rewrite length_take; lia|]. by rewrite <- E, take_drop.
  - intros (nonce & Hn & ->). rewrite length_app, Hn.
    destruct (Nat.ltb_spec (NonceSize + length (gcm_Seal key nonce p ad)) NonceSize); [lia|].
    by rewrite (take_app_length' nonce), (drop_app_length' nonce), gcm_open_seal by lia.
Qed.

(** A key that does not authenticate a full-length ciphertext fails as such. *)
Lemma decryptWithKey_rejects key nonce ct ad :
  length key = 32 -> length nonce = NonceSize -> gcm_Open key nonce ct ad = None ->
  decryptWithKey key (nonce ++ ct) ad = Err ErrDecryptionFailed.
Proof.
  intros Hk Hn E. unfold decryptWithKey. rewrite aes_32 by done. simpl. rewrite length_app, Hn.
  destruct (Nat.ltb_spec (NonceSize + length ct) NonceSize); [lia|].
  by rewrite (take_app_length' nonce), (drop_app_length' nonce), E by lia.
Qed.

(** Acceptance comes from one of the two keys. *)
Lemma open_carries tc encoded ad p :
  cipher_wf tc -> open tc encoded ad = Ok p -> exists key nonce, holds_key tc key /\ carries encoded key nonce p ad.
Proof.
  intros [Hm Hp]. unfold open, carries. destruct (URLEncoding_DecodeString encoded) as [ct|]; [|done].
  destruct (decryptWithKey (masterKey tc) ct ad) as [p'|e] eqn:E.
  - intros [= ->]. apply decryptWithKey_Ok in E as (n & Hn & ->); [|done]. exists (masterKey tc), n. split; [by left|done].
  - destruct (previousKey tc) as [prev|] eqn:Ep; [|done]. destruct (errors_Is e _); [|done].
    destruct (decryptWithKey prev ct ad) as [p'|e'] eqn:E'; [|done]. intros [= ->].
    apply decryptWithKey_Ok in E' as (n & Hn & ->); [|by apply Hp]. exists prev, n. split; [by right|done].
Qed.

Lemma open_master tc encoded nonce ad p :
  cipher_wf tc -> carries encoded (masterKey tc) nonce p ad -> open tc encoded ad = Ok p.
Proof.
  intros [Hm _] [Hn E]. unfold open. rewrite E.
  by rewrite (proj2 (decryptWithKey_Ok (masterKey tc) _ ad p Hm)) by by exists nonce.
Qed.

Lemma open_previous tc encoded prev nonce ad p :
  cipher_wf tc -> previousKey tc = Some prev -> carries encoded prev nonce p ad ->
  gcm_Open (masterKey tc) nonce (gcm_Seal prev nonce p ad) ad = None ->
  open tc encoded ad = Ok p.
Proof.
  intros [Hm Hp] Ep [Hn E] Hno. unfold open. rewrite E, decryptWithKey_rejects, Ep by done. cbn [errors_Is].
  change (errors_Is ErrDecryptionFailed "ErrDecryptionFailed") with true. cbn iota.
  by rewrite (proj2 (decryptWithKey_Ok prev _ ad p (Hp _ Ep))) by by exists nonce.
Qed.

Lemma open_rejects tc encoded key nonce p ad ad' :
  cipher_wf tc -> carries encoded key nonce p ad' -> unauthenticated tc encoded ad ->
  open tc encoded ad = Err ErrDecryptionFailed.
Proof.
  intros [Hm Hp] [Hn E] Hno. unfold open. rewrite E, decryptWithKey_rejects by (first [done|eapply Hno; [by left|done..]]).
  destruct (previousKey tc) as [prev|] eqn:Ep; [|done].
  change (errors_Is ErrDecryptionFailed "ErrDecryptionFailed") with true. cbn iota.
  by rewrite decryptWithKey_rejects by (first [by apply Hp|done|eapply Hno; [by right|done..]]).
Qed.

Lemma seal_carries tc rnd p ad encoded :
  (forall n, rnd = Ok n -> length n = NonceSize) -> seal tc rnd p ad = Ok encoded ->
  exists nonce, rnd = Ok nonce /\ carries encoded (masterKey tc) nonce p ad /\ encoded <> [].
Proof.
  intros Hr. unfold seal. destruct (aes_NewCipher _); [|done]. destruct rnd as [nonce|]; [|done].
  simpl. intros [= <-]. exists nonce. specialize (Hr nonce eq_refl). split_and!; [done|split; [done|]|].
  - apply DecodeString_EncodeToString.
  - apply encoded_nonempty. by destruct nonce.
Qed.

Lemma seal_total tc nonce p ad : cipher_wf tc -> seal tc (Ok nonce) p ad = Ok (sealed_as (masterKey tc) nonce p ad).
Proof. intros [Hm _]. unfold seal. by rewrite aes_32. Qed.

Lemma OpenWithContext_nonempty tc encoded ctx : encoded <> [] -> OpenWithContext tc encoded ctx = open tc encoded ctx.
Proof. by destruct encoded. Qed.

Lemma Open_nonempty tc encoded : encoded <> [] -> Open tc encoded = open tc encoded [].
Proof. by destruct encoded. Qed.

Lemma OrLegacy_nonempty tc encoded ctx : encoded <> [] ->
  OpenWithContextOrLegacy tc encoded ctx =
    match open tc encoded ctx with
    | Ok p => Ok (p, true)
    | Err _ => match open tc encoded [] with Err e => Err e | Ok p => Ok (p, false) end
    end.
Proof. by destruct encoded. Qed.

(** [Seal] of a secret that is set. *)
Lemma Seal_cases tc rnd p c : Seal tc rnd p = Ok c -> (p = [] /\ c = []) \/ seal tc rnd p [] = Ok c.
Proof. destruct p; simpl; [intros [= <-]; by left|by right]. Qed.

(** ** Properties *)

(** C16: A ciphertext is bound to its slot. Whatever [OpenWithContext] accepts was
    sealed, under one of the cipher's two keys, with exactly the context the opener
    names; [OpenWithContextOrLegacy] accepts that, reported as bound, or a text sealed
    with no context at all, reported as unbound, or the empty column. A text sealed
    for one slot and lifted into another fails as a decryption failure on both paths,
    unless its tag happens to authenticate there, and it is never read as legacy. *)
Theorem context_binding tc encoded ctx :
  cipher_wf tc ->
  (forall p, OpenWithContext tc encoded ctx = Ok p ->
     exists key nonce, holds_key tc key /\ carries encoded key nonce p ctx) /\
  (forall p bound, OpenWithContextOrLegacy tc encoded ctx = Ok (p, bound) ->
     (encoded = [] /\ p = [] /\ bound = false) \/
     exists key nonce, holds_key tc key /\ carries encoded key nonce p (if bound then ctx else [])) /\
  (forall rnd p slot, (forall n, rnd = Ok n -> length n = NonceSize) ->
     SealWithContext tc rnd p slot = Ok encoded -> unauthenticated tc encoded ctx ->
     OpenWithContext tc encoded ctx = Err ErrDecryptionFailed /\
     (unauthenticated tc encoded [] -> OpenWithContextOrLegacy tc encoded ctx = Err ErrDecryptionFailed)).
Proof.
  intros Hwf. split_and!.
  - intros p. destruct encoded as [|a l]; [done|]. by apply open_carries.
  - intros p bound. destruct encoded as [|a l]; [intros [= <- <-]; by left|]. right. revert H0. cbn [OpenWithContextOrLegacy].
    destruct (open tc (a :: l) ctx) eqn:E1; [intros [= <- <-]; by apply open_carries|].
    destruct (open tc (a :: l) []) eqn:E2; [intros [= <- <-]; by apply open_carries|done].
  - intros rnd p slot Hr Hs Hu. apply seal_carries in Hs as (nonce & _ & Hc & Hne); [|done].
    rewrite OpenWithContext_nonempty, OrLegacy_nonempty by done.
    rewrite (open_rejects _ _ _ _ _ ctx _ Hwf Hc Hu). split; [done|]. intros Hu'.
    by rewrite (open_rejects _ _ _ _ _ [] _ Hwf Hc Hu').
Qed.

(** C32: A key rotation loses no secret. What the cipher of the old key sealed, bound or
    not, opens under it and under the cipher that has the new key as current and the
    old one as previous (unless the new key happens to authenticate the old text);
    what the new cipher seals opens again once the old key is retired. *)
Theorem rotation_roundtrip k1 k2 tc1 tc12 tc2 rnd p ctx :
  NewTokenCipher k1 = Ok tc1 -> NewTokenCipherWithPrevious k2 k1 = Ok tc12 -> NewTokenCipher k2 = Ok tc2 ->
  (forall n, rnd = Ok n -> length n = NonceSize) ->
  (forall n ad, rnd = Ok n -> gcm_Open k2 n (gcm_Seal k1 n p ad) ad = None) ->
  (forall c, SealWithContext tc1 rnd p ctx = Ok c ->
     OpenWithContext tc1 c ctx = Ok p /\ OpenWithContext tc12 c ctx = Ok p) /\
  (forall c, Seal tc1 rnd p = Ok c -> Open tc1 c = Ok p /\ Open tc12 c = Ok p) /\
  (forall c, SealWithContext tc12 rnd p ctx = Ok c ->
     OpenWithContext tc12 c ctx = Ok p /\ OpenWithContext tc2 c ctx = Ok p).
Proof.
  intros (W1 & M1 & _)%NewTokenCipher_wf (W12 & M12 & P12)%NewTokenCipherWithPrevious_wf (W2 & M2 & _)%NewTokenCipher_wf Hr Hno.
  assert (P : previousKey tc12 = Some k1) by (apply P12; destruct W1; congruence).
  assert (Hold : forall ad c, seal tc1 rnd p ad = Ok c -> c <> [] /\ open tc1 c ad = Ok p /\ open tc12 c ad = Ok p).
  { intros ad c Hs. apply seal_carries in Hs as (n & En & Hc & Hne); [|done].
    split_and!; [done|by eapply open_master|]. rewrite M1 in Hc. eapply open_previous; [done..|].
    rewrite M12. by apply Hno. }
  split_and!.
  - intros c Hs. destruct (Hold _ _ Hs) as (? & ? & ?). by rewrite !OpenWithContext_nonempty.
  - intros c [[-> ->]|Hs]%Seal_cases; [done|]. destruct (Hold _ _ Hs) as (? & ? & ?). by rewrite !Open_nonempty.
  - intros c Hs. apply seal_carries in Hs as (n & _ & Hc & Hne); [|done]. rewrite !OpenWithContext_nonempty by done.
    split; [by eapply open_master|]. rewrite M12, <- M2 in Hc. by eapply open_master.
Qed.

(** The migration to bound ciphertexts is resumable. A row [Seal] wrote reads as
    unbound until it is converted and as bound afterwards, with the same plaintext;
    converting it again fails instead of sealing it twice. *)
Theorem ReSeal_resumable tc rnd rnd' p c ctx c' :
  cipher_wf tc ->
  (forall n, rnd = Ok n -> length n = NonceSize) -> (forall n, rnd' = Ok n -> length n = NonceSize) ->
  Seal tc rnd p = Ok c -> ReSealWithContext tc rnd' c ctx = Ok c' ->
  OpenWithContextOrLegacy tc c' ctx = Ok (p, true) /\ OpenWithContext tc c' ctx = Ok p /\
  (unauthenticated tc c ctx -> OpenWithContextOrLegacy tc c ctx = Ok (p, false)) /\
  (forall rnd2, unauthenticated tc c' [] -> ReSealWithContext tc rnd2 c' ctx = Err ErrDecryptionFailed).
Proof.
  intros Hwf Hr Hr' Hs Hre. unfold ReSealWithContext in *.
  assert (Ho : Open tc c = Ok p).
  { apply Seal_cases in Hs as [[-> ->]|Hs]; [done|]. apply seal_carries in Hs as (n & _ & Hc & Hne); [|done].
    rewrite Open_nonempty by done. by eapply open_master. }
  rewrite Ho in Hre. simpl in Hre. apply seal_carries in Hre as (n & _ & Hc & Hne); [|done].
  rewrite OrLegacy_nonempty, OpenWithContext_nonempty by done. rewrite (open_master _ _ _ _ _ Hwf Hc).
  split_and!; [done|done| |].
  - intros Hu. apply Seal_cases in Hs as [[-> ->]|Hs]; [done|]. apply seal_carries in Hs as (n0 & _ & Hc0 & Hne0); [|done].
    rewrite OrLegacy_nonempty, (open_rejects _ _ _ _ _ ctx _ Hwf Hc0 Hu), (open_master _ _ _ _ _ Hwf Hc0) by done. done.
  - intros rnd2 Hu. rewrite Open_nonempty by done. by rewrite (open_rejects _ _ _ _ _ [] _ Hwf Hc Hu).
Qed.

(** A passphrase yields a cipher only with a salt of sixteen bytes and at least
    MinPBKDF2Iterations rounds, the number actually run: a weaker request is refused,
    not rewritten, and only a caller without a preference gets the default. *)
Theorem DeriveTokenCipher_work_factor kdf passphrase salt iterations tc :
  DeriveTokenCipher kdf passphrase salt iterations = Ok tc <->
  (16 <= length salt)%nat /\ (iterations <= 0 \/ MinPBKDF2Iterations <= iterations)%Z /\
  exists rounds, (MinPBKDF2Iterations <= rounds)%Z /\
    rounds = (if (iterations <=? 0)%Z then DefaultPBKDF2Iterations else iterations) /\
    length (kdf passphrase salt rounds 32%nat) = 32%nat /\
    tc = {| masterKey := kdf passphrase salt rounds 32%nat; previousKey := None |}.
Proof.
  unfold DeriveTokenCipher, NewTokenCipher. change DefaultPBKDF2Iterations with 600000%Z. change MinPBKDF2Iterations with 600000%Z.
  destruct (Nat.ltb_spec (length salt) 16) as [|Hs]; [split; [done|lia]|].
  set (r := if (iterations <=? 0)%Z then 600000%Z else iterations).
  assert (Hr : (iterations <= 0 \/ 600000 <= iterations)%Z <-> (600000 <= r)%Z) by (subst r; destruct (Z.leb_spec iterations 0); lia).
  destruct (Z.ltb_spec r 600000) as [|Hge]; [split; [done|lia]|].
  destruct (Nat.eqb_spec (length (kdf passphrase salt r 32)) 32) as [Hk|Hk]; cbn [negb]; split; try done.
  - intros [= <-]. split_and!; [done|by apply Hr|]. by exists r.
  - by intros (_ & _ & ? & _ & -> & _ & ->).
  - by intros (_ & _ & ? & _ & -> & Hl & _).
Qed.
End Operations.
End Cipher.

(** ** A concrete cipher *)

Module Example_cipher.

(** A transparent stand-in that satisfies the laws: the key and the additional data,
    self-delimited, in front of the plaintext. *)
Definition tag (key ad : bytes) : bytes := key ++ flat_map (fun a => ["1"%char; a]) ad ++ ["0"%char].

Definition untag (key ad ct : bytes) : option bytes :=
  let t := tag key ad in if bool_decide (take (length t) ct = t) then Some (drop (length t) ct) else None.

Lemma untag_tag key ad pt : untag key ad (tag key ad ++ pt) = Some pt.
Proof. unfold untag. by rewrite (take_app_length' (tag key ad)), (drop_app_length' (tag key ad)), bool_decide_true by done. Qed.

Lemma untag_Some key ad ct pt : untag key ad ct = Some pt -> ct = tag key ad ++ pt.
Proof.
  unfold untag. case_bool_decide as E; [|done]. intros [= <-]. rewrite <- E at 1. by rewrite take_drop.
Qed.

#[export] Instance Transparent : AEAD := {|
  gcm_Seal key _ pt ad := tag key ad ++ pt;
  gcm_Open key _ ct ad := untag key ad ct;
  gcm_open_seal key _ pt ad := untag_tag key ad pt;
  gcm_authentic key _ ct ad pt := untag_Some key ad ct pt
|}.

Definition key1 : bytes := replicate 32 "a"%char.
Definition key2 : bytes := replicate 32 "b"%char.
Definition nonce : bytes := replicate NonceSize "n"%char.
Definition cipher1 : TokenCipher := {| masterKey := key1; previousKey := None |}.
Definition cipher12 : TokenCipher := {| masterKey := key2; previousKey := Some key1 |}.
Definition cipher2 : TokenCipher := {| masterKey := key2; previousKey := None |}.
Definition secret : bytes := bytes_of "https://hooks.example".
Definition slotA : bytes := bytes_of "notify_channel:a:target".
Definition slotB : bytes := bytes_of "notify_channel:b:target".
Definition in_slotA : bytes := Eval vm_compute in
  match Cipher.SealWithContext cipher1 (Ok nonce) secret slotA with Ok c => c | Err _ => [] end.
Definition unbound : bytes := Eval vm_compute in match Cipher.Seal cipher1 (Ok nonce) secret with Ok c => c | Err _ => [] end.

Lemma cipher1_wf : Cipher.cipher_wf cipher1.
Proof. by split. Qed.

Lemma one_nonce n : (Ok nonce : result bytes) = Ok n -> length n = NonceSize.
Proof. by intros [= <-]. Qed.

(** Decide that no key of [cipher1] authenticates a concrete text. *)
Ltac foreign := eapply Cipher.unauthenticated_by; [vm_compute; reflexivity|]; intros key [->|[=]]; vm_compute; reflexivity.

(** The value sealed for channel a does not open as channel b's. *)
Lemma context_binding_witness :
  Cipher.OpenWithContext cipher1 in_slotA slotB = Err ErrDecryptionFailed /\
  Cipher.OpenWithContextOrLegacy cipher1 in_slotA slotB = Err ErrDecryptionFailed.
Proof.
  destruct (Cipher.context_binding cipher1 in_slotA slotB cipher1_wf) as (_ & _ & H).
  destruct (H (Ok nonce) secret slotA one_nonce) as [H1 H2]; [vm_compute; reflexivity|foreign|].
  split; [exact H1|]. apply H2. foreign.
Defined.

Lemma rotation_roundtrip_witness :
  Cipher.OpenWithContext cipher12 in_slotA slotA = Ok secret /\ Cipher.Open cipher12 unbound = Ok secret.
Proof.
  destruct (Cipher.rotation_roundtrip key1 key2 cipher1 cipher12 cipher2 (Ok nonce) secret slotA
    eq_refl eq_refl eq_refl one_nonce) as (H1 & H2 & _).
  - by intros n ad [= <-].
  - split; [apply H1|apply H2]; vm_compute; reflexivity.
Defined.

Example resealed_row : exists c,
  Cipher.ReSealWithContext cipher12 (Ok nonce) unbound slotA = Ok c /\ Cipher.OpenWithContext cipher2 c slotA = Ok secret.
Proof. eexists. split; vm_compute; reflexivity. Qed.
End Example_cipher.
