(* ===== verification/Json.v ===== *)
(** * Json: encoding/json, as the program decodes with it

    Parsed documents, objects with their members in document order, and the three
    decoding targets the program uses: a map, a struct of string fields, a scalar.
    A later member of the same name overrides an earlier one; a struct field is
    found by its exact name first and else by its folded name ([foldName] is a
    parameter: Unicode simple folding); [null] leaves a scalar as it is. *)

From S2P Require Import Prelude GoStrings.

Inductive json :=
| JSNull
| JSBool (b : bool)
| JSNum (text : string)
| JSStr (s : string)
| JSArr (items : list json)
| JSObj (members : list (string * json)).

Abbreviation object := (list (string * json)).

Definition cannot_unmarshal : error := Plain "json: cannot unmarshal value into Go value".

(** Decoding into [map[string]T] and reading one key. *)
Fixpoint obj_get (k : string) (o : object) : option json :=
  match o with
  | [] => None
  | (k', v) :: o => match obj_get k o with Some w => Some w | None => if k' =s k then Some v else None end
  end.

(** Decoding into a [string], a [bool] variable that was zero. *)
Definition decode_string (v : json) : result string :=
  match v with JSStr s => Ok s | JSNull => Ok "" | _ => Err cannot_unmarshal end.
Definition decode_bool (v : json) : result bool :=
  match v with JSBool b => Ok b | JSNull => Ok false | _ => Err cannot_unmarshal end.

Section Struct.
Context (foldName : string -> string).

(** The field a member name selects among the struct's tags. *)
Definition field_of (tags : list string) (k : string) : option string :=
  if mem k tags then Some k else List.find (fun t => foldName t =s foldName k) tags.

Definition set_field (t v : string) (acc : string -> string) : string -> string :=
  fun t' => if t' =s t then v else acc t'.

(** A member of the wrong type is an error of the whole call. *)
Fixpoint decode_fields (tags : list string) (o : object) (acc : string -> string) : result (string -> string) :=
  match o with
  | [] => Ok acc
  | (k, v) :: o =>
      match field_of tags k, v with
      | None, _ | Some _, JSNull => decode_fields tags o acc
      | Some t, JSStr s => decode_fields tags o (set_field t s acc)
      | Some _, _ => Err cannot_unmarshal
      end
  end.

Definition decode_struct (tags : list string) (o : object) : result (string -> string) := decode_fields tags o (fun _ => "").
End Struct.

(** Every value of a decoded struct came from a member that selects its field. *)
Lemma decode_fields_from fold tags o acc f t :
  decode_fields fold tags o acc = Ok f ->
  f t = acc t \/ exists k s, In (k, JSStr s) o /\ field_of fold tags k = Some t /\ f t = s.
Proof.
  revert acc. induction o as [|[k v] o IH]; intros acc; cbn [decode_fields]; [intros [= ->]; by left|].
  assert (Hskip : forall acc', decode_fields fold tags o acc' = Ok f -> acc' t = acc t ->
    f t = acc t \/ exists k' s, In (k', JSStr s) ((k, v) :: o) /\ field_of fold tags k' = Some t /\ f t = s).
  { intros acc' H Ht. destruct (IH acc' H) as [->|(k' & s & Hin & Hf & Hs)]; [by left|].
    right. exists k', s. split; [by right|done]. }
  destruct (field_of fold tags k) as [t'|] eqn:Ef; [|intros H; by eapply Hskip].
  destruct v as [|b|n|s|l|m]; try done; intros H; [by eapply Hskip|].
  destruct (String.eqb_spec t t') as [->|Hne].
  - destruct (IH _ H) as [E|(k' & s' & Hin & Hf & Hs)]; right; [exists k, s|exists k', s'].
    + split; [by left|]. split; [done|]. rewrite E. unfold set_field. by rewrite seqb_refl.
    + by split; [right|].
  - apply (Hskip _ H). unfold set_field. by rewrite (proj2 (String.eqb_neq t t') Hne).
Qed.

Lemma obj_get_in k o v : obj_get k o = Some v -> In (k, v) o.
Proof.
  induction o as [|[k' v'] o IH]; [done|]. cbn [obj_get]. destruct (obj_get k o) as [w|].
  - intros [= ->]. right. by apply IH.
  - destruct (String.eqb_spec k' k) as [->|]; [|done]. intros [= ->]. by left.
Qed.
