(* ===== verification/Oidc.v ===== *)
(** * Oidc: identity/auth/oidc (provider.go, session.go)

    The OpenID Connect client: construction with the checks of the issuer and of the
    endpoints it advertises, the start of a login, its completion from the stored
    state, the code exchange with its two bindings, and what is read of an ID token.
    The state store is OAuthState's [Manager], URL vetting is HttpSafe's.

    go-oidc and golang.org/x/oauth2 are [Class GoOIDC]: discovery, the token
    endpoint and the verifier are operations of the world, the authorization URL a
    function. A nil pointer dereference is an error value; log lines and timeouts
    are left out. *)

From S2P Require Import Prelude GoStrings Base64 Json NetIP HttpSafe OAuthState.
From Stdlib Require Import Ascii.

Module Oidc.

Definition nonceLength : nat := 32.

(** ** Data *)

Record Config (TLS : Type) := {
  IssuerURL : string; ClientID : string; ClientSecret : string; RedirectURL : string; Scopes : list string;
  AllowInsecureIssuer : bool; EgressGuard : option Guard; TLSClientConfig : option TLS
}.
Arguments IssuerURL {_}. Arguments ClientID {_}. Arguments ClientSecret {_}. Arguments RedirectURL {_}.
Arguments Scopes {_}. Arguments AllowInsecureIssuer {_}. Arguments EgressGuard {_}. Arguments TLSClientConfig {_}.

(** The one client of a provider: its guard and its TLS material. *)
Record Client (TLS : Type) := { client_guard : option Guard; client_tls : option TLS }.
Arguments client_guard {_}. Arguments client_tls {_}.

(** oauth2.Config. *)
Record OAuth2Config (Endpoint : Type) := {
  o_ClientID : string; o_ClientSecret : string; o_RedirectURL : string; o_Endpoint : Endpoint; o_Scopes : list string
}.
Arguments o_ClientID {_}. Arguments o_ClientSecret {_}. Arguments o_RedirectURL {_}. Arguments o_Endpoint {_}. Arguments o_Scopes {_}.

(** oidc.IDToken: the fields the code reads, and the payload behind [Claims]. *)
Record IDToken := { it_Nonce : string; it_Audience : list string; it_claims : result object }.

Record CallbackSession := { Payload : string; Nonce : string; CodeVerifier : string }.
Record AuthSession := { URL : string; State : string }.
Record AuthChallenge := { ch_URL : string; Session : CallbackSession }.
Record sessionEnvelope := { e_Nonce : string; e_CodeVerifier : string; e_Payload : string }.

Class GoOIDC (St TLS Endpoint Discovery Tok : Type) := {
  oidc_NewProvider : Client TLS -> string -> M St Discovery;
  discovery_Claims : Discovery -> result object;
  discovery_Endpoint : Discovery -> Endpoint;
  (** [provider.Verifier(&oidc.Config{ClientID: id}).Verify(raw)]. *)
  verifier_Verify : Discovery * string -> string -> M St IDToken;
  (** The URL with [oidc.Nonce(nonce)] and [oauth2.S256ChallengeOption(verifier)]. *)
  AuthCodeURL : OAuth2Config Endpoint -> string -> string -> string -> string;
  (** [Exchange(oidc.ClientContext(ctx, client), code, oauth2.VerifierOption(verifier))]. *)
  Exchange : option (Client TLS) -> OAuth2Config Endpoint -> string -> string -> M St Tok;
  (** [token.Extra("id_token").(string)]. *)
  Extra_id_token : Tok -> option string
}.

(** json of [sessionEnvelope] and of [CallbackSession]: ASCII strings and bytes
    travel unchanged. *)
Definition ascii_text (s : string) : Prop := Forall (fun a => plain_byte a = true) (bytes_of s).

Class SessionCodec := {
  session_Marshal : sessionEnvelope -> result string;
  session_Unmarshal : string -> result sessionEnvelope;
  session_round_trip : forall e b, ascii_text (e_Nonce e) -> ascii_text (e_CodeVerifier e) ->
    session_Marshal e = Ok b -> session_Unmarshal b = Ok e
}.

Definition nil_dereference : error := Plain "runtime error: invalid memory address or nil pointer dereference".
Definition errCallerClientOnContext : error := Sentinel "errCallerClientOnContext".

Section Provider.
Context {St TLS Endpoint Discovery Tok : Type} `{GoOIDC St TLS Endpoint Discovery Tok}.
(** Unicode case, URL parsing, name resolution: as in HttpSafe and Json. *)
Context (ToLower foldName : string -> string) (EqualFold : string -> string -> bool).
Context (url_Parse : string -> result HttpSafe.URL) (lookupIP : string -> M St (list IP)).

Record Provider := {
  verifier : option (Discovery * string);
  config : option (OAuth2Config Endpoint);
  provider : option Discovery;
  httpClient : option (Client TLS);
  endSessionEndpoint : string
}.

(** ** Construction *)

Definition newGuardedClient (cfg : Config TLS) : Client TLS :=
  {| client_guard := EgressGuard cfg; client_tls := TLSClientConfig cfg |}.

Definition isHTTPSURL (rawURL : string) : bool :=
  match url_Parse rawURL with Ok u => EqualFold (u_Scheme u) "https" | Err _ => false end.

Definition checkDiscoveredScheme (cfg : Config TLS) (raw : string) : result unit :=
  if AllowInsecureIssuer cfg || isHTTPSURL raw then Ok tt
  else Err (Plain "OIDC discovery document advertises a non-HTTPS endpoint").

Definition discoveryDocument : list string :=
  ["authorization_endpoint"; "token_endpoint"; "jwks_uri"; "end_session_endpoint"].

(** The loop over the endpoints this process dials. *)
Fixpoint check_dialed (cfg : Config TLS) (eps : list string) : M St unit :=
  match eps with
  | [] => mret tt
  | raw :: eps =>
      if raw =s "" then throw (Plain "OIDC discovery document advertises no endpoint")
      else
        lift (checkDiscoveredScheme cfg raw);;
        wrapping "OIDC discovery document advertises an endpoint this deployment refuses to reach"
          (ValidateURL ToLower url_Parse lookupIP (EgressGuard cfg) raw);;
        check_dialed cfg eps
  end.

(** The loop over the endpoints the user agent is sent to. *)
Fixpoint check_redirect_targets (cfg : Config TLS) (eps : list string) : result unit :=
  match eps with
  | [] => Ok tt
  | raw :: eps =>
      if raw =s "" then check_redirect_targets cfg eps
      else match checkDiscoveredScheme cfg raw with
           | Err e => Err e
           | Ok _ => check_redirect_targets cfg eps
           end
  end.

Definition validateDiscoveredEndpoints (cfg : Config TLS) (prov : Discovery) : M St string :=
  doc ← wrapping "failed to read the OIDC discovery document"
          (lift (o ← discovery_Claims prov; decode_struct foldName discoveryDocument o));
  check_dialed cfg [doc "token_endpoint"; doc "jwks_uri"];;
  lift (check_redirect_targets cfg [doc "authorization_endpoint"; doc "end_session_endpoint"]);;
  mret (doc "end_session_endpoint").

(** [callerClient]: the context carries an [*http.Client] of the caller's. *)
Definition NewProviderWithContext (callerClient : bool) (cfg : Config TLS) : M St Provider :=
  if IssuerURL cfg =s "" then throw (Plain "OIDC issuer URL is required")
  else if ClientID cfg =s "" then throw (Plain "OIDC client ID is required")
  else if ClientSecret cfg =s "" then throw (Plain "OIDC client secret is required")
  else if negb (AllowInsecureIssuer cfg) && negb (isHTTPSURL (IssuerURL cfg)) then throw (Plain "OIDC issuer URL must use HTTPS")
  else if negb (AllowInsecureIssuer cfg) && negb (RedirectURL cfg =s "") && negb (isHTTPSURL (RedirectURL cfg))
  then throw (Plain "OIDC redirect URL must use HTTPS")
  else if callerClient then throw errCallerClientOnContext
  else
    let client := newGuardedClient cfg in
    prov ← wrapping "failed to create OIDC provider" (oidc_NewProvider client (IssuerURL cfg));
    endSession ← validateDiscoveredEndpoints cfg prov;
    mret {| verifier := Some (prov, ClientID cfg);
            config := Some {| o_ClientID := ClientID cfg; o_ClientSecret := ClientSecret cfg; o_RedirectURL := RedirectURL cfg;
                              o_Endpoint := discovery_Endpoint prov; o_Scopes := Scopes cfg |};
            provider := Some prov; httpClient := Some client; endSessionEndpoint := endSession |}.

Definition NewProvider (cfg : Config TLS) : M St Provider := NewProviderWithContext false cfg.

Definition NewProviderForConfig (cfg : option (OAuth2Config Endpoint)) : Provider :=
  {| verifier := None; config := cfg; provider := None; httpClient := None; endSessionEndpoint := "" |}.

Definition GetEndSessionEndpoint (p : Provider) : string := endSessionEndpoint p.

(** ** Starting and completing a login *)

Definition randomNonce (rnd : result bytes) : result string :=
  match rnd with Err e => Err e | Ok b => Ok (string_of (EncodeToString b)) end.

(** [verif] is the answer of [oauth2.GenerateVerifier]. *)
Definition BeginAuth (p : Provider) (rnd : result bytes) (verif state : string) : result AuthChallenge :=
  match randomNonce rnd with
  | Err e => Err (Wrap "failed to generate OIDC nonce" e)
  | Ok nonce =>
      match config p with
      | None => Err nil_dereference
      | Some c =>
          Ok {| ch_URL := AuthCodeURL c state nonce verif;
                Session := {| Payload := ""; Nonce := nonce; CodeVerifier := verif |} |}
      end
  end.

Section Sessions.
Context {S : Type} `{OAuth.Store S, OAuth.EnvelopeCodec, SessionCodec}.

(** [states] is the manager's store; [None] a nil manager. *)
Definition BeginAuthSession (p : Provider) (states : option S) (rnd rnd_state : result bytes) (verif purpose payload : string)
    (ttl now : Z) : result AuthSession * option S :=
  match states with
  | None => (Err (Plain "oidc: BeginAuthSession requires a non-nil *oauthstate.Manager"), None)
  | Some s =>
      match randomNonce rnd with
      | Err e => (Err (Wrap "failed to generate OIDC nonce" e), Some s)
      | Ok nonce =>
          match session_Marshal {| e_Nonce := nonce; e_CodeVerifier := verif; e_Payload := payload |} with
          | Err e => (Err (Wrap "oidc: failed to encode session payload" e), Some s)
          | Ok entry =>
              match OAuth.Issue rnd_state purpose entry ttl now s with
              | (Err e, s') => (Err (Wrap "oidc: failed to issue state" e), Some s')
              | (Ok state, s') =>
                  match config p with
                  | None => (Err nil_dereference, Some s')
                  | Some c => (Ok {| URL := AuthCodeURL c state nonce verif; State := state |}, Some s')
                  end
              end
          end
      end
  end.

Definition CompleteAuthSession (states : option S) (purpose state : string) (now : Z) : result CallbackSession * option S :=
  match states with
  | None => (Err (Plain "oidc: CompleteAuthSession requires a non-nil *oauthstate.Manager"), None)
  | Some s =>
      match OAuth.Consume purpose state now s with
      | (Err e, s') => (Err (Wrap "oidc: state verification failed" e), Some s')
      | (Ok entry, s') =>
          (match session_Unmarshal entry with
           | Err e => Err (Wrap "oidc: failed to decode session payload" e)
           | Ok env => Ok {| Payload := e_Payload env; Nonce := e_Nonce env; CodeVerifier := e_CodeVerifier env |}
           end, Some s')
      end
  end.
End Sessions.

(** ** The exchange *)

Definition checkAuthorizedPartyClaims (claims : object) (audience : list string) (clientID : string) : result unit :=
  match obj_get "azp" claims with
  | Some raw =>
      match decode_string raw with
      | Err _ => Err (Plain "ID token azp claim is not a string")
      | Ok azp =>
          if azp <>s clientID then Err (Plain "ID token azp names a different client; it was not issued to this registry")
          else Ok tt
      end
  | None =>
      if (1 <? length audience)%nat then Err (Plain "ID token has several audiences and no azp claim, so no authorized party is named")
      else Ok tt
  end.

Definition checkAuthorizedParty (idToken : IDToken) (clientID : string) : result unit :=
  match it_claims idToken with
  | Err e => Err (Wrap "failed to read ID token claims" e)
  | Ok claims => checkAuthorizedPartyClaims claims (it_Audience idToken) clientID
  end.

Definition ExchangeAndVerify (p : Provider) (code : string) (session : CallbackSession) : M St (Tok * IDToken) :=
  match verifier p with
  | None => throw (Plain "ExchangeAndVerify is unavailable: this Provider was built with NewProviderForConfig (no discovery)")
  | Some v =>
      if CodeVerifier session =s "" then throw (Plain "oidc: ExchangeAndVerify requires the PKCE code verifier for this login")
      else if Nonce session =s "" then throw (Plain "oidc: ExchangeAndVerify requires the nonce for this login")
      else
        match config p with
        | None => throw nil_dereference
        | Some c =>
            token ← wrapping "failed to exchange code for token" (Exchange (httpClient p) c code (CodeVerifier session));
            match Extra_id_token token with
            | None => throw (Plain "oidc: token response contains no id_token")
            | Some rawIDToken =>
                if rawIDToken =s "" then throw (Plain "oidc: token response contains no id_token")
                else
                  idToken ← wrapping "failed to verify ID token" (verifier_Verify v rawIDToken);
                  if it_Nonce idToken <>s Nonce session then throw (Plain "ID token nonce does not match the expected value")
                  else lift (checkAuthorizedParty idToken (o_ClientID c));; mret (token, idToken)
            end
        end
  end.

(** ** Claims *)

(** The loop over a claim's array. *)
Fixpoint group_names (v : list json) : list string :=
  match v with
  | [] => []
  | JSStr s :: v => if s =s "" then group_names v else s :: group_names v
  | _ :: v => group_names v
  end.

(** The nil and the empty slice are both []. *)
Definition ExtractGroups (idToken : IDToken) (claimName : string) : list string :=
  if claimName =s "" then []
  else match it_claims idToken with
  | Err _ => []
  | Ok raw => match obj_get claimName raw with Some (JSArr v) => group_names v | _ => [] end
  end.

Definition boolClaim (idToken : IDToken) (name : string) : bool :=
  match it_claims idToken with
  | Err _ => false
  | Ok m =>
      match obj_get name m with
      | None => false
      | Some raw =>
          match decode_bool raw with
          | Ok b => b
          | Err _ => match decode_string raw with Ok s => GoStrings.EqualFold (bytes_of s) (bytes_of "true") | Err _ => false end
          end
      end
  end.

Definition user_claims : list string := ["sub"; "email"; "name"; "preferred_username"; "upn"; "unique_name"].

(** sub, email, name, emailVerified. *)
Definition ExtractUserInfo (idToken : IDToken) : result (string * string * string * bool) :=
  match (o ← it_claims idToken; decode_struct foldName user_claims o) with
  | Err e => Err (Wrap "failed to parse ID token claims" e)
  | Ok claims =>
      if claims "sub" =s "" then Err (Plain "ID token missing 'sub' claim")
      else
        let '(resolved, emailVerified) :=
          if claims "email" <>s "" then (claims "email", boolClaim idToken "email_verified")
          else
            let resolved := claims "preferred_username" in
            let resolved := if resolved =s "" then claims "upn" else resolved in
            let resolved := if resolved =s "" then claims "unique_name" else resolved in
            (resolved, false) in
        if resolved =s "" then Err (Plain "ID token missing email identifier (checked: email, preferred_username, upn, unique_name)")
        else
          let name := if claims "name" =s "" then resolved else claims "name" in
          Ok (claims "sub", resolved, name, emailVerified)
  end.
End Provider.

(** ** Histories

    The logins of a process over one state store, with whatever else uses that
    store; the latest call first. *)

Section Histories.
Context {St TLS Endpoint Discovery Tok : Type} `{GoOIDC St TLS Endpoint Discovery Tok}.
Context {S : Type} `{OAuth.Store S, OAuth.EnvelopeCodec, SessionCodec}.
Abbreviation Prov := (@Provider TLS Endpoint Discovery).

Inductive login_event :=
| LBegin (p : Prov) (purpose payload : string) (ttl : Z) (r : result AuthSession)
| LComplete (purpose state : string) (r : result CallbackSession)
| LOther (e : OAuth.event).

Inductive logins (s0 : S) (t0 : Z) : Z -> list (Z * login_event) -> S -> Prop :=
| l_start : logins s0 t0 t0 [] s0
| l_later t t' h s : logins s0 t0 t h s -> (t <= t')%Z -> logins s0 t0 t' h s
| l_idle t h s : logins s0 t0 t h s -> logins s0 t0 t h (OAuth.idle t s)
| l_begin t h s p rnd rnd_state verif pu pl ttl r s' : logins s0 t0 t h s ->
    is_Some (config p) -> ascii_text verif ->
    BeginAuthSession p (Some s) rnd rnd_state verif pu pl ttl t = (r, Some s') ->
    logins s0 t0 t ((t, LBegin p pu pl ttl r) :: h) s'
| l_complete t h s pu st r s' : logins s0 t0 t h s ->
    CompleteAuthSession (Some s) pu st t = (r, Some s') -> logins s0 t0 t ((t, LComplete pu st r) :: h) s'
| l_issue t h s rnd pu pl ttl r s' : logins s0 t0 t h s ->
    OAuth.Issue rnd pu pl ttl t s = (r, s') -> logins s0 t0 t ((t, LOther (OAuth.EIssue pu pl ttl r)) :: h) s'
| l_consume t h s pu st r s' : logins s0 t0 t h s ->
    OAuth.Consume pu st t s = (r, s') -> logins s0 t0 t ((t, LOther (OAuth.EConsume pu st r)) :: h) s'
| l_reserve t h s k ttl r s' : logins s0 t0 t h s ->
    OAuth.Reserve k ttl t s = (r, s') -> logins s0 t0 t ((t, LOther (OAuth.EReserve k ttl r)) :: h) s'.

(** What a login event is to the manager. *)
Inductive manager_view : Z * login_event -> list (Z * OAuth.event) -> Prop :=
| v_none t p pu pl ttl e : manager_view (t, LBegin p pu pl ttl (Err e)) []
| v_refused t p pu pl ttl e enc e' :
    manager_view (t, LBegin p pu pl ttl (Err e)) [(t, OAuth.EIssue pu enc ttl (Err e'))]
| v_begin t p c pu pl ttl nonce verif enc st :
    config p = Some c -> ascii_text nonce -> ascii_text verif ->
    session_Marshal {| e_Nonce := nonce; e_CodeVerifier := verif; e_Payload := pl |} = Ok enc ->
    manager_view (t, LBegin p pu pl ttl (Ok {| URL := AuthCodeURL c st nonce verif; State := st |}))
      [(t, OAuth.EIssue pu enc ttl (Ok st))]
| v_complete t pu st r r' :
    (forall cs, r = Ok cs -> exists enc env, r' = Ok enc /\ session_Unmarshal enc = Ok env /\
       cs = {| Payload := e_Payload env; Nonce := e_Nonce env; CodeVerifier := e_CodeVerifier env |}) ->
    manager_view (t, LComplete pu st r) [(t, OAuth.EConsume pu st r')]
| v_other t e : manager_view (t, LOther e) [(t, e)].

Inductive manager_history : list (Z * login_event) -> list (Z * OAuth.event) -> Prop :=
| mh_nil : manager_history [] []
| mh_cons te h v oh : manager_view te v -> manager_history h oh -> manager_history (te :: h) (v ++ oh).

(** Every state issued for the purpose was issued to start a login. *)
Definition purpose_reserved (pu : string) (te : Z * login_event) : Prop :=
  match snd te with
  | LOther (OAuth.EIssue p0 _ _ (Ok _)) => OAuth.json_text p0 <> pu
  | _ => True
  end.

(** No redemption of the state succeeded. *)
Definition not_completed (st : string) (te : Z * login_event) : Prop :=
  match snd te with
  | LComplete _ st' (Ok _) | LOther (OAuth.EConsume _ st' (Ok _)) => st' <> st
  | _ => True
  end.

(** *** Facts *)

Lemma randomNonce_ascii rnd n : randomNonce rnd = Ok n -> ascii_text n.
Proof.
  unfold randomNonce, ascii_text. destruct rnd as [b|]; [|done]. intros [= <-].
  rewrite bytes_of_string_of. apply EncodeToString_plain.
Qed.

Lemma begin_view (p : Prov) s rnd rnd_state verif pu pl ttl t r s' (is_config : is_Some (config p)) :
  ascii_text verif -> BeginAuthSession p (Some s) rnd rnd_state verif pu pl ttl t = (r, Some s') ->
  exists v, manager_view (t, LBegin p pu pl ttl r) v /\
    (v = [] /\ s' = s \/ exists enc r', v = [(t, OAuth.EIssue pu enc ttl r')] /\ OAuth.Issue rnd_state pu enc ttl t s = (r', s')).
Proof.
  intros Hv. destruct is_config as [c Hc]. unfold BeginAuthSession. rewrite Hc.
  destruct (randomNonce rnd) as [nonce|e] eqn:En; [|intros [= <- <-]; exists []; split; [constructor|by left]].
  apply randomNonce_ascii in En.
  destruct (session_Marshal _) as [enc|e] eqn:Em; [|intros [= <- <-]; exists []; split; [constructor|by left]].
  destruct (OAuth.Issue _ _ _ _ _ _) as [[st|e] s1] eqn:Ei; intros [= <- <-];
    (eexists [_]; split; [|right; by eauto]); [by econstructor|constructor].
Qed.

Lemma complete_view s pu st t r s' :
  CompleteAuthSession (Some s) pu st t = (r, Some s') ->
  exists r', OAuth.Consume pu st t s = (r', s') /\
    manager_view (t, LComplete pu st r) [(t, OAuth.EConsume pu st r')].
Proof.
  unfold CompleteAuthSession. destruct (OAuth.Consume pu st t s) as [[enc|e] s1] eqn:Ec; intros [= <- <-];
    eexists; (split; [done|]); constructor; [|done].
  intros cs. destruct (session_Unmarshal enc) as [env|] eqn:Eu; [|done]. intros [= <-]. eauto.
Qed.

Lemma logins_view s0 t0 t h s : logins s0 t0 t h s -> exists oh, OAuth.history s0 t0 t oh s /\ manager_history h oh.
Proof.
  induction 1 as [|t t' h s _ (oh & Hh & Hm) Hle|t h s _ (oh & Hh & Hm)|t h s p rnd rs verif pu pl ttl r s' _ (oh & Hh & Hm) Hc Hv E
    |t h s pu st r s' _ (oh & Hh & Hm) E|t h s rnd pu pl ttl r s' _ (oh & Hh & Hm) E
    |t h s pu st r s' _ (oh & Hh & Hm) E|t h s k ttl r s' _ (oh & Hh & Hm) E].
  - exists []. split; [apply OAuth.h_start|constructor].
  - exists oh. split; [by eapply OAuth.h_later|done].
  - exists oh. split; [by apply OAuth.h_idle|done].
  - destruct (begin_view _ _ _ _ _ _ _ _ _ _ _ Hc Hv E) as (v & Hvw & [[-> ->]|(enc & r' & -> & Hi)]).
    + exists oh. split; [done|]. by apply (mh_cons _ _ []).
    + exists ((t, OAuth.EIssue pu enc ttl r') :: oh). split; [by eapply OAuth.h_issue|by apply (mh_cons _ _ [_])].
  - apply complete_view in E as (r' & Ec & Hvw).
    exists ((t, OAuth.EConsume pu st r') :: oh). split; [by eapply OAuth.h_consume|by apply (mh_cons _ _ [_])].
  - exists ((t, OAuth.EIssue pu pl ttl r) :: oh). split; [by eapply OAuth.h_issue|]. apply (mh_cons _ _ [_]); [constructor|done].
  - exists ((t, OAuth.EConsume pu st r) :: oh). split; [by eapply OAuth.h_consume|]. apply (mh_cons _ _ [_]); [constructor|done].
  - exists ((t, OAuth.EReserve k ttl r) :: oh). split; [by eapply OAuth.h_reserve|]. apply (mh_cons _ _ [_]); [constructor|done].
Qed.

(** A login event of a history and the store it ran on. *)
Lemma logins_at s0 t0 t h s : logins s0 t0 t h s ->
  forall later t1 pu st r before, h = later ++ (t1, LComplete pu st r) :: before ->
  exists s1 s2, logins s0 t0 t1 before s1 /\ CompleteAuthSession (Some s1) pu st t1 = (r, Some s2).
Proof.
  induction 1 as [|t t' h s _ IH Hle|t h s _ IH|t h s p rnd rs verif pu pl ttl r s' Hl IH Hc Hv E
    |t h s pu st r s' Hl IH E|t h s rnd pu pl ttl r s' Hl IH E
    |t h s pu st r s' Hl IH E|t h s k ttl r s' Hl IH E]; intros later t1 pu1 st1 r1 before Heq; try (by eapply IH);
    try (by destruct later); destruct later as [|x later]; simplify_eq/=; by eauto.
Qed.

(** The login events behind a stretch of the manager's history. *)
Lemma manager_history_split h oh : manager_history h oh ->
  forall since ev earlier, oh = since ++ ev :: earlier ->
  exists since' te earlier', h = since' ++ te :: earlier' /\ manager_view te [ev] /\
    manager_history since' since /\ manager_history earlier' earlier.
Proof.
  induction 1 as [|te h v oh Hv Hm IH]; intros since ev earlier Heq; [by destruct since|].
  destruct v as [|ev' v].
  - destruct (IH since ev earlier Heq) as (a & te' & b & -> & Hte & Ha & Hb).
    exists (te :: a), te', b. split_and!; [done..| |done]. by apply (mh_cons _ _ [] since).
  - assert (v = []) as -> by (by inversion Hv). destruct since as [|ev0 since]; injection Heq as -> Heq.
    + exists [], te, h. split_and!; [done..|constructor|by subst].
    + destruct (IH since ev earlier Heq) as (a & te' & b & -> & Hte & Ha & Hb).
      exists (te :: a), te', b. split_and!; [done..| |done]. by apply (mh_cons _ _ [ev0]).
Qed.

Lemma not_completed_since st h oh :
  manager_history h oh -> Forall (OAuth.leaves_alone st) oh -> Forall (not_completed st) h.
Proof.
  induction 1 as [|te h v oh Hv _ IH]; intros Hf; [constructor|].
  apply Forall_app in Hf as [Hf1 Hf2]. constructor; [|by apply IH].
  inversion Hv as [| | |t pu st' r r' Hr|t e]; subst; try exact I; inversion Hf1 as [|? ? Hl _]; subst;
    unfold not_completed, OAuth.leaves_alone in *; cbn [snd] in *.
  - destruct r as [cs|]; [|done]. destruct (Hr cs eq_refl) as (enc & env & -> & _). intros ->. by specialize (Hl eq_refl).
  - destruct e as [| ? ? [|]|]; try exact I. intros ->. by specialize (Hl eq_refl).
Qed.
End Histories.

(** ** Facts about the exchange, the claims and the construction *)

Lemma boolClaim_true idt name o :
  it_claims idt = Ok o ->
  boolClaim idt name = true <-> exists raw, obj_get name o = Some raw /\
    (raw = JSBool true \/ exists s, raw = JSStr s /\ map lower (bytes_of s) = bytes_of "true").
Proof.
  intros E. unfold boolClaim, GoStrings.EqualFold. rewrite E.
  destruct (obj_get name o) as [raw|]; [|split; [done|by intros (? & [=] & _)]].
  assert (Hs : forall s, bool_decide (map lower (bytes_of s) = map lower (bytes_of "true")) = true <->
    map lower (bytes_of s) = bytes_of "true") by (intros s; by rewrite bool_decide_eq_true).
  destruct raw as [|b| |s| |]; simpl; split; naive_solver.
Qed.

Section Facts.
Context {St TLS Endpoint Discovery Tok : Type} `{GoOIDC St TLS Endpoint Discovery Tok}.
Context (ToLower foldName : string -> string) (EqualFold : string -> string -> bool).
Context (url_Parse : string -> result HttpSafe.URL) (lookupIP : string -> M St (list IP)).

(** The token was issued to this client. *)
Definition authorized (idt : IDToken) (clientID : string) : Prop :=
  exists claims, it_claims idt = Ok claims /\
    match obj_get "azp" claims with
    | Some raw => decode_string raw = Ok clientID
    | None => (length (it_Audience idt) <= 1)%nat
    end.

Lemma checkAuthorizedParty_Ok idt clientID : checkAuthorizedParty idt clientID = Ok tt <-> authorized idt clientID.
Proof.
  unfold checkAuthorizedParty, checkAuthorizedPartyClaims, authorized. destruct (it_claims idt) as [claims|].
  - destruct (obj_get "azp" claims) as [raw|] eqn:Ea.
    + destruct (decode_string raw) as [azp|] eqn:Ed.
      * destruct (String.eqb_spec azp clientID) as [->|Hne]; cbn [negb]; split; try done.
        -- intros _. exists claims. by rewrite Ea.
        -- intros (c & [= <-] & Hc). rewrite Ea, Ed in Hc. congruence.
      * split; [done|]. intros (c & [= <-] & Hc). rewrite Ea, Ed in Hc. congruence.
    + destruct (Nat.ltb_spec 1 (length (it_Audience idt))).
      * split; [done|]. intros (c & [= <-] & Hc). rewrite Ea in Hc. lia.
      * split; [|done]. intros _. exists claims. by rewrite Ea.
  - split; [done|]. by intros (c & [=] & _).
Qed.

Definition scheme_ok (cfg : Config TLS) (raw : string) : Prop :=
  AllowInsecureIssuer cfg = true \/ isHTTPSURL EqualFold url_Parse raw = true.

Lemma checkDiscoveredScheme_Ok cfg raw : checkDiscoveredScheme EqualFold url_Parse cfg raw = Ok tt <-> scheme_ok cfg raw.
Proof. unfold checkDiscoveredScheme, scheme_ok. rewrite <- orb_true_iff. by destruct (_ || _). Qed.

Definition vetted (cfg : Config TLS) (raw : string) : Prop :=
  raw <> "" /\ scheme_ok cfg raw /\
  exists w w', ValidateURL ToLower url_Parse lookupIP (EgressGuard cfg) raw w = (Ok tt, w').

Lemma check_dialed_Ok cfg eps w w' :
  check_dialed ToLower EqualFold url_Parse lookupIP cfg eps w = (Ok tt, w') -> Forall (vetted cfg) eps.
Proof.
  revert w. induction eps as [|raw eps IH]; intros w; [constructor|]. cbn [check_dialed].
  destruct (String.eqb_spec raw "") as [|Hne]; [done|]. intros E.
  apply bind_Ok in E as ([] & w1 & E1 & E). apply lift_Ok in E1 as [E1 ->]. apply checkDiscoveredScheme_Ok in E1.
  apply bind_Ok in E as ([] & w2 & E2 & E). apply wrapping_Ok in E2. constructor; [|by eapply IH]. split; [done|]. eauto.
Qed.

Lemma check_redirect_targets_Ok cfg eps :
  check_redirect_targets EqualFold url_Parse cfg eps = Ok tt -> Forall (fun raw => raw = "" \/ scheme_ok cfg raw) eps.
Proof.
  induction eps as [|raw eps IH]; [constructor|]. cbn [check_redirect_targets].
  destruct (String.eqb_spec raw "") as [->|Hne]; [intros E; constructor; [by left|by apply IH]|].
  destruct (checkDiscoveredScheme _ _ _ _) as [[]|] eqn:Es; [|done]. apply checkDiscoveredScheme_Ok in Es.
  intros E. constructor; [by right|by apply IH].
Qed.

Lemma validateDiscoveredEndpoints_Ok cfg prov w es w' :
  validateDiscoveredEndpoints ToLower foldName EqualFold url_Parse lookupIP cfg prov w = (Ok es, w') ->
  exists o doc, discovery_Claims prov = Ok o /\ decode_struct foldName discoveryDocument o = Ok doc /\
    es = doc "end_session_endpoint" /\ vetted cfg (doc "token_endpoint") /\ vetted cfg (doc "jwks_uri") /\
    (doc "authorization_endpoint" = "" \/ scheme_ok cfg (doc "authorization_endpoint")) /\ (es = "" \/ scheme_ok cfg es).
Proof.
  unfold validateDiscoveredEndpoints. intros E. apply bind_Ok in E as (doc & w1 & E1 & E).
  apply wrapping_Ok in E1. apply lift_Ok in E1 as [E1 ->]. apply result_bind_Ok in E1 as (o & Ho & Hd).
  apply bind_Ok in E as ([] & w2 & E2 & E). apply check_dialed_Ok in E2. inversion E2 as [|? ? V1 E2']; subst. inversion E2' as [|? ? V2 _]; subst.
  apply bind_Ok in E as ([] & w3 & E3 & E). apply lift_Ok in E3 as [E3 ->]. apply check_redirect_targets_Ok in E3.
  inversion E3 as [|? ? R1 E3']; subst. inversion E3' as [|? ? R2 _]; subst. injection E as <- <-. by exists o, doc.
Qed.

Lemma exchange_nonce (p : @Provider TLS Endpoint Discovery) code cs (w : world St) tok idt w' :
  ExchangeAndVerify p code cs w = (Ok (tok, idt), w') -> it_Nonce idt = Nonce cs.
Proof.
  unfold ExchangeAndVerify. destruct (verifier p); [|done]. destruct (_ =s _); [done|]. destruct (_ =s _); [done|].
  destruct (config p); [|done]. intros E. apply bind_Ok in E as (tk & w1 & E1 & E).
  destruct (Extra_id_token tk) as [raw|]; [|done]. destruct (raw =s ""); [done|].
  apply bind_Ok in E as (it & w2 & E2 & E). destruct (String.eqb_spec (it_Nonce it) (Nonce cs)) as [Hn|]; [|done]. cbn [negb] in E.
  by apply bind_Ok in E as ([] & w3 & _ & [= -> -> ->]).
Qed.
End Facts.

(** ** Properties *)

(** The exchange hands back a token pair exactly when everything that binds it
    holds: the provider has a verifier, the session's nonce and PKCE verifier are both
    present, the token endpoint answered a request that carried this code and this
    verifier through the provider's own guarded client, the response holds an ID
    token, the verifier accepted it, its nonce is the session's, and it was issued to
    this client (an [azp] that names it, or one audience and no [azp]). A session that
    lost a binding is refused before any request: the world is as it was. *)
Theorem ExchangeAndVerify_exact {St TLS Endpoint Discovery Tok} `{GoOIDC St TLS Endpoint Discovery Tok}
    (p : @Provider TLS Endpoint Discovery) code cs (w : world St) :
  (forall tok idt w', ExchangeAndVerify p code cs w = (Ok (tok, idt), w') <->
     exists v c w1 raw, verifier p = Some v /\ config p = Some c /\ Nonce cs <> "" /\ CodeVerifier cs <> "" /\
       Exchange (httpClient p) c code (CodeVerifier cs) w = (Ok tok, w1) /\ Extra_id_token tok = Some raw /\ raw <> "" /\
       verifier_Verify v raw w1 = (Ok idt, w') /\ it_Nonce idt = Nonce cs /\ authorized idt (o_ClientID c)) /\
  (verifier p = None \/ Nonce cs = "" \/ CodeVerifier cs = "" -> exists m, ExchangeAndVerify p code cs w = (Err (Plain m), w)).
Proof.
  unfold ExchangeAndVerify. split.
  - intros tok idt w'. destruct (verifier p) as [v|]; [|split; [done|naive_solver]].
    destruct (String.eqb_spec (CodeVerifier cs) ""); [split; [done|naive_solver]|].
    destruct (String.eqb_spec (Nonce cs) ""); [split; [done|naive_solver]|].
    destruct (config p) as [c|]; [|split; [done|naive_solver]]. split.
    + intros E. apply bind_Ok in E as (tk & w1 & E1 & E). apply wrapping_Ok in E1.
      destruct (Extra_id_token tk) as [raw|] eqn:Er; [|done]. destruct (String.eqb_spec raw ""); [done|].
      apply bind_Ok in E as (it & w2 & E2 & E). apply wrapping_Ok in E2.
      destruct (String.eqb_spec (it_Nonce it) (Nonce cs)); [|done]. cbn [negb] in E.
      apply bind_Ok in E as ([] & w3 & [E3 ->]%lift_Ok & [= -> -> ->]). apply checkAuthorizedParty_Ok in E3. by exists v, c, w1, raw.
    + intros (? & ? & w1 & raw & [= <-] & [= <-] & _ & _ & E1 & Er & Hr & E2 & Hn & Ha).
      rewrite (bind_step _ _ _ _ _ (proj2 (wrapping_Ok _ _ _ _ _) E1)), Er. destruct (String.eqb_spec raw ""); [done|].
      rewrite (bind_step _ _ _ _ _ (proj2 (wrapping_Ok _ _ _ _ _) E2)), Hn, seqb_refl. cbn [negb].
      apply checkAuthorizedParty_Ok in Ha. by rewrite Ha.
  - intros Hm. destruct (verifier p) as [v|]; [|by eexists]. destruct (String.eqb_spec (CodeVerifier cs) ""); [by eexists|].
    destruct (String.eqb_spec (Nonce cs) ""); [by eexists|]. naive_solver.
Qed.

(** C15: A completed login is the one that was started. When the purpose's states are
    issued by [BeginAuthSession] only, a session that [CompleteAuthSession] returns for
    a state comes from the one login that minted that state, under the same purpose,
    within its ttl and not completed before: the payload is what that login stored,
    and the authorization URL it sent the user agent to carries exactly this state,
    nonce and PKCE challenge. An ID token the exchange then accepts has that nonce. *)
Theorem login_bound {St TLS Endpoint Discovery Tok} `{GoOIDC St TLS Endpoint Discovery Tok}
    {S} `{OAuth.Store S, OAuth.EnvelopeCodec, SessionCodec} (s0 s : S) t0 now
    (h later before : list (Z * @login_event TLS Endpoint Discovery)) t pu st cs :
  OAuth.unused s0 -> logins s0 t0 now h s -> h = later ++ (t, LComplete pu st (Ok cs)) :: before ->
  Forall (purpose_reserved pu) before ->
  exists p c p0 ttl ti a since earlier,
    before = since ++ (ti, LBegin p p0 (Payload cs) ttl (Ok a)) :: earlier /\
    State a = st /\ OAuth.json_text p0 = pu /\ (t <= ti + ttl)%Z /\ Forall (not_completed st) since /\
    config p = Some c /\ URL a = AuthCodeURL c st (Nonce cs) (CodeVerifier cs) /\
    forall p' code (w : world St) tok idt w', ExchangeAndVerify p' code cs w = (Ok (tok, idt), w') ->
      URL a = AuthCodeURL c st (it_Nonce idt) (CodeVerifier cs).
Proof.
  intros Hun Hl Heq Hp. destruct (logins_at _ _ _ _ _ Hl _ _ _ _ _ _ Heq) as (s1 & s2 & Hb & Ec).
  apply complete_view in Ec as (r' & Ec & Hv). inversion Hv as [| | |? ? ? ? ? Hr|]; subst.
  destruct (Hr cs eq_refl) as (enc & env & -> & Hu & ->). cbn [Payload Nonce CodeVerifier].
  destruct (logins_view _ _ _ _ _ Hb) as (oh & Hh & Hm).
  destruct (OAuth.Consume_outstanding _ _ _ _ _ _ _ _ _ Hun Hh Ec) as (oenv & Ho & Hpu & Henc & Ht).
  apply OAuth.outstanding_issued in Ho as (since & ti & ttl & earlier & -> & He & Hs).
  destruct (manager_history_split _ _ Hm _ _ _ eq_refl) as (since' & te & earlier' & -> & Hte & Hms & _).
  apply Forall_app in Hp as [_ [Hp _]%Forall_cons]. inversion Hte as [| |? p c ? pl ? nonce verif ? ? Hc An Av Hen| |]; subst; [|done].
  rewrite (session_round_trip {| e_Nonce := nonce; e_CodeVerifier := verif; e_Payload := pl |} _ An Av Hen) in Hu. injection Hu as <-. cbn in *.
  exists p, c, (OAuth.Purpose oenv), ttl, ti, {| URL := AuthCodeURL c st nonce verif; State := st |}, since', earlier'.
  split_and!; [done..|lia|by eapply not_completed_since|done|done|].
  intros p' code w tok idt w' Ex. apply (exchange_nonce p' code _ w tok idt w') in Ex. by rewrite Ex.
Qed.

(** A provider is built only over endpoints that passed both rules. When
    construction succeeds, the issuer URL (and a redirect URL that is set) is HTTPS
    unless the configuration opts out; the token and key endpoints of the discovery
    document are present, HTTPS under the same opt-out, and passed the deployment's
    egress guard; the endpoints for the user agent are absent or HTTPS, the
    end-session endpoint it hands out being the one checked; and every request it
    will make goes through a client with that guard, never one of the caller's. *)
Theorem NewProvider_vetted {St TLS Endpoint Discovery Tok} `{GoOIDC St TLS Endpoint Discovery Tok}
    ToLower foldName EqualFold url_Parse lookupIP callerClient (cfg : Config TLS) (w w' : world St) p :
  NewProviderWithContext ToLower foldName EqualFold url_Parse lookupIP callerClient cfg w = (Ok p, w') ->
  callerClient = false /\ IssuerURL cfg <> "" /\ ClientID cfg <> "" /\ ClientSecret cfg <> "" /\
  scheme_ok EqualFold url_Parse cfg (IssuerURL cfg) /\ (RedirectURL cfg = "" \/ scheme_ok EqualFold url_Parse cfg (RedirectURL cfg)) /\
  httpClient p = Some {| client_guard := EgressGuard cfg; client_tls := TLSClientConfig cfg |} /\
  (GetEndSessionEndpoint p = "" \/ scheme_ok EqualFold url_Parse cfg (GetEndSessionEndpoint p)) /\
  exists prov o doc c, verifier p = Some (prov, ClientID cfg) /\ config p = Some c /\ o_ClientID c = ClientID cfg /\
    o_Endpoint c = discovery_Endpoint prov /\
    discovery_Claims prov = Ok o /\ decode_struct foldName discoveryDocument o = Ok doc /\
    vetted ToLower EqualFold url_Parse lookupIP cfg (doc "token_endpoint") /\
    vetted ToLower EqualFold url_Parse lookupIP cfg (doc "jwks_uri") /\
    (doc "authorization_endpoint" = "" \/ scheme_ok EqualFold url_Parse cfg (doc "authorization_endpoint")).
Proof.
  unfold NewProviderWithContext.
  destruct (String.eqb_spec (IssuerURL cfg) "") as [|Hi]; [done|]. destruct (String.eqb_spec (ClientID cfg) "") as [|Hc]; [done|].
  destruct (String.eqb_spec (ClientSecret cfg) "") as [|Hs]; [done|].
  destruct (negb (AllowInsecureIssuer cfg) && negb _) eqn:E1; [done|].
  destruct (negb (AllowInsecureIssuer cfg) && negb (RedirectURL cfg =s "") && _) eqn:E2; [done|]. destruct callerClient; [done|].
  intros E. apply bind_Ok in E as (prov & w1 & E3 & E). apply wrapping_Ok in E3.
  apply bind_Ok in E as (es & w2 & E4 & [= <- <-]).
  destruct (validateDiscoveredEndpoints_Ok _ _ _ _ _ _ _ _ _ _ E4) as (o & doc & Ho & Hd & -> & V1 & V2 & R1 & R2).
  unfold scheme_ok in *. cbn [httpClient verifier config GetEndSessionEndpoint endSessionEndpoint].
  split_and!; [done..| | |done|done|].
  - destruct (AllowInsecureIssuer cfg); [by left|right]. by destruct (isHTTPSURL _ _ (IssuerURL cfg)).
  - destruct (String.eqb_spec (RedirectURL cfg) ""); [by left|]. right.
    destruct (AllowInsecureIssuer cfg); [by left|right]. by destruct (isHTTPSURL _ _ (RedirectURL cfg)).
  - by eexists prov, o, doc, _.
Qed.

(** What a login may trust of an ID token. The answer always has a subject, an
    email identifier and a name; the email counts as verified only when it is the
    token's own [email] claim and [email_verified] is true (the boolean, or the word in
    any ASCII case), so an identifier taken from the UPN family is never verified. *)
Theorem ExtractUserInfo_trust foldName idt sub email name verified :
  ExtractUserInfo foldName idt = Ok (sub, email, name, verified) ->
  sub <> "" /\ email <> "" /\ name <> "" /\
  exists o claims, it_claims idt = Ok o /\ decode_struct foldName user_claims o = Ok claims /\ claims "sub" = sub /\
    (claims "name" = name \/ claims "name" = "" /\ name = email) /\
    (if claims "email" <>s "" then
       email = claims "email" /\
       (verified = true <-> exists raw, obj_get "email_verified" o = Some raw /\
          (raw = JSBool true \/ exists s, raw = JSStr s /\ map lower (bytes_of s) = bytes_of "true"))
     else verified = false /\ In email [claims "preferred_username"; claims "upn"; claims "unique_name"]).
Proof.
  unfold ExtractUserInfo. destruct (it_claims idt) as [o|] eqn:Ei; [|done]. simpl.
  destruct (decode_struct foldName user_claims o) as [claims|] eqn:Ed; [|done].
  destruct (String.eqb_spec (claims "sub") "") as [|Hsub]; [done|].
  destruct (String.eqb_spec (claims "email") "") as [He|He]; cbn [negb].
  - set (e := if _ =s "" then claims "unique_name" else _). destruct (String.eqb_spec e "") as [|Hne]; [done|].
    intros [= <- <- <- <-]. split_and!; [done|done|by destruct (String.eqb_spec (claims "name") "")|].
    exists o, claims. split_and!; [done|done|done|destruct (String.eqb_spec (claims "name") ""); by auto|]. cbn [negb]. rewrite He. simpl. split; [done|].
    subst e. repeat case_match; simpl; by auto.
  - destruct (String.eqb_spec (claims "email") "") as [|_]; [done|]. intros [= <- <- <- <-].
    split_and!; [done|done|by destruct (String.eqb_spec (claims "name") "")|].
    exists o, claims. split_and!; [done|done|done|destruct (String.eqb_spec (claims "name") ""); by auto|].
    destruct (String.eqb_spec (claims "email") "") as [|_]; [done|]. cbn [negb]. split; [done|]. by apply boolClaim_true.
Qed.
End Oidc.

(** ** Witnesses *)

Module Example_login.
Import Oidc.
#[local] Existing Instances OAuth.ex_range OAuth.ex_codec OAuth.MemoryStore_Store.

(** A provider whose answers are fixed: the token endpoint issues one ID token. *)
Definition ex_idt : IDToken :=
  {| it_Nonce := "YWFh"; it_Audience := ["registry"; "other"];
     it_claims := Ok [("sub", JSStr "u-1"); ("EMAIL", JSStr "a@b.example"); ("email_verified", JSStr "True"); ("azp", JSStr "registry")] |}.

Definition ex_doc : object :=
  [("authorization_endpoint", JSStr "https://idp/auth"); ("token_endpoint", JSStr "https://idp/token"); ("jwks_uri", JSStr "https://idp/keys")].

#[export] Instance ex_oidc : GoOIDC unit unit string object string := {|
  oidc_NewProvider _ _ := mret ex_doc;
  discovery_Claims d := Ok d;
  discovery_Endpoint _ := "idp";
  verifier_Verify _ _ := mret ex_idt;
  AuthCodeURL c st nonce verif := o_Endpoint c +:+ "?" +:+ st +:+ nonce +:+ verif;
  Exchange _ _ _ _ := mret "raw";
  Extra_id_token t := Some t
|}.

#[export] Instance ex_sessions : SessionCodec.
Proof.
  refine {|
    session_Marshal e := Ok (string_of (OAuth.put_nat (length (bytes_of (e_Nonce e))) (bytes_of (e_Nonce e) ++
      OAuth.put_nat (length (bytes_of (e_CodeVerifier e))) (bytes_of (e_CodeVerifier e) ++ bytes_of (e_Payload e)))));
    session_Unmarshal s :=
      match OAuth.get_nat (bytes_of s) with
      | Some (n, l) =>
          match OAuth.get_nat (skipn n l) with
          | Some (k, l') => Ok {| e_Nonce := string_of (firstn n l); e_CodeVerifier := string_of (firstn k l'); e_Payload := string_of (skipn k l') |}
          | None => Err (Plain "unexpected end of input")
          end
      | None => Err (Plain "unexpected end of input")
      end |}.
  intros [n v pl] b _ _ [= <-]. cbn [e_Nonce e_CodeVerifier e_Payload].
  rewrite bytes_of_string_of, OAuth.get_put_nat, drop_app_length, OAuth.get_put_nat, take_app_length, take_app_length, drop_app_length.
  by rewrite !string_of_bytes_of.
Defined.

Definition scheme_url (s : string) : result HttpSafe.URL :=
  if HasPrefix s "https://" then Ok {| u_Scheme := "https"; u_Host := "idp"; u_Hostname := "idp" |} else Err (Plain "parse").
Definition ex_lookup (host : string) : M unit (list IP) := mret [[93; 184; 216; 34]%N].
Definition ex_fold (s : string) : string := if s =s "EMAIL" then "email" else s.

Definition ex_config : Config unit :=
  {| IssuerURL := "https://idp"; ClientID := "registry"; ClientSecret := "s"; RedirectURL := ""; Scopes := ["openid"];
     AllowInsecureIssuer := false; EgressGuard := None; TLSClientConfig := None |}.

Definition ex_world : world unit := quiet tt 0 0 0.
Definition ex_construct : result Provider * world unit :=
  NewProviderWithContext (fun s => s) ex_fold String.eqb scheme_url ex_lookup false ex_config ex_world.
Definition ex_provider : Provider := match fst ex_construct with Ok p => p | Err _ => NewProviderForConfig None end.

Lemma NewProvider_vetted_witness :
  httpClient ex_provider = Some {| client_guard := None; client_tls := None |} /\
  vetted (fun s => s) String.eqb scheme_url ex_lookup ex_config "https://idp/keys".
Proof.
  destruct (NewProvider_vetted (fun s => s) ex_fold String.eqb scheme_url ex_lookup false ex_config ex_world (snd ex_construct) ex_provider)
    as (_ & _ & _ & _ & _ & _ & Hc & _ & prov & o & doc & c & Hv & _ & _ & _ & Ho & Hd & _ & Hk & _).
  - vm_compute. reflexivity.
  - split; [exact Hc|]. injection Hv as <-. injection Ho as <-. injection Hd as <-. exact Hk.
Defined.

(** A login begun at 0 and completed at 5, then exchanged. *)
Definition ex_verifier : string := "verifier".
Definition ex_begin := BeginAuthSession ex_provider (Some OAuth.ex_store) OAuth.ex_random OAuth.ex_random ex_verifier "login" "return-to" 10 0.
Definition ex_store1 : OAuth.MemoryStore := match snd ex_begin with Some s => s | None => OAuth.ex_store end.
Definition ex_complete := CompleteAuthSession (Some ex_store1) "login" "YWFh" 5.
Definition ex_store2 : OAuth.MemoryStore := match snd ex_complete with Some s => s | None => OAuth.ex_store end.
Definition ex_session : CallbackSession := {| Payload := "return-to"; Nonce := "YWFh"; CodeVerifier := ex_verifier |}.
Definition ex_before : list (Z * @login_event unit string object) := [(0%Z, LBegin ex_provider "login" "return-to" 10 (fst ex_begin))].
Definition ex_logins := (5%Z, LComplete "login" "YWFh" (Ok ex_session)) :: ex_before.

Lemma ex_logins_run : logins (St := unit) (Tok := string) OAuth.ex_store 0 5 ex_logins ex_store2.
Proof.
  apply (l_complete _ _ _ _ ex_store1); [|vm_compute; reflexivity]. apply (l_later _ _ 0); [|lia].
  apply (l_begin _ _ _ _ OAuth.ex_store _ OAuth.ex_random OAuth.ex_random ex_verifier); [apply l_start|by eexists| |vm_compute; reflexivity].
  repeat constructor.
Qed.

Lemma login_bound_witness :
  exists p c p0 ttl ti a since earlier,
    ex_before = since ++ (ti, LBegin p p0 "return-to" ttl (Ok a)) :: earlier /\
    State a = "YWFh" /\ config p = Some c /\ URL a = AuthCodeURL c "YWFh" "YWFh" ex_verifier.
Proof.
  destruct (login_bound (St := unit) (Tok := string) OAuth.ex_store ex_store2 0 5 ex_logins [] ex_before 5 "login" "YWFh" ex_session)
    as (p & c & p0 & ttl & ti & a & since & earlier & Hb & Hs & _ & _ & _ & Hc & Hu & _).
  - by intros k.
  - exact ex_logins_run.
  - reflexivity.
  - repeat constructor.
  - by exists p, c, p0, ttl, ti, a, since, earlier.
Defined.

Example ex_exchange : ExchangeAndVerify ex_provider "code" ex_session ex_world = (Ok ("raw", ex_idt), ex_world).
Proof. vm_compute. reflexivity. Qed.

(** A member that differs from the tag in case only fills the field; the claim
    [email_verified] is read by its exact name. *)
Lemma ExtractUserInfo_trust_witness :
  ExtractUserInfo ex_fold ex_idt = Ok ("u-1", "a@b.example", "a@b.example", true) /\ "u-1" <> "".
Proof.
  split; [vm_compute; reflexivity|].
  apply (ExtractUserInfo_trust ex_fold ex_idt "u-1" "a@b.example" "a@b.example" true). vm_compute. reflexivity.
Defined.
End Example_login.
