(* ===== verification/NotifyDedup.v ===== *)
(** * NotifyDedup: identity/store/notify_dedup_repository.go

    The TTL-bounded claim behind a notification's deduplication key: one upsert
    decides the winner, and the statement that grows the table also prunes it. The
    upsert reads the database's clock, the prune the application's. *)

From S2P Require Import Prelude Order Models OrgScope Db DbRel OrganizationRepo.

Definition dedup_hour : Z := 3600 * second.
Definition dedupPruneGrace : Z := 7 * 24 * dedup_hour.
Definition dedupPruneInterval : Z := dedup_hour.
Definition dedupPruneBatch : Z := 10000.

(** A row of notify_dedup_claims. *)
Record DedupClaim := { c_key : string; c_at : Z }.

(** The settings of a repository; zero or less is the default. *)
Record NotifyDedupRepository := { d_pruneInterval : Z; d_pruneGrace : Z; d_pruneBatch : Z }.

Definition NewNotifyDedupRepository : NotifyDedupRepository := {| d_pruneInterval := 0; d_pruneGrace := 0; d_pruneBatch := 0 |}.

(** The table, and the atomic [nextPruneAtUnixNano] of the process. *)
Class HasDedup (St : Type) := {
  claims : St -> option (list DedupClaim);
  put_claims : list DedupClaim -> St -> St;
  dedup_next : St -> Z;
  put_dedup_next : Z -> St -> St;
  claims_put : forall l s, claims (put_claims l s) = Some l;
  claims_next : forall z s, claims (put_dedup_next z s) = claims s
}.

(** INSERT ... ON CONFLICT (dedup_key) DO UPDATE SET claimed_at = NOW() WHERE claimed_at
    < NOW() - ttl RETURNING dedup_key: whether a row came back. *)
Definition upsert_claim (key : string) (ttl now : Z) (rows : list DedupClaim) : bool * list DedupClaim :=
  let fresh := {| c_key := key; c_at := now |} in
  match List.find (fun c => c_key c =s key) rows with
  | None => (true, rows ++ [fresh])
  | Some c =>
      if (c_at c <? now - ttl)%Z
      then (true, List.map (fun c' => if c_key c' =s key then fresh else c') rows)
      else (false, rows)
  end.

Definition older_claim (x y : DedupClaim) : bool := (c_at x <=? c_at y)%Z.

(** DELETE ... WHERE dedup_key IN (SELECT ... WHERE claimed_at < $1 ORDER BY claimed_at LIMIT $2) *)
Definition prune_claims (cutoff batch : Z) (rows : list DedupClaim) : list DedupClaim :=
  let doomed := List.map c_key (firstn (Z.to_nat batch) (sort_by older_claim
    (List.filter (fun c => (c_at c <? cutoff)%Z) rows))) in
  List.filter (fun c => negb (mem (c_key c) doomed)) rows.

Module Dedup.
Section Repository.
Context {St : Type} `{HasDedup St}.

Definition or_default (v fallback : Z) : Z := if (v <=? 0)%Z then fallback else v.

(** Load, compare, and compare-and-swap; another goroutine may run in between. *)
Definition claimPruneSlot (r : NotifyDedupRepository) (now : Z) : M St bool :=
  next ← peek dedup_next;
  if (now <? next)%Z then mret false
  else
    let interval := or_default (d_pruneInterval r) dedupPruneInterval in
    preempt;;
    current ← peek dedup_next;
    if (current =? next)%Z then poke (put_dedup_next (now + interval)%Z);; mret true else mret false.

(** A failed prune is logged; the claim stands. *)
Definition maybePruneExpiredClaims (r : NotifyDedupRepository) : M St unit :=
  now ← time_Now;
  claimed ← claimPruneSlot r now;
  if negb claimed then mret tt
  else
    let grace := or_default (d_pruneGrace r) dedupPruneGrace in
    let batch := or_default (d_pruneBatch r) dedupPruneBatch in
    let cutoff := (now - grace)%Z in
    try (table_stmt claims put_claims (fun _ rows => Ok (tt, prune_claims cutoff batch rows)));;
    mret tt.

(** The upsert's answer is inspected after the prune it pays for. *)
Definition ClaimDedup (r : NotifyDedupRepository) (key : string) (ttl : Z) : M St bool :=
  now ← db_NOW;
  claimed ← try (table_stmt claims put_claims (fun _ rows => Ok (upsert_claim key ttl now rows)));
  maybePruneExpiredClaims r;;
  match claimed with
  | Ok row => mret row
  | Err err => throw (Wrap "failed to claim notify dedup key" err)
  end.
End Repository.

(** ** Lemmas *)

(** The claims made at [t] or later stay, or are renewed, and keys stay unique. *)
Definition rows_kept (t : Z) (rows rows' : list DedupClaim) : Prop :=
  NoDup (List.map c_key rows) ->
  NoDup (List.map c_key rows') /\
  forall c, In c rows -> (t <= c_at c)%Z -> exists c', In c' rows' /\ c_key c' = c_key c /\ (c_at c <= c_at c')%Z.

#[export] Instance rows_kept_preorder t : PreOrder (rows_kept t).
Proof.
  split; [intros l; split; [done|]; intros c Hc Ht; exists c; split; [done|]; split; [done|lia]|].
  intros a b c H1 H2 Hu. destruct (H1 Hu) as [Ub K1]. destruct (H2 Ub) as [Uc K2]. split; [done|].
  intros x Hx Ht. destruct (K1 x Hx Ht) as (y & Hy & E & Hle). destruct (K2 y Hy) as (z & Hz & E' & Hle'); [lia|].
  exists z. split; [done|]. split; [congruence|lia].
Qed.

Lemma find_key key rows c : List.find (fun c => c_key c =s key) rows = Some c -> In c rows /\ c_key c = key.
Proof. intros E. apply find_some in E as [Hin Hk]. split; [done|by apply seqb_true]. Qed.

Lemma find_no_key key rows : List.find (fun c => c_key c =s key) rows = None -> forall c, In c rows -> c_key c <> key.
Proof. intros E c Hc Hk. pose proof (find_none _ _ E c Hc) as F. simpl in F. by rewrite Hk, seqb_refl in F. Qed.

Lemma upsert_kept t key ttl now rows b rows' :
  (0 <= ttl)%Z -> upsert_claim key ttl now rows = (b, rows') -> rows_kept t rows rows'.
Proof.
  intros Ht. unfold upsert_claim. destruct (List.find _ rows) as [c|] eqn:Ef.
  - apply find_key in Ef as [Hc Hk]. destruct (Z.ltb_spec (c_at c) (now - ttl)); intros [= <- <-]; [|reflexivity].
    intros Hu. split.
    + rewrite map_map. erewrite map_ext; [exact Hu|]. intros c'. by destruct (String.eqb_spec (c_key c') key).
    + intros x Hx Hle. exists (if c_key x =s key then {| c_key := key; c_at := now |} else x).
      split; [apply in_map_iff; by exists x|]. destruct (String.eqb_spec (c_key x) key) as [Ek|]; [|done].
      split; [done|]. simpl. rewrite (NoDup_map_inj c_key rows x c Hu Hx Hc); [lia|congruence].
  - intros [= <- <-] Hu. split.
    + apply NoDup_map_snoc; [done|]. intros c Hc. apply (find_no_key _ _ Ef c Hc).
    + intros c Hc _. exists c. split; [apply in_app_iff; by left|]. split; [done|lia].
Qed.

Lemma prune_claims_kept t cutoff batch rows : (cutoff <= t)%Z -> rows_kept t rows (prune_claims cutoff batch rows).
Proof.
  intros Hc Hu. split; [by apply NoDup_map_filter|]. intros c Hin Ht. exists c. split; [|by split; [|lia]].
  apply filter_In. split; [done|]. apply negb_true_iff, mem_false. intros Hd.
  apply in_map_iff in Hd as (c' & E & Hin').
  assert (Hf : In c' (List.filter (fun c => (c_at c <? cutoff)%Z) rows)).
  { apply (in_sort_by older_claim). rewrite <- (firstn_skipn (Z.to_nat batch) (sort_by older_claim _)). apply in_app_iff. by left. }
  apply filter_In in Hf as [Hr Hlt%Z.ltb_lt]. rewrite (NoDup_map_inj c_key _ c' c Hu Hr Hin E) in Hlt. lia.
Qed.

Lemma upsert_fresh key ttl now rows rows' :
  upsert_claim key ttl now rows = (true, rows') -> exists c, In c rows' /\ c_key c = key /\ c_at c = now.
Proof.
  unfold upsert_claim. destruct (List.find _ rows) as [c|] eqn:Ef.
  - apply find_key in Ef as [Hc Hk]. destruct (_ <? _)%Z; [|done]. intros [= <-].
    eexists. split; [apply in_map_iff; exists c; split; [reflexivity|done]|]. by rewrite Hk, seqb_refl.
  - intros [= <-]. eexists. split; [apply in_app_iff; right; by left|]. done.
Qed.

Section Facts.
Context {St : Type} `{HasDedup St}.

(** The same over the process state; a table that is there stays. *)
Definition claims_kept (t : Z) (s s' : St) : Prop :=
  forall rows, claims s = Some rows -> exists rows', claims s' = Some rows' /\ rows_kept t rows rows'.

#[export] Instance claims_kept_preorder t : PreOrder (claims_kept t).
Proof.
  split; [intros s rows E; exists rows; by split|]. intros a b c H1 H2 rows E.
  destruct (H1 rows E) as (r1 & E1 & K1). destruct (H2 r1 E1) as (r2 & E2 & K2). exists r2. split; [done|by transitivity r1].
Qed.

Lemma claims_kept_put t s rows rows' : claims s = Some rows -> rows_kept t rows rows' -> claims_kept t s (put_claims rows' s).
Proof. intros E K r E'. rewrite E in E'. injection E' as <-. exists rows'. by rewrite claims_put. Qed.

Lemma prune_evolves_claims t r (now : Z) :
  (now - or_default (d_pruneGrace r) dedupPruneGrace <= t)%Z ->
  evolves (claims_kept t) (
    claimed ← claimPruneSlot r now;
    if negb claimed then mret tt
    else
      try (table_stmt claims put_claims (fun _ rows =>
        Ok (tt, prune_claims (now - or_default (d_pruneGrace r) dedupPruneGrace) (or_default (d_pruneBatch r) dedupPruneBatch) rows)));;
      (mret tt : M St unit)).
Proof.
  intros Ht. apply evolves_bind; [apply _| |].
  - unfold claimPruneSlot. evolve. apply evolves_poke. intros s rows E. exists rows. by rewrite claims_next.
  - intros []; simpl; evolve. apply evolves_table_stmt; [apply _|]. intros s rows a rows' E [= _ <-].
    apply claims_kept_put with rows; [done|]. by apply prune_claims_kept.
Qed.

Lemma maybePrune_kept t r w r0 w' :
  (w_now w - or_default (d_pruneGrace r) dedupPruneGrace <= t)%Z -> sched_respects (claims_kept t) w ->
  maybePruneExpiredClaims r w = (r0, w') -> claims_kept t (w_db w) (w_db w').
Proof. intros Ht Hs E. by destruct (prune_evolves_claims t r (w_now w) Ht w r0 w' E Hs). Qed.

(** The upsert, then the prune, whatever the upsert answered. *)
Lemma ClaimDedup_inv r key ttl w res w' :
  ClaimDedup r key ttl w = (res, w') ->
  exists up w1 u, table_stmt claims put_claims (fun _ rows => Ok (upsert_claim key ttl (w_dbnow w) rows)) w = (up, w1) /\
    (maybePruneExpiredClaims r w1 = (u, w') ) /\ (forall b, res = Ok b -> up = Ok b).
Proof.
  unfold ClaimDedup. rewrite (bind_step db_NOW _ w (w_dbnow w) w eq_refl). intros E.
  apply bind_try in E as (up & w1 & E1 & E). exists up, w1.
  apply bind_inv in E as [([] & w2 & E2 & E)|(e & E2 & ->)]; [|exists (Err e); by split_and!].
  exists (Ok tt). destruct up as [b|e]; injection E as <- <-; split_and!; try done. 
Qed.

Lemma upsert_evolves t key ttl now :
  (0 <= ttl)%Z -> evolves (claims_kept t) (table_stmt claims put_claims (fun _ rows => Ok (upsert_claim key ttl now rows))).
Proof.
  intros Ht. apply evolves_table_stmt; [apply _|]. intros s rows a rows' E [= Eu].
  apply claims_kept_put with rows; [done|]. by eapply upsert_kept.
Qed.

(** Claims of [t] or later survive a [ClaimDedup] whose prune horizon is not later. *)
Lemma ClaimDedup_kept t r key ttl w res w' :
  (0 <= ttl)%Z -> (w_now w - or_default (d_pruneGrace r) dedupPruneGrace <= t)%Z -> sched_respects (claims_kept t) w ->
  ClaimDedup r key ttl w = (res, w') -> claims_kept t (w_db w) (w_db w').
Proof.
  intros Ht Hg Hs E. destruct (ClaimDedup_inv _ _ _ _ _ _ E) as (up & w1 & u & E1 & E2 & _).
  destruct (upsert_evolves t key ttl _ Ht _ _ _ E1 Hs) as [K1 S1]. etrans; [exact K1|].
  apply table_stmt_inv in E1 as ((_ & Hn & _) & _). eapply maybePrune_kept; [|exact S1|exact E2]. by rewrite Hn.
Qed.
End Facts.

(** ** Properties *)

(** One winner per occurrence. After a [ClaimDedup] that won a key at the database
    time t0, whatever claims, renewals and prunes come between, no caller wins that
    key again before its own ttl has passed since t0 - as long as the claims made
    from t0 on are pruned by nobody, which each [ClaimDedup] respects while its prune
    horizon, the application's clock less the grace, has not passed t0. *)
Theorem one_winner {St} `{HasDedup St} r key ttl r2 ttl2 (w w1 w2 w3 : world St) b rows :
  (0 <= ttl)%Z -> (0 <= ttl2)%Z ->
  (w_now w - or_default (d_pruneGrace r) dedupPruneGrace <= w_dbnow w)%Z ->
  sched_respects (claims_kept (w_dbnow w)) w -> claims (db_seen w) = Some rows -> NoDup (List.map c_key rows) ->
  ClaimDedup r key ttl w = (Ok true, w1) ->
  claims_kept (w_dbnow w) (w_db w1) (db_seen w2) -> (w_dbnow w2 <= w_dbnow w + ttl2)%Z ->
  ClaimDedup r2 key ttl2 w2 = (Ok b, w3) -> b = false.
Proof.
  intros Ht Ht2 Hg Hs Er Hu E Hk Hd E2.
  destruct (ClaimDedup_inv _ _ _ _ _ _ E) as (up & wa & u & Ea & Ep & Hok). rewrite (Hok true eq_refl) in Ea.
  destruct (upsert_evolves (w_dbnow w) key ttl _ Ht _ _ _ Ea Hs) as [_ Sa].
  apply table_stmt_inv in Ea as ((_ & Hn & _) & [(rw & rw' & a & Eg & [= Eu] & [= <-] & Edb)|(e & [=] & _)]).
  rewrite Er in Eg. injection Eg as <-.
  assert (Hpr : claims_kept (w_dbnow w) (w_db wa) (w_db w1)) by (eapply maybePrune_kept; [by rewrite Hn|exact Sa|exact Ep]).
  destruct (upsert_fresh _ _ _ _ _ Eu) as (c & Hc & Ek & Eat).
  assert (Hu' : NoDup (List.map c_key rw')) by (by apply (upsert_kept (w_dbnow w) key ttl (w_dbnow w) rows true rw' Ht Eu)).
  assert (Hall : claims_kept (w_dbnow w) (w_db wa) (db_seen w2)) by (by transitivity (w_db w1)).
  rewrite Edb in Hall. destruct (Hall rw' (claims_put _ _)) as (rows2 & E3 & K).
  destruct (K Hu') as [Hu2 K2]. destruct (K2 c Hc) as (c2 & Hc2 & Ek2 & Hle); [lia|].
  destruct (ClaimDedup_inv _ _ _ _ _ _ E2) as (up2 & wb & u2 & Eb & _ & Hok2). rewrite (Hok2 b eq_refl) in Eb.
  apply table_stmt_inv in Eb as (_ & [(rx & rx' & a & Eg & [= Eu2] & [= <-] & _)|(e & [=] & _)]).
  rewrite E3 in Eg. injection Eg as <-. revert Eu2. unfold upsert_claim.
  destruct (List.find _ rows2) as [c3|] eqn:Ef; [|exfalso; by apply (find_no_key _ _ Ef c2 Hc2); congruence].
  apply find_key in Ef as [Hc3 Ek3]. rewrite (NoDup_map_inj c_key rows2 c3 c2 Hu2 Hc3 Hc2) by congruence.
  destruct (Z.ltb_spec (c_at c2) (w_dbnow w2 - ttl2)); [lia|]. by intros [= <- _].
Qed.

(** A claim is a reservation: with nobody interfering, a key that is free or whose
    claim is older than the ttl is won. *)
Theorem claim_again {St} `{HasDedup St} r key ttl (w : world St) rows :
  w_sched w = [] -> claims (w_db w) = Some rows ->
  (forall c, In c rows -> c_key c = key -> (c_at c < w_dbnow w - ttl)%Z) ->
  fst (ClaimDedup r key ttl w) = Ok true.
Proof.
  intros Hq Er Hold. unfold ClaimDedup. rewrite (bind_step db_NOW _ w (w_dbnow w) w eq_refl).
  unfold try at 1. unfold mbind at 1, M_bind at 1. rewrite (table_stmt_quiet _ _ _ _ _ Hq Er).
  assert (Hb : exists rows', upsert_claim key ttl (w_dbnow w) rows = (true, rows')).
  { unfold upsert_claim. destruct (List.find _ rows) as [c|] eqn:Ef; [|by eexists].
    apply find_key in Ef as [Hc Hk]. specialize (Hold c Hc Hk). destruct (Z.ltb_spec (c_at c) (w_dbnow w - ttl)); [by eexists|lia]. }
  destruct Hb as [rows' ->].
  assert (Hp : forall w1 : world St, exists w2, maybePruneExpiredClaims r w1 = (Ok tt, w2)).
  { intros w1. unfold maybePruneExpiredClaims, claimPruneSlot, mbind, M_bind, time_Now, peek, preempt, try, poke.
    repeat (case_match; simplify_eq/=; eauto). }
  destruct (Hp (set_db (put_claims rows' (w_db w)) w)) as [w2 E]. unfold mbind, M_bind. by rewrite E.
Qed.

(** ** Witness *)

#[export] Instance ex_dedup : HasDedup (option (list DedupClaim) * Z).
Proof. refine {| claims := fst; put_claims := fun l s => (Some l, snd s); dedup_next := snd; put_dedup_next := fun z s => (fst s, z) |}; done. Defined.

(** A won claim at 100, and the same key tried at 150 with a ttl of 60. *)
Definition ex_first : world (option (list DedupClaim) * Z) := quiet (Some [{| c_key := "other"; c_at := -5 |}], 0%Z) 100 100 0.
Definition ex_repo : NotifyDedupRepository := {| d_pruneInterval := 0; d_pruneGrace := 50; d_pruneBatch := 0 |}.
Definition ex_first_claim := ClaimDedup ex_repo "scanner:1.2" 60 ex_first.
Definition ex_second : world (option (list DedupClaim) * Z) := quiet (w_db (snd ex_first_claim)) 150 150 0.

Lemma one_winner_witness :
  fst (ClaimDedup ex_repo "scanner:1.2" 60 ex_second) = Ok false /\ false = false.
Proof.
  split; [vm_compute; reflexivity|].
  apply (one_winner ex_repo "scanner:1.2" 60 ex_repo 60 ex_first (snd ex_first_claim) ex_second (snd (ClaimDedup ex_repo "scanner:1.2" 60 ex_second)) false
    [{| c_key := "other"; c_at := -5 |}]).
  - lia.
  - lia.
  - vm_compute. discriminate.
  - constructor.
  - reflexivity.
  - vm_compute. repeat constructor; set_solver.
  - vm_compute. reflexivity.
  - reflexivity.
  - vm_compute. discriminate.
  - vm_compute. reflexivity.
Defined.

(** A ttl beyond the grace outlives its own claim: the prune removes it first. *)
Example ttl_beyond_grace :
  let w := quiet (w_db (snd (ClaimDedup ex_repo "k" 200 ex_first))) 200 200 0 in
  let w' := quiet (w_db (snd (ClaimDedup {| d_pruneInterval := 1; d_pruneGrace := 50; d_pruneBatch := 0 |} "unrelated" 200
                    (set_db (fst (w_db w), 0%Z) w)))) 210 210 0 in
  fst (ClaimDedup ex_repo "k" 200 w') = Ok true.
Proof. vm_compute. reflexivity. Qed.
End Dedup.
