(* ===== verification/Channels.v ===== *)
(** * Channels: identity/notify's channel table

    channel_repository.go with its optional tenant predicate (channel_scope.go) and
    owner (channel_owner.go), and the start-up checks of the table the application
    provides (schema.go). A row's events document is any JSON value; a condition is
    evaluated left to right. The catalog is read as the columns of the one relation
    the name resolves to. *)

From S2P Require Import Prelude GoStrings PgQuote Order Scopes Models OrgScope Json Db DbRel OrganizationRepo.

Module Channel.

(** ** Rows and results *)

Record ChannelRow := {
  ch_id : string; ch_name : string; ch_type : string; ch_target : string; ch_events : json; ch_enabled : bool;
  ch_last_status : option string; ch_last_error : option string; ch_last_sent_at : option Z;
  ch_created_at : Z; ch_updated_at : Z; ch_org : option string
}.

Record NotificationChannel := {
  ID : string; Name : string; Type_ : string; EncryptedTarget : string; HasTarget : bool; Events : list string;
  Enabled : bool; LastStatus : option string; LastError : option string; LastSentAt : option Z; CreatedAt : Z; UpdatedAt : Z
}.

(** The table; [channel_org] is [None] without an organization_id column and else
    the column's default. *)
Class HasChannels (St : Type) := {
  channels : St -> option (list ChannelRow);
  put_channels : list ChannelRow -> St -> St;
  channel_org : St -> option (option string);
  channels_put : forall l s, channels (put_channels l s) = Some l;
  org_put : forall l s, channel_org (put_channels l s) = channel_org s
}.

Definition ErrEmptyOwningOrganization : error := Sentinel "ErrEmptyOwningOrganization".
Definition channelNotFound : error := Wrap "notification channel by id" ErrNotFound.
Definition undefined_channel_column : error := Sentinel "SQLSTATE 42703".

(** ** Options *)

Definition ChannelOrganizationColumn : string := "organization_id".

Record channelFilter := { f_scoped : bool; f_scope : OrgScope }.
Definition no_filter : channelFilter := {| f_scoped := false; f_scope := OrgScope_zero |}.

Definition ChannelQueryOption : Type := channelFilter -> channelFilter.
Definition WithOrgScope (scope : OrgScope) : ChannelQueryOption := fun _ => {| f_scoped := true; f_scope := scope |}.

(** A nil option is skipped. *)
Definition newChannelFilter (opts : list (option ChannelQueryOption)) : channelFilter :=
  fold_left (fun f opt => match opt with Some o => o f | None => f end) opts no_filter.

Definition splice (f : channelFilter) (query connector : string) (args : list sql_arg) : string * list sql_arg :=
  if negb (f_scoped f) then (query, args)
  else
    let (clause, scopeArgs) := OrgScope_SQL (f_scope f) ChannelOrganizationColumn (length args + 1) in
    (query +:+ connector +:+ clause, args ++ scopeArgs).

(** What the spliced predicate asks of a row, and whether it names the column. *)
Definition in_filter (f : channelFilter) (r : ChannelRow) : bool := negb (f_scoped f) || admits (f_scope f) (ch_org r).
Definition names_column (f : channelFilter) : bool := f_scoped f && negb (all (f_scope f)) && negb (MatchesNothing (f_scope f)).

Record channelWrite := { w_organizationID : string; w_haveOrg : bool }.
Definition ChannelWriteOption : Type := channelWrite -> channelWrite.
Definition WithOwningOrganization (organizationID : string) : ChannelWriteOption :=
  fun _ => {| w_organizationID := TrimSpace organizationID; w_haveOrg := true |}.

Definition newChannelWrite (opts : list (option ChannelWriteOption)) : result channelWrite :=
  let w := fold_left (fun w opt => match opt with Some o => o w | None => w end) opts
             {| w_organizationID := ""; w_haveOrg := false |} in
  if w_haveOrg w && (w_organizationID w =s "") then Err ErrEmptyOwningOrganization else Ok w.

Definition columns (w : channelWrite) : list (string * string) :=
  if w_haveOrg w then [(ChannelOrganizationColumn, w_organizationID w)] else [].

(** ** Decoding *)

Definition marshalEvents (events : list string) : json := JSArr (List.map JSStr events).

(** json.Unmarshal into a [[]string]. *)
Definition decode_events (j : json) : result (list string) :=
  match j with JSArr l => scan_all decode_string l | JSNull => Ok [] | _ => Err cannot_unmarshal end.

Definition scanChannel (r : ChannelRow) : result NotificationChannel :=
  match decode_events (ch_events r) with
  | Err e => Err e
  | Ok events =>
      Ok {| ID := ch_id r; Name := ch_name r; Type_ := ch_type r; EncryptedTarget := ch_target r;
            HasTarget := ch_target r <>s ""; Events := events; Enabled := ch_enabled r; LastStatus := ch_last_status r;
            LastError := ch_last_error r; LastSentAt := ch_last_sent_at r; CreatedAt := ch_created_at r; UpdatedAt := ch_updated_at r |}
  end.

(** [ch.EncryptedTarget = ""] *)
Definition redacted (ch : NotificationChannel) : NotificationChannel :=
  {| ID := ID ch; Name := Name ch; Type_ := Type_ ch; EncryptedTarget := ""; HasTarget := HasTarget ch; Events := Events ch;
     Enabled := Enabled ch; LastStatus := LastStatus ch; LastError := LastError ch; LastSentAt := LastSentAt ch;
     CreatedAt := CreatedAt ch; UpdatedAt := UpdatedAt ch |}.

(** ** Statements *)

(** The index on the name. *)
Definition names_unique (rows : list ChannelRow) : bool := bool_decide (NoDup (List.map ch_name rows)).

Definition insert_channel (row : ChannelRow) (rows : list ChannelRow) : result (ChannelRow * list ChannelRow) :=
  if existsb (fun r => ch_id r =s ch_id row) rows then Err unique_violation
  else if names_unique (rows ++ [row]) then Ok (row, rows ++ [row]) else Err unique_violation.

Definition update_channels (p : ChannelRow -> bool) (g : ChannelRow -> ChannelRow) (rows : list ChannelRow)
    : result (list ChannelRow * list ChannelRow) :=
  let rows' := rows_upd p g rows in
  if names_unique rows' then Ok (List.map g (List.filter p rows), rows') else Err unique_violation.

(** jsonb_array_length(events) = 0 OR events @> to_jsonb(event::text) *)
Definition jsonb_array_length (j : json) : result nat :=
  match j with JSArr l => Ok (length l) | _ => Err (Plain "cannot get array length of a scalar") end.
Definition contains_text (j : json) (event : string) : bool :=
  match j with
  | JSArr l => existsb (fun x => match x with JSStr s => s =s event | _ => false end) l
  | JSStr s => s =s event
  | _ => false
  end.

Definition subscribed (event : string) (r : ChannelRow) : result bool :=
  if ch_enabled r then
    match jsonb_array_length (ch_events r) with
    | Err e => Err e
    | Ok n => Ok ((n =? 0)%nat || contains_text (ch_events r) event)
    end
  else Ok false.

(** One row's error is the statement's. *)
Fixpoint select_subscribed (event : string) (f : channelFilter) (rows : list ChannelRow) : result (list ChannelRow) :=
  match rows with
  | [] => Ok []
  | r :: rows =>
      match subscribed event r with
      | Err e => Err e
      | Ok b =>
          match select_subscribed event f rows with
          | Err e => Err e
          | Ok l => Ok (if b && in_filter f r then r :: l else l)
          end
      end
  end.

Section Repository.
Context {St : Type} `{HasChannels St}.
(** gen_random_uuid(), and the cast of a text to uuid. *)
Context (uuid : nat -> string) (as_uuid : string -> option string).

(** A statement over the table, with the check of the columns it names. *)
Definition on_channels {A} (named : bool) (g : St -> list ChannelRow -> result (A * list ChannelRow)) : M St A :=
  table_stmt channels put_channels (fun s rows =>
    if named && negb (bool_decide (is_Some (channel_org s))) then Err undefined_channel_column else g s rows).

Definition select_channels (f : channelFilter) (q : list ChannelRow -> result (list ChannelRow)) : M St (list ChannelRow) :=
  on_channels (names_column f) (fun _ rows => match q rows with Ok l => Ok (l, rows) | Err e => Err e end).

(** The owner the INSERT names, or the column's default. *)
Definition owner_of (s : St) (w : channelWrite) : result (option string) :=
  match columns w with
  | (_, v) :: _ => match as_uuid v with Some u => Ok (Some u) | None => Err (Plain "invalid input syntax for type uuid") end
  | [] => Ok (match channel_org s with Some d => d | None => None end)
  end.

Definition Create (ch : NotificationChannel) (opts : list (option ChannelWriteOption)) : M St NotificationChannel :=
  let eventsJSON := marshalEvents (Events ch) in
  write ← lift (newChannelWrite opts);
  id ← uuid_New uuid;
  now ← db_NOW;
  row ← on_channels (negb (length (columns write) =? 0)%nat) (fun s rows =>
    match owner_of s write with
    | Err e => Err e
    | Ok org =>
        insert_channel {| ch_id := id; ch_name := Name ch; ch_type := Type_ ch; ch_target := EncryptedTarget ch;
                          ch_events := eventsJSON; ch_enabled := Enabled ch; ch_last_status := None; ch_last_error := None;
                          ch_last_sent_at := None; ch_created_at := now; ch_updated_at := now; ch_org := org |} rows
    end);
  saved ← lift (scanChannel row);
  mret (redacted saved).

Definition List_ (opts : list (option ChannelQueryOption)) : M St (list NotificationChannel) :=
  let f := newChannelFilter opts in
  rows ← select_channels f (fun rows => Ok (sort_by (newest ch_created_at) (List.filter (in_filter f) rows)));
  out ← lift (scan_all scanChannel rows);
  mret (List.map redacted out).

Definition channel_where (id : string) (f : channelFilter) (r : ChannelRow) : bool := (ch_id r =s id) && in_filter f r.

Definition GetByID (id : string) (opts : list (option ChannelQueryOption)) : M St NotificationChannel :=
  let f := newChannelFilter opts in
  rows ← select_channels f (fun rows => Ok (List.filter (channel_where id f) rows));
  match rows with
  | [] => throw channelNotFound
  | row :: _ => lift (scanChannel row)
  end.

Definition with_settings (name typ : string) (events : json) (enabled : bool) (encryptedTarget : string) (now : Z) (r : ChannelRow) : ChannelRow :=
  {| ch_id := ch_id r; ch_name := name; ch_type := typ;
     ch_target := if encryptedTarget <>s "" then encryptedTarget else ch_target r;
     ch_events := events; ch_enabled := enabled; ch_last_status := ch_last_status r; ch_last_error := ch_last_error r;
     ch_last_sent_at := ch_last_sent_at r; ch_created_at := ch_created_at r; ch_updated_at := now; ch_org := ch_org r |}.

Definition Update (id name typ : string) (events : list string) (enabled : bool) (encryptedTarget : string)
    (opts : list (option ChannelQueryOption)) : M St NotificationChannel :=
  let eventsJSON := marshalEvents events in
  let f := newChannelFilter opts in
  now ← db_NOW;
  rows ← on_channels (names_column f) (fun _ rows =>
    update_channels (channel_where id f) (with_settings name typ eventsJSON enabled encryptedTarget now) rows);
  match rows with
  | [] => throw channelNotFound
  | row :: _ => ch ← lift (scanChannel row); mret (redacted ch)
  end.

Definition requireChannelRow (n : nat) : M St unit := if (n =? 0)%nat then throw channelNotFound else mret tt.

Definition Delete (id : string) (opts : list (option ChannelQueryOption)) : M St unit :=
  let f := newChannelFilter opts in
  n ← on_channels (names_column f) (fun _ rows =>
    Ok (rows_count (channel_where id f) rows, rows_del (channel_where id f) rows));
  requireChannelRow n.

Definition ListEnabledForEvent (eventType : string) (opts : list (option ChannelQueryOption)) : M St (list NotificationChannel) :=
  let f := newChannelFilter opts in
  rows ← select_channels f (select_subscribed eventType f);
  lift (scan_all scanChannel rows).

Definition with_delivery (status errMsg : string) (sentAt now : Z) (r : ChannelRow) : ChannelRow :=
  {| ch_id := ch_id r; ch_name := ch_name r; ch_type := ch_type r; ch_target := ch_target r; ch_events := ch_events r;
     ch_enabled := ch_enabled r; ch_last_status := Some status; ch_last_error := if errMsg =s "" then None else Some errMsg;
     ch_last_sent_at := Some sentAt; ch_created_at := ch_created_at r; ch_updated_at := now; ch_org := ch_org r |}.

Definition RecordDelivery (id status errMsg : string) (sentAt : Z) (opts : list (option ChannelQueryOption)) : M St unit :=
  let f := newChannelFilter opts in
  now ← db_NOW;
  n ← on_channels (names_column f) (fun _ rows =>
    match update_channels (channel_where id f) (with_delivery status errMsg sentAt now) rows with
    | Ok (l, rows') => Ok (length l, rows')
    | Err e => Err e
    end);
  requireChannelRow n.
End Repository.

(** ** schema.go *)

Definition ChannelTable : string := "notification_channels".
Definition ErrChannelTable : error := Sentinel "identity/notify: notification_channels".

Record columnRequirement := { cr_types : list string; cr_notNull : bool }.

Definition text_types : list string := ["text"; "character varying"; "character"].
Definition id_types : list string := ["uuid"; "text"; "character varying"; "character"].
Definition instant : list string := ["timestamp with time zone"].

Definition channelColumnRequirements : list (string * columnRequirement) := [
  ("id", {| cr_types := id_types; cr_notNull := true |});
  ("name", {| cr_types := text_types; cr_notNull := true |});
  ("type", {| cr_types := text_types; cr_notNull := true |});
  ("encrypted_target", {| cr_types := text_types; cr_notNull := true |});
  ("events", {| cr_types := ["jsonb"]; cr_notNull := true |});
  ("enabled", {| cr_types := ["boolean"]; cr_notNull := true |});
  ("last_status", {| cr_types := text_types; cr_notNull := false |});
  ("last_error", {| cr_types := text_types; cr_notNull := false |});
  ("last_sent_at", {| cr_types := instant; cr_notNull := false |});
  ("created_at", {| cr_types := instant; cr_notNull := true |});
  ("updated_at", {| cr_types := instant; cr_notNull := true |})].

Definition channelColumns : list string :=
  ["id"; "name"; "type"; "encrypted_target"; "events"; "enabled"; "last_status"; "last_error"; "last_sent_at"; "created_at"; "updated_at"].

Definition sortedRequirementNames : list string := sort_strings (List.map fst channelColumnRequirements).

Definition requirement (name : string) : columnRequirement :=
  match List.find (fun kv => fst kv =s name) channelColumnRequirements with
  | Some kv => snd kv | None => {| cr_types := []; cr_notNull := false |}
  end.

Definition open_paren : Ascii.ascii := Ascii.ascii_of_N 40.

Definition typeSatisfies (dataType : string) (accepted : list string) : bool :=
  let base :=
    match split_byte open_paren (bytes_of dataType) with
    | head :: _ :: _ => TrimSpace (string_of head)
    | _ => dataType
    end in
  existsb (fun want => base =s want) accepted.

(** A row of the catalog query: the namespace, the column, its type, NOT NULL. *)
Record CatalogRow := { cat_schema : string; cat_name : string; cat_type : string; cat_notNull : bool }.

(** The map of the columns read: a later row replaces an earlier one. *)
Definition actual_column (rows : list CatalogRow) (name : string) : option CatalogRow :=
  List.find (fun r => cat_name r =s name) (rev rows).

(** The problems of one required column. *)
Definition column_problems (rows : list CatalogRow) (name : string) : list string :=
  let req := requirement name in
  match actual_column rows name with
  | None => [name +:+ " is missing"]
  | Some got =>
      (if typeSatisfies (cat_type got) (cr_types req) then [] else [name +:+ " has the wrong type"]) ++
      (if cr_notNull req && negb (cat_notNull got) then [name +:+ " is nullable, want NOT NULL"] else [])
  end.

(** The schema of the last row read. *)
Definition schema_of (rows : list CatalogRow) : string := match last rows with Some r => cat_schema r | None => "" end.

Section Verify.
Context {St : Type} (catalog : St -> list CatalogRow).

(** Go's pair: the qualified name accompanies the error of a table of the wrong shape. *)
Definition VerifyChannelTable (have_db : bool) : M St (string * option error) :=
  if negb have_db then throw (Wrap "no database handle supplied" ErrChannelTable)
  else
    mapping_err (Wrap2 "failed to acquire a connection" ErrChannelTable) tick;;
    mapping_err (Wrap2 "failed to read search_path" ErrChannelTable) tick;;
    rows ← mapping_err (Wrap2 "failed to read the table definition" ErrChannelTable) (query catalog);
    let schema := schema_of rows in
    if schema =s "" then throw (Wrap "resolves to nothing on this connection" ErrChannelTable)
    else
      let qualified := schema +:+ "." +:+ ChannelTable in
      let problems := List.flat_map (column_problems rows) sortedRequirementNames in
      mret (qualified, match problems with [] => None | _ => Some (Wrap "does not match the shape this package's statements require" ErrChannelTable) end).

Definition channelOrganizationRequirement : columnRequirement := {| cr_types := id_types; cr_notNull := false |}.

Definition VerifyChannelOrganizationColumn (have_db : bool) : M St unit :=
  if negb have_db then throw (Wrap "no database handle supplied" ErrChannelTable)
  else
    mapping_err (Wrap2 "failed to acquire a connection" ErrChannelTable) tick;;
    rows ← mapping_err (Wrap2 "failed to read the table definition" ErrChannelTable) (query catalog);
    if schema_of rows =s "" then throw (Wrap "resolves to nothing on this connection" ErrChannelTable)
    else match actual_column rows ChannelOrganizationColumn with
    | None => throw (Wrap "has no organization_id column" ErrChannelTable)
    | Some got =>
        if typeSatisfies (cat_type got) (cr_types channelOrganizationRequirement) then mret tt
        else throw (Wrap "organization_id has the wrong type" ErrChannelTable)
    end.
End Verify.

(** ** Lemmas *)

(** A move of the table, where there is one. *)
Definition table_moves {St} `{HasChannels St} (R : list ChannelRow -> list ChannelRow -> Prop) (s s' : St) : Prop :=
  forall rows, channels s = Some rows -> exists rows', channels s' = Some rows' /\ R rows rows'.

#[export] Instance table_moves_preorder {St} `{HasChannels St} R `{!PreOrder R} : PreOrder (table_moves R).
Proof.
  split; [intros s rows E; by exists rows|]. intros a b c H1 H2 rows E.
  destruct (H1 rows E) as (r1 & E1 & K1). destruct (H2 r1 E1) as (r2 & E2 & K2). exists r2. split; [done|by transitivity r1].
Qed.

(** The rows a filter leaves out, as they are. *)
Definition outside_same (f : channelFilter) (rows rows' : list ChannelRow) : Prop :=
  List.filter (fun r => negb (in_filter f r)) rows' = List.filter (fun r => negb (in_filter f r)) rows.

#[export] Instance outside_same_preorder f : PreOrder (outside_same f).
Proof. split; [by intros ?|]. intros a b c. unfold outside_same. congruence. Qed.

(** Every events document is an array of strings. *)
Definition events_wf (rows : list ChannelRow) : Prop :=
  Forall (fun r => exists l, ch_events r = marshalEvents l) rows.
Definition keeps_events (rows rows' : list ChannelRow) : Prop := events_wf rows -> events_wf rows'.

#[export] Instance keeps_events_preorder : PreOrder keeps_events.
Proof. split; [by intros ??|]. intros a b c H1 H2 Hw. by apply H2, H1. Qed.

Lemma rows_upd_outside f p g rows :
  (forall r, p r = true -> in_filter f r = true) -> (forall r, ch_org (g r) = ch_org r) ->
  outside_same f rows (rows_upd p g rows).
Proof.
  intros Hp Hg. unfold outside_same, rows_upd. induction rows as [|r rows IH]; [done|]. cbn [List.map List.filter].
  assert (E : in_filter f (if p r then g r else r) = in_filter f r) by (unfold in_filter; destruct (p r); [by rewrite Hg|done]).
  rewrite E. destruct (negb (in_filter f r)) eqn:En; [|exact IH]. rewrite IH.
  destruct (p r) eqn:Ep; [|done]. by rewrite Hp in En.
Qed.

Lemma rows_del_outside f p rows :
  (forall r, p r = true -> in_filter f r = true) -> outside_same f rows (rows_del p rows).
Proof.
  intros Hp. unfold outside_same, rows_del. induction rows as [|r rows IH]; [done|]. cbn [List.filter].
  destruct (p r) eqn:Ep; cbn [negb List.filter].
  - rewrite Hp by done. exact IH.
  - destruct (negb (in_filter f r)); [by rewrite IH|exact IH].
Qed.

Lemma rows_upd_events p g rows :
  (forall r, (exists l, ch_events r = marshalEvents l) -> exists l, ch_events (g r) = marshalEvents l) ->
  keeps_events rows (rows_upd p g rows).
Proof.
  intros Hg Hw. unfold events_wf, rows_upd in *. apply Forall_map. eapply Forall_impl; [exact Hw|].
  intros r Hr. simpl. destruct (p r); auto.
Qed.

Lemma rows_del_events p rows : keeps_events rows (rows_del p rows).
Proof. intros Hw. unfold events_wf, rows_del in *. rewrite Forall_forall in *. intros r Hr%list_elem_of_In. apply filter_In in Hr as [Hr _]. by apply Hw, list_elem_of_In. Qed.

Lemma channel_where_in id f r : channel_where id f r = true -> in_filter f r = true.
Proof. unfold channel_where. by intros [_ ?]%andb_prop. Qed.

Lemma decode_marshal l : decode_events (marshalEvents l) = Ok l.
Proof. unfold marshalEvents, decode_events. induction l as [|x l IH]; [done|]. simpl in *. by rewrite IH. Qed.

Lemma scanChannel_wf r : (exists l, ch_events r = marshalEvents l) -> exists ch, scanChannel r = Ok ch.
Proof. intros [l E]. unfold scanChannel. rewrite E, decode_marshal. by eexists. Qed.

Lemma contains_text_marshal l event : contains_text (marshalEvents l) event = mem event l.
Proof. unfold contains_text, marshalEvents, mem. induction l as [|x l IH]; [done|]. simpl. by rewrite IH. Qed.

(** What a subscription asks of a well-formed row. *)
Definition listens (event : string) (events : list string) : bool := (length events =? 0)%nat || mem event events.

Lemma subscribed_wf event r l : ch_events r = marshalEvents l -> subscribed event r = Ok (ch_enabled r && listens event l).
Proof.
  intros E. unfold subscribed, listens. rewrite E, contains_text_marshal. destruct (ch_enabled r); [|done].
  simpl. by rewrite length_map.
Qed.

Lemma select_subscribed_wf event f rows :
  events_wf rows -> exists l, select_subscribed event f rows = Ok l /\
    forall r, In r l <-> In r rows /\ in_filter f r = true /\ subscribed event r = Ok true.
Proof.
  induction 1 as [|r rows [l El] _ (sel & Es & IH)]; [by exists []; split; [|intros r; split; [done|intros [[] _]]]|].
  cbn [select_subscribed]. rewrite (subscribed_wf _ _ _ El), Es. eexists. split; [done|]. intros x.
  assert (Hsub := subscribed_wf event r l El).
  destruct ((ch_enabled r && listens event l) && in_filter f r) eqn:Eb; simpl; rewrite IH; split.
  - intros [<-|?]; [|tauto]. apply andb_prop in Eb as [E1 E2]. split; [by left|]. split; [done|]. by rewrite Hsub, E1.
  - intros ([->|?] & ?); [by left|by right].
  - tauto.
  - intros ([<-|?] & Hf & Hs); [|done]. rewrite Hs in Hsub. injection Hsub as Hsub. by rewrite <- Hsub, Hf in Eb.
Qed.

Lemma select_subscribed_in event f rows l :
  select_subscribed event f rows = Ok l ->
  forall r, In r l -> In r rows /\ in_filter f r = true /\ subscribed event r = Ok true.
Proof.
  revert l. induction rows as [|x rows IH]; intros l; cbn [select_subscribed]; [by intros [= <-] r []|].
  destruct (subscribed event x) as [b|] eqn:Eb; [|done]. destruct (select_subscribed event f rows) as [l0|]; [|done].
  intros [= <-] r Hr. destruct (b && in_filter f x) eqn:E.
  - apply andb_prop in E as [-> E]. destruct Hr as [<-|Hr]; [split; [by left|done]|].
    destruct (IH l0 eq_refl r Hr) as (? & ?). split; [by right|done].
  - destruct (IH l0 eq_refl r Hr) as (? & ?). split; [by right|done].
Qed.

Section Facts.
Context {St : Type} `{HasChannels St} (uuid : nat -> string) (as_uuid : string -> option string).

Lemma evolves_on_channels {A} R `{!PreOrder R} named (g : St -> list ChannelRow -> result (A * list ChannelRow)) :
  (forall s rows a rows', g s rows = Ok (a, rows') -> R rows rows') -> evolves (table_moves R) (on_channels named g).
Proof.
  intros Hg. apply evolves_table_stmt; [apply _|]. intros s rows a rows' E Eg r E'. rewrite E in E'. injection E' as <-.
  exists rows'. split; [apply channels_put|]. destruct (_ && _); [done|]. by eapply Hg.
Qed.

Lemma evolves_select_channels R `{!PreOrder R} f q : evolves (table_moves R) (select_channels f q).
Proof. apply evolves_on_channels; [done|]. intros s rows a rows' E. destruct (q rows); [|done]. by injection E as _ <-. Qed.

Lemma select_channels_Ok f q w l w' :
  select_channels f q w = (Ok l, w') -> exists rows, channels (db_seen w) = Some rows /\ q rows = Ok l.
Proof.
  intros E. apply table_stmt_inv in E as (_ & [(rows & rows' & a & Er & Eq & [= <-] & _)|(e & [=] & _)]).
  exists rows. split; [done|]. destruct (_ && _); [done|]. destruct (q rows); [|done]. by injection Eq as ->.
Qed.

Lemma requireChannelRow_evolves R `{!PreOrder R} n : evolves R (requireChannelRow n : M St unit).
Proof. unfold requireChannelRow. evolve. Qed.
End Facts.

#[export] Hint Resolve requireChannelRow_evolves : evolve.

(** The moves of the four writers. *)
Section Writers.
Context {St : Type} `{HasChannels St} (uuid : nat -> string) (as_uuid : string -> option string).

Lemma update_channels_moves R p g rows l rows' :
  (R rows (rows_upd p g rows)) -> update_channels p g rows = Ok (l, rows') -> R rows rows'.
Proof. intros Hr. unfold update_channels. destruct (names_unique _); [|done]. by intros [= _ <-]. Qed.

Lemma Update_moves R `{!PreOrder R} id name typ events enabled target opts :
  (forall now rows, R rows (rows_upd (channel_where id (newChannelFilter opts))
     (with_settings name typ (marshalEvents events) enabled target now) rows)) ->
  evolves (table_moves R) (Update (St := St) id name typ events enabled target opts).
Proof.
  intros Hr. unfold Update. evolve. apply evolves_on_channels; [done|]. intros s rows a' rows'.
  apply update_channels_moves, Hr.
Qed.

Lemma Delete_moves R `{!PreOrder R} id opts :
  (forall rows, R rows (rows_del (channel_where id (newChannelFilter opts)) rows)) ->
  evolves (table_moves R) (Delete (St := St) id opts).
Proof. intros Hr. unfold Delete. evolve. apply evolves_on_channels; [done|]. intros s rows a' rows' [= _ <-]. apply Hr. Qed.

Lemma RecordDelivery_moves R `{!PreOrder R} id status msg at_ opts :
  (forall now rows, R rows (rows_upd (channel_where id (newChannelFilter opts)) (with_delivery status msg at_ now) rows)) ->
  evolves (table_moves R) (RecordDelivery (St := St) id status msg at_ opts).
Proof.
  intros Hr. unfold RecordDelivery. evolve. apply evolves_on_channels; [done|]. intros s rows a' rows' E.
  destruct (update_channels _ _ _) as [[l rs]|] eqn:Eu; [|done]. injection E as _ <-. by eapply update_channels_moves.
Qed.

Lemma Create_moves R `{!PreOrder R} ch opts :
  (forall rows row, ch_events row = marshalEvents (Events ch) -> R rows (rows ++ [row])) ->
  evolves (table_moves R) (Create (St := St) uuid as_uuid ch opts).
Proof.
  intros Hr. unfold Create. evolve. apply evolves_on_channels; [done|]. intros s rows a' rows' E.
  destruct (owner_of _ _ _) as [org|]; [|done]. unfold insert_channel in E. destruct (existsb _ _); [done|].
  destruct (names_unique _); [|done]. injection E as _ <-. by apply Hr.
Qed.
End Writers.

Lemma select_subscribed_nodup event f rows l :
  select_subscribed event f rows = Ok l -> NoDup (List.map ch_id rows) -> NoDup (List.map ch_id l).
Proof.
  intros E. assert (El : exists p, l = List.filter p rows).
  { exists (fun r => match subscribed event r with Ok b => b && in_filter f r | Err _ => false end).
    revert l E. induction rows as [|x rows IH]; intros l; cbn [select_subscribed List.filter]; [by intros [= <-]|].
    destruct (subscribed event x) as [b|]; [|done]. destruct (select_subscribed event f rows) as [l0|]; [|done].
    intros [= <-]. rewrite (IH l0 eq_refl). by destruct (b && in_filter f x). }
  destruct El as [p ->]. apply NoDup_map_filter.
Qed.

Lemma scan_ids rows l : scan_all scanChannel rows = Ok l -> List.map ID l = List.map ch_id rows.
Proof.
  rewrite scan_all_Ok. induction 1 as [|r ch rows l E _ IH]; [done|]. simpl. rewrite IH. f_equal.
  unfold scanChannel in E. destruct (decode_events _); [|done]. by injection E as <-.
Qed.

(** The selection of the channels for an event, with nobody interfering. *)
Lemma ListEnabledForEvent_quiet {St} `{HasChannels St} event opts (w : world St) rows :
  w_sched w = [] -> channels (w_db w) = Some rows -> events_wf rows ->
  (names_column (newChannelFilter opts) = true -> is_Some (channel_org (w_db w))) ->
  exists l, ListEnabledForEvent event opts w = (Ok l, set_db (put_channels rows (w_db w)) w) /\
    (forall ch, In ch l <-> exists row, In row rows /\ in_filter (newChannelFilter opts) row = true /\ scanChannel row = Ok ch /\
       Enabled ch = true /\ listens event (Events ch) = true) /\
    (NoDup (List.map ch_id rows) -> NoDup (List.map ID l)).
Proof.
  intros Hq Hr Hw Hcol. set (f := newChannelFilter opts) in *.
  destruct (select_subscribed_wf event f rows Hw) as (sel & Es & Hsel).
  assert (Hsc : exists l, scan_all scanChannel sel = Ok l).
  { destruct (scan_all scanChannel sel) as [l|e] eqn:E; [by eexists|]. exfalso. revert E. apply scan_all_total.
    intros x (Hx & _)%Hsel. apply scanChannel_wf. unfold events_wf in Hw. rewrite Forall_forall in Hw. by apply Hw, list_elem_of_In. }
  destruct Hsc as [l El]. exists l. unfold ListEnabledForEvent, select_channels, on_channels.
  unfold mbind, M_bind. rewrite (table_stmt_quiet _ _ _ _ _ Hq Hr). fold f.
  assert (Hc : names_column f && negb (bool_decide (is_Some (channel_org (w_db w)))) = false).
  { destruct (names_column f); [|done]. by rewrite bool_decide_true by auto. }
  rewrite Hc, Es. unfold lift. rewrite El. split; [done|]. split;
    [|intros Hu; rewrite (scan_ids _ _ El); by eapply select_subscribed_nodup]. intros ch.
  destruct (scan_all_in _ _ _ El) as [E1 E2].
  assert (Hrow : forall row c, In row rows -> scanChannel row = Ok c -> subscribed event row = Ok (Enabled c && listens event (Events c))).
  { intros row c Hin Hc'. unfold events_wf in Hw. rewrite Forall_forall in Hw.
    destruct (Hw row (proj2 (list_elem_of_In _ _) Hin)) as [ev Eev]. rewrite (subscribed_wf _ _ _ Eev).
    revert Hc'. unfold scanChannel. rewrite Eev, decode_marshal. by intros [= <-]. }
  split.
  + intros Hch. destruct (E1 ch Hch) as (row & (Hin & Hfr & Hsub)%Hsel & Ech). exists row.
    rewrite (Hrow row ch Hin Ech) in Hsub. injection Hsub as Hsub. apply andb_prop in Hsub as [? ?]. done.
  + intros (row & Hin & Hfr & Ech & He & Hl).
    destruct (E2 row) as (ch' & Hch' & Ech'); [|congruence]. apply Hsel. rewrite (Hrow row ch Hin Ech), He, Hl. done.
Qed.

(** ** Properties *)


(** One channel cannot stop the others' notifications. Every write of the package
    keeps every events document an array of strings, whatever the schedule, as long as
    the other sessions do; and over such a table, with nobody interfering, the query
    for an event never fails on its data and answers exactly the enabled channels
    inside the filter that listen to the event or to all. *)
Theorem events_never_block {St} `{HasChannels St} uuid as_uuid (w w' : world St) :
  sched_respects (table_moves keeps_events) w ->
  (forall ch opts r, Create uuid as_uuid ch opts w = (r, w') -> table_moves keeps_events (w_db w) (w_db w')) /\
  (forall id name typ events enabled target opts r, Update id name typ events enabled target opts w = (r, w') ->
     table_moves keeps_events (w_db w) (w_db w')) /\
  (forall id opts r, Delete id opts w = (r, w') -> table_moves keeps_events (w_db w) (w_db w')) /\
  (forall id status msg at_ opts r, RecordDelivery id status msg at_ opts w = (r, w') -> table_moves keeps_events (w_db w) (w_db w')) /\
  (forall rows event opts, w_sched w = [] -> channels (w_db w) = Some rows -> events_wf rows ->
     (names_column (newChannelFilter opts) = true -> is_Some (channel_org (w_db w))) ->
     exists l w1, ListEnabledForEvent event opts w = (Ok l, w1) /\
       (forall ch, In ch l <-> exists row, In row rows /\ in_filter (newChannelFilter opts) row = true /\ scanChannel row = Ok ch /\
          Enabled ch = true /\ listens event (Events ch) = true)).
Proof.
  intros Hs. split_and!.
  - intros ch opts r E. eapply (Create_moves uuid as_uuid keeps_events); [|exact E|exact Hs].
    intros rows row Hr Hw. apply Forall_app. split; [done|]. constructor; [by eexists|constructor].
  - intros id name typ events enabled target opts r E. eapply (Update_moves keeps_events); [|exact E|exact Hs].
    intros now rows. apply rows_upd_events. intros r0 _. by eexists.
  - intros id opts r E. eapply (Delete_moves keeps_events); [|exact E|exact Hs]. intros rows. apply rows_del_events.
  - intros id status msg at_ opts r E. eapply (RecordDelivery_moves keeps_events); [|exact E|exact Hs].
    intros now rows. by apply rows_upd_events.
  - intros rows event opts Hq Hr Hw Hcol. destruct (ListEnabledForEvent_quiet event opts w rows Hq Hr Hw Hcol) as (l & E & Hl & _). eauto.
Qed.

(** What the admin-facing operations return never carries the sealed target, only
    whether there is one. *)
Theorem target_redacted {St} `{HasChannels St} uuid as_uuid (w w' : world St) :
  (forall ch opts c, Create uuid as_uuid ch opts w = (Ok c, w') -> EncryptedTarget c = "" /\ HasTarget c = (EncryptedTarget ch <>s "")) /\
  (forall opts l, List_ opts w = (Ok l, w') -> Forall (fun c => EncryptedTarget c = "") l) /\
  (forall id name typ events enabled target opts c, Update id name typ events enabled target opts w = (Ok c, w') -> EncryptedTarget c = "").
Proof.
  split_and!.
  - intros ch opts c E. unfold Create in E. apply bind_Ok in E as (wr & w1 & _ & E). apply bind_Ok in E as (id & w2 & _ & E).
    apply bind_Ok in E as (now & w3 & _ & E). apply bind_Ok in E as (row & w4 & E4 & E).
    apply bind_Ok in E as (saved & w5 & [E5 _]%lift_Ok & [= <- _]). split; [done|].
    apply table_stmt_inv in E4 as (_ & [(rows & rows' & a & _ & Eq & [= <-] & _)|(e & [=] & _)]).
    destruct (_ && _); [done|]. destruct (owner_of _ _ _); [|done]. unfold insert_channel in Eq.
    destruct (existsb _ _); [done|]. destruct (names_unique _); [|done]. injection Eq as <- _.
    unfold scanChannel in E5. destruct (decode_events _); [|done]. by injection E5 as <-.
  - intros opts l E. apply bind_Ok in E as (rows & w1 & _ & E). apply bind_Ok in E as (out & w2 & _ & [= <- _]).
    by rewrite Forall_map, Forall_forall.
  - intros id name typ events enabled target opts c E. unfold Update in E. apply bind_Ok in E as (now & w1 & _ & E).
    apply bind_Ok in E as (rows & w2 & _ & E). destruct rows; [done|].
    by apply bind_Ok in E as (ch & w3 & _ & [= <- _]).
Qed.

(** The start-up check accepts exactly the tables the statements can use: with a
    connection and nobody interfering, [VerifyChannelTable] reports no problem when and
    only when the relation resolves and every column of the package's projection is
    there, of an accepted type, and not nullable where a Go value has no NULL; and
    that projection is what the requirements list. *)
Theorem VerifyChannelTable_exact {St} (catalog : St -> list CatalogRow) (w : world St) :
  w_sched w = [] ->
  ((exists q w', VerifyChannelTable catalog true w = (Ok (q, None), w')) <->
     schema_of (catalog (w_db w)) <> "" /\
     Forall (fun name => exists got, actual_column (catalog (w_db w)) name = Some got /\
       typeSatisfies (cat_type got) (cr_types (requirement name)) = true /\
       (cr_notNull (requirement name) = true -> cat_notNull got = true)) channelColumns) /\
  (forall q e w', VerifyChannelTable catalog true w = (Ok (q, Some e), w') -> errors_Is e "identity/notify: notification_channels" = true).
Proof.
  intros Hq. set (rows := catalog (w_db w)).
  assert (Ev : VerifyChannelTable catalog true w =
    (if schema_of rows =s "" then (Err (Wrap "resolves to nothing on this connection" ErrChannelTable), w)
     else (Ok (schema_of rows +:+ "." +:+ ChannelTable,
              match List.flat_map (column_problems rows) sortedRequirementNames with
              | [] => None
              | _ => Some (Wrap "does not match the shape this package's statements require" ErrChannelTable) end), w))).
  { unfold VerifyChannelTable. cbn [negb]. rewrite (bind_step _ _ w tt w) by (unfold mapping_err, tick; by rewrite Hq).
    rewrite (bind_step _ _ w tt w) by (unfold mapping_err, tick; by rewrite Hq).
    rewrite (bind_step _ _ w rows w) by (unfold mapping_err, query; rewrite stmt_quiet by done; by destruct w).
    by destruct (schema_of rows =s ""). }
  rewrite Ev. destruct (String.eqb_spec (schema_of rows) "") as [Hn|Hn].
  { split; [split; [intros (? & ? & [=])|by intros [[] _]]|]. intros ? ? ? [=]. }
  assert (Hp : Forall (fun name => column_problems rows name = []) channelColumns <->
    List.flat_map (column_problems rows) sortedRequirementNames = []).
  { assert (Hperm : sortedRequirementNames ≡ₚ channelColumns) by apply sort_by_perm.
    rewrite flat_map_empty. split; intros Hall.
    - intros x Hx. rewrite Forall_forall in Hall. apply Hall, list_elem_of_In. by rewrite <- Hperm.
    - rewrite Forall_forall. intros x Hx%list_elem_of_In. apply Hall. by rewrite Hperm. }
  assert (Hc : forall name, column_problems rows name = [] <-> exists got, actual_column rows name = Some got /\
       typeSatisfies (cat_type got) (cr_types (requirement name)) = true /\
       (cr_notNull (requirement name) = true -> cat_notNull got = true)).
  { intros name. unfold column_problems. destruct (actual_column rows name) as [got|]; [|split; [done|by intros (? & [=] & _)]].
    destruct (typeSatisfies _ _) eqn:Et; simpl; [|split; [done|by intros (? & [= <-] & ? & _); congruence]].
    destruct (cr_notNull (requirement name)) eqn:Er, (cat_notNull got) eqn:Eg; simpl; split; try done;
      try (intros _; exists got; by rewrite Eg). intros (? & [= <-] & _ & Hg). rewrite Eg in Hg. by specialize (Hg eq_refl). }
  assert (Hp' : Forall (fun name => exists got, actual_column rows name = Some got /\
       typeSatisfies (cat_type got) (cr_types (requirement name)) = true /\
       (cr_notNull (requirement name) = true -> cat_notNull got = true)) channelColumns <->
    List.flat_map (column_problems rows) sortedRequirementNames = []).
  { rewrite <- Hp. split; intros Hall; (eapply Forall_impl; [exact Hall|]); intros x Hx; by apply Hc. }
  rewrite Hp'. destruct (List.flat_map _ _); split.
  - split; [done|]. intros _. by eexists _, _.
  - intros ? ? ? [=].
  - split; [by intros (? & ? & [=])|by intros [_ [=]]].
  - by intros ? ? ? [= _ <- _].
Qed.
End Channel.

(** ** Witnesses *)

Module Example_channels.
Import Channel.

#[export] Instance ex_channels : HasChannels (option (list ChannelRow) * option (option string)).
Proof. refine {| channels := fst; put_channels := fun l s => (Some l, snd s); channel_org := snd |}; done. Defined.

Definition row (id name : string) (events : list string) (org : option string) : ChannelRow :=
  {| ch_id := id; ch_name := name; ch_type := "slack"; ch_target := "sealed-" +:+ id; ch_events := marshalEvents events; ch_enabled := true;
     ch_last_status := None; ch_last_error := None; ch_last_sent_at := None; ch_created_at := 0; ch_updated_at := 0; ch_org := org |}.

Definition ex_rows : list ChannelRow := [row "1" "ops" [] (Some "orgA"); row "2" "alerts" ["scan"] (Some "orgB"); row "3" "old" ["scan"] None].
Definition ex_scope : list (option ChannelQueryOption) := [None; Some (WithOrgScope (OrgScopeOrganizations ["orgA"]))].
Definition ex_table : world (option (list ChannelRow) * option (option string)) := quiet (Some ex_rows, Some None) 7 7 0.
Definition ex_delete := Delete "2" ex_scope ex_table.


Definition ex_listen := ListEnabledForEvent "scan" [] ex_table.

Lemma events_never_block_witness :
  exists l w1, ListEnabledForEvent "scan" [] ex_table = (Ok l, w1) /\ List.map ID l = ["1"; "2"; "3"] /\
    (forall ch, In ch l -> listens "scan" (Events ch) = true).
Proof.
  destruct (events_never_block (fun _ => "") (fun s => Some s) ex_table ex_table (Forall_nil_2 _)) as (_ & _ & _ & _ & H).
  destruct (H ex_rows "scan" [] eq_refl eq_refl) as (l & w1 & E & Hl).
  - repeat (constructor; [by eexists|]). constructor.
  - by intros [=].
  - exists l, w1. split; [exact E|]. split.
    + assert (Hx : fst ex_listen = Ok l) by (unfold ex_listen; by rewrite E). vm_compute in Hx. injection Hx as <-. reflexivity.
    + intros ch Hch. apply Hl in Hch as (r & _ & _ & _ & _ & Hs). exact Hs.
Defined.

(** terraform-registry's shape, with one type spelled with a modifier. *)
Definition ex_catalog (ok : bool) : list CatalogRow :=
  [{| cat_schema := "public"; cat_name := "id"; cat_type := "uuid"; cat_notNull := true |};
   {| cat_schema := "public"; cat_name := "name"; cat_type := "character varying(255)"; cat_notNull := true |};
   {| cat_schema := "public"; cat_name := "type"; cat_type := "text"; cat_notNull := true |};
   {| cat_schema := "public"; cat_name := "encrypted_target"; cat_type := "text"; cat_notNull := true |};
   {| cat_schema := "public"; cat_name := "events"; cat_type := if ok then "jsonb" else "text[]"; cat_notNull := true |};
   {| cat_schema := "public"; cat_name := "enabled"; cat_type := "boolean"; cat_notNull := true |};
   {| cat_schema := "public"; cat_name := "last_status"; cat_type := "text"; cat_notNull := false |};
   {| cat_schema := "public"; cat_name := "last_error"; cat_type := "text"; cat_notNull := false |};
   {| cat_schema := "public"; cat_name := "last_sent_at"; cat_type := "timestamp with time zone"; cat_notNull := false |};
   {| cat_schema := "public"; cat_name := "created_at"; cat_type := "timestamp with time zone"; cat_notNull := true |};
   {| cat_schema := "public"; cat_name := "updated_at"; cat_type := "timestamp with time zone"; cat_notNull := true |}].

Lemma VerifyChannelTable_exact_witness : exists q w', VerifyChannelTable ex_catalog true (quiet true 0 0 0) = (Ok (q, None), w').
Proof.
  apply (VerifyChannelTable_exact ex_catalog (quiet true 0 0 0) eq_refl). split; [vm_compute; discriminate|].
  repeat (constructor; [eexists; split; [vm_compute; reflexivity|]; split; [vm_compute; reflexivity|]; vm_compute; done|]). constructor.
Defined.

Example wrong_events_type : exists q e w', VerifyChannelTable ex_catalog true (quiet false 0 0 0) = (Ok (q, Some e), w').
Proof. eexists _, _, _. vm_compute. reflexivity. Qed.
End Example_channels.
