(* ===== verification/Notifier.v ===== *)
(** * Notifier: identity/notify/notifier.go

    Fanning an event out to the channels that listen to it: the dedup claim, the
    selection, each channel's target opened from its own row, the delivery by webhook
    or mail and the record of its outcome. Built over Channels, NotifyDedup and
    TokenCipher.

    The guarded HTTP client and the SMTP client are operations of the world
    ([Class Transport]); net/http's request constructor, net/mail's address parser and
    json.Marshal are parameters. A nil [*Notifier] is [None]. *)

From S2P Require Import Prelude GoStrings Base64 Json OrgScope Db DbRel Channels NotifyDedup TokenCipher.
From Stdlib Require Import Ascii.
Import Channel.

Module Notify.

(** ** Data *)

Record Event := { Type_ : string; Title : string; Message : string; DedupKey : string; DedupTTL : Z }.
Record Options := { Source : string; TestMessage : string }.
Record SMTPConfig := { Host : string; From : string }.

Definition defaultDedupTTL : Z := dedup_hour.

(** [n_repo]: a channel repository was supplied; [n_smtp] is the provider's answer. *)
Record Notifier := {
  n_repo : bool; n_smtp : SMTPConfig; n_cipher : option TokenCipher; n_opts : Options; n_dedup : option NotifyDedupRepository
}.

Definition NewNotifier (repo : bool) (smtp : option SMTPConfig) (cipher : option TokenCipher) (opts : Options) : Notifier :=
  {| n_repo := repo;
     n_smtp := match smtp with Some c => c | None => {| Host := ""; From := "" |} end;
     n_cipher := cipher; n_opts := opts;
     n_dedup := if repo then Some NewNotifyDedupRepository else None |}.

(** [TargetContext(channelID)]: the storage slot a sealed target is bound to. *)
Definition TargetContext (channelID : string) : bytes :=
  bytes_of ("identity/notify:notification_channel:" +:+ channelID +:+ ":encrypted_target").

(** ** The message *)

Definition CR : ascii := ascii_of_N 13.
Definition LF : ascii := ascii_of_N 10.
Definition CRLF : bytes := [CR; LF].

Definition sanitizeHeader (s : bytes) : bytes := List.filter (fun a => negb ((a =? CR)%char || (a =? LF)%char)) s.

Fixpoint join_with (sep : bytes) (parts : list bytes) : bytes :=
  match parts with
  | [] => []
  | [p] => p
  | p :: rest => p ++ sep ++ join_with sep rest
  end.

Definition BuildMessage (from : bytes) (to : list bytes) (subject body : bytes) : bytes :=
  let recipients := List.map sanitizeHeader to in
  let headers :=
    bytes_of "From: " ++ sanitizeHeader from ++ CRLF ++
    bytes_of "To: " ++ join_with (bytes_of ", ") recipients ++ CRLF ++
    bytes_of "Subject: " ++ sanitizeHeader subject ++ CRLF ++
    bytes_of "Content-Type: text/plain; charset=utf-8" ++ CRLF ++ CRLF in
  headers ++ body ++ CRLF.

(** ** Transport *)

Class Transport (St : Type) := {
  (** [n.client.Do] of a POST: the status code. *)
  client_Do : string -> string -> M St Z;
  mailer_Send : SMTPConfig -> list string -> bytes -> M St unit
}.

(** [url.Error]: its text holds the URL. *)
Definition url_Error (op url : string) (cause : error) : error := Wrap (op +:+ " " +:+ url) cause.

Definition redactURLError (err : error) : error := match err with Wrap _ cause => cause | _ => err end.

(** [err.Error()]. *)
Fixpoint error_text (e : error) : string :=
  match e with
  | Sentinel s | Plain s => s
  | Wrap m c => m +:+ ": " +:+ error_text c
  | Wrap2 m c1 c2 => m +:+ ": " +:+ error_text c1 +:+ ": " +:+ error_text c2
  end.

Section Operations.
Context {St : Type} `{HasChannels St, HasDedup St, Transport St, AEAD}.
Context (json_Marshal : json -> result string) (NewRequest : string -> result unit) (ParseAddress : string -> bool).

(** The loop of [ParseRecipients]. *)
Fixpoint recipients_loop (parts : list string) : result (list string) :=
  match parts with
  | [] => Ok []
  | p :: parts =>
      let addr := TrimSpace p in
      if addr =s "" then recipients_loop parts
      else if ParseAddress addr then match recipients_loop parts with Ok out => Ok (addr :: out) | Err e => Err e end
      else Err (Plain "invalid email address")
  end.

Definition ParseRecipients (list_ : string) : result (list string) :=
  match recipients_loop (Split list_ ","%char) with
  | Err e => Err e
  | Ok [] => Err (Plain "at least one recipient email is required")
  | Ok out => Ok out
  end.

Definition teamsPayload (title message : string) : json :=
  JSObj [("type", JSStr "message");
         ("attachments", JSArr [JSObj [
            ("contentType", JSStr "application/vnd.microsoft.card.adaptive");
            ("content", JSObj [
               ("$schema", JSStr "http://adaptivecards.io/schemas/adaptive-card.json");
               ("type", JSStr "AdaptiveCard");
               ("version", JSStr "1.4");
               ("body", JSArr [
                  JSObj [("type", JSStr "TextBlock"); ("text", JSStr title); ("weight", JSStr "Bolder"); ("size", JSStr "Medium"); ("wrap", JSBool true)];
                  JSObj [("type", JSStr "TextBlock"); ("text", JSStr message); ("wrap", JSBool true)]])])]])].

Definition newline : string := String LF EmptyString.

Definition payload (n : Notifier) (channelType title message : string) : json :=
  if channelType =s "slack" then JSObj [("text", JSStr (title +:+ newline +:+ message))]
  else if channelType =s "teams" then teamsPayload title message
  else JSObj [("title", JSStr title); ("message", JSStr message); ("source", JSStr (Source (n_opts n)))].

Definition send (n : Notifier) (channelType url title message : string) : M St unit :=
  body ← wrapping "marshal payload" (lift (json_Marshal (payload n channelType title message)));
  wrapping "build request" (lift (NewRequest url));;
  status ← mapping_err (fun err => Wrap "send" (redactURLError err)) (client_Do url body);
  if (status <? 200)%Z || (300 <=? status)%Z then throw (Plain "destination returned status") else mret tt.

Definition sendEmail (n : Notifier) (recipients subject body : string) : M St unit :=
  to ← lift (ParseRecipients recipients);
  let cfg := n_smtp n in
  if Host cfg =s "" then throw (Plain "smtp relay is not configured")
  else
    let msg := BuildMessage (bytes_of (From cfg)) (List.map bytes_of to) (bytes_of subject) (bytes_of body) in
    mailer_Send cfg to msg.

Definition decryptTarget (n : Notifier) (ch : NotificationChannel) : result string :=
  if EncryptedTarget ch =s "" then Err (Plain "channel has no target configured")
  else match n_cipher n with
  | None => Err (Plain "notifications: encryption key not configured")
  | Some tc =>
      match Cipher.OpenWithContextOrLegacy tc (bytes_of (EncryptedTarget ch)) (TargetContext (ID ch)) with
      | Err err => Err (Wrap "decrypt channel target" err)
      | Ok (pt, _) => Ok (string_of pt)
      end
  end.

(** A failed record is logged. *)
Definition record (n : Notifier) (channelID : string) (sendErr : option error) (opts : list (option ChannelQueryOption)) : M St unit :=
  if negb (n_repo n) then mret tt
  else
    let '(status, msg) := match sendErr with Some e => ("failed", error_text e) | None => ("sent", "") end in
    now ← time_Now;
    try (RecordDelivery channelID status msg now opts);;
    mret tt.

(** Go's error is the answer. *)
Definition deliver (n : Notifier) (ch : NotificationChannel) (title message : string) (opts : list (option ChannelQueryOption))
    : M St (option error) :=
  match decryptTarget n ch with
  | Err err => record n (ID ch) (Some err) opts;; mret (Some err)
  | Ok target =>
      sent ← try (if Channel.Type_ ch =s "email" then sendEmail n target title message else send n (Channel.Type_ ch) target title message);
      match sent with
      | Err sendErr => record n (ID ch) (Some sendErr) opts;; mret (Some sendErr)
      | Ok _ => record n (ID ch) None opts;; mret None
      end
  end.

Definition claimDedup (n : Notifier) (ev : Event) : M St bool :=
  if DedupKey ev =s "" then mret true
  else match n_dedup n with
  | None => mret true
  | Some repo =>
      let ttl := if (DedupTTL ev <=? 0)%Z then defaultDedupTTL else DedupTTL ev in
      won ← try (Dedup.ClaimDedup repo (DedupKey ev) ttl);
      match won with Err _ => mret true | Ok won => mret won end
  end.

(** The loop over the selected channels. *)
Fixpoint deliver_all (n : Notifier) (channels : list NotificationChannel) (title message : string)
    (opts : list (option ChannelQueryOption)) : M St unit :=
  match channels with
  | [] => mret tt
  | ch :: channels => deliver n ch title message opts;; deliver_all n channels title message opts
  end.

Definition Notify (n : option Notifier) (ev : Event) (opts : list (option ChannelQueryOption)) : M St unit :=
  match n with
  | None => mret tt
  | Some n =>
      if negb (n_repo n) then mret tt
      else
        won ← claimDedup n ev;
        if negb won then mret tt
        else
          channels ← try (ListEnabledForEvent (Type_ ev) opts);
          match channels with
          | Err _ => mret tt
          | Ok channels => deliver_all n channels (Title ev) (Message ev) opts
          end
  end.

Definition SendTest (n : option Notifier) (channelID : string) (opts : list (option ChannelQueryOption)) : M St (option error) :=
  match n with
  | Some n' =>
      if negb (n_repo n') then mret (Some (Plain "notifications are not available"))
      else
        ch ← try (GetByID channelID opts);
        match ch with
        | Err err => mret (Some err)
        | Ok ch => deliver n' ch "Test notification" (TestMessage (n_opts n')) opts
        end
  | None => mret (Some (Plain "notifications are not available"))
  end.

Definition SendTestEmail (n : option Notifier) (recipients : list string) (subject body : string) : M St unit :=
  match n with
  | None => throw (Plain "notifications are not available")
  | Some n => sendEmail n (Join recipients ","%char) subject body
  end.
End Operations.

(** ** What a reader of the message sees *)

(** The first line and what follows its CRLF. *)
Fixpoint cut_line (l : bytes) : option (bytes * bytes) :=
  match l with
  | [] => None
  | a :: l' =>
      match l' with
      | b :: rest => if (a =? CR)%char && (b =? LF)%char then Some ([], rest)
                     else match cut_line l' with Some (line, rest) => Some (a :: line, rest) | None => None end
      | [] => None
      end
  end.

(** The header lines up to the empty one, and the body; one line per unit of fuel. *)
Fixpoint read_headers (fuel : nat) (l : bytes) : option (list bytes * bytes) :=
  match fuel with
  | O => None
  | S fuel =>
      match cut_line l with
      | None => None
      | Some ([], body) => Some ([], body)
      | Some (line, rest) => match read_headers fuel rest with Some (ls, body) => Some (line :: ls, body) | None => None end
      end
  end.

Definition one_line (l : bytes) : Prop := Forall (fun a => (a =? CR)%char = false) l.

Lemma cut_line_app line rest : one_line line -> cut_line (line ++ CR :: LF :: rest) = Some (line, rest).
Proof.
  induction 1 as [|a line Ha _ IH]; [done|]. cbn [app cut_line]. rewrite IH.
  destruct (line ++ CR :: LF :: rest) as [|b l] eqn:E; [by destruct line|]. by rewrite Ha.
Qed.

Lemma read_headers_line fuel line rest : line <> [] -> one_line line ->
  read_headers (S fuel) (line ++ CR :: LF :: rest) =
    match read_headers fuel rest with Some (ls, body) => Some (line :: ls, body) | None => None end.
Proof. intros Hne Hl. cbn [read_headers]. rewrite cut_line_app by done. by destruct line. Qed.

Lemma sanitize_one_line l : one_line (sanitizeHeader l).
Proof.
  unfold one_line, sanitizeHeader. rewrite Forall_forall. intros a Ha%list_elem_of_In. apply filter_In in Ha as [_ Ha].
  by destruct (a =? CR)%char.
Qed.

Lemma join_one_line sep parts : one_line sep -> Forall one_line parts -> one_line (join_with sep parts).
Proof.
  intros Hs. induction 1 as [|p parts Hp Hps IH]; [constructor|]. cbn [join_with]. destruct parts as [|q parts]; [done|].
  apply Forall_app. split; [done|]. by apply Forall_app.
Qed.

Lemma one_line_app l l' : one_line l -> one_line l' -> one_line (l ++ l').
Proof. intros. by apply Forall_app. Qed.

Lemma one_line_of s : forallb (fun a => negb (a =? CR)%char) (bytes_of s) = true -> one_line (bytes_of s).
Proof. intros Hf. unfold one_line. rewrite Forall_forall. intros a Ha%list_elem_of_In. rewrite forallb_forall in Hf. apply Hf in Ha. by apply negb_true_iff. Qed.

(** No header can be injected into a mail. Whatever the sender, the recipients and
    the subject contain, a reader that cuts the message at CRLFs up to the first empty
    line finds exactly the four headers the package writes, each on one line, and then
    the body, untouched. *)
Theorem BuildMessage_headers from to subject body :
  read_headers 5 (BuildMessage from to subject body) =
    Some ([bytes_of "From: " ++ sanitizeHeader from;
           bytes_of "To: " ++ join_with (bytes_of ", ") (List.map sanitizeHeader to);
           bytes_of "Subject: " ++ sanitizeHeader subject;
           bytes_of "Content-Type: text/plain; charset=utf-8"], body ++ CRLF).
Proof.
  unfold BuildMessage, CRLF. rewrite <- !app_assoc. cbn [app]. change [CR; LF] with (CR :: LF :: []).
  assert (Hto : one_line (join_with (bytes_of ", ") (List.map sanitizeHeader to))).
  { apply join_one_line; [by apply one_line_of|]. apply Forall_map, Forall_forall. intros x _. apply sanitize_one_line. }
  rewrite (app_assoc (bytes_of "From: ")), (app_assoc (bytes_of "To: ")), (app_assoc (bytes_of "Subject: ")).
  assert (Hne : forall p l, p <> [] -> p ++ l <> [] :> bytes) by (by intros [|? ?]).
  rewrite read_headers_line by (first [by apply Hne|apply one_line_app; [by apply one_line_of|by try apply sanitize_one_line]]).
  rewrite read_headers_line by (first [by apply Hne|apply one_line_app; [by apply one_line_of|by try apply sanitize_one_line]]).
  rewrite read_headers_line by (first [by apply Hne|apply one_line_app; [by apply one_line_of|by try apply sanitize_one_line]]).
  rewrite read_headers_line by (first [done|by apply one_line_of]). done.
Qed.

(** ** The transport's effect *)

Inductive transmission :=
| Post (url body : string)
| Mail (cfg : SMTPConfig) (to : list string) (msg : bytes).

(** What went out, whatever came back; a transmission touches nothing of the table. *)
Class TransportLaws (St : Type) `{!HasChannels St, !Transport St} := {
  wire : St -> list transmission;
  do_quiet : forall u b (w : world St), w_sched w = [] -> exists r s, client_Do u b w = (r, set_db s w) /\
    wire s = wire (w_db w) ++ [Post u b] /\ channels s = channels (w_db w) /\ channel_org s = channel_org (w_db w);
  mail_quiet : forall cfg to msg (w : world St), w_sched w = [] -> exists r s, mailer_Send cfg to msg w = (r, set_db s w) /\
    wire s = wire (w_db w) ++ [Mail cfg to msg] /\ channels s = channels (w_db w) /\ channel_org s = channel_org (w_db w);
  wire_put : forall l (s : St), wire (put_channels l s) = wire s
}.

Section Deliveries.
Context {St : Type} `{!HasChannels St, !HasDedup St, !Transport St, !TransportLaws St, !AEAD}.
Context (json_Marshal : json -> result string) (NewRequest : string -> result unit) (ParseAddress : string -> bool).
Notation deliver := (deliver json_Marshal NewRequest ParseAddress).
Notation Notify := (Notify json_Marshal NewRequest ParseAddress).

(** What a channel is sent, when it gets that far. *)
Definition attempt (n : Notifier) (title message : string) (ch : NotificationChannel) : option transmission :=
  match decryptTarget n ch with
  | Err _ => None
  | Ok target =>
      if Channel.Type_ ch =s "email" then
        match ParseRecipients ParseAddress target with
        | Err _ => None
        | Ok to =>
            if Host (n_smtp n) =s "" then None
            else Some (Mail (n_smtp n) to (BuildMessage (bytes_of (From (n_smtp n))) (List.map bytes_of to) (bytes_of title) (bytes_of message)))
        end
      else
        match json_Marshal (payload n (Channel.Type_ ch) title message), NewRequest target with
        | Ok body, Ok _ => Some (Post target body)
        | _, _ => None
        end
  end.

(** A channel's outcome as its row records it. *)
Definition recorded (f : channelFilter) (at_ now : Z) (rows : list ChannelRow) (out : NotificationChannel * option error) : list ChannelRow :=
  rows_upd (channel_where (ID (fst out)) f)
    (with_delivery (match snd out with Some _ => "failed" | None => "sent" end)
       (match snd out with Some e => error_text e | None => "" end) at_ now) rows.

Definition usable (f : channelFilter) (rows : list ChannelRow) (s : St) : Prop :=
  channels s = Some rows /\ names_unique rows = true /\ (names_column f = true -> is_Some (channel_org s)).

Lemma names_recorded f at_ now rows out : names_unique (recorded f at_ now rows out) = names_unique rows.
Proof. unfold names_unique, recorded. by rewrite map_rows_upd. Qed.

Lemma RecordDelivery_quiet id status msg at_ opts (w : world St) rows :
  w_sched w = [] -> usable (newChannelFilter opts) rows (w_db w) ->
  exists r, RecordDelivery id status msg at_ opts w =
    (r, set_db (put_channels (rows_upd (channel_where id (newChannelFilter opts)) (with_delivery status msg at_ (w_dbnow w)) rows) (w_db w)) w).
Proof.
  intros Hq (Hc & Hu & Ho). unfold RecordDelivery. rewrite (bind_step db_NOW _ w (w_dbnow w) w eq_refl).
  unfold on_channels, mbind, M_bind. rewrite (table_stmt_quiet _ _ _ _ _ Hq Hc).
  assert (Hn : names_column (newChannelFilter opts) && negb (bool_decide (is_Some (channel_org (w_db w)))) = false).
  { destruct (names_column _); [|done]. by rewrite bool_decide_true by auto. }
  rewrite Hn. unfold update_channels, names_unique. rewrite map_rows_upd by done. unfold names_unique in Hu. rewrite Hu.
  unfold requireChannelRow. destruct (_ =? 0)%nat; by eexists.
Qed.

Lemma record_quiet n id out opts (w : world St) rows :
  n_repo n = true -> w_sched w = [] -> usable (newChannelFilter opts) rows (w_db w) ->
  record n id out opts w =
    (Ok tt, set_db (put_channels (rows_upd (channel_where id (newChannelFilter opts))
       (with_delivery (match out with Some _ => "failed" | None => "sent" end) (match out with Some e => error_text e | None => "" end)
          (w_now w) (w_dbnow w)) rows) (w_db w)) w).
Proof.
  intros Hr Hq Hu. unfold record. rewrite Hr. cbn [negb].
  destruct out as [e|]; rewrite (bind_step time_Now _ w (w_now w) w eq_refl);
    match goal with |- context [RecordDelivery ?i ?a ?b ?c ?d] => destruct (RecordDelivery_quiet i a b c d w rows Hq Hu) as [r E] end;
    unfold mbind, M_bind, try; by rewrite E.
Qed.

Lemma usable_send f rows (s s' : St) : usable f rows s -> channels s' = channels s -> channel_org s' = channel_org s -> usable f rows s'.
Proof. intros (Hc & Hu & Ho) E1 E2. unfold usable. rewrite E1, E2. done. Qed.

(** The transmission itself: what goes out, and the error if any. *)
Lemma transmit_quiet n ch target title message (w : world St) f rows :
  decryptTarget n ch = Ok target -> w_sched w = [] -> usable f rows (w_db w) ->
  exists res s, (if Channel.Type_ ch =s "email" then sendEmail ParseAddress n target title message
     else send json_Marshal NewRequest n (Channel.Type_ ch) target title message) w = (res, set_db s w) /\
    wire s = wire (w_db w) ++ option_list (attempt n title message ch) /\ usable f rows s /\
    (attempt n title message ch = None -> exists e, res = Err e).
Proof.
  intros Ht Hq Hu. unfold attempt. rewrite Ht. destruct (Channel.Type_ ch =s "email").
  - unfold sendEmail, mbind, M_bind, lift. destruct (ParseRecipients ParseAddress target) as [to|e].
    + destruct (Host (n_smtp n) =s "").
      * exists (Err (Plain "smtp relay is not configured")), (w_db w). unfold throw. rewrite app_nil_r. destruct w. split_and!; eauto.
      * destruct (mail_quiet (n_smtp n) to (BuildMessage (bytes_of (From (n_smtp n))) (List.map bytes_of to) (bytes_of title) (bytes_of message)) w Hq)
          as (r & s & E & Hw & Hc & Ho).
        exists r, s. rewrite E. split_and!; [done|done|by eapply usable_send|done].
    + exists (Err e), (w_db w). rewrite app_nil_r. destruct w. split_and!; eauto.
  - unfold send, mbind, M_bind, wrapping, mapping_err, lift. destruct (json_Marshal _) as [body|e].
    2: { eexists (Err _), (w_db w). rewrite app_nil_r. destruct w. split_and!; eauto. }
    destruct (NewRequest target) as [[]|e].
    2: { eexists (Err _), (w_db w). rewrite app_nil_r. destruct w. split_and!; eauto. }
    destruct (do_quiet target body w Hq) as (r & s & E & Hw & Hc & Ho). rewrite E.
    assert (Hu' : usable f rows s) by (by eapply usable_send).
    destruct r as [status|e]; [destruct (_ || _)|]; eexists _, s; (split; [reflexivity|]); by split_and!.
Qed.

Lemma deliver_quiet n ch title message opts (w : world St) rows :
  n_repo n = true -> w_sched w = [] -> usable (newChannelFilter opts) rows (w_db w) ->
  exists res s, deliver n ch title message opts w = (Ok res, set_db s w) /\
    wire s = wire (w_db w) ++ option_list (attempt n title message ch) /\
    usable (newChannelFilter opts) (recorded (newChannelFilter opts) (w_now w) (w_dbnow w) rows (ch, res)) s /\
    (attempt n title message ch = None -> is_Some res).
Proof.
  intros Hr Hq Hu. set (f := newChannelFilter opts) in *.
  assert (Hrec : forall s res, usable f rows s -> exists s', record n (ID ch) res opts (set_db s w) = (Ok tt, set_db s' w) /\
    wire s' = wire s /\ usable f (recorded f (w_now w) (w_dbnow w) rows (ch, res)) s').
  { intros s res Hs. rewrite (record_quiet n (ID ch) res opts (set_db s w) rows Hr Hq Hs). eexists. split; [done|].
    split; [apply wire_put|]. destruct Hs as (_ & Hu1 & Ho). split; [apply channels_put|]. split; [by rewrite names_recorded|].
    cbn. by rewrite org_put. }
  unfold Notify.deliver. destruct (decryptTarget n ch) as [target|e] eqn:Et.
  - destruct (transmit_quiet n ch target title message w f rows Et Hq Hu) as (res & s & E & Hw & Hus & Hno).
    unfold mbind at 1, M_bind at 1, try. rewrite E.
    destruct res as [u|e]; [destruct (Hrec s None Hus) as (s' & E' & Hw' & Hu')|destruct (Hrec s (Some e) Hus) as (s' & E' & Hw' & Hu')];
      rewrite (bind_step _ _ _ _ _ E'); eexists _, s'; (split; [reflexivity|]); (split; [congruence|]); (split; [done|]); [|by eexists].
    intros Ha. by destruct (Hno Ha).
  - destruct (Hrec (w_db w) (Some e) Hu) as (s' & E' & Hw' & Hu').
    assert (Ew : set_db (w_db w) w = w) by (by destruct w). rewrite Ew in E'. rewrite (bind_step _ _ _ _ _ E').
    eexists _, s'. split; [reflexivity|]. unfold attempt. rewrite Et, app_nil_r. by split_and!.
Qed.

Lemma deliver_all_quiet n chs title message opts (w : world St) rows :
  n_repo n = true -> w_sched w = [] -> usable (newChannelFilter opts) rows (w_db w) ->
  exists outs s, deliver_all json_Marshal NewRequest ParseAddress n chs title message opts w = (Ok tt, set_db s w) /\
    wire s = wire (w_db w) ++ omap (attempt n title message) chs /\
    usable (newChannelFilter opts) (fold_left (recorded (newChannelFilter opts) (w_now w) (w_dbnow w)) outs rows) s /\
    Forall2 (fun ch out => fst out = ch /\ (attempt n title message ch = None -> is_Some (snd out))) chs outs.
Proof.
  intros Hr. revert w rows. induction chs as [|ch chs IH]; intros w rows Hq Hu.
  - exists [], (w_db w). simpl. rewrite app_nil_r. destruct w. split_and!; [done..|constructor].
  - destruct (deliver_quiet n ch title message opts w rows Hr Hq Hu) as (res & s & E & Hw & Hus & Hno).
    destruct (IH (set_db s w) _ Hq Hus) as (outs & s' & E' & Hw' & Hus' & Hf).
    exists ((ch, res) :: outs), s'. cbn [deliver_all]. rewrite (bind_step _ _ _ _ _ E), E'. split_and!.
    + done.
    + rewrite Hw'. simpl. rewrite Hw, <- app_assoc. f_equal. by destruct (attempt n title message ch).
    + exact Hus'.
    + by constructor.
Qed.

(** *** The rows the outcomes leave *)

Lemma recorded_other f at_ now rows out r :
  In r rows -> ch_id r <> ID (fst out) -> In r (recorded f at_ now rows out).
Proof.
  intros Hr Hne. unfold recorded, rows_upd. apply in_map_iff. exists r. split; [|done]. unfold channel_where.
  destruct (String.eqb_spec (ch_id r) (ID (fst out))); [by destruct Hne|done].
Qed.

Lemma recorded_others f at_ now outs rows r :
  In r rows -> (forall out, In out outs -> ID (fst out) <> ch_id r) -> In r (fold_left (recorded f at_ now) outs rows).
Proof.
  revert rows. induction outs as [|out outs IH]; intros rows Hr Hne; [done|]. apply IH.
  - apply recorded_other; [done|]. intros E. by apply (Hne out (or_introl eq_refl)).
  - intros o Ho. apply Hne. by right.
Qed.

Definition outcome_row (at_ : Z) (res : option error) (id : string) (r : ChannelRow) : Prop :=
  ch_id r = id /\ ch_last_sent_at r = Some at_ /\ ch_last_status r = Some (match res with Some _ => "failed" | None => "sent" end) /\
  (res = None -> ch_last_error r = None).

Lemma recorded_own f at_ now outs rows out r :
  NoDup (List.map (fun o => ID (fst o)) outs) -> In out outs -> In r rows -> channel_where (ID (fst out)) f r = true ->
  exists r', In r' (fold_left (recorded f at_ now) outs rows) /\ outcome_row at_ (snd out) (ID (fst out)) r'.
Proof.
  revert rows r. induction outs as [|o outs IH]; intros rows r Hu Hin Hr Hw; [done|]. cbn [List.map] in Hu.
  apply NoDup_cons in Hu as [Hnot Hu]. cbn [fold_left]. destruct Hin as [->|Hin].
  - assert (Hin' : In (with_delivery (match snd out with Some _ => "failed" | None => "sent" end)
       (match snd out with Some e => error_text e | None => "" end) at_ now r) (recorded f at_ now rows out)).
    { unfold recorded, rows_upd. apply in_map_iff. exists r. by rewrite Hw. }
    assert (Hid : ch_id r = ID (fst out)) by (unfold channel_where in Hw; apply andb_prop in Hw as [Hw _]; by apply seqb_true).
    eexists. split; [apply recorded_others; [exact Hin'|]|].
    + intros o Ho E. apply Hnot. rewrite list_elem_of_In, in_map_iff. exists o. split; [|done]. cbn in E. congruence.
    + split; [done|]. split; [done|]. split; [done|]. by intros ->.
  - apply (IH _ r); [done|done| |done]. apply recorded_other; [done|].
    intros E. unfold channel_where in Hw. apply andb_prop in Hw as [Hid%seqb_true _]. apply Hnot.
    rewrite list_elem_of_In, in_map_iff. exists out. split; [congruence|done].
Qed.

Lemma outs_ids (outs : list (NotificationChannel * option error)) chs n title message :
  Forall2 (fun ch out => fst out = ch /\ (attempt n title message ch = None -> is_Some (snd out))) chs outs ->
  List.map (fun o => ID (fst o)) outs = List.map ID chs.
Proof. induction 1 as [|ch out chs outs [<- _] _ IH]; [done|]. simpl. by rewrite IH. Qed.

Lemma outs_of (outs : list (NotificationChannel * option error)) chs n title message ch :
  Forall2 (fun ch out => fst out = ch /\ (attempt n title message ch = None -> is_Some (snd out))) chs outs ->
  In ch chs -> exists res, In (ch, res) outs /\ (attempt n title message ch = None -> is_Some res).
Proof.
  induction 1 as [|c [c' res] chs outs [E Hno] _ IH]; [done|]. cbn in E, Hno. subst c'. intros [->|Hin].
  - exists res. split; [by left|done].
  - destruct (IH Hin) as (r & Hr & Hn). exists r. split; [by right|done].
Qed.

(** The slot a target was sealed for. *)
Lemma moved_target_unread tc rnd secret slot ch n :
  Cipher.cipher_wf tc -> n_cipher n = Some tc -> (forall m, rnd = Ok m -> length m = NonceSize) ->
  Cipher.SealWithContext tc rnd secret (TargetContext slot) = Ok (bytes_of (EncryptedTarget ch)) ->
  Cipher.unauthenticated tc (bytes_of (EncryptedTarget ch)) (TargetContext (ID ch)) ->
  Cipher.unauthenticated tc (bytes_of (EncryptedTarget ch)) [] ->
  decryptTarget n ch = Err (Wrap "decrypt channel target" ErrDecryptionFailed).
Proof.
  intros Hwf Hn Hr Hs H1 H2. apply Cipher.seal_carries in Hs as (nonce & _ & Hc & Hne); [|done].
  unfold decryptTarget. destruct (String.eqb_spec (EncryptedTarget ch) "") as [E|_]; [by rewrite E in Hne|].
  rewrite Hn, Cipher.OrLegacy_nonempty by done.
  by rewrite (Cipher.open_rejects _ _ _ _ _ _ _ Hwf Hc H1), (Cipher.open_rejects _ _ _ _ _ _ _ Hwf Hc H2).
Qed.
End Deliveries.

(** ** Properties *)


(** A target moved between rows is not used. A channel whose stored target was
    sealed for another channel's slot, and whose tag authenticates neither in this slot
    nor unbound, is sent nothing: [deliver] fails with the decryption error, nothing
    goes out, and the row records the failure. *)
Theorem moved_target_not_sent {St} `{!HasChannels St, !HasDedup St, !Transport St, !TransportLaws St, !AEAD}
    json_Marshal NewRequest ParseAddress n tc ch title message opts (w : world St) rows rnd secret slot :
  n_repo n = true -> w_sched w = [] -> usable (newChannelFilter opts) rows (w_db w) ->
  Cipher.cipher_wf tc -> n_cipher n = Some tc -> (forall m, rnd = Ok m -> length m = NonceSize) ->
  Cipher.SealWithContext tc rnd secret (TargetContext slot) = Ok (bytes_of (EncryptedTarget ch)) ->
  Cipher.unauthenticated tc (bytes_of (EncryptedTarget ch)) (TargetContext (ID ch)) ->
  Cipher.unauthenticated tc (bytes_of (EncryptedTarget ch)) [] ->
  exists res s, deliver json_Marshal NewRequest ParseAddress n ch title message opts w = (Ok (Some res), set_db s w) /\
    errors_Is res "ErrDecryptionFailed" = true /\ wire s = wire (w_db w) /\
    channels s = Some (recorded (newChannelFilter opts) (w_now w) (w_dbnow w) rows (ch, Some res)).
Proof.
  intros Hr Hq Hu Hwf Hn Hrnd Hs H1 H2. pose proof (moved_target_unread tc rnd secret slot ch n Hwf Hn Hrnd Hs H1 H2) as Hd.
  unfold deliver. rewrite Hd. unfold mbind, M_bind. rewrite (record_quiet n (ID ch) (Some _) opts w rows Hr Hq Hu).
  eexists _, _. split; [reflexivity|]. split; [done|]. split; [apply wire_put|]. cbn. apply channels_put.
Qed.

(** A transport failure is recorded without the channel's URL, but the text of a
    request that could not be built holds it. *)
Theorem build_failure_records_target {St} `{!HasChannels St, !HasDedup St, !Transport St, !TransportLaws St, !AEAD}
    json_Marshal NewRequest ParseAddress n ch title message opts (w : world St) rows target body cause :
  n_repo n = true -> w_sched w = [] -> usable (newChannelFilter opts) rows (w_db w) ->
  decryptTarget n ch = Ok target -> (Channel.Type_ ch =s "email") = false ->
  json_Marshal (payload n (Channel.Type_ ch) title message) = Ok body -> NewRequest target = Err (url_Error "parse" target cause) ->
  exists s, deliver json_Marshal NewRequest ParseAddress n ch title message opts w =
      (Ok (Some (Wrap "build request" (url_Error "parse" target cause))), set_db s w) /\
    channels s = Some (rows_upd (channel_where (ID ch) (newChannelFilter opts))
      (with_delivery "failed" ("build request: parse " +:+ target +:+ ": " +:+ error_text cause) (w_now w) (w_dbnow w)) rows).
Proof.
  intros Hr Hq Hu Hd He Hm Hn. unfold deliver. rewrite Hd, He. unfold send.
  unfold mbind at 1, M_bind at 1, try. unfold mbind, M_bind, wrapping, mapping_err, lift. rewrite Hm, Hn.
  rewrite (record_quiet n (ID ch) (Some _) opts w rows Hr Hq Hu). eexists. split; [reflexivity|]. apply channels_put.
Qed.

(** A transport's error never brings the URL along. *)
Theorem transport_error_redacted {St} `{!Transport St} json_Marshal NewRequest n typ url title message (w w' : world St) e :
  (forall u b (w1 w2 : world St) e, client_Do u b w1 = (Err e, w2) -> exists op cause, e = url_Error op u cause) ->
  send json_Marshal NewRequest n typ url title message w = (Err e, w') -> is_ok (NewRequest url) = true ->
  is_ok (json_Marshal (payload n typ title message)) = true ->
  (exists op cause, (exists body w1 w2, client_Do url body w1 = (Err (url_Error op url cause), w2)) /\ e = Wrap "send" cause) \/
  e = Plain "destination returned status".
Proof.
  intros Hdo E Hn Hm. unfold send in E. destruct (json_Marshal _) as [body|]; [|done]. destruct (NewRequest url) as [[]|]; [|done].
  apply bind_inv in E as [(b & w1 & E1 & E)|(e1 & [=] & _)]. apply bind_inv in E as [([] & w2 & E2 & E)|(e2 & [=] & _)].
  apply bind_inv in E as [(st & w3 & E3 & E)|(e3 & E3 & [= ->])].
  - destruct (_ || _); [|done]. injection E as <- <-. by right.
  - apply mapping_Err in E3 as (e0 & E3 & ->). destruct (Hdo _ _ _ _ _ E3) as (op & cause & ->). left. exists op, cause. split; [|done]. eauto.
Qed.
End Notify.

(** ** Witnesses *)

Module Example_notify.
Import Notify TokenCipher.Example_cipher.

Definition ex_state : Type := option (list ChannelRow) * (option (list DedupClaim) * Z) * list transmission.

#[export] Instance ex_state_channels : HasChannels ex_state.
Proof. refine {| channels := fun s => fst (fst s); put_channels := fun l s => (Some l, snd (fst s), snd s); channel_org := fun _ => Some None |}; done. Defined.
#[export] Instance ex_state_dedup : HasDedup ex_state.
Proof.
  refine {| claims := fun s => fst (snd (fst s)); put_claims := fun l s => (fst (fst s), (Some l, snd (snd (fst s))), snd s);
            dedup_next := fun s => snd (snd (fst s)); put_dedup_next := fun z s => (fst (fst s), (fst (snd (fst s)), z), snd s) |}; done.
Defined.

Definition log (t : transmission) (s : ex_state) : ex_state := (fst s, snd s ++ [t]).

(** One webhook host is down. *)
#[export] Instance ex_transport : Transport ex_state := {|
  client_Do u b := fun w => (if HasPrefix u "https://down" then Err (url_Error "Post" u (Plain "connection refused")) else Ok 200%Z,
                             set_db (log (Post u b) (w_db w)) w);
  mailer_Send cfg to msg := fun w => (Ok tt, set_db (log (Mail cfg to msg) (w_db w)) w)
|}.

#[export] Instance ex_laws : TransportLaws ex_state.
Proof.
  refine {| wire := snd |}.
  - intros u b w _. eexists _, _. split; [reflexivity|]. done.
  - intros cfg to msg w _. eexists _, _. split; [reflexivity|]. done.
  - done.
Defined.

Definition sealed_in (slot target : string) : string :=
  match Cipher.SealWithContext cipher1 (Ok nonce) (bytes_of target) (TargetContext slot) with Ok c => string_of c | Err _ => "" end.

Definition ex_row (id typ target : string) (enabled : bool) : ChannelRow :=
  {| ch_id := id; ch_name := "channel " +:+ id; ch_type := typ; ch_target := target; ch_events := marshalEvents ["drift"]; ch_enabled := enabled;
     ch_last_status := None; ch_last_error := None; ch_last_sent_at := None; ch_created_at := 0; ch_updated_at := 0; ch_org := None |}.

Definition moved : string := Eval vm_compute in sealed_in "1" "https://hooks.example/1".
Definition ex_rows : list ChannelRow := Eval vm_compute in
  [ex_row "1" "slack" (sealed_in "1" "https://hooks.example/1") true; ex_row "2" "email" (sealed_in "2" "a@b.example, c@d.example") true;
   ex_row "3" "slack" (sealed_in "3" "https://down.example") true; ex_row "4" "slack" (sealed_in "1" "https://hooks.example/1") true;
   ex_row "5" "slack" (sealed_in "5" "https://hooks.example/5") false].

Definition ex_notifier : Notifier :=
  NewNotifier true (Some {| Host := "relay"; From := "suite@b.example" |}) (Some cipher1) {| Source := "suite"; TestMessage := "hello" |}.
Definition ex_event : Event := {| Type_ := "drift"; Title := "Drift"; Message := "2 resources"; DedupKey := ""; DedupTTL := 0 |}.
Definition ex_marshal (j : json) : result string := Ok "{}".
Definition ex_request (u : string) : result unit := Ok tt.
Definition ex_address (a : string) : bool := true.
Definition ex_world : world ex_state := quiet (Some ex_rows, (None, 0%Z), []) 9 9 0.

Lemma ex_usable : usable (newChannelFilter []) ex_rows (w_db ex_world).
Proof. split; [done|]. split; [|done]. vm_compute. reflexivity. Qed.


(** Row 4 holds row 1's sealed target. *)
Definition ex_moved : NotificationChannel :=
  {| ID := "4"; Name := "channel 4"; Channel.Type_ := "slack"; EncryptedTarget := moved; HasTarget := true; Events := ["drift"]; Enabled := true;
     LastStatus := None; LastError := None; LastSentAt := None; CreatedAt := 0; UpdatedAt := 0 |}.

Lemma moved_target_not_sent_witness :
  exists res s, deliver ex_marshal ex_request ex_address ex_notifier ex_moved "Drift" "2 resources" [] ex_world = (Ok (Some res), set_db s ex_world) /\
    wire s = [].
Proof.
  destruct (moved_target_not_sent ex_marshal ex_request ex_address ex_notifier cipher1 ex_moved "Drift" "2 resources" [] ex_world ex_rows
    (Ok nonce) (bytes_of "https://hooks.example/1") "1") as (res & s & E & _ & Hw & _).
  - reflexivity.
  - reflexivity.
  - exact ex_usable.
  - exact cipher1_wf.
  - reflexivity.
  - exact one_nonce.
  - vm_compute. reflexivity.
  - foreign.
  - foreign.
  - exists res, s. split; [exact E|exact Hw].
Defined.
End Example_notify.
