(* ===== verification/AuditRepo.v ===== *)
(** * AuditRepo: identity/store/audit_repository.go and audit_sweep.go

    The audit log: its writer, which freezes the actor's address into the entry, its
    tenant-scoped readers, and the retention sweep with its legal holds.

    audit_logs belongs to the identity schema and has no foreign keys (migration
    000007); a holds table is the application's, and naming one that does not resolve
    or has other columns is an error of the statement. An instant is bound as an
    integer. encoding/json of the metadata map is a parameter of the writer. *)

From stdpp Require Import pretty.
From Stdlib Require Import Ascii.
From S2P Require Import Prelude GoStrings PgQuote Order Models OrgScope Json Db DbRel OrganizationRepo.

Module Audit.

(** ** Rows *)

Record AuditRow := {
  al_id : string; al_user_id : option string; al_organization_id : option string; al_action : string;
  al_resource_type : option string; al_resource_id : option string; al_metadata : option json;
  al_ip_address : option string; al_created_at : Z; al_actor_email : option string
}.

(** A nil map is [None]. *)
Record AuditLog := {
  ID : string; UserID : option string; OrganizationID : option string; Action : string; ResourceType : option string;
  ResourceID : option string; Metadata : option object; IPAddress : option string; CreatedAt : Z;
  ActorEmail : option string; UserEmail : option string; UserName : option string
}.

(** The columns of a hold the sweep reads. *)
Record LegalHold := { h_active : bool; h_start_date : Z; h_end_date : Z }.

(** [legal_holds q] is what the quoted reference [q] resolves to on this connection. *)
Class HasAuditLog (St : Type) `{HasDB St} := {
  audit_logs : St -> list AuditRow;
  put_audit : list AuditRow -> St -> St;
  legal_holds : string -> St -> result (list LegalHold);
  audit_put : forall l s, audit_logs (put_audit l s) = l;
  audit_db : forall l s, the_db (put_audit l s) = the_db s;
  audit_holds : forall q l s, legal_holds q (put_audit l s) = legal_holds q s
}.

(** ** Queries of the readers *)

Record AuditFilters := {
  f_UserID : option string; f_UserEmail : option string; f_OrganizationID : option string; f_Action : option string;
  f_ResourceType : option string; f_StartDate : option Z; f_EndDate : option Z
}.

(** The two queries under construction, the arguments and [paramIndex]. *)
Record building := { b_count : string; b_query : string; b_args : list sql_arg; b_param : nat }.

(** [if filters.X != nil { ... }] *)
Definition and_filter (clause : string) (v : option sql_arg) (b : building) : building :=
  match v with
  | None => b
  | Some a =>
      {| b_count := b_count b +:+ clause +:+ pretty (b_param b); b_query := b_query b +:+ clause +:+ pretty (b_param b);
         b_args := b_args b ++ [a]; b_param := S (b_param b) |}
  end.

Definition text_arg (v : option string) : option sql_arg := option_map (fun s => ArgValue (Some s)) v.
Definition email_arg (v : option string) : option sql_arg :=
  option_map (fun s => ArgValue (Some ("%" +:+ escapeLikePattern s +:+ "%"))) v.

Definition filter_clauses (filters : AuditFilters) : list (string * option sql_arg) :=
  [(" AND al.user_id = $", text_arg (f_UserID filters)); (" AND u.email ILIKE $", email_arg (f_UserEmail filters));
   (" AND al.organization_id = $", text_arg (f_OrganizationID filters)); (" AND al.action = $", text_arg (f_Action filters));
   (" AND al.resource_type = $", text_arg (f_ResourceType filters));
   (" AND al.created_at >= $", option_map ArgInt (f_StartDate filters));
   (" AND al.created_at <= $", option_map ArgInt (f_EndDate filters))].

Definition count_base : string := "SELECT COUNT(*) FROM audit_logs al LEFT JOIN users u ON al.user_id = u.id WHERE 1=1".
Definition list_base : string := "
		SELECT al.id, al.user_id, al.organization_id, al.action, al.resource_type, al.resource_id,
		       al.metadata, al.ip_address, al.created_at, al.actor_email,
		       u.email AS user_email, u.name AS user_name
		FROM audit_logs al
		LEFT JOIN users u ON al.user_id = u.id
		WHERE 1=1
	".

Definition buildListAuditLogsQueries (filters : AuditFilters) (scope : OrgScope) (limit offset : Z)
    : (string * list sql_arg) * (string * list sql_arg) :=
  let (countQuery, _) := andScope count_base scope "al.organization_id" [] in
  let (query, args) := andScope list_base scope "al.organization_id" [] in
  let b := fold_left (fun b cv => and_filter (fst cv) (snd cv) b) (filter_clauses filters)
             {| b_count := countQuery; b_query := query; b_args := args; b_param := length args + 1 |} in
  ((b_count b, b_args b),
   (b_query b +:+ " ORDER BY al.created_at DESC LIMIT $" +:+ pretty (b_param b) +:+ " OFFSET $" +:+ pretty (b_param b + 1),
    b_args b ++ [ArgInt limit; ArgInt offset])).

(** What a clause asks of a row; an absent filter asks nothing. *)
Definition asked {A} (v : option A) (p : A -> bool) : bool := match v with Some x => p x | None => true end.

(** LEFT JOIN users u ON al.user_id = u.id *)
Definition actor (d : DB) (r : AuditRow) : option User :=
  match al_user_id r with Some id => find (fun u => u_ID u =s id) (users d) | None => None end.

Definition filters_where (fold : Ascii.ascii -> Ascii.ascii) (filters : AuditFilters) (d : DB) (r : AuditRow) : bool :=
  asked (f_UserID filters) (col_is (al_user_id r)) &&
  asked (f_UserEmail filters) (fun e => match actor d r with
    | Some u => ilike fold (u_Email u) ("%" +:+ escapeLikePattern e +:+ "%") | None => false end) &&
  asked (f_OrganizationID filters) (col_is (al_organization_id r)) && asked (f_Action filters) (fun a => al_action r =s a) &&
  asked (f_ResourceType filters) (col_is (al_resource_type r)) &&
  asked (f_StartDate filters) (fun t => (t <=? al_created_at r)%Z) && asked (f_EndDate filters) (fun t => (al_created_at r <=? t)%Z).

(** ** Decoding *)

(** json.Unmarshal into a [map[string]interface{}]. *)
Definition decode_map (j : json) : result (option object) :=
  match j with JSObj o => Ok (Some o) | JSNull => Ok None | _ => Err cannot_unmarshal end.

Definition read_metadata (m : option json) : result (option object) :=
  match m with None => Ok None | Some j => wrap_err "failed to unmarshal audit log metadata" (decode_map j) end.

Definition scanAudit (row : AuditRow * option User) : result AuditLog :=
  let (r, u) := row in
  metadata ← read_metadata (al_metadata r);
  Ok {| ID := al_id r; UserID := al_user_id r; OrganizationID := al_organization_id r; Action := al_action r;
        ResourceType := al_resource_type r; ResourceID := al_resource_id r; Metadata := metadata; IPAddress := al_ip_address r;
        CreatedAt := al_created_at r; ActorEmail := al_actor_email r; UserEmail := option_map u_Email u; UserName := option_map u_Name u |}.

(** ** The sweep's options (audit_sweep.go) *)

Definition LegalHoldActiveColumn : string := "active".
Definition LegalHoldStartDateColumn : string := "start_date".
Definition LegalHoldEndDateColumn : string := "end_date".

Record auditSweepFilter := { holdTable : string; holdTableSet : bool }.
Definition AuditSweepOption : Type := auditSweepFilter -> auditSweepFilter.
Definition WithLegalHolds (table : string) : AuditSweepOption := fun _ => {| holdTable := table; holdTableSet := true |}.

Definition newAuditSweepFilter (opts : list (option AuditSweepOption)) : auditSweepFilter :=
  fold_left (fun f opt => match opt with Some o => o f | None => f end) opts {| holdTable := ""; holdTableSet := false |}.

Definition bareName (table : string) : string := List.last (Split (TrimSpace table) ".") "".

Section Names.
Context `{PgxIdentifier}.

Fixpoint quote_each (parts : list string) : result (list string) :=
  match parts with
  | [] => Ok []
  | p :: rest =>
      if negb (ValidIdentifier p) then Err (Plain "not a bare SQL identifier in legal-hold table")
      else if (MaxIdentifierLength <? String.length p)%nat then Err (Plain "over Postgres's byte limit in legal-hold table")
      else l ← quote_each rest; Ok (Identifier p :: l)
  end.

Definition quoteAuditTable (table : string) : result string :=
  let trimmed := TrimSpace table in
  if trimmed =s "" then Err (Plain "legal-hold table: no table name")
  else
    let parts := Split trimmed "." in
    if (2 <? length parts)%nat then Err (Plain "legal-hold table has too many parts")
    else l ← quote_each parts; Ok (Join l ".").

Definition legalHoldIndexName (table : string) : result string :=
  let name := "idx_" +:+ bareName table +:+ "_active_range" in
  if negb (ValidIdentifier name) then Err (Plain "legal-hold table yields an invalid index name")
  else Ok (Identifier (if (MaxIdentifierLength <? String.length name)%nat then String.substring 0 MaxIdentifierLength name else name)).

(** The names the rendered DDL declares: the table, its range constraint, its index. *)
Definition LegalHoldTableDDL (table : string) : result (string * string * string) :=
  quoted ← quoteAuditTable table;
  indexName ← legalHoldIndexName table;
  Ok (quoted, bareName table +:+ "_range", indexName).

(** The table the NOT EXISTS clause reads; [None] is the empty clause. *)
Definition exemption (f : auditSweepFilter) : result (option string) :=
  if negb (holdTableSet f) then Ok None
  else if holdTable f =s "" then Err (Plain "legal-hold table: WithLegalHolds was given an empty name")
  else quoted ← quoteAuditTable (holdTable f); Ok (Some quoted).
End Names.

(** SELECT 1 FROM holds h WHERE h.active AND created_at >= h.start_date AND created_at <= h.end_date *)
Definition held (hs : list LegalHold) (r : AuditRow) : bool :=
  existsb (fun h => h_active h && (h_start_date h <=? al_created_at r)%Z && (al_created_at r <=? h_end_date h)%Z) hs.

Definition sweepable (cutoff : Z) (hs : list LegalHold) (r : AuditRow) : bool :=
  (al_created_at r <? cutoff)%Z && negb (held hs r).

Definition oldest_entry (x y : AuditRow) : bool := (al_created_at x <=? al_created_at y)%Z.

(** The ids of the inner SELECT, its exemption inside the LIMIT. *)
Definition sweep_batch (cutoff : Z) (hs : list LegalHold) (batch : nat) (rows : list AuditRow) : list string :=
  List.map al_id (firstn batch (sort_by oldest_entry (List.filter (sweepable cutoff hs) rows))).

Section Repository.
Context {St : Type} `{HasAuditLog St} `{PgxIdentifier}.

Definition insert_log (r : AuditRow) (s : St) : result (AuditRow * St) :=
  if existsb (fun r' => al_id r' =s al_id r) (audit_logs s) then Err unique_violation
  else Ok (r, put_audit (audit_logs s ++ [r]) s).

(** COALESCE($10, (SELECT email FROM users WHERE id = $2)) *)
Definition email_at_write (d : DB) (given user : option string) : option string :=
  match given, user with
  | Some e, _ => Some e
  | None, Some id => option_map u_Email (find (fun u => u_ID u =s id) (users d))
  | None, None => None
  end.

Definition marshal_metadata (marshal : object -> result json) (m : option object) : result (option json) :=
  match m with
  | None => Ok None
  | Some o => j ← wrap_err "failed to marshal audit log metadata" (marshal o); Ok (Some j)
  end.

(** The caller's struct as the call leaves it on success. *)
Definition CreateAuditLog (uuid : nat -> string) (marshal : object -> result json) (log : AuditLog) : M St AuditLog :=
  id ← uuid_New uuid;
  now ← time_Now;
  metadataArg ← lift (marshal_metadata marshal (Metadata log));
  row ← wrapping "failed to create audit log" (stmt (fun s =>
    insert_log {| al_id := id; al_user_id := UserID log; al_organization_id := OrganizationID log; al_action := Action log;
                  al_resource_type := ResourceType log; al_resource_id := ResourceID log; al_metadata := metadataArg;
                  al_ip_address := IPAddress log; al_created_at := now;
                  al_actor_email := email_at_write (the_db s) (ActorEmail log) (UserID log) |} s));
  mret {| ID := id; UserID := UserID log; OrganizationID := OrganizationID log; Action := Action log;
          ResourceType := ResourceType log; ResourceID := ResourceID log; Metadata := Metadata log; IPAddress := IPAddress log;
          CreatedAt := now; ActorEmail := al_actor_email row; UserEmail := UserEmail log; UserName := UserName log |}.

Definition audit_where (fold : Ascii.ascii -> Ascii.ascii) (filters : AuditFilters) (scope : OrgScope) (s : St) (r : AuditRow) : bool :=
  admits scope (al_organization_id r) && filters_where fold filters (the_db s) r.

Definition with_actor (s : St) (r : AuditRow) : AuditRow * option User := (r, actor (the_db s) r).

Definition ListAuditLogs (fold : Ascii.ascii -> Ascii.ascii) (filters : AuditFilters) (scope : OrgScope) (limit offset : Z)
    : M St (list AuditLog * nat) :=
  if MatchesNothing scope then mret ([], 0%nat)
  else
    total ← wrapping "failed to count audit logs" (query (fun s => rows_count (audit_where fold filters scope s) (audit_logs s)));
    rows ← wrapping "failed to list audit logs" (stmt (fun s =>
      match page limit offset (sort_by (newest al_created_at) (List.filter (audit_where fold filters scope s) (audit_logs s))) with
      | Ok l => Ok (List.map (with_actor s) l, s)
      | Err e => Err e
      end));
    logs ← lift (scan_all scanAudit rows);
    mret (logs, total).

Definition GetAuditLog (logID : string) (scope : OrgScope) : M St AuditLog :=
  if MatchesNothing scope then throw (notFound "audit log by id")
  else
    row ← wrapping "failed to get audit log" (query (fun s =>
      head (List.filter (fun r => (al_id r =s logID) && admits scope (al_organization_id r)) (audit_logs s))));
    match row with
    | None => throw (notFound "audit log by id")
    | Some r => lift (scanAudit (r, None))
    end.

(** What the exemption reads of the holds, none without the clause. *)
Definition holds_of (table : option string) (s : St) : result (list LegalHold) :=
  match table with None => Ok [] | Some q => legal_holds q s end.

Definition DeleteAuditLogsBefore (cutoff batchSize : Z) (opts : list (option AuditSweepOption)) : M St Z :=
  table ← lift (exemption (newAuditSweepFilter opts));
  n ← wrapping "failed to delete audit logs before cutoff" (stmt (fun s =>
    hs ← holds_of table s;
    if (batchSize <? 0)%Z then Err (Plain "LIMIT must not be negative")
    else
      let doomed := sweep_batch cutoff hs (Z.to_nat batchSize) (audit_logs s) in
      Ok (rows_count (fun r => mem (al_id r) doomed) (audit_logs s),
          put_audit (rows_del (fun r => mem (al_id r) doomed) (audit_logs s)) s)));
  affectedRows n.

(** The rows the caller iterates. *)
Definition StreamAuditLogs (startDate endDate : Z) (scope : OrgScope) : M St (list (AuditRow * option User)) :=
  wrapping "failed to stream audit logs" (query (fun s =>
    List.map (with_actor s) (sort_by oldest_entry (List.filter (fun r =>
      (startDate <=? al_created_at r)%Z && (al_created_at r <=? endDate)%Z && admits scope (al_organization_id r)) (audit_logs s))))).

(** [db] says whether the handle is not nil; the probe plans and reads no row. *)
Definition VerifyLegalHoldTable (db : bool) (table : string) : M St unit :=
  if negb db then throw (Plain "legal-hold table: no database connection")
  else
    quoted ← lift (quoteAuditTable table);
    wrapping "legal-hold table is not readable as the audit sweep will read it" (stmt (fun s =>
      match legal_holds quoted s with Ok _ => Ok (tt, s) | Err e => Err e end)).
End Repository.

(** ** Lemmas *)

Lemma mem_ids rows l r : NoDup (List.map al_id rows) -> In r rows -> (forall x, In x l -> In x rows) ->
  mem (al_id r) (List.map al_id l) = true <-> In r l.
Proof.
  intros Hu Hr Hl. rewrite mem_true, in_map_iff. split; [|intros Hin; by exists r].
  intros (x & E & Hx). by rewrite <- (NoDup_map_inj al_id rows x r Hu (Hl x Hx) Hr E).
Qed.

Lemma in_firstn {A} n (x : A) l : In x (firstn n l) -> In x l.
Proof. intros Hx. rewrite <- (firstn_skipn n l). apply in_app_iff. by left. Qed.

Lemma in_skipn {A} n (x : A) l : In x (skipn n l) -> In x l.
Proof. intros Hx. rewrite <- (firstn_skipn n l). apply in_app_iff. by right. Qed.

Lemma firstn_add {A} m n (l : list A) : firstn (m + n) l = firstn m l ++ firstn n (skipn m l).
Proof. revert l. induction m as [|m IH]; intros [|x l]; simpl; [done|done|by rewrite firstn_nil|by rewrite IH]. Qed.

Lemma head_unique rows r p :
  NoDup (List.map al_id rows) -> In r rows -> (al_id r =s al_id r) && p r = true ->
  head (List.filter (fun x => (al_id x =s al_id r) && p x) rows) = Some r.
Proof.
  intros Hu Hr Hp. destruct (List.filter _ rows) as [|x l] eqn:E.
  - exfalso. assert (Hin : In r []) by (rewrite <- E; by apply filter_In). done.
  - assert (Hx : In x (x :: l)) by (by left). rewrite <- E in Hx. apply filter_In in Hx as [Hx Hc].
    apply andb_prop in Hc as [Hi%seqb_true _]. simpl. f_equal. by apply (NoDup_map_inj al_id rows).
Qed.

Lemma sapp_nil a : a +:+ "" = a.
Proof. induction a as [|c a IH]; [done|]. change (String c (a +:+ "") = String c a). by rewrite IH. Qed.

Lemma NoDup_rows rows : NoDup (List.map al_id rows) -> NoDup rows.
Proof. apply NoDup_fmap_1. Qed.

Lemma sorted_split le b (l : list AuditRow) x y :
  StronglySorted (fun a b => le a b = true) l -> In x (firstn b l) -> In y (skipn b l) -> le x y = true.
Proof.
  revert b. induction l as [|z l IH]; intros b Hs; [by rewrite firstn_nil|].
  apply StronglySorted_inv in Hs as [Hs Hz]. destruct b as [|b]; [done|]. intros [<-|Hx] Hy; [|by eapply IH].
  rewrite List.Forall_forall in Hz. apply Hz. rewrite <- (firstn_skipn b l). apply in_app_iff. by right.
Qed.

Lemma oldest_sorted l : StronglySorted (fun a b => oldest_entry a b = true) (sort_by oldest_entry l).
Proof.
  apply sort_by_strongly_sorted; unfold oldest_entry.
  - intros x y. rewrite !Z.leb_le. lia.
  - intros x y z. rewrite !Z.leb_le. lia.
Qed.

(** The rows one batch removes: the oldest sweepable ones, and no others. *)
Lemma batch_rows cutoff hs b rows :
  NoDup (List.map al_id rows) ->
  let doomed := sweep_batch cutoff hs b rows in
  List.filter (fun r => mem (al_id r) doomed) rows ≡ₚ firstn b (sort_by oldest_entry (List.filter (sweepable cutoff hs) rows)) /\
  (forall x y, In x rows -> In y rows -> mem (al_id x) doomed = true -> mem (al_id y) doomed = false -> sweepable cutoff hs y = true ->
     (al_created_at x <= al_created_at y)%Z) /\
  (forall x, In x rows -> mem (al_id x) doomed = true -> sweepable cutoff hs x = true).
Proof.
  intros Hu doomed. set (S := sort_by oldest_entry _).
  assert (HS : forall x, In x S <-> In x rows /\ sweepable cutoff hs x = true) by (intros x; unfold S; by rewrite in_sort_by, filter_In).
  assert (Hf : forall x, In x (firstn b S) -> In x S) by (intros x; apply in_firstn).
  assert (Hm : forall x, In x rows -> mem (al_id x) doomed = true <-> In x (firstn b S)).
  { intros x Hx. apply (mem_ids rows); [done|done|]. intros y Hy%Hf. by apply HS. }
  split_and!.
  - apply NoDup_Permutation.
    + apply NoDup_rows. by apply NoDup_map_filter.
    + assert (Hn : NoDup S).
      { unfold S. rewrite (sort_by_perm oldest_entry (List.filter (sweepable cutoff hs) rows)). apply NoDup_rows. by apply NoDup_map_filter. }
      rewrite <- (take_drop b S) in Hn. by apply NoDup_app in Hn as [Hn _].
    + intros x. rewrite !list_elem_of_In, filter_In. split; [intros [Hx Hd]; by apply Hm|].
      intros Hx. assert (Hr : In x rows) by (by apply HS, Hf). split; [done|by apply Hm].
  - intros x y Hx Hy Hdx Hdy Hsw. apply Hm in Hdx; [|done].
    assert (Hys : In y S) by (by apply HS). rewrite <- (firstn_skipn b S) in Hys. apply in_app_iff in Hys as [Hys|Hys].
    { apply Hm in Hys; [|done]. congruence. }
    apply Z.leb_le. exact (sorted_split oldest_entry b S x y (oldest_sorted _) Hdx Hys).
  - intros x Hx Hd. apply Hm in Hd; [|done]. by apply HS, Hf.
Qed.

Lemma rows_count_perm {A} (p : A -> bool) l l' : l ≡ₚ l' -> rows_count p l = rows_count p l'.
Proof. intros Hp. unfold rows_count. by rewrite (filter_perm p _ _ Hp). Qed.

Lemma count_split {A} (p q : A -> bool) l : rows_count p l = (rows_count p (List.filter q l) + rows_count p (rows_del q l))%nat.
Proof.
  unfold rows_count, rows_del. induction l as [|x l IH]; [done|]. simpl. destruct (p x) eqn:Ep, (q x) eqn:Eq; simpl; rewrite ?Ep; simpl; rewrite IH; lia.
Qed.

Lemma rows_count_all {A} (p : A -> bool) l : (forall x, In x l -> p x = true) -> rows_count p l = length l.
Proof.
  unfold rows_count. induction l as [|x l IH]; [done|]. intros Hp. simpl. rewrite (Hp x (or_introl eq_refl)). simpl. f_equal.
  apply IH. intros y Hy. apply Hp. by right.
Qed.

Section Facts.
Context {St : Type} `{HasAuditLog St} `{PgxIdentifier}.

Lemma Delete_inv cutoff batch opts (w : world St) r w' :
  DeleteAuditLogsBefore cutoff batch opts w = (r, w') ->
  (exists e, r = Err e /\ (w_db w' = w_db w \/ w_db w' = db_seen w)) \/
  exists table hs, exemption (newAuditSweepFilter opts) = Ok table /\ holds_of table (db_seen w) = Ok hs /\ (0 <= batch)%Z /\
    let doomed := sweep_batch cutoff hs (Z.to_nat batch) (audit_logs (db_seen w)) in
    r = Ok (Z.of_nat (rows_count (fun x => mem (al_id x) doomed) (audit_logs (db_seen w)))) /\
    w_db w' = put_audit (rows_del (fun x => mem (al_id x) doomed) (audit_logs (db_seen w))) (db_seen w).
Proof.
  unfold DeleteAuditLogsBefore. intros E. apply bind_inv in E as [(table & w1 & [Et ->]%lift_Ok & E)|(e & E & ->)];
    [|injection E as _ <-; left; eexists; by split; [|left]].
  apply bind_inv in E as [(n & w1 & E1%wrapping_Ok & E)|(e & E1 & ->)].
  - injection E as <- <-. apply stmt_inv in E1 as (_ & [(a & [= <-] & E1)|(e & [=] & _)]). right.
    destruct (holds_of table (db_seen w)) as [hs|] eqn:Eh; [|done]. cbn in E1. destruct (Z.ltb_spec batch 0); [done|]. injection E1 as <- <-.
    exists table, hs. by split_and!.
  - left. eexists. split; [done|]. right. apply wrapping_Err in E1 as (e0 & E1 & _).
    apply stmt_inv in E1 as (_ & [(a & [=] & _)|(e1 & _ & ?)]). done.
Qed.

Lemma exemption_set f table : exemption f = Ok table -> holdTableSet f = true -> exists t, quoteAuditTable (holdTable f) = Ok t /\ table = Some t.
Proof.
  unfold exemption. intros E Hs. rewrite Hs in E. simpl in E. destruct (holdTable f =s ""); [done|].
  destruct (quoteAuditTable (holdTable f)) as [t|]; [|done]. injection E as <-. by exists t.
Qed.

(** The three readers only range over the rows a scope admits. *)
Definition confined (scope : OrgScope) (s : St) : St :=
  put_audit (List.filter (fun r => admits scope (al_organization_id r)) (audit_logs s)) s.

Lemma filter_admits scope (p q : AuditRow -> bool) rows :
  (forall r, q r = true -> admits scope (al_organization_id r) = true) -> (forall r, p r = q r) ->
  List.filter p (List.filter (fun r => admits scope (al_organization_id r)) rows) = List.filter q rows.
Proof.
  intros Hq Hp. induction rows as [|r rows IH]; [done|]. simpl. destruct (admits scope (al_organization_id r)) eqn:Ea; simpl; rewrite IH; [by rewrite Hp|].
  destruct (q r) eqn:Eq; [|done]. apply Hq in Eq. congruence.
Qed.

Lemma scanAudit_Ok r u log : scanAudit (r, u) = Ok log ->
  OrganizationID log = al_organization_id r /\ ID log = al_id r /\ read_metadata (al_metadata r) = Ok (Metadata log).
Proof. unfold scanAudit. destruct (read_metadata (al_metadata r)) as [m|]; [|done]. by intros [= <-]. Qed.

Lemma scanAudit_total r u : is_ok (read_metadata (al_metadata r)) = true -> exists log, scanAudit (r, u) = Ok log /\ ID log = al_id r.
Proof. unfold scanAudit. destruct (read_metadata (al_metadata r)) as [m|]; [|done]. intros _. by eexists. Qed.

Lemma ListAuditLogs_quiet fold filters scope limit offset (w : world St) :
  w_sched w = [] -> MatchesNothing scope = false ->
  ListAuditLogs fold filters scope limit offset w =
  (let matching := List.filter (audit_where fold filters scope (w_db w)) (audit_logs (w_db w)) in
   match page limit offset (sort_by (newest al_created_at) matching) with
   | Err e => (Err (Wrap "failed to list audit logs" e), w)
   | Ok l => (match scan_all scanAudit (List.map (with_actor (w_db w)) l) with
              | Ok logs => Ok (logs, length matching) | Err e => Err e end, w)
   end).
Proof.
  intros Hq Hm. unfold ListAuditLogs. rewrite Hm.
  rewrite (bind_step _ _ w (rows_count (audit_where fold filters scope (w_db w)) (audit_logs (w_db w))) w)
    by (unfold wrapping, mapping_err, query; rewrite stmt_quiet by done; by destruct w).
  unfold mbind, M_bind, wrapping, mapping_err. rewrite stmt_quiet by done.
  destruct (page limit offset _) as [l|e]; [|done]. replace (set_db (w_db w) w) with w by (by destruct w).
  unfold lift. by destruct (scan_all scanAudit _).
Qed.
End Facts.

(** ** Properties *)

(** C33: The retention sweep removes only what it may. Whatever the schedule, a sweep
    that fails has removed nothing; one that answers n removed exactly n entries,
    every one of them older than the cutoff and outside every hold active at that
    instant, oldest first, and as many as the batch allows - so an answer below the
    batch size means nothing deletable is left, and the caller's loop ends. A sweep
    asked to honour a holds table whose name is empty, malformed or does not resolve
    fails instead of running without it. *)
Theorem sweep_honours_holds {St} `{HasAuditLog St} `{PgxIdentifier} cutoff batchSize opts (w w' : world St) r :
  NoDup (List.map al_id (audit_logs (db_seen w))) ->
  DeleteAuditLogsBefore cutoff batchSize opts w = (r, w') ->
  let f := newAuditSweepFilter opts in
  let before := audit_logs (db_seen w) in
  let after := audit_logs (w_db w') in
  match r with
  | Err _ => w_db w' = w_db w \/ w_db w' = db_seen w
  | Ok n => exists table hs, exemption f = Ok table /\ holds_of table (db_seen w) = Ok hs /\
      (holdTableSet f = true -> exists t, quoteAuditTable (holdTable f) = Ok t /\ legal_holds t (db_seen w) = Ok hs) /\
      (forall x, In x after -> In x before) /\
      (forall x, In x before -> ~ In x after -> (al_created_at x < cutoff)%Z /\ held hs x = false /\
         forall y, In y after -> sweepable cutoff hs y = true -> (al_created_at x <= al_created_at y)%Z) /\
      (Z.of_nat (length before) - Z.of_nat (length after) = n)%Z /\
      n = Z.min batchSize (Z.of_nat (rows_count (sweepable cutoff hs) before)) /\
      ((n < batchSize)%Z -> forall y, In y after -> sweepable cutoff hs y = false) /\
      the_db (w_db w') = the_db (db_seen w)
  end.
Proof.
  intros Hu E f before after. destruct (Delete_inv _ _ _ _ _ _ E) as [(e & -> & Hd)|(table & hs & Ee & Eh & Hb & Hr)]; [done|].
  cbv zeta in Hr. destruct Hr as [-> Hd]. fold before in Hd. fold before. exists table, hs.
  destruct (batch_rows cutoff hs (Z.to_nat batchSize) before Hu) as (Hp & Hold & Hsw). set (doomed := sweep_batch _ _ _ _) in *.
  assert (Ha : after = rows_del (fun x => mem (al_id x) doomed) before) by (unfold after; by rewrite Hd, audit_put).
  assert (Hin : forall x, In x after <-> In x before /\ mem (al_id x) doomed = false) by (intros x; by rewrite Ha, in_rows_del).
  assert (Hn : Z.of_nat (rows_count (fun x => mem (al_id x) doomed) before) = Z.min batchSize (Z.of_nat (rows_count (sweepable cutoff hs) before))).
  { unfold rows_count at 1. rewrite (Permutation_length Hp), length_firstn, length_sort_by. unfold rows_count. lia. }
  split; [done|]. split; [done|]. split.
  { intros Hs. destruct (exemption_set _ _ Ee Hs) as (t & Et & ->). by exists t. }
  split; [intros x; rewrite Hin; tauto|]. split.
  { intros x Hx Hnx. assert (Hm : mem (al_id x) doomed = true).
    { destruct (mem (al_id x) doomed) eqn:Em; [done|]. destruct Hnx. by apply Hin. }
    pose proof (Hsw x Hx Hm) as Hs. unfold sweepable in Hs. apply andb_prop in Hs as [Ha1%Z.ltb_lt Ha2%negb_true_iff].
    split; [done|]. split; [done|]. intros y [Hy Hmy]%Hin Hsy. by apply Hold. }
  split.
  { rewrite Ha. pose proof (count_split (fun _ => true) (fun x => mem (al_id x) doomed) before) as Hc.
    rewrite !rows_count_all in Hc by done. unfold rows_count. lia. }
  split; [done|]. split; [|by rewrite Hd, audit_db].
  intros Hlt y [Hy Hmy]%Hin. destruct (sweepable cutoff hs y) eqn:Es; [|done]. exfalso.
  pose proof (count_split (sweepable cutoff hs) (fun x => mem (al_id x) doomed) before) as Hc.
  rewrite (rows_count_all (sweepable cutoff hs) (List.filter _ before)) in Hc by (intros x [Hx Hm]%filter_In; by apply Hsw).
  assert (Hiy : In y (List.filter (sweepable cutoff hs) (rows_del (fun x => mem (al_id x) doomed) before))).
  { apply filter_In. split; [|done]. by apply in_rows_del. }
  unfold rows_count in *. destruct (List.filter (sweepable cutoff hs) (rows_del _ _)); [done|]. simpl in Hc. lia.
Qed.

(** The audit log's readers never leave the caller's tenants. Whatever the
    schedule, every entry listed, fetched or streamed belongs to an organization the
    scope admits; and the whole answer - rows, count, not-found - is computed from those
    entries alone: with nobody interfering it is the same when every other entry is
    removed from the table. A scope that admits nothing reads nothing. *)
Theorem audit_reads_confined {St} `{HasAuditLog St} fold filters scope limit offset logID from to_ (w w' : world St) :
  (forall logs total, ListAuditLogs fold filters scope limit offset w = (Ok (logs, total), w') ->
     Forall (fun l => admits scope (OrganizationID l) = true) logs) /\
  (forall log, GetAuditLog logID scope w = (Ok log, w') -> admits scope (OrganizationID log) = true /\ ID log = logID) /\
  (forall rows, StreamAuditLogs from to_ scope w = (Ok rows, w') ->
     Forall (fun row => admits scope (al_organization_id (fst row)) = true) rows) /\
  (w_sched w = [] ->
     let w0 := set_db (confined scope (w_db w)) w in
     fst (ListAuditLogs fold filters scope limit offset w) = fst (ListAuditLogs fold filters scope limit offset w0) /\
     fst (GetAuditLog logID scope w) = fst (GetAuditLog logID scope w0) /\
     fst (StreamAuditLogs from to_ scope w) = fst (StreamAuditLogs from to_ scope w0)) /\
  (MatchesNothing scope = true ->
     ListAuditLogs fold filters scope limit offset w = (Ok ([], 0%nat), w) /\
     GetAuditLog logID scope w = (Err (notFound "audit log by id"), w)).
Proof.
  split_and!.
  - intros logs total E. unfold ListAuditLogs in E. destruct (MatchesNothing scope); [injection E as <- _ _; constructor|].
    apply bind_Ok in E as (n & w1 & _ & E). apply bind_Ok in E as (rows & w2 & E2%wrapping_Ok & E).
    apply bind_Ok in E as (l & w3 & [El _]%lift_Ok & [= <- _ _]). apply stmt_inv in E2 as (_ & [(a & [= <-] & E2)|(e & [=] & _)]).
    destruct (page limit offset _) as [pg|] eqn:Ep; [|done]. injection E2 as <- _.
    apply scan_all_in in El as [El _]. rewrite Forall_forall. intros x Hx%list_elem_of_In.
    destruct (El x Hx) as ([r u] & Hr & Es). apply scanAudit_Ok in Es as (-> & _).
    apply in_map_iff in Hr as (r' & [= <- _] & Hr). unfold page in Ep. destruct (_ <? _)%Z; [done|]. destruct (_ <? _)%Z; [done|].
    injection Ep as <-. apply in_firstn, in_skipn, in_sort_by, filter_In in Hr as [_ Hr]. by apply andb_prop in Hr as [? _].
  - intros log E. unfold GetAuditLog in E. destruct (MatchesNothing scope); [done|].
    apply bind_Ok in E as (row & w1 & E1%wrapping_Ok & E). apply query_inv in E1 as (_ & [[= ->]|[e [=]]] & _).
    destruct (head _) as [r|] eqn:Eh; [|done]. apply lift_Ok in E as [E _]. apply scanAudit_Ok in E as (-> & -> & _).
    apply head_Some in Eh as [l' Eh]. assert (Hr : In r (r :: l')) by (by left). rewrite <- Eh in Hr.
    apply filter_In in Hr as [_ Hr]. apply andb_prop in Hr as [Hi%seqb_true Ha]. done.
  - intros rows E. apply wrapping_Ok, query_inv in E as (_ & [[= ->]|[e [=]]] & _).
    rewrite Forall_forall. intros x Hx%list_elem_of_In. apply in_map_iff in Hx as (r & <- & Hr).
    apply in_sort_by, filter_In in Hr as [_ Hr]. by apply andb_prop in Hr as [_ ?].
  - intros Hq w0. set (s := w_db w). assert (Hs0 : w_db w0 = confined scope s) by done.
    assert (Hd : the_db (w_db w0) = the_db s) by (rewrite Hs0; apply audit_db).
    assert (Hl : audit_logs (w_db w0) = List.filter (fun r => admits scope (al_organization_id r)) (audit_logs s))
      by (rewrite Hs0; apply audit_put).
    assert (Hwa : forall r, with_actor (w_db w0) r = with_actor s r) by (intros r; unfold with_actor; by rewrite Hd).
    split_and!.
    + destruct (MatchesNothing scope) eqn:Em; [unfold ListAuditLogs; by rewrite Em|].
      rewrite !ListAuditLogs_quiet by done. fold s. cbv zeta. rewrite Hl.
      rewrite (filter_admits scope (audit_where fold filters scope (w_db w0)) (audit_where fold filters scope s)).
      * destruct (page _ _ _) as [l|]; [|done]. by rewrite (List.map_ext _ _ Hwa).
      * intros r Hr. by apply andb_prop in Hr as [? _].
      * intros r. unfold audit_where. by rewrite Hd.
    + unfold GetAuditLog. destruct (MatchesNothing scope); [done|]. unfold mbind, M_bind, wrapping, mapping_err, query.
      rewrite !stmt_quiet by done. fold s. rewrite Hl.
      rewrite (filter_admits scope _ (fun r => (al_id r =s logID) && admits scope (al_organization_id r))); [|by intros r [_ ?]%andb_prop|done].
      destruct (head _); done.
    + unfold StreamAuditLogs, wrapping, mapping_err, query. rewrite !stmt_quiet by done. fold s. rewrite Hl. cbn [fst].
      rewrite (filter_admits scope _ (fun r => (from <=? al_created_at r)%Z && (al_created_at r <=? to_)%Z && admits scope (al_organization_id r)));
        [|by intros r [_ ?]%andb_prop|done]. by rewrite (List.map_ext _ _ Hwa).
  - intros Hm. unfold ListAuditLogs, GetAuditLog. by rewrite Hm.
Qed.

(** Paging covers the matching entries: with nobody interfering and every metadata
    document an object, enough consecutive pages of a positive size list each matching
    entry exactly once, and every page reports how many there are. *)
Theorem ListAuditLogs_pages {St} `{HasAuditLog St} fold filters scope size pages (w : world St) :
  w_sched w = [] -> MatchesNothing scope = false -> (0 < size)%nat ->
  (forall r, In r (audit_logs (w_db w)) -> is_ok (read_metadata (al_metadata r)) = true) ->
  let matching := List.filter (audit_where fold filters scope (w_db w)) (audit_logs (w_db w)) in
  (length matching <= pages * size)%nat ->
  exists answers,
    List.map (fun i => ListAuditLogs fold filters scope (Z.of_nat size) (Z.of_nat (i * size)) w) (seq 0 pages) =
      List.map (fun logs => (Ok (logs, length matching), w)) answers /\
    List.map ID (List.concat answers) ≡ₚ List.map al_id matching.
Proof.
  intros Hq Hm Hsz Hok matching Hlen. set (S := sort_by (newest al_created_at) matching).
  assert (HS : forall r, In r S -> is_ok (read_metadata (al_metadata r)) = true).
  { intros r Hr. apply Hok. apply in_sort_by, filter_In in Hr as [? _]. done. }
  assert (Hscan : forall l, (forall r, In r l -> In r S) -> exists logs,
            scan_all scanAudit (List.map (with_actor (w_db w)) l) = Ok logs /\ List.map ID logs = List.map al_id l).
  { induction l as [|r l IH]; intros Hl; [by exists []|]. destruct IH as (logs & E & Ei); [intros x Hx; apply Hl; by right|].
    destruct (scanAudit_total r (actor (the_db (w_db w)) r) (HS r (Hl r (or_introl eq_refl)))) as (log & Er & Ed).
    exists (log :: logs). cbn [List.map scan_all]. unfold with_actor at 1. rewrite Er, E. split; [done|]. cbn [List.map]. by rewrite Ed, Ei. }
  assert (Hall : forall n start, exists answers,
    List.map (fun i => ListAuditLogs fold filters scope (Z.of_nat size) (Z.of_nat (i * size)) w) (seq start n) =
      List.map (fun logs => (Ok (logs, length matching), w)) answers /\
    List.map ID (List.concat answers) = List.map al_id (firstn (n * size) (skipn (start * size) S))).
  { induction n as [|n IH]; intros start; [by exists []|]. destruct (IH (Datatypes.S start)) as (answers & E & Ei).
    destruct (Hscan (firstn size (skipn (start * size) S))) as (logs & El & Eil).
    { intros r Hr. by apply in_firstn, in_skipn in Hr. }
    exists (logs :: answers). cbn [seq List.map List.concat]. rewrite E. split.
    - f_equal. rewrite ListAuditLogs_quiet by done. cbv zeta. fold matching S. unfold page.
      destruct (Z.ltb_spec (Z.of_nat size) 0); [lia|]. destruct (Z.ltb_spec (Z.of_nat (start * size)) 0); [lia|].
      rewrite !Nat2Z.id. by rewrite El.
    - rewrite List.map_app, Ei, Eil, <- List.map_app. f_equal.
      replace (Datatypes.S start * size)%nat with (size + start * size)%nat by lia. rewrite <- skipn_skipn.
      replace (Datatypes.S n * size)%nat with (size + n * size)%nat by lia. symmetry. apply firstn_add. }
  destruct (Hall pages 0%nat) as (answers & E & Ei). exists answers. split; [done|]. rewrite Ei. change (skipn (0 * size) S) with S.
  rewrite firstn_all2 by (unfold S; by rewrite length_sort_by). apply Permutation_map, sort_by_perm.
Qed.

(** The entry as a later reader sees it: without the caller's transient fields. *)
Definition stored (log : AuditLog) : AuditLog :=
  {| ID := ID log; UserID := UserID log; OrganizationID := OrganizationID log; Action := Action log; ResourceType := ResourceType log;
     ResourceID := ResourceID log; Metadata := Metadata log; IPAddress := IPAddress log; CreatedAt := CreatedAt log;
     ActorEmail := ActorEmail log; UserEmail := None; UserName := None |}.

(** An entry keeps its attribution. Whatever the schedule, an entry
    [CreateAuditLog] reports as written carries the address the caller gave or else the
    actor's at that instant; and as long as the entry stays in the table, whatever
    becomes of the users, reading it by id under a scope that admits its organization
    returns exactly what was written. *)
Theorem created_entry_reads_back {St} `{HasAuditLog St} uuid marshal log log' scope (w w1 w2 : world St) :
  match Metadata log with Some o => forall j, marshal o = Ok j -> decode_map j = Ok (Some o) | None => True end ->
  CreateAuditLog uuid marshal log w = (Ok log', w1) ->
  w_sched w2 = [] -> NoDup (List.map al_id (audit_logs (w_db w2))) ->
  (forall r, In r (audit_logs (w_db w1)) -> In r (audit_logs (w_db w2))) ->
  admits scope (OrganizationID log) = true ->
  GetAuditLog (ID log') scope w2 = (Ok (stored log'), w2) /\
  ActorEmail log' = email_at_write (the_db (db_seen w)) (ActorEmail log) (UserID log) /\
  stored log' = stored {| ID := uuid (w_seed w); UserID := UserID log; OrganizationID := OrganizationID log; Action := Action log;
    ResourceType := ResourceType log; ResourceID := ResourceID log; Metadata := Metadata log; IPAddress := IPAddress log;
    CreatedAt := w_now w; ActorEmail := ActorEmail log'; UserEmail := None; UserName := None |}.
Proof.
  intros Hlaw E Hq Hu Hkeep Ha. unfold CreateAuditLog in E.
  rewrite (bind_step (uuid_New uuid) _ w (uuid (w_seed w)) (set_seed (S (w_seed w)) w) eq_refl) in E.
  rewrite (bind_step time_Now _ (set_seed (S (w_seed w)) w) (w_now w) _ eq_refl) in E.
  apply bind_Ok in E as (m & w3 & [Em ->]%lift_Ok & E). apply bind_Ok in E as (row & w4 & E4%wrapping_Ok & [= <- <-]).
  apply stmt_inv in E4 as (_ & [(a & [= <-] & E4)|(e & [=] & _)]). change (db_seen (set_seed (S (w_seed w)) w)) with (db_seen w) in E4.
  unfold insert_log in E4. destruct (existsb _ _); [done|]. injection E4 as <- E4. cbn [ID ActorEmail al_actor_email].
  split; [|done].
  assert (Hin : In {| al_id := uuid (w_seed w); al_user_id := UserID log; al_organization_id := OrganizationID log; al_action := Action log;
                  al_resource_type := ResourceType log; al_resource_id := ResourceID log; al_metadata := m;
                  al_ip_address := IPAddress log; al_created_at := w_now w;
                  al_actor_email := email_at_write (the_db (db_seen w)) (ActorEmail log) (UserID log) |} (audit_logs (w_db w2))).
  { apply Hkeep. rewrite <- E4, audit_put. apply in_app_iff. right. by left. }
  unfold GetAuditLog. destruct (MatchesNothing scope) eqn:Em0; [by rewrite (MatchesNothing_admits scope Em0) in Ha|].
  rewrite (bind_step _ _ w2 (Some {| al_id := uuid (w_seed w); al_user_id := UserID log; al_organization_id := OrganizationID log; al_action := Action log;
                  al_resource_type := ResourceType log; al_resource_id := ResourceID log; al_metadata := m;
                  al_ip_address := IPAddress log; al_created_at := w_now w;
                  al_actor_email := email_at_write (the_db (db_seen w)) (ActorEmail log) (UserID log) |}) w2).
  - unfold lift, scanAudit. cbn [al_metadata]. assert (Hs : read_metadata m = Ok (Metadata log)).
    { unfold marshal_metadata in Em. destruct (Metadata log) as [o|]; [|by injection Em as <-].
      destruct (marshal o) as [j|] eqn:Ej; [|done]. injection Em as <-. unfold read_metadata. by rewrite (Hlaw j eq_refl). }
    by rewrite Hs.
  - unfold wrapping, mapping_err, query. rewrite stmt_quiet by done. replace (set_db (w_db w2) w2) with w2 by (by destruct w2).
    do 2 f_equal. apply (head_unique _ _ (fun x => admits scope (al_organization_id x)) Hu Hin). cbn. by rewrite seqb_refl, Ha.
Qed.

(** A holds table accepted at start-up is one the sweep can run with. *)
Theorem verified_holds_sweep {St} `{HasAuditLog St} `{PgxIdentifier} table cutoff batchSize (w w1 : world St) :
  VerifyLegalHoldTable true table w = (Ok tt, w1) -> w_sched w1 = [] -> (0 <= batchSize)%Z ->
  exists n w', DeleteAuditLogsBefore cutoff batchSize [Some (WithLegalHolds table)] w1 = (Ok n, w').
Proof.
  intros E Hq Hb. unfold VerifyLegalHoldTable in E. cbn [negb] in E. apply bind_Ok in E as (q & w2 & [Eq ->]%lift_Ok & E).
  apply wrapping_Ok, stmt_inv in E as (_ & [(a & _ & E)|(e & [=] & _)]).
  destruct (legal_holds q (db_seen w)) as [hs|] eqn:Eh; [|done]. injection E as _ E. rewrite E in Eh.
  assert (Ex : exemption (newAuditSweepFilter [Some (WithLegalHolds table)]) = Ok (Some q)).
  { unfold exemption. simpl. destruct (String.eqb_spec table "") as [->|Hne]; [by unfold quoteAuditTable in Eq|]. by rewrite Eq. }
  unfold DeleteAuditLogsBefore. rewrite (bind_step _ _ w1 (Some q) w1) by (unfold lift; by rewrite Ex). eexists _, _.
  unfold mbind, M_bind, wrapping, mapping_err. rewrite stmt_quiet by done. cbn [holds_of]. rewrite Eh. cbn.
  destruct (Z.ltb_spec batchSize 0); [lia|]. reflexivity.
Qed.

(** The clauses of the filters given, each with the placeholder of its own argument. *)
Definition given_clauses (filters : AuditFilters) : list (string * sql_arg) :=
  omap (fun cv => match snd cv with Some a => Some (fst cv, a) | None => None end) (filter_clauses filters).

Fixpoint clause_text (k : nat) (l : list (string * sql_arg)) : string :=
  match l with [] => "" | (clause, _) :: l => clause +:+ pretty k +:+ clause_text (S k) l end.

Lemma and_filters_text clauses b :
  let given := omap (fun cv => match snd cv with Some a => Some (fst cv, a) | None => None end) clauses in
  fold_left (fun b cv => and_filter (fst cv) (snd cv) b) clauses b =
  {| b_count := b_count b +:+ clause_text (b_param b) given; b_query := b_query b +:+ clause_text (b_param b) given;
     b_args := b_args b ++ List.map snd given; b_param := (b_param b + length given)%nat |}.
Proof.
  revert b. induction clauses as [|[c [a|]] clauses IH]; intros b; simpl.
  - destruct b. simpl. rewrite app_nil_r. f_equal; [by rewrite sapp_nil|by rewrite sapp_nil|lia].
  - rewrite IH. simpl. rewrite <- !sapp_assoc, <- app_assoc, <- Nat.add_succ_comm. done.
  - apply IH.
Qed.

(** The count and the page are asked of the same rows: both queries end in one WHERE
    text, the scope's predicate and then a clause per filter given, and the n-th
    placeholder of that text is bound to the n-th argument. *)
Theorem audit_queries_agree filters scope limit offset :
  let (clause, scopeArgs) := OrgScope_SQL scope "al.organization_id" 1 in
  let W := " AND " +:+ clause +:+ clause_text (length scopeArgs + 1) (given_clauses filters) in
  let bound := scopeArgs ++ List.map snd (given_clauses filters) in
  buildListAuditLogsQueries filters scope limit offset =
  ((count_base +:+ W, bound),
   (list_base +:+ W +:+ " ORDER BY al.created_at DESC LIMIT $" +:+ pretty (length bound + 1)%nat +:+ " OFFSET $" +:+ pretty (length bound + 2)%nat,
    bound ++ [ArgInt limit; ArgInt offset])).
Proof.
  unfold buildListAuditLogsQueries, andScope. cbn [length Nat.add]. destruct (OrgScope_SQL scope "al.organization_id" 1) as [clause scopeArgs].
  rewrite and_filters_text. cbn [b_count b_query b_args b_param app]. fold (given_clauses filters).
  assert (Hl : (length scopeArgs + 1 + length (given_clauses filters) = length (scopeArgs ++ List.map snd (given_clauses filters)) + 1)%nat)
    by (rewrite length_app, length_map; lia).
  rewrite Hl, <- !sapp_assoc, <- Nat.add_assoc. reflexivity.
Qed.
End Audit.

(** ** Witnesses *)

Module Example_audit.
Import Audit.

Record app := { a_db : DB; a_rows : list AuditRow; a_holds : string -> result (list LegalHold) }.

#[export] Instance app_HasDB : HasDB app.
Proof. refine {| the_db := a_db; put_db := fun d s => {| a_db := d; a_rows := a_rows s; a_holds := a_holds s |} |}; by try intros []. Defined.

#[export] Instance app_HasAuditLog : HasAuditLog app.
Proof.
  refine {| audit_logs := a_rows; put_audit := fun l s => {| a_db := a_db s; a_rows := l; a_holds := a_holds s |}; legal_holds := fun q s => a_holds s q |};
  done.
Defined.

Definition entry (id : string) (org : option string) (at_ : Z) : AuditRow :=
  {| al_id := id; al_user_id := Some "u1"; al_organization_id := org; al_action := "module.upload"; al_resource_type := None; al_resource_id := None;
     al_metadata := Some (JSObj []); al_ip_address := None; al_created_at := at_; al_actor_email := Some "a@x" |}.

(** A hold over the instants 20 to 30, and one that was released. *)
Definition ex_holds (q : string) : result (list LegalHold) :=
  if q =s quoted "legal_holds" then Ok [{| h_active := true; h_start_date := 20; h_end_date := 30 |}; {| h_active := false; h_start_date := 0; h_end_date := 99 |}]
  else Err no_relation.

Definition ex_user : User := {| u_ID := "u1"; u_Email := "a@x"; u_Name := "A"; u_OIDCSub := None; u_CreatedAt := 0; u_UpdatedAt := 0 |}.
Definition ex_app : app :=
  {| a_db := MkDB [] [ex_user] [] [] [] [];
     a_rows := [entry "e5" (Some "orgA") 50; entry "e2" (Some "orgB") 25; entry "e1" (Some "orgA") 10; entry "e4" None 40; entry "e3" (Some "orgA") 35];
     a_holds := ex_holds |}.
Definition ex_world : world app := quiet ex_app 60 60 0.

Definition ex_sweep (table : string) := DeleteAuditLogsBefore 45 2 [Some (WithLegalHolds table)] ex_world.

(** A batch of two steps over the held entry and takes the next ones. *)
Lemma sweep_honours_holds_witness :
  fst (ex_sweep "legal_holds") = Ok 2%Z /\ List.map al_id (audit_logs (w_db (snd (ex_sweep "legal_holds")))) = ["e5"; "e2"; "e4"] /\
  (exists table hs, exemption (newAuditSweepFilter [Some (WithLegalHolds "legal_holds")]) = Ok table /\ holds_of table ex_app = Ok hs).
Proof.
  split; [vm_compute; reflexivity|]. split; [vm_compute; reflexivity|].
  assert (Hu : NoDup (List.map al_id (audit_logs (db_seen ex_world)))) by (vm_compute; repeat constructor; set_solver).
  assert (E : DeleteAuditLogsBefore 45 2 [Some (WithLegalHolds "legal_holds")] ex_world = (Ok 2%Z, snd (ex_sweep "legal_holds"))) by (vm_compute; reflexivity).
  pose proof (sweep_honours_holds 45 2 [Some (WithLegalHolds "legal_holds")] ex_world _ _ Hu E) as (table & hs & H1 & H2 & _).
  exists table, hs. by split.
Defined.

Example sweep_fails_closed :
  fst (ex_sweep "") = Err (Plain "legal-hold table: WithLegalHolds was given an empty name") /\
  fst (ex_sweep "no_such_holds") = Err (Wrap "failed to delete audit logs before cutoff" no_relation).
Proof. split; vm_compute; reflexivity. Qed.

Lemma audit_reads_confined_witness :
  let scope := OrgScopeOrganizations ["orgA"] in
  let none := {| f_UserID := None; f_UserEmail := None; f_OrganizationID := None; f_Action := None; f_ResourceType := None; f_StartDate := None; f_EndDate := None |} in
  fst (GetAuditLog "e2" scope ex_world) = Err (notFound "audit log by id") /\
  fst (ListAuditLogs lower none scope 10 0 ex_world) = fst (ListAuditLogs lower none scope 10 0 (set_db (confined scope ex_app) ex_world)).
Proof.
  intros scope none. split; [vm_compute; reflexivity|].
  apply (audit_reads_confined lower none scope 10 0 "e2" 0 99 ex_world ex_world). reflexivity.
Defined.

Definition ex_log : AuditLog :=
  {| ID := ""; UserID := Some "u1"; OrganizationID := Some "orgA"; Action := "user.create"; ResourceType := None; ResourceID := None;
     Metadata := Some [("k", JSStr "v")]; IPAddress := None; CreatedAt := 0; ActorEmail := None; UserEmail := None; UserName := None |}.
Definition ex_marshal (o : object) : result json := Ok (JSObj o).
Definition ex_created := CreateAuditLog (fun _ => "new") ex_marshal ex_log ex_world.
(** The actor is deleted afterwards. *)
Definition ex_later : world app := quiet {| a_db := MkDB [] [] [] [] [] []; a_rows := a_rows (w_db (snd ex_created)); a_holds := ex_holds |} 99 99 0.

Lemma created_entry_reads_back_witness :
  exists log', fst ex_created = Ok log' /\ ActorEmail log' = Some "a@x" /\ GetAuditLog (ID log') (OrgScopeOrganizations ["orgA"]) ex_later = (Ok (stored log'), ex_later).
Proof.
  eexists. split; [vm_compute; reflexivity|]. split; [vm_compute; reflexivity|].
  apply (created_entry_reads_back (fun _ => "new") ex_marshal ex_log _ (OrgScopeOrganizations ["orgA"]) ex_world (snd ex_created) ex_later).
  - by intros j [= <-].
  - vm_compute. reflexivity.
  - reflexivity.
  - vm_compute. repeat constructor; set_solver.
  - done.
  - vm_compute. reflexivity.
Defined.

(** A name of 50 bytes is a table the sweep reads and [VerifyLegalHoldTable] accepts,
    but whose DDL the package refuses to render: its index name would be too long,
    and the grammar refuses it before it is truncated. *)
Example long_hold_table :
  let t := "legal_holds_of_the_compliance_department_of_europe" in
  is_ok (quoteAuditTable t) = true /\ is_ok (LegalHoldTableDDL t) = false.
Proof. split; vm_compute; reflexivity. Qed.
End Example_audit.
