(* ===== verification/OidcConfigRepo.v ===== *)
(** * OidcConfigRepo: identity/store/oidc_config_repository.go and models/oidc_config.go

    The stored identity providers: the table with its single active row, and the JSON
    documents a row carries (requested scopes, group mappings).

    A [json.RawMessage] is what the decoder makes of it. The columns every writer sets
    are not nullable in the model; [scopes] and [extra_config] are. A value decoded
    into an interface and encoded again ([via_any]: numbers pass through float64, keys
    are sorted) and Unicode case folding of member names are parameters. A document
    that names one list member twice is decoded as its last one. *)

From S2P Require Import Prelude Order Models Json OrgScope Db DbRel OrganizationRepo.

Module OidcConfig.

(** ** models/oidc_config.go *)

(** nil, empty, not JSON, JSON. *)
Inductive RawMessage := RawNil | RawBlank | RawInvalid | RawJSON (j : json).

Definition raw_len_zero (r : RawMessage) : bool := match r with RawNil | RawBlank => true | _ => false end.
Definition raw_parse (r : RawMessage) : result json :=
  match r with RawJSON j => Ok j | _ => Err (Plain "json: syntax error") end.

Record OIDCConfig := {
  ID : string; Name : string; ProviderType : string; IssuerURL : string; ClientID : string; ClientSecretCiphertext : string;
  RedirectURL : string; Scopes : RawMessage; IsActive : bool; ExtraConfig : RawMessage; CreatedAt : Z; UpdatedAt : Z;
  CreatedBy : option string; UpdatedBy : option string
}.

Definition with_extra (extra : RawMessage) (c : OIDCConfig) : OIDCConfig :=
  {| ID := ID c; Name := Name c; ProviderType := ProviderType c; IssuerURL := IssuerURL c; ClientID := ClientID c;
     ClientSecretCiphertext := ClientSecretCiphertext c; RedirectURL := RedirectURL c; Scopes := Scopes c; IsActive := IsActive c;
     ExtraConfig := extra; CreatedAt := CreatedAt c; UpdatedAt := UpdatedAt c; CreatedBy := CreatedBy c; UpdatedBy := UpdatedBy c |}.

Record groupMappingExtra := { GroupClaimName : string; GroupMappings : list OIDCGroupMapping; DefaultRole : string }.
Definition no_extra : groupMappingExtra := {| GroupClaimName := ""; GroupMappings := []; DefaultRole := "" |}.

Definition claim_key : string := "group_claim_name".
Definition mappings_key : string := "group_mappings".
Definition role_key : string := "default_role".
Definition extra_keys : list string := [claim_key; mappings_key; role_key].

Section Documents.
Context (foldName : string -> string) (via_any : json -> json).

Definition decode_mapping (j : json) : result OIDCGroupMapping :=
  match j with
  | JSNull => Ok {| gm_Group := ""; gm_Organization := ""; gm_Role := "" |}
  | JSObj o =>
      f ← decode_struct foldName ["group"; "organization"; "role"] o;
      Ok {| gm_Group := f "group"; gm_Organization := f "organization"; gm_Role := f "role" |}
  | _ => Err cannot_unmarshal
  end.

Definition decode_mappings (j : json) : result (list OIDCGroupMapping) :=
  match j with JSNull => Ok [] | JSArr l => scan_all decode_mapping l | _ => Err cannot_unmarshal end.

(** One member of the document into the struct; [null] leaves a string as it is. *)
Definition decode_extra_member (k : string) (v : json) (acc : groupMappingExtra) : result groupMappingExtra :=
  match field_of foldName extra_keys k with
  | None => Ok acc
  | Some f =>
      if f =s mappings_key then
        ms ← decode_mappings v;
        Ok {| GroupClaimName := GroupClaimName acc; GroupMappings := ms; DefaultRole := DefaultRole acc |}
      else
        match v with
        | JSNull => Ok acc
        | JSStr s =>
            Ok (if f =s claim_key
                then {| GroupClaimName := s; GroupMappings := GroupMappings acc; DefaultRole := DefaultRole acc |}
                else {| GroupClaimName := GroupClaimName acc; GroupMappings := GroupMappings acc; DefaultRole := s |})
        | _ => Err cannot_unmarshal
        end
  end.

Fixpoint decode_extra (o : object) (acc : groupMappingExtra) : result groupMappingExtra :=
  match o with
  | [] => Ok acc
  | (k, v) :: o => acc' ← decode_extra_member k v acc; decode_extra o acc'
  end.

Definition unmarshal_extra (r : RawMessage) : result groupMappingExtra :=
  j ← raw_parse r;
  match j with JSObj o => decode_extra o no_extra | JSNull => Ok no_extra | _ => Err cannot_unmarshal end.

(** An unreadable document answers the zero values. *)
Definition GetGroupMappingConfig (c : OIDCConfig) : string * list OIDCGroupMapping * string :=
  if raw_len_zero (ExtraConfig c) then ("", [], "")
  else
    match unmarshal_extra (ExtraConfig c) with
    | Err _ => ("", [], "")
    | Ok extra => (GroupClaimName extra, GroupMappings extra, DefaultRole extra)
    end.

(** A Go map as its members, without a second one of the same name: the last wins. *)
Definition map_set (k : string) (v : json) (m : object) : object := List.filter (fun kv => fst kv <>s k) m ++ [(k, v)].
Definition map_of (o : object) : object := fold_left (fun m kv => map_set (fst kv) (via_any (snd kv)) m) o [].

(** json.Marshal of a map: its members in the order of their names. *)
Definition by_member (x y : string * json) : bool := String.leb (fst x) (fst y).
Definition marshal_map (m : object) : json := JSObj (sort_by by_member m).

Definition encode_mapping (m : OIDCGroupMapping) : json :=
  JSObj [("group", JSStr (gm_Group m)); ("organization", JSStr (gm_Organization m)); ("role", JSStr (gm_Role m))].

(** Writing to the map the literal [null] decodes into panics. *)
Definition nil_map : error := Plain "panic: assignment to entry in nil map".

Definition SetGroupMappingConfig (c : OIDCConfig) (claimName : string) (mappings : list OIDCGroupMapping) (defaultRole : string)
    : result OIDCConfig :=
  existing ← (if raw_len_zero (ExtraConfig c) then Ok (Some [])
              else j ← raw_parse (ExtraConfig c);
                   match j with JSObj o => Ok (Some (map_of o)) | JSNull => Ok None | _ => Err cannot_unmarshal end);
  match existing with
  | None => Err nil_map
  | Some m =>
      let m := map_set claim_key (JSStr claimName) m in
      let m := map_set mappings_key (JSArr (List.map encode_mapping mappings)) m in
      let m := map_set role_key (JSStr defaultRole) m in
      Ok (with_extra (RawJSON (marshal_map m)) c)
  end.

Definition default_scopes : list string := ["openid"; "email"; "profile"].

Definition unmarshal_strings (r : RawMessage) : result (list string) :=
  j ← raw_parse r;
  match j with JSArr l => scan_all decode_string l | JSNull => Ok [] | _ => Err cannot_unmarshal end.

(** The defaults come back beside the error. *)
Definition GetScopes (c : OIDCConfig) : list string * option error :=
  match (if raw_len_zero (Scopes c) then Ok [] else unmarshal_strings (Scopes c)) with
  | Err err => (default_scopes, Some (Wrap "failed to parse oidc config scopes" err))
  | Ok [] => (default_scopes, None)
  | Ok scopes => (scopes, None)
  end.
End Documents.

(** ** The table *)

Record ConfigRow := {
  oc_id : string; oc_name : string; oc_provider_type : string; oc_issuer_url : string; oc_client_id : string;
  oc_client_secret_encrypted : string; oc_redirect_url : string; oc_scopes : option json; oc_is_active : bool;
  oc_extra_config : option json; oc_created_at : Z; oc_updated_at : Z; oc_created_by : option string; oc_updated_by : option string
}.

Class HasOidcConfig (St : Type) := {
  oidc_config : St -> list ConfigRow;
  put_oidc : list ConfigRow -> St -> St;
  oidc_put : forall l s, oidc_config (put_oidc l s) = l
}.

(** A document bound to a jsonb parameter. *)
Definition to_jsonb (r : RawMessage) : result (option json) :=
  match r with
  | RawNil => Ok None
  | RawJSON j => Ok (Some j)
  | _ => Err (Plain "invalid input syntax for type json")
  end.

(** idx_oidc_config_single_active *)
Definition single_active (rows : list ConfigRow) : bool := (length (List.filter oc_is_active rows) <=? 1)%nat.

Definition insert_config (c : OIDCConfig) (rows : list ConfigRow) : result (list ConfigRow) :=
  scopes ← to_jsonb (Scopes c);
  extra ← to_jsonb (ExtraConfig c);
  let row := {| oc_id := ID c; oc_name := Name c; oc_provider_type := ProviderType c; oc_issuer_url := IssuerURL c; oc_client_id := ClientID c;
                oc_client_secret_encrypted := ClientSecretCiphertext c; oc_redirect_url := RedirectURL c; oc_scopes := scopes;
                oc_is_active := IsActive c; oc_extra_config := extra; oc_created_at := CreatedAt c; oc_updated_at := UpdatedAt c;
                oc_created_by := CreatedBy c; oc_updated_by := UpdatedBy c |} in
  if existsb (fun r => oc_id r =s ID c) rows then Err unique_violation
  else if single_active (rows ++ [row]) then Ok (rows ++ [row]) else Err unique_violation.

Definition set_active (active : bool) (now : Z) (r : ConfigRow) : ConfigRow :=
  {| oc_id := oc_id r; oc_name := oc_name r; oc_provider_type := oc_provider_type r; oc_issuer_url := oc_issuer_url r;
     oc_client_id := oc_client_id r; oc_client_secret_encrypted := oc_client_secret_encrypted r; oc_redirect_url := oc_redirect_url r;
     oc_scopes := oc_scopes r; oc_is_active := active; oc_extra_config := oc_extra_config r; oc_created_at := oc_created_at r;
     oc_updated_at := now; oc_created_by := oc_created_by r; oc_updated_by := oc_updated_by r |}.

Definition set_extra (extra : option json) (now : Z) (r : ConfigRow) : ConfigRow :=
  {| oc_id := oc_id r; oc_name := oc_name r; oc_provider_type := oc_provider_type r; oc_issuer_url := oc_issuer_url r;
     oc_client_id := oc_client_id r; oc_client_secret_encrypted := oc_client_secret_encrypted r; oc_redirect_url := oc_redirect_url r;
     oc_scopes := oc_scopes r; oc_is_active := oc_is_active r; oc_extra_config := extra; oc_created_at := oc_created_at r;
     oc_updated_at := now; oc_created_by := oc_created_by r; oc_updated_by := oc_updated_by r |}.

(** UPDATE oidc_config SET is_active = active, updated_at = now WHERE p *)
Definition activate_where (p : ConfigRow -> bool) (active : bool) (now : Z) (rows : list ConfigRow) : result (nat * list ConfigRow) :=
  let rows' := rows_upd p (set_active active now) rows in
  if single_active rows' then Ok (rows_count p rows, rows') else Err unique_violation.

(** [oidcConfigColumns]: a NULL extra_config reads as the empty object, NULL scopes do
    not scan. *)
Definition scan_config (r : ConfigRow) : result OIDCConfig :=
  match oc_scopes r with
  | None => Err (Plain "sql: Scan error: unsupported Scan, storing driver.Value type <nil>")
  | Some scopes =>
      Ok {| ID := oc_id r; Name := oc_name r; ProviderType := oc_provider_type r; IssuerURL := oc_issuer_url r; ClientID := oc_client_id r;
            ClientSecretCiphertext := oc_client_secret_encrypted r; RedirectURL := oc_redirect_url r; Scopes := RawJSON scopes;
            IsActive := oc_is_active r; ExtraConfig := RawJSON (default (JSObj []) (oc_extra_config r)); CreatedAt := oc_created_at r;
            UpdatedAt := oc_updated_at r; CreatedBy := oc_created_by r; UpdatedBy := oc_updated_by r |}
  end.

Section Repository.
Context {St : Type} `{HasOidcConfig St}.

Definition on_configs {A} (f : list ConfigRow -> result (A * list ConfigRow)) : M St A :=
  stmt (fun s => match f (oidc_config s) with Ok (a, rows) => Ok (a, put_oidc rows s) | Err e => Err e end).

Definition insert_stmt (c : OIDCConfig) : M St unit :=
  on_configs (fun rows => match insert_config c rows with Ok rows' => Ok (tt, rows') | Err e => Err e end).

Definition deactivateAllOIDCConfigsTx : M St unit :=
  now ← time_Now;
  wrapping "failed to deactivate oidc configs" (on_configs (activate_where (fun _ => true) false now));;
  mret tt.

Definition CreateOIDCConfig (config : OIDCConfig) : M St unit :=
  if negb (IsActive config) then wrapping "failed to create oidc config" (insert_stmt config)
  else
    tx "failed to begin transaction creating active oidc config" "failed to commit active oidc config creation" (
      deactivateAllOIDCConfigsTx;;
      wrapping "failed to create active oidc config" (insert_stmt config)).

Definition get_config (msg what : string) (q : list ConfigRow -> list ConfigRow) : M St OIDCConfig :=
  row ← wrapping msg (query (fun s => head (q (oidc_config s))));
  match row with
  | None => throw (notFound what)
  | Some r => lift (wrap_err msg (scan_config r))
  end.

Definition GetActiveOIDCConfig : M St OIDCConfig :=
  get_config "failed to get active oidc config" "active oidc config" (fun rows => sort_by (newest oc_updated_at) (List.filter oc_is_active rows)).

Definition GetOIDCConfig (id : string) : M St OIDCConfig :=
  get_config "failed to get oidc config" "oidc config by id" (List.filter (fun r => oc_id r =s id)).

Definition ListOIDCConfigs : M St (list OIDCConfig) :=
  rows ← wrapping "failed to list oidc configs" (query (fun s => sort_by (newest oc_created_at) (oidc_config s)));
  lift (wrap_err "failed to list oidc configs" (scan_all scan_config rows)).

Definition DeleteOIDCConfig (id : string) : M St unit :=
  n ← wrapping "failed to delete oidc config" (on_configs (fun rows =>
    Ok (rows_count (fun r => oc_id r =s id) rows, rows_del (fun r => oc_id r =s id) rows)));
  requireRow n "oidc config by id".

Definition UpdateOIDCConfigExtraConfig (id : string) (extraConfig : RawMessage) : M St unit :=
  now ← time_Now;
  n ← wrapping "failed to update oidc config extra_config" (on_configs (fun rows =>
    extra ← to_jsonb extraConfig;
    Ok (rows_count (fun r => oc_id r =s id) rows, rows_upd (fun r => oc_id r =s id) (set_extra extra now) rows)));
  requireRow n "oidc config by id".

Definition DeactivateAllOIDCConfigs : M St Z :=
  now ← time_Now;
  n ← wrapping "failed to deactivate oidc configs" (on_configs (activate_where (fun _ => true) false now));
  affectedRows n.

Definition ActivateOIDCConfig (id : string) : M St unit :=
  tx "failed to begin transaction activating oidc config" "failed to commit activation of oidc config" (
    deactivateAllOIDCConfigsTx;;
    now ← time_Now;
    n ← wrapping "failed to activate oidc config" (on_configs (activate_where (fun r => oc_id r =s id) true now));
    requireRow n "oidc config by id").
End Repository.

(** ** Lemmas *)

Definition config_wf (rows : list ConfigRow) : Prop := NoDup (List.map oc_id rows) /\ single_active rows = true.

Definition same_shape (g : ConfigRow -> ConfigRow) : Prop := forall r, oc_id (g r) = oc_id r.

Lemma ids_upd p g rows : same_shape g -> List.map oc_id (rows_upd p g rows) = List.map oc_id rows.
Proof. intros Hg. unfold rows_upd. rewrite List.map_map. apply List.map_ext. intros r. destruct (p r); [apply Hg|done]. Qed.

(** An update that sets no flag keeps the active rows as they are. *)
Lemma active_upd p g rows : (forall r, oc_is_active (g r) = oc_is_active r) ->
  length (List.filter oc_is_active (rows_upd p g rows)) = length (List.filter oc_is_active rows).
Proof.
  intros Hg. unfold rows_upd. induction rows as [|r rows IH]; [done|]. simpl.
  assert (E : oc_is_active (if p r then g r else r) = oc_is_active r) by (destruct (p r); [apply Hg|done]).
  rewrite E. destruct (oc_is_active r); simpl; by rewrite IH.
Qed.

Lemma active_del p rows : (length (List.filter oc_is_active (List.filter p rows)) <= length (List.filter oc_is_active rows))%nat.
Proof. induction rows as [|r rows IH]; [done|]. simpl. destruct (p r); simpl; destruct (oc_is_active r); simpl; lia. Qed.

Lemma count_ids id p g rows : same_shape g -> rows_count (fun r => oc_id r =s id) (rows_upd p g rows) = rows_count (fun r => oc_id r =s id) rows.
Proof.
  intros Hg. unfold rows_count, rows_upd. induction rows as [|r rows IH]; [done|]. simpl.
  assert (E : oc_id (if p r then g r else r) = oc_id r) by (destruct (p r); [apply Hg|done]).
  rewrite E. destruct (oc_id r =s id); simpl; by rewrite IH.
Qed.

Lemma deactivated now rows : List.filter oc_is_active (rows_upd (fun _ => true) (set_active false now) rows) = [].
Proof. induction rows as [|r rows IH]; [done|]. simpl. exact IH. Qed.

(** Deactivate all, then activate one. *)
Lemma activated id now now' rows :
  List.map oc_id (List.filter oc_is_active
    (rows_upd (fun r => oc_id r =s id) (set_active true now') (rows_upd (fun _ => true) (set_active false now) rows))) =
  List.map oc_id (List.filter (fun r => oc_id r =s id) rows).
Proof.
  induction rows as [|r rows IH]; [done|]. simpl. destruct (oc_id r =s id) eqn:E; simpl; [by rewrite IH|exact IH].
Qed.

Lemma only_id id rows : NoDup (List.map oc_id rows) -> (length (List.filter (fun r => oc_id r =s id) rows) <= 1)%nat /\
  (rows_count (fun r => oc_id r =s id) rows <> 0%nat -> List.map oc_id (List.filter (fun r => oc_id r =s id) rows) = [id]).
Proof.
  unfold rows_count. induction rows as [|r rows IH]; [by split; [simpl; lia|]|]. intros Hu. inversion Hu as [|? ? Hni Hu']; subst.
  destruct (IH Hu') as [IH1 IH2]. simpl. destruct (String.eqb_spec (oc_id r) id) as [E|Hne]; [|by split].
  assert (Hnil : List.filter (fun r => oc_id r =s id) rows = []).
  { destruct (List.filter _ rows) as [|x l] eqn:Ef; [done|]. destruct Hni. apply list_elem_of_In.
    assert (Hx : In x (x :: l)) by (by left). rewrite <- Ef in Hx. apply filter_In in Hx as [Hx Hi%seqb_true].
    rewrite E, <- Hi. by apply in_map. }
  rewrite Hnil. simpl. split; [lia|]. intros _. by rewrite E.
Qed.

Lemma insert_config_wf c rows rows' : NoDup (List.map oc_id rows) -> insert_config c rows = Ok rows' ->
  config_wf rows' /\ (IsActive c = true -> List.filter oc_is_active rows = [] -> List.map oc_id (List.filter oc_is_active rows') = [ID c]).
Proof.
  intros Hu E. unfold insert_config in E. destruct (to_jsonb (Scopes c)) as [sc|]; [|done]. destruct (to_jsonb (ExtraConfig c)) as [ex|]; [|done].
  cbn in E. destruct (existsb _ _) eqn:Ex; [done|]. destruct (single_active _) eqn:Es; [|done]. injection E as <-.
  split; [split; [|done]|].
  - apply NoDup_map_snoc; [done|]. intros r Hr. rewrite existsb_none in Ex. specialize (Ex r Hr). by apply seqb_false in Ex.
  - intros Ha Hn. rewrite List.filter_app, Hn. simpl. by rewrite Ha.
Qed.

Lemma bind_err {St A B} (m : M St A) (k : A -> M St B) w e w1 : m w = (Err e, w1) -> (m ≫= k) w = (Err e, w1).
Proof. unfold mbind, M_bind. by intros ->. Qed.

Section Facts.
Context {St : Type} `{HasOidcConfig St}.

Definition keeps_config (s s' : St) : Prop := config_wf (oidc_config s) -> config_wf (oidc_config s').

#[export] Instance keeps_config_preorder : PreOrder keeps_config.
Proof. split; [by intros ??|]. unfold keeps_config. intros a b c. tauto. Qed.

Lemma on_configs_inv {A} (f : list ConfigRow -> result (A * list ConfigRow)) (w : world St) r w' :
  on_configs f w = (r, w') ->
  frame w w' /\
  ((exists a rows, r = Ok a /\ f (oidc_config (db_seen w)) = Ok (a, rows) /\ oidc_config (w_db w') = rows /\ w_db w' = put_oidc rows (db_seen w)) \/
   (exists e, r = Err e /\ w_db w' = db_seen w)).
Proof.
  intros E. apply stmt_inv in E as [Hf [(a & -> & E)|(e & -> & Hd)]]; (split; [done|]); [left|right; eauto].
  destruct (f _) as [[a' rows]|] eqn:Ef; [|done]. injection E as -> Hd. exists a, rows. by rewrite <- Hd, oidc_put.
Qed.

Lemma on_configs_keeps {A} (f : list ConfigRow -> result (A * list ConfigRow)) :
  (forall rows a rows', config_wf rows -> f rows = Ok (a, rows') -> config_wf rows') -> evolves keeps_config (on_configs f).
Proof.
  intros Hf. apply evolves_stmt; [apply _|]. intros s a s' E Hw. destruct (f _) as [[a' rows]|] eqn:Ef; [|done].
  injection E as _ <-. rewrite oidc_put. by eapply Hf.
Qed.

Lemma activate_where_wf p active now rows n rows' : config_wf rows -> activate_where p active now rows = Ok (n, rows') -> config_wf rows'.
Proof.
  intros [Hu _] E. unfold activate_where in E. destruct (single_active _) eqn:Es; [|done]. injection E as _ <-.
  split; [by rewrite ids_upd|done].
Qed.

Lemma deactivate_keeps : evolves keeps_config (deactivateAllOIDCConfigsTx (St := St)).
Proof.
  unfold deactivateAllOIDCConfigsTx. evolve. apply on_configs_keeps. intros rows n rows'. apply activate_where_wf.
Qed.

Lemma insert_keeps c : evolves keeps_config (insert_stmt (St := St) c).
Proof.
  apply on_configs_keeps. intros rows a rows' [Hu _] E. destruct (insert_config c rows) as [rw|] eqn:Ei; [|done].
  injection E as _ <-. by apply (insert_config_wf c rows rw Hu) in Ei as [? _].
Qed.

(** Inside the transaction, the first step leaves no active row. *)
Lemma deactivate_step (w : world St) u w' :
  deactivateAllOIDCConfigsTx w = (Ok u, w') -> w_intx w = true ->
  w_intx w' = true /\ oidc_config (w_db w') = rows_upd (fun _ => true) (set_active false (w_now w)) (oidc_config (w_db w)) /\ w_now w' = w_now w.
Proof.
  intros E Hi. unfold deactivateAllOIDCConfigsTx in E. rewrite (bind_step time_Now _ w (w_now w) w eq_refl) in E.
  apply bind_Ok in E as (n & w1 & E%wrapping_Ok & [= _ <-]). apply on_configs_inv in E as ((Hi1 & Hn & _) & [(a & rows & _ & E & <- & _)|(e & [=] & _)]).
  rewrite intx_seen in E by done. unfold activate_where in E. destruct (single_active _); [|done]. injection E as _ E.
  split; [congruence|]. by rewrite <- E.
Qed.
End Facts.

#[export] Hint Resolve deactivate_keeps insert_keeps keeps_config_preorder : evolve.

(** ** Properties *)

(** C34: At most one identity provider is active, and switching is atomic. Every
    operation of the repository keeps identifiers unique and at most one row active,
    whatever the schedule; an activation, or the creation of an active configuration,
    that succeeds leaves exactly that one active, and one that fails - a stale id
    included - leaves the table as it found it, so single sign-on is never lost to a
    failed switch. *)
Theorem activation_atomic {St} `{HasOidcConfig St} (w w' : world St) :
  (forall id c extra, evolves keeps_config (CreateOIDCConfig (St := St) c) /\ evolves keeps_config (DeleteOIDCConfig (St := St) id) /\
     evolves keeps_config (UpdateOIDCConfigExtraConfig (St := St) id extra) /\ evolves keeps_config (DeactivateAllOIDCConfigs (St := St)) /\
     evolves keeps_config (ActivateOIDCConfig (St := St) id)) /\
  (config_wf (oidc_config (db_seen w)) ->
   (forall id r, ActivateOIDCConfig id w = (r, w') ->
      match r with
      | Ok _ => List.map oc_id (List.filter oc_is_active (oidc_config (w_db w'))) = [id] /\
                List.map oc_id (oidc_config (w_db w')) = List.map oc_id (oidc_config (db_seen w))
      | Err _ => w_db w' = db_seen w
      end) /\
   (forall c r, IsActive c = true -> CreateOIDCConfig c w = (r, w') ->
      match r with
      | Ok _ => List.map oc_id (List.filter oc_is_active (oidc_config (w_db w'))) = [ID c]
      | Err _ => w_db w' = db_seen w
      end) /\
   (forall id, w_sched w = [] -> (forall r, In r (oidc_config (w_db w)) -> oc_id r <> id) ->
      exists w1, ActivateOIDCConfig id w = (Err (notFound "oidc config by id"), w1))).
Proof.
  split; [|intros [Hu Hs]; split_and!].
  - intros id c extra. split_and!.
    + unfold CreateOIDCConfig. evolve.
    + unfold DeleteOIDCConfig. evolve. apply on_configs_keeps. intros rows n rows' [Hu Hs] [= _ <-]. split; [by apply NoDup_map_filter|].
      unfold single_active, rows_del in *. apply Nat.leb_le in Hs. apply Nat.leb_le.
      etrans; [apply active_del|done].
    + unfold UpdateOIDCConfigExtraConfig. evolve. apply on_configs_keeps. intros rows n rows' [Hu Hs] E.
      destruct (to_jsonb extra) as [e|]; [|done]. injection E as _ <-. split; [by rewrite ids_upd|].
      unfold single_active in *. by rewrite active_upd.
    + unfold DeactivateAllOIDCConfigs, affectedRows. evolve. apply on_configs_keeps. intros rows n rows'. apply activate_where_wf.
    + unfold ActivateOIDCConfig. evolve. apply on_configs_keeps. intros rows n rows'. apply activate_where_wf.
  - intros id r E. unfold ActivateOIDCConfig in E. apply tx_inv in E as [(u & w1 & w2 & -> & (Hd & Hi & _) & E & Hw)|(e & -> & Hd)]; [|done].
    apply bind_Ok in E as (u1 & w3 & E3 & E). destruct (deactivate_step _ _ _ E3 Hi) as (Hi3 & Hc3 & _).
    rewrite (bind_step time_Now _ w3 (w_now w3) w3 eq_refl) in E. apply bind_Ok in E as (n & w4 & E4%wrapping_Ok & E).
    apply on_configs_inv in E4 as ((Hi4 & _) & [(a & rows & [= <-] & E4 & <- & _)|(e & [=] & _)]). rewrite intx_seen in E4 by done.
    apply requireRow_inv in E as [-> [[_ Hn]|[[=] _]]]. destruct Hw as [->|Hx]; [|congruence].
    unfold activate_where in E4. destruct (single_active (rows_upd _ _ _)); [|done]. injection E4 as En E4. rewrite <- E4. rewrite Hc3, Hd. split.
    + rewrite activated. apply only_id; [done|]. subst n. by rewrite Hc3, Hd, count_ids in Hn.
    + by rewrite !ids_upd.
  - intros c r Ha E. unfold CreateOIDCConfig in E. rewrite Ha in E. cbn [negb] in E.
    apply tx_inv in E as [(u & w1 & w2 & -> & (Hd & Hi & _) & E & Hw)|(e & -> & Hd)]; [|done].
    apply bind_Ok in E as (u1 & w3 & E3 & E%wrapping_Ok). destruct (deactivate_step _ _ _ E3 Hi) as (Hi3 & Hc3 & _).
    apply on_configs_inv in E as ((Hi4 & _) & [(a & rows & [= <-] & E4 & Hr & _)|(e & [=] & _)]). rewrite intx_seen in E4 by done.
    destruct Hw as [->|Hx]; [|congruence]. destruct (insert_config c (oidc_config (w_db w3))) as [rw|] eqn:Ei; [|done].
    injection E4 as _ <-. rewrite Hr.
    rewrite Hc3, Hd in Ei. apply insert_config_wf in Ei as [_ Ei]; [|by rewrite ids_upd]. apply Ei; [done|]. apply deactivated.
  - intros id Hq Hno. unfold db_seen in Hu. rewrite Hq in Hu. set (rows := oidc_config (w_db w)) in *. set (wb := set_intx true w).
    set (w2 := set_db (put_oidc (rows_upd (fun _ => true) (set_active false (w_now w)) rows) (w_db w)) wb).
    assert (E2 : deactivateAllOIDCConfigsTx wb = (Ok tt, w2)).
    { unfold deactivateAllOIDCConfigsTx. rewrite (bind_step time_Now _ wb (w_now w) wb eq_refl). unfold mbind, M_bind, wrapping, mapping_err, on_configs.
      rewrite stmt_quiet by done. change (oidc_config (w_db wb)) with rows. unfold activate_where, single_active. by rewrite deactivated. }
    assert (Hz : rows_count (fun r => oc_id r =s id) (oidc_config (w_db w2)) = 0%nat).
    { unfold w2. cbn [w_db set_db]. rewrite oidc_put, count_ids by done. unfold rows_count.
      destruct (List.filter _ rows) as [|x l] eqn:Ef; [done|]. exfalso. assert (Hx : In x (x :: l)) by (by left). rewrite <- Ef in Hx.
      apply filter_In in Hx as [Hx Hi%seqb_true]. by apply (Hno x Hx). }
    assert (E3 : exists w3, on_configs (activate_where (fun r => oc_id r =s id) true (w_now w2)) w2 = (Ok 0%nat, w3)).
    { unfold on_configs. rewrite stmt_quiet by done. unfold activate_where. rewrite Hz.
      replace (single_active _) with true; [by eexists|]. symmetry. apply Nat.leb_le. unfold w2. cbn [w_db set_db]. rewrite oidc_put.
      rewrite <- (length_map oc_id), activated, length_map. by apply only_id. }
    destruct E3 as [w3 E3]. eexists. unfold ActivateOIDCConfig, tx, tx_by, tx_on. unfold mapping_err at 1. unfold tick at 1. rewrite Hq.
    fold wb. rewrite (bind_err _ _ wb (notFound "oidc config by id") w3); [reflexivity|].
    rewrite (bind_step _ _ wb tt w2 E2), (bind_step time_Now _ w2 (w_now w2) w2 eq_refl).
    rewrite (bind_step _ _ w2 0%nat w3); [done|]. by apply wrapping_Ok.
Qed.

(** ** The group-mapping document *)

Section Settings.
Context (foldName : string -> string) (via_any : json -> json).

Lemma decode_encoded ms : scan_all (decode_mapping foldName) (List.map encode_mapping ms) = Ok ms.
Proof.
  induction ms as [|[g o r] ms IH]; [done|]. cbn [List.map scan_all]. rewrite IH. reflexivity.
Qed.

Lemma map_set_in k v m k' v' : In (k', v') (map_set k v m) <-> (k' <> k /\ In (k', v') m) \/ (k' = k /\ v' = v).
Proof.
  unfold map_set. rewrite in_app_iff, filter_In. simpl. rewrite negb_true_iff, seqb_false. split.
  - intros [[H1 H2]|[[= <- <-]|[]]]; [by left|by right].
  - intros [[H1 H2]|[-> ->]]; [by left|by right; left].
Qed.

Lemma map_of_names o k v : In (k, v) (map_of via_any o) -> exists v', In (k, v') o.
Proof.
  unfold map_of. assert (Hg : forall acc, In (k, v) (fold_left (fun m kv => map_set (fst kv) (via_any (snd kv)) m) o acc) ->
    In (k, v) acc \/ exists v', In (k, v') o).
  { induction o as [|[k1 v1] o IH]; intros acc Hin; [by left|]. apply IH in Hin as [Hin|[v' Hv]]; [|right; exists v'; by right].
    apply map_set_in in Hin as [[_ Hin]|[-> _]]; [by left|right; exists v1; by left]. }
  intros Hin. by apply Hg in Hin as [[]|?].
Qed.

Lemma map_of_get o k v : obj_get k o = Some v -> In (k, via_any v) (map_of via_any o).
Proof.
  unfold map_of. generalize (@nil (string * json)) as acc. induction o as [|[k1 v1] o IH]; intros acc; [done|]. cbn [obj_get fold_left fst snd].
  destruct (obj_get k o) as [x|] eqn:Eo; [intros [= ->]; by apply IH|].
  destruct (String.eqb_spec k1 k) as [->|]; [|done]. intros [= ->].
  assert (Hkeep : forall acc, In (k, via_any v) acc -> In (k, via_any v) (fold_left (fun m kv => map_set (fst kv) (via_any (snd kv)) m) o acc)).
  { clear IH. induction o as [|[k2 v2] o IH]; intros acc' Hin; [done|]. cbn [obj_get] in Eo. destruct (obj_get k o) eqn:Eo2; [done|].
    destruct (String.eqb_spec k2 k) as [|Hne]; [done|]. apply IH; [done|]. apply map_set_in. left. by split. }
  apply Hkeep. apply map_set_in. by right.
Qed.

(** A document all of whose members are either foreign to the struct or one of the
    three it encodes. *)
Definition settings_only (n : string) (ms : list OIDCGroupMapping) (d : string) (kv : string * json) : Prop :=
  field_of foldName extra_keys (fst kv) = None \/ kv = (claim_key, JSStr n) \/
  kv = (mappings_key, JSArr (List.map encode_mapping ms)) \/ kv = (role_key, JSStr d).

Definition has_key (k : string) (o : object) : bool := existsb (fun kv => fst kv =s k) o.

Lemma decode_extra_cons k v o acc :
  decode_extra foldName ((k, v) :: o) acc = match decode_extra_member foldName k v acc with Ok acc' => decode_extra foldName o acc' | Err e => Err e end.
Proof. reflexivity. Qed.

Lemma decode_settings n ms d o acc :
  Forall (settings_only n ms d) o ->
  decode_extra foldName o acc =
  Ok {| GroupClaimName := if has_key claim_key o then n else GroupClaimName acc;
        GroupMappings := if has_key mappings_key o then ms else GroupMappings acc;
        DefaultRole := if has_key role_key o then d else DefaultRole acc |}.
Proof.
  intros Hall. revert acc. induction Hall as [|[k v] o Hk _ IH]; intros acc; [by destruct acc|].
  rewrite decode_extra_cons. destruct Hk as [Hk|[E|[E|E]]]; cbn [fst] in *.
  - unfold decode_extra_member. rewrite Hk. rewrite IH.
    assert (Hne : forall t, In t extra_keys -> (k =s t) = false).
    { intros t Ht. apply seqb_false. intros ->. unfold field_of in Hk. by rewrite (proj2 (mem_true t extra_keys) Ht) in Hk. }
    unfold has_key. cbn [existsb fst]. rewrite !Hne by (unfold extra_keys; simpl; tauto). done.
  - injection E as -> ->. change (decode_extra_member foldName claim_key (JSStr n) acc) with
      (Ok {| GroupClaimName := n; GroupMappings := GroupMappings acc; DefaultRole := DefaultRole acc |}).
    cbv beta iota. rewrite IH. cbn [GroupClaimName GroupMappings DefaultRole]. unfold has_key. cbn [existsb fst].
    change (claim_key =s mappings_key) with false. change (claim_key =s role_key) with false. change (claim_key =s claim_key) with true. cbn [orb].
    by destruct (existsb _ o).
  - injection E as -> ->.
    assert (Em : decode_extra_member foldName mappings_key (JSArr (List.map encode_mapping ms)) acc =
      Ok {| GroupClaimName := GroupClaimName acc; GroupMappings := ms; DefaultRole := DefaultRole acc |}).
    { unfold decode_extra_member. change (field_of foldName extra_keys mappings_key) with (Some mappings_key). cbv beta iota.
      change (mappings_key =s mappings_key) with true. cbv iota. unfold decode_mappings. by rewrite decode_encoded. }
    rewrite Em. cbv beta iota. rewrite IH.
    cbn [GroupClaimName GroupMappings DefaultRole]. unfold has_key. cbn [existsb fst].
    change (mappings_key =s mappings_key) with true. change (mappings_key =s role_key) with false. change (mappings_key =s claim_key) with false. cbn [orb].
    by destruct (existsb (fun kv => fst kv =s mappings_key) o).
  - injection E as -> ->. change (decode_extra_member foldName role_key (JSStr d) acc) with
      (Ok {| GroupClaimName := GroupClaimName acc; GroupMappings := GroupMappings acc; DefaultRole := d |}).
    cbv beta iota. rewrite IH. cbn [GroupClaimName GroupMappings DefaultRole]. unfold has_key. cbn [existsb fst].
    change (role_key =s mappings_key) with false. change (role_key =s role_key) with true. change (role_key =s claim_key) with false. cbn [orb].
    by destruct (existsb (fun kv => fst kv =s role_key) o).
Qed.

Lemma has_key_in k v o : In (k, v) o -> has_key k o = true.
Proof. intros Hin. apply existsb_exists. exists (k, v). by rewrite seqb_refl. Qed.

(** Saving the group settings is exact. When no member of the stored document has
    a name that decodes into one of the three settings without being it, what
    [SetGroupMappingConfig] writes is what [GetGroupMappingConfig] reads, mapping for
    mapping, and every other member of the document is still there; the only other
    outcomes are a document that is no JSON object, an error, and the literal [null],
    on which the method panics. *)
Theorem group_settings_roundtrip c n ms d r :
  (forall o k v, ExtraConfig c = RawJSON (JSObj o) -> In (k, v) o -> In k extra_keys \/ field_of foldName extra_keys k = None) ->
  SetGroupMappingConfig via_any c n ms d = r ->
  match r with
  | Ok c' => GetGroupMappingConfig foldName c' = (n, ms, d) /\ c' = with_extra (ExtraConfig c') c /\
      exists o', ExtraConfig c' = RawJSON (JSObj o') /\
        forall o k v, ExtraConfig c = RawJSON (JSObj o) -> ~ In k extra_keys -> obj_get k o = Some v -> In (k, via_any v) o'
  | Err e => (exists j, ExtraConfig c = RawJSON j /\ (forall o, j <> JSObj o) /\ (e = nil_map <-> j = JSNull)) \/ ExtraConfig c = RawInvalid
  end.
Proof.
  intros Hnames <-. unfold SetGroupMappingConfig.
  assert (Hok : forall m, (forall k v, In (k, v) m -> In k extra_keys \/ field_of foldName extra_keys k = None) ->
    let o' := sort_by by_member (map_set role_key (JSStr d) (map_set mappings_key (JSArr (List.map encode_mapping ms)) (map_set claim_key (JSStr n) m))) in
    GetGroupMappingConfig foldName (with_extra (RawJSON (JSObj o')) c) = (n, ms, d) /\
    (forall k v, ~ In k extra_keys -> In (k, v) m -> In (k, v) o')).
  { intros m Hm o'. assert (Hin : forall k v, In (k, v) o' <-> (k = role_key /\ v = JSStr d) \/
      (k = mappings_key /\ v = JSArr (List.map encode_mapping ms)) \/ (k = claim_key /\ v = JSStr n) \/ (~ In k extra_keys /\ In (k, v) m)).
    { intros k v. unfold o'. rewrite in_sort_by, !map_set_in. unfold extra_keys. simpl.
      assert (role_key <> mappings_key /\ role_key <> claim_key /\ mappings_key <> claim_key) as (? & ? & ?) by done. naive_solver congruence. }
    split.
    - unfold GetGroupMappingConfig. cbn [ExtraConfig with_extra raw_len_zero unmarshal_extra raw_parse mbind result_bind].
      assert (Hall : Forall (settings_only n ms d) o').
      { rewrite Forall_forall. intros [k v] Hk%list_elem_of_In. unfold settings_only. apply Hin in Hk as [[-> ->]|[[-> ->]|[[-> ->]|[Hn Hk]]]]; [tauto..|].
        left. cbn [fst]. by destruct (Hm k v Hk). }
      rewrite (decode_settings n ms d o' no_extra Hall). cbn [GroupClaimName GroupMappings DefaultRole].
      rewrite (has_key_in claim_key (JSStr n) o'), (has_key_in mappings_key (JSArr (List.map encode_mapping ms)) o'), (has_key_in role_key (JSStr d) o');
        [done|apply Hin; tauto..].
    - intros k v Hk Hv. apply Hin. tauto. }
  destruct (ExtraConfig c) as [| | |j] eqn:Ee; cbn [raw_len_zero raw_parse mbind result_bind].
  - destruct (Hok []) as [H1 _]; [by intros ??[]|]. split; [exact H1|]. split; [done|]. eexists. split; [done|]. intros o k v [=].
  - destruct (Hok []) as [H1 _]; [by intros ??[]|]. split; [exact H1|]. split; [done|]. eexists. split; [done|]. intros o k v [=].
  - by right.
  - destruct j as [| | | | |o]; [|left; eexists; split; [done|]; by split..|].
    + left. eexists. split; [done|]. split; [done|]. by split.
    + destruct (Hok (map_of via_any o)) as [H1 H2].
      { intros k v Hk. destruct (map_of_names o k v Hk) as [v' Hv]. by apply (Hnames o k v'). }
      split; [exact H1|]. split; [done|]. eexists. split; [done|]. intros o0 k v [= <-] Hk Hv. apply H2; [done|]. by apply map_of_get.
Qed.
End Settings.
End OidcConfig.

(** ** Witnesses *)

Module Example_oidc_config.
Import OidcConfig.

#[export] Instance rows_HasOidcConfig : HasOidcConfig (list ConfigRow).
Proof. refine {| oidc_config := fun l => l; put_oidc := fun l _ => l |}; done. Defined.

Definition row (id : string) (active : bool) : ConfigRow :=
  {| oc_id := id; oc_name := id; oc_provider_type := "generic_oidc"; oc_issuer_url := "https://idp"; oc_client_id := "c"; oc_client_secret_encrypted := "sealed";
     oc_redirect_url := "https://app"; oc_scopes := Some (JSArr [JSStr "openid"]); oc_is_active := active; oc_extra_config := None; oc_created_at := 0;
     oc_updated_at := 0; oc_created_by := None; oc_updated_by := None |}.

Definition ex_configs : world (list ConfigRow) := quiet [row "a" true; row "b" false] 5 5 0.

(** The switch is made, and a stale id does not switch single sign-on off. *)
Lemma activation_atomic_witness :
  List.map oc_id (List.filter oc_is_active (oidc_config (w_db (snd (ActivateOIDCConfig "b" ex_configs))))) = ["b"] /\
  w_db (snd (ActivateOIDCConfig "stale" ex_configs)) = w_db ex_configs.
Proof.
  assert (Hw : config_wf (oidc_config (db_seen ex_configs))) by (split; [vm_compute; repeat constructor; set_solver|reflexivity]).
  split.
  - destruct (activation_atomic ex_configs (snd (ActivateOIDCConfig "b" ex_configs))) as [_ H]. destruct (H Hw) as [H1 _].
    apply (H1 "b" (Ok tt)). vm_compute. reflexivity.
  - destruct (activation_atomic ex_configs (snd (ActivateOIDCConfig "stale" ex_configs))) as [_ H]. destruct (H Hw) as [H1 _].
    apply (H1 "stale" (Err (notFound "oidc config by id"))). vm_compute. reflexivity.
Defined.

Definition ex_config (extra : RawMessage) : OIDCConfig :=
  {| ID := "a"; Name := "a"; ProviderType := "generic_oidc"; IssuerURL := "https://idp"; ClientID := "c"; ClientSecretCiphertext := "sealed";
     RedirectURL := "https://app"; Scopes := RawNil; IsActive := true; ExtraConfig := extra; CreatedAt := 0; UpdatedAt := 0; CreatedBy := None; UpdatedBy := None |}.
Definition ex_document : object := [("tenant", JSStr "t1"); ("default_role", JSStr "viewer")].
Definition ex_mappings : list OIDCGroupMapping := [{| gm_Group := "ops"; gm_Organization := "orgA"; gm_Role := "admin" |}].
Definition ex_saved : result OIDCConfig := SetGroupMappingConfig (fun j => j) (ex_config (RawJSON (JSObj ex_document))) "groups" ex_mappings "member".

Lemma group_settings_roundtrip_witness :
  exists c', ex_saved = Ok c' /\ GetGroupMappingConfig (fun s => s) c' = ("groups", ex_mappings, "member").
Proof.
  eexists. split; [vm_compute; reflexivity|].
  apply (group_settings_roundtrip (fun s => s) (fun j => j) (ex_config (RawJSON (JSObj ex_document))) "groups" ex_mappings "member" ex_saved);
    [|reflexivity].
  intros o k v [= <-] [[= <- _]|[[= <- _]|[]]]; [right; reflexivity|left; right; right; by left].
Defined.

(** A document that is the literal null, which [UpdateOIDCConfigExtraConfig] stores and
    the COALESCE of the read does not replace. *)
Example null_document_panics :
  let w := snd (UpdateOIDCConfigExtraConfig "a" (RawJSON JSNull) ex_configs) in
  exists c, fst (GetOIDCConfig "a" w) = Ok c /\ SetGroupMappingConfig (fun j => j) c "groups" [] "" = Err nil_map.
Proof. eexists. split; vm_compute; reflexivity. Qed.
End Example_oidc_config.
