(* ===== verification/Mailer.v ===== *)
(** * Mailer: identity/mailer/mailer.go

    Sending one mail through the configured relay: the transport security the operator
    chose, and the SMTP conversation.

    What leaves the process is the wire, a log in the process state of what was said
    and how the connection was protected. net, crypto/tls and net/smtp are modelled by
    what the code uses of them: dialing, the TLS handshake against a server name, the
    client's commands, and the refusal of [smtp.PlainAuth] to speak on a clear
    connection to a remote server. A command is said before its reply is known; the
    schedule decides whether it succeeds. Deadlines are left out. *)

From stdpp Require Import pretty.
From Stdlib Require Import Ascii.
From S2P Require Import Prelude GoStrings.

Module Mail.

(** ** Configuration *)

(** [type TLSMode int]; only two values are defined. *)
Definition TLSMode : Type := Z.
Definition TLSRequired : TLSMode := 0%Z.
Definition TLSDisabled : TLSMode := 1%Z.

Definition TLSMode_String (m : TLSMode) : string :=
  if (m =? TLSRequired)%Z then "required" else if (m =? TLSDisabled)%Z then "disabled" else "invalid(" +:+ pretty m +:+ ")".
Definition valid (m : TLSMode) : bool := (m =? TLSRequired)%Z || (m =? TLSDisabled)%Z.
Definition TLSModeForUseTLS (useTLS : bool) : TLSMode := if useTLS then TLSRequired else TLSDisabled.

Record Config := { Host : string; Port : Z; From : string; Username : string; Password : string; Mode : TLSMode }.

(** The arguments of smtp.PlainAuth. *)
Record Auth := { a_username : string; a_password : string; a_host : string }.

Definition authFor (cfg : Config) : option Auth :=
  if Username cfg =s "" then None else Some {| a_username := Username cfg; a_password := Password cfg; a_host := Host cfg |}.

Definition isLocalRelay (host : string) : bool := (host =s "localhost") || (host =s "127.0.0.1") || (host =s "::1").

(** net.JoinHostPort *)
Definition JoinHostPort (host port : string) : string :=
  if existsb (fun a => (a =? ":")%char || (a =? "%")%char) (bytes_of host) then "[" +:+ host +:+ "]:" +:+ port else host +:+ ":" +:+ port.

(** ** The wire *)

(** The protection of a connection: none, or TLS to a verified server name. *)
Inductive security := Clear | Encrypted (serverName : string).

Inductive command :=
| Hello | StartTLS | AuthPlain (username password : string) | MailFrom (from : string) | RcptTo (rcpt : string) | Data | Body (msg : string) | Quit.

Class HasWire (St : Type) := {
  wire : St -> list (security * command);
  put_wire : list (security * command) -> St -> St;
  wire_put : forall l s, wire (put_wire l s) = l
}.

Record Client := { c_conn : security; c_serverName : string; c_didHello : bool }.

Section Mail.
Context {St : Type} `{HasWire St}.

(** A command and its reply. *)
Definition say (c : security) (cmd : command) : M St unit := poke (fun s => put_wire (wire s ++ [(c, cmd)]) s);; tick.

(** [net.Dialer] and [tls.Dialer]. *)
Definition dial (addr : string) : M St security := tick;; mret Clear.
Definition dial_tls (addr serverName : string) : M St security := tick;; mret (Encrypted serverName).

(** smtp.NewClient reads the greeting; the first command greets back, once. *)
Definition NewClient (conn : security) (host : string) : M St Client := tick;; mret {| c_conn := conn; c_serverName := host; c_didHello := false |}.

Definition hello (c : Client) : M St unit := if c_didHello c then mret tt else say (c_conn c) Hello.

(** The command, the handshake and the second greeting. *)
Definition client_StartTLS (c : Client) (serverName : string) : M St Client :=
  hello c;;
  say (c_conn c) StartTLS;;
  say (Encrypted serverName) Hello;;
  mret {| c_conn := Encrypted serverName; c_serverName := c_serverName c; c_didHello := true |}.

(** [PlainAuth.Start] checks the connection before the credentials are written. *)
Definition client_Auth (c : Client) (a : Auth) : M St unit :=
  let tls := match c_conn c with Encrypted _ => true | Clear => false end in
  if negb tls && negb (isLocalRelay (c_serverName c)) then throw (Plain "unencrypted connection")
  else if c_serverName c <>s a_host a then throw (Plain "wrong host name")
  else say (c_conn c) (AuthPlain (a_username a) (a_password a)).

(** net/smtp refuses an argument that holds a line break. *)
Definition validateLine (line : string) : bool := negb (existsb (fun a => (code a =? 10)%N || (code a =? 13)%N) (bytes_of line)).
Definition with_line (line : string) (m : M St unit) : M St unit :=
  if validateLine line then m else throw (Plain "smtp: A line must not contain CR or LF").

Fixpoint rcpt_loop (c : Client) (to : list string) : M St unit :=
  match to with
  | [] => mret tt
  | rcpt :: to => wrapping "smtp rcpt" (with_line rcpt (say (c_conn c) (RcptTo rcpt)));; rcpt_loop c to
  end.

Definition finish (c : Client) (auth : option Auth) (from : string) (to : list string) (msg : string) : M St unit :=
  match auth with Some a => wrapping "smtp auth" (hello c;; client_Auth c a) | None => mret tt end;;
  wrapping "smtp mail from" (with_line from (match auth with Some _ => mret tt | None => hello c end;; say (c_conn c) (MailFrom from)));;
  rcpt_loop c to;;
  wrapping "smtp data" (say (c_conn c) Data);;
  wrapping "smtp write" (say (c_conn c) (Body msg));;
  wrapping "smtp finalize" tick;;
  say (c_conn c) Quit.

Definition sendPlain (addr host : string) (auth : option Auth) (from : string) (to : list string) (msg : string) : M St unit :=
  conn ← wrapping "dial smtp relay" (dial addr);
  c ← wrapping "smtp handshake" (NewClient conn host);
  finish c auth from to msg.

Definition sendStartTLS (addr host : string) (auth : option Auth) (from : string) (to : list string) (msg : string) : M St unit :=
  conn ← wrapping "dial smtp relay" (dial addr);
  c ← wrapping "smtp handshake" (NewClient conn host);
  c ← wrapping "smtp starttls" (client_StartTLS c host);
  finish c auth from to msg.

(** A failed TLS dial falls back to STARTTLS, never to plaintext. *)
Definition sendTLS (addr host : string) (auth : option Auth) (from : string) (to : list string) (msg : string) : M St unit :=
  r ← try (dial_tls addr host);
  match r with
  | Err _ => sendStartTLS addr host auth from to msg
  | Ok conn =>
      c ← wrapping "smtp handshake" (NewClient conn host);
      finish c auth from to msg
  end.

Definition Send (cfg : Config) (to : list string) (msg : string) : M St unit :=
  if negb (valid (Mode cfg)) then throw (Plain "smtp: TLSMode is not a defined mode")
  else if (Mode cfg =? TLSDisabled)%Z && (Username cfg <>s "") && negb (isLocalRelay (Host cfg))
  then throw (Plain "smtp: refusing to send credentials to relay over a plaintext connection")
  else
    let addr := JoinHostPort (Host cfg) (pretty (Port cfg)) in
    let auth := authFor cfg in
    if (Mode cfg =? TLSDisabled)%Z then sendPlain addr (Host cfg) auth (From cfg) to msg
    else sendTLS addr (Host cfg) auth (From cfg) to msg.
End Mail.

(** ** Lemmas *)

(** What was said since: the wire only grows, by what [P] allows. *)
Definition says {St} `{HasWire St} (P : security * command -> Prop) (s s' : St) : Prop :=
  exists l, wire s' = wire s ++ l /\ Forall P l.

(** A step whose answer is known. *)
Lemma evolves_bind_post {St A B} R `{!PreOrder R} (m : M St A) (k : A -> M St B) (Q : A -> Prop) :
  evolves R m -> (forall w a w', m w = (Ok a, w') -> Q a) -> (forall a, Q a -> evolves R (k a)) -> evolves R (m ≫= k).
Proof.
  intros Hm Hq Hk w r w' E Hs. apply bind_inv in E as [(a & w1 & E1 & E2)|(e & E1 & _)].
  - destruct (Hm _ _ _ E1 Hs) as [R1 S1]. destruct (Hk a (Hq _ _ _ E1) _ _ _ E2 S1) as [R2 S2]. split; [by etrans|done].
  - by apply (Hm _ _ _ E1).
Qed.

Section Facts.
Context {St : Type} `{HasWire St} (P : security * command -> Prop).

#[export] Instance says_preorder : PreOrder (says (St := St) P).
Proof.
  split; [intros s; exists []; by rewrite app_nil_r|]. intros a b c (l & E1 & F1) (m & E2 & F2). exists (l ++ m).
  rewrite E2, E1, app_assoc. split; [done|by apply Forall_app].
Qed.

Lemma say_says c cmd : P (c, cmd) -> evolves (says P) (say (St := St) c cmd).
Proof.
  intros Hp. unfold say. evolve. apply evolves_poke. intros s. exists [(c, cmd)]. rewrite wire_put. split; [done|by repeat constructor].
Qed.

Lemma hello_says c : P (c_conn c, Hello) -> evolves (says P) (hello (St := St) c).
Proof. intros Hp. unfold hello. evolve. by apply say_says. Qed.

Lemma rcpt_loop_says c to : (forall rcpt, P (c_conn c, RcptTo rcpt)) -> evolves (says P) (rcpt_loop (St := St) c to).
Proof.
  intros Hp. induction to as [|rcpt to IH]; cbn [rcpt_loop]; [evolve|]. unfold with_line. evolve. by apply say_says.
Qed.

(** A conversation on a connection whose every command is allowed; the credentials
    only when [PlainAuth] lets them through. *)
Lemma finish_says c auth from to msg :
  (forall cmd, cmd <> StartTLS -> (forall u p, cmd <> AuthPlain u p) -> P (c_conn c, cmd)) ->
  (forall a, auth = Some a -> c_conn c <> Clear \/ isLocalRelay (c_serverName c) = true -> P (c_conn c, AuthPlain (a_username a) (a_password a))) ->
  evolves (says P) (finish (St := St) c auth from to msg).
Proof.
  intros Hp Ha.
  assert (Hsay : forall cmd, cmd <> StartTLS -> (forall u p, cmd <> AuthPlain u p) -> evolves (says P) (say (St := St) (c_conn c) cmd)) by (intros; apply say_says; auto).
  assert (Hhello : evolves (says P) (hello (St := St) c)) by (by apply hello_says, Hp).
  assert (Hauth : forall a, auth = Some a -> evolves (says P) (client_Auth (St := St) c a)).
  { intros a E. unfold client_Auth. destruct (c_conn c) eqn:Ec; cbn [negb andb].
    - destruct (isLocalRelay (c_serverName c)) eqn:El; cbn [negb]; [|evolve]. destruct (c_serverName c <>s a_host a); [evolve|].
      apply say_says, Ha; [done|by right].
    - destruct (c_serverName c <>s a_host a); [evolve|]. apply say_says, Ha; [done|by left]. }
  assert (Hrcpt : evolves (says P) (rcpt_loop (St := St) c to)) by (apply rcpt_loop_says; intros; by apply Hp).
  unfold finish, with_line. destruct auth as [a|]; evolve; auto; by apply Hsay.
Qed.

(** The ways a connection is opened, and what each leads to. *)
Lemma plain_says addr host auth from to msg :
  evolves (says P) (finish (St := St) {| c_conn := Clear; c_serverName := host; c_didHello := false |} auth from to msg) ->
  evolves (says P) (sendPlain (St := St) addr host auth from to msg).
Proof.
  intros Hf. unfold sendPlain. apply (evolves_bind_post _ _ _ (fun c => c = Clear)); [unfold dial; evolve| |intros conn ->].
  { intros w a w' E%wrapping_Ok. by apply bind_Ok in E as (u & w1 & _ & [= <- _]). }
  apply (evolves_bind_post _ _ _ (fun c => c = {| c_conn := Clear; c_serverName := host; c_didHello := false |})); [unfold NewClient; evolve| |by intros c ->].
  intros w a w' E%wrapping_Ok. by apply bind_Ok in E as (u & w1 & _ & [= <- _]).
Qed.

Lemma startTLS_says addr host auth from to msg :
  P (Clear, Hello) -> P (Clear, StartTLS) -> P (Encrypted host, Hello) ->
  evolves (says P) (finish (St := St) {| c_conn := Encrypted host; c_serverName := host; c_didHello := true |} auth from to msg) ->
  evolves (says P) (sendStartTLS (St := St) addr host auth from to msg).
Proof.
  intros H1 H2 H3 Hf. unfold sendStartTLS. apply (evolves_bind_post _ _ _ (fun c => c = Clear)); [unfold dial; evolve| |intros conn ->].
  { intros w a w' E%wrapping_Ok. by apply bind_Ok in E as (u & w1 & _ & [= <- _]). }
  apply (evolves_bind_post _ _ _ (fun c => c = {| c_conn := Clear; c_serverName := host; c_didHello := false |})); [unfold NewClient; evolve| |intros c ->].
  { intros w a w' E%wrapping_Ok. by apply bind_Ok in E as (u & w1 & _ & [= <- _]). }
  apply (evolves_bind_post _ _ _ (fun c => c = {| c_conn := Encrypted host; c_serverName := host; c_didHello := true |})); [| |by intros c ->].
  - unfold client_StartTLS, hello. cbn [c_conn c_didHello]. evolve; by apply say_says.
  - intros w a w' E%wrapping_Ok. unfold client_StartTLS in E. apply bind_Ok in E as (u & w1 & _ & E). apply bind_Ok in E as (u2 & w2 & _ & E).
    by apply bind_Ok in E as (u3 & w3 & _ & [= <- _]).
Qed.

Lemma tls_says addr host auth from to msg :
  evolves (says P) (finish (St := St) {| c_conn := Encrypted host; c_serverName := host; c_didHello := false |} auth from to msg) ->
  evolves (says P) (sendStartTLS (St := St) addr host auth from to msg) ->
  evolves (says P) (sendTLS (St := St) addr host auth from to msg).
Proof.
  intros Hf Hs. unfold sendTLS.
  apply (evolves_bind_post _ _ _ (fun r => match r with Ok c => c = Encrypted host | Err _ => True end)); [unfold dial_tls; evolve| |].
  { intros w r w' E. unfold try in E. destruct (dial_tls addr host w) as [r0 w0] eqn:E0. injection E as <- _. destruct r0 as [c|]; [|done].
    by apply bind_Ok in E0 as (u & w1 & _ & [= <- _]). }
  intros [conn|e] Hr; [subst conn|done].
  apply (evolves_bind_post _ _ _ (fun c => c = {| c_conn := Encrypted host; c_serverName := host; c_didHello := false |})); [unfold NewClient; evolve| |by intros c ->].
  intros w a w' E%wrapping_Ok. by apply bind_Ok in E as (u & w1 & _ & [= <- _]).
Qed.
End Facts.

(** A mail only touches the wire. *)
Section Wire_only.
Context {St : Type} `{HasWire St} (R : St -> St -> Prop) `{!PreOrder R} (Hput : forall l s, R s (put_wire l s)).

Lemma say_evolves c cmd : evolves R (say (St := St) c cmd).
Proof. unfold say. evolve. apply evolves_poke. intros s. apply Hput. Qed.

Lemma finish_evolves c auth from to msg : evolves R (finish (St := St) c auth from to msg).
Proof.
  assert (Hr : evolves R (rcpt_loop (St := St) c to)).
  { induction to as [|r to IH]; cbn [rcpt_loop]; unfold with_line; evolve; apply say_evolves. }
  unfold finish, hello, client_Auth, with_line. evolve; apply say_evolves.
Qed.

Lemma Send_evolves cfg to msg : evolves R (Send (St := St) cfg to msg).
Proof.
  unfold Send, sendPlain, sendTLS, sendStartTLS, dial, dial_tls, NewClient, client_StartTLS, hello. evolve; first [apply finish_evolves|apply say_evolves].
Qed.
End Wire_only.

(** What a mail under [cfg] may put on the wire: everything in the clear only when the
    operator disabled TLS, the greeting and STARTTLS apart; TLS only to the relay's own
    name; the credentials only those configured, and in the clear only to a local relay. *)
Definition allowed (cfg : Config) (p : security * command) : Prop :=
  match p with
  | (c, AuthPlain u pw) => u = Username cfg /\ pw = Password cfg /\ u <> "" /\
      (c = Encrypted (Host cfg) \/ Mode cfg = TLSDisabled /\ isLocalRelay (Host cfg) = true)
  | (Encrypted n, _) => n = Host cfg
  | (Clear, Hello) => True
  | (Clear, StartTLS) => Mode cfg = TLSRequired
  | (Clear, _) => Mode cfg = TLSDisabled
  end.

Definition refused (cfg : Config) : bool :=
  negb (valid (Mode cfg)) || (Mode cfg =? TLSDisabled)%Z && (Username cfg <>s "") && negb (isLocalRelay (Host cfg)).

(** A successful conversation on one connection. *)
Definition conversation (c : security) (greet : bool) (auth : option Auth) (from : string) (to : list string) (msg : string) : list (security * command) :=
  List.map (fun cmd => (c, cmd))
    ((if greet then [Hello] else []) ++ (match auth with Some a => [AuthPlain (a_username a) (a_password a)] | None => [] end) ++
     [MailFrom from] ++ List.map RcptTo to ++ [Data; Body msg; Quit]).

Section Emits.
Context {St : Type} `{HasWire St}.

(** Other sessions of this process leave the wire alone. *)
Definition wire_kept (s s' : St) : Prop := wire s' = wire s.

Definition emits {A} (m : M St A) (Q : A -> list (security * command) -> Prop) : Prop :=
  forall w a w', m w = (Ok a, w') -> sched_respects wire_kept w ->
  exists l, wire (w_db w') = wire (w_db w) ++ l /\ Q a l /\ sched_respects wire_kept w'.

Lemma emits_bind {A B} (m : M St A) (k : A -> M St B) Q R :
  emits m Q -> (forall a l, Q a l -> emits (k a) (fun b l' => R b (l ++ l'))) -> emits (m ≫= k) R.
Proof.
  intros Hm Hk w b w' E Hs. apply bind_Ok in E as (a & w1 & E1 & E2). destruct (Hm _ _ _ E1 Hs) as (l & El & HQ & Hs1).
  destruct (Hk a l HQ _ _ _ E2 Hs1) as (l' & El' & HR & Hs2). exists (l ++ l'). rewrite El', El, app_assoc. by split_and!.
Qed.

Lemma emits_weaken {A} (m : M St A) (Q R : A -> list (security * command) -> Prop) : (forall a l, Q a l -> R a l) -> emits m Q -> emits m R.
Proof. intros Hi Hm w a w' E Hs. destruct (Hm _ _ _ E Hs) as (l & ? & ? & ?). exists l. auto. Qed.

Lemma emits_wrapping {A} msg (m : M St A) Q : emits m Q -> emits (wrapping msg m) Q.
Proof. intros Hm w a w' E%wrapping_Ok. by apply Hm. Qed.

Lemma emits_ret {A} (a : A) (Q : A -> list (security * command) -> Prop) : Q a [] -> emits (mret a) Q.
Proof. intros HQ w b w' [= <- <-] Hs. exists []. by rewrite app_nil_r. Qed.

Lemma emits_throw {A} e Q : emits (throw e : M St A) Q.
Proof. by intros w a w' [=]. Qed.

Lemma emits_tick : emits (tick (St := St)) (fun _ l => l = []).
Proof.
  intros w a w' E Hs. assert (Hp : PreOrder wire_kept) by (split; [by intros ?|unfold wire_kept; intros ???; congruence]).
  destruct (evolves_tick wire_kept w _ _ E Hs) as [Hk Hs']. exists []. rewrite app_nil_r. by split_and!.
Qed.

Lemma emits_say c cmd : emits (say (St := St) c cmd) (fun _ l => l = [(c, cmd)]).
Proof.
  unfold say. apply (emits_bind _ _ (fun _ l => l = [(c, cmd)])).
  - intros w a w' [= <- <-] Hs. exists [(c, cmd)]. simpl. by rewrite wire_put.
  - intros _ l ->. eapply emits_weaken; [|apply emits_tick]. by intros _ l ->.
Qed.

(** A step that says [l], then the rest. *)
Lemma emits_seq {A} (m : M St unit) (k : M St A) l Q :
  emits m (fun _ l' => l' = l) -> emits k (fun a l' => Q a (l ++ l')) -> emits (m;; k) Q.
Proof. intros Hm Hk. apply (emits_bind _ _ _ _ Hm). by intros _ l' ->. Qed.

Lemma emits_line line (m : M St unit) Q : emits m Q -> emits (with_line line m) Q.
Proof. intros Hm. unfold with_line. destruct (validateLine line); [done|apply emits_throw]. Qed.

Lemma emits_hello c : emits (hello (St := St) c) (fun _ l => l = if c_didHello c then [] else [(c_conn c, Hello)]).
Proof. unfold hello. destruct (c_didHello c); [by apply emits_ret|apply emits_say]. Qed.

Lemma emits_rcpt c to : emits (rcpt_loop (St := St) c to) (fun _ l => l = List.map (fun r => (c_conn c, RcptTo r)) to).
Proof.
  induction to as [|r to IH]; cbn [rcpt_loop List.map]; [by apply emits_ret|].
  apply (emits_seq _ _ [(c_conn c, RcptTo r)]); [apply emits_wrapping, emits_line, emits_say|].
  eapply emits_weaken; [|exact IH]. by intros _ l ->.
Qed.

Lemma emits_finish c auth from to msg :
  emits (finish (St := St) c auth from to msg) (fun _ l => l = conversation (c_conn c) (negb (c_didHello c)) auth from to msg).
Proof.
  unfold finish. set (g := if c_didHello c then [] else [(c_conn c, Hello)]).
  apply (emits_seq _ _ (match auth with Some a => g ++ [(c_conn c, AuthPlain (a_username a) (a_password a))] | None => [] end)).
  { destruct auth as [a|]; [|by apply emits_ret]. apply emits_wrapping. apply (emits_seq _ _ g); [apply emits_hello|].
    unfold client_Auth. destruct (_ && _); [apply emits_throw|]. destruct (_ <>s _); [apply emits_throw|].
    eapply emits_weaken; [|apply emits_say]. by intros _ l ->. }
  apply (emits_seq _ _ (match auth with Some _ => [] | None => g end ++ [(c_conn c, MailFrom from)])).
  { apply emits_wrapping, emits_line. apply (emits_seq _ _ (match auth with Some _ => [] | None => g end));
      [destruct auth; [by apply emits_ret|apply emits_hello]|]. eapply emits_weaken; [|apply emits_say]. by intros _ l ->. }
  apply (emits_seq _ _ (List.map (fun r => (c_conn c, RcptTo r)) to)); [apply emits_rcpt|].
  apply (emits_seq _ _ [(c_conn c, Data)]); [apply emits_wrapping, emits_say|].
  apply (emits_seq _ _ [(c_conn c, Body msg)]); [apply emits_wrapping, emits_say|].
  apply (emits_seq _ _ []); [apply emits_wrapping, emits_tick|].
  eapply emits_weaken; [|apply emits_say]. intros _ l ->. unfold conversation. rewrite !List.map_app, List.map_map.
  unfold g. destruct (c_didHello c), auth as [a|]; cbn; rewrite <- ?app_assoc; done.
Qed.
(** A step that opens a connection says nothing. *)
Lemma emits_open {A} (a : A) msg : emits (wrapping msg (tick (St := St);; mret a)) (fun b l => b = a /\ l = []).
Proof. apply emits_wrapping. apply (emits_seq _ _ []); [apply emits_tick|]. by apply emits_ret. Qed.

(** The handshake and the conversation over an open connection. *)
Lemma emits_over conn host auth from to msg :
  emits (c ← wrapping "smtp handshake" (NewClient (St := St) conn host); finish c auth from to msg)
    (fun _ l => l = conversation conn true auth from to msg).
Proof.
  eapply emits_bind; [apply (emits_open {| c_conn := conn; c_serverName := host; c_didHello := false |})|]. intros c l [-> ->].
  eapply emits_weaken; [|apply emits_finish]. by intros _ l ->.
Qed.

Lemma emits_plain addr host auth from to msg :
  emits (sendPlain (St := St) addr host auth from to msg) (fun _ l => l = conversation Clear true auth from to msg).
Proof.
  unfold sendPlain. eapply emits_bind; [apply (emits_open Clear)|]. intros conn l [-> ->]. apply emits_over.
Qed.

Definition upgrade (host : string) : list (security * command) := [(Clear, Hello); (Clear, StartTLS); (Encrypted host, Hello)].

Lemma emits_startTLS addr host auth from to msg :
  emits (sendStartTLS (St := St) addr host auth from to msg) (fun _ l => l = upgrade host ++ conversation (Encrypted host) false auth from to msg).
Proof.
  unfold sendStartTLS. eapply emits_bind; [apply (emits_open Clear)|]. intros conn l [-> ->].
  eapply emits_bind; [apply (emits_open {| c_conn := Clear; c_serverName := host; c_didHello := false |})|]. intros c l [-> ->].
  eapply (emits_bind _ _ (fun c l => c = {| c_conn := Encrypted host; c_serverName := host; c_didHello := true |} /\ l = upgrade host)).
  - apply emits_wrapping. unfold client_StartTLS. apply (emits_seq _ _ [(Clear, Hello)]); [apply emits_say|].
    apply (emits_seq _ _ [(Clear, StartTLS)]); [apply emits_say|]. apply (emits_seq _ _ [(Encrypted host, Hello)]); [apply emits_say|].
    by apply emits_ret.
  - intros c l [-> ->]. eapply emits_weaken; [|apply emits_finish]. by intros _ l ->.
Qed.

Lemma emits_TLS addr host auth from to msg :
  emits (sendTLS (St := St) addr host auth from to msg) (fun _ l =>
    l = conversation (Encrypted host) true auth from to msg \/ l = upgrade host ++ conversation (Encrypted host) false auth from to msg).
Proof.
  intros w a w' E Hs. unfold sendTLS in E. apply bind_try in E as (r & w1 & E1 & E).
  assert (Hk : wire (w_db w1) = wire (w_db w) /\ sched_respects wire_kept w1).
  { unfold dial_tls in E1. apply bind_inv in E1 as [(u & w2 & E1 & [= _ <-])|(e & E1 & _)].
    - destruct (emits_tick _ _ _ E1 Hs) as (l & -> & -> & ?). by rewrite app_nil_r.
    - assert (Hp : PreOrder wire_kept) by (split; [by intros ?|unfold wire_kept; intros ???; congruence]).
      by apply (evolves_tick wire_kept _ _ _ E1). }
  destruct Hk as [<- Hs1]. destruct r as [conn|e].
  - assert (conn = Encrypted host) as -> by (by apply bind_Ok in E1 as (u & w2 & _ & [= <- _])). destruct (emits_over _ _ _ _ _ _ _ _ _ E Hs1) as (l & ? & -> & ?). eexists. split; [done|]. by split; [left|].
  - destruct (emits_startTLS _ _ _ _ _ _ _ _ _ E Hs1) as (l & ? & -> & ?). eexists. split; [done|]. by split; [right|].
Qed.

(** With nothing scheduled every step succeeds. *)
Definition smooth {A} (m : M St A) : Prop := forall w, w_sched w = [] -> exists a w', m w = (Ok a, w') /\ w_sched w' = [].

Lemma smooth_bind {A B} (m : M St A) (k : A -> M St B) : smooth m -> (forall a, smooth (k a)) -> smooth (m ≫= k).
Proof.
  intros Hm Hk w Hq. destruct (Hm w Hq) as (a & w1 & E1 & Hq1). destruct (Hk a w1 Hq1) as (b & w2 & E2 & Hq2). exists b, w2.
  by rewrite (bind_step _ _ _ _ _ E1).
Qed.

Lemma smooth_wrapping {A} msg (m : M St A) : smooth m -> smooth (wrapping msg m).
Proof. intros Hm w Hq. destruct (Hm w Hq) as (a & w1 & E & Hq1). exists a, w1. split; [by apply wrapping_Ok|done]. Qed.

Lemma smooth_ret {A} (a : A) : smooth (mret a : M St A).
Proof. intros w Hq. by exists a, w. Qed.

Lemma smooth_tick : smooth (tick (St := St)).
Proof. intros w Hq. exists tt, w. unfold tick. by rewrite Hq. Qed.

Lemma smooth_say c cmd : smooth (say (St := St) c cmd).
Proof. apply smooth_bind; [|intros _; apply smooth_tick]. intros w Hq. by eexists _, _. Qed.

Lemma smooth_hello c : smooth (hello (St := St) c).
Proof. unfold hello. destruct (c_didHello c); [apply smooth_ret|apply smooth_say]. Qed.

Lemma smooth_line line (m : M St unit) : validateLine line = true -> smooth m -> smooth (with_line line m).
Proof. intros Hl Hm. unfold with_line. by rewrite Hl. Qed.

Lemma smooth_finish c auth from to msg :
  (forall a, auth = Some a -> a_host a = c_serverName c /\ (c_conn c <> Clear \/ isLocalRelay (c_serverName c) = true)) ->
  validateLine from = true -> Forall (fun r => validateLine r = true) to ->
  smooth (finish (St := St) c auth from to msg).
Proof.
  intros Ha Hf Ht. unfold finish. apply smooth_bind.
  { destruct auth as [a|]; [|apply smooth_ret]. apply smooth_wrapping, smooth_bind; [apply smooth_hello|]. intros _.
    destruct (Ha a eq_refl) as [Eh Hc]. unfold client_Auth. rewrite Eh, seqb_refl. cbn [negb].
    replace (_ && _) with false; [apply smooth_say|]. destruct (c_conn c); [|done]. by destruct Hc as [?| ->]. }
  intros _. apply smooth_bind.
  { apply smooth_wrapping, smooth_line, smooth_bind; [done|destruct auth; [apply smooth_ret|apply smooth_hello]|intros _; apply smooth_say]. }
  intros _. apply smooth_bind.
  { induction Ht as [|r to Hr _ IH]; cbn [rcpt_loop]; [apply smooth_ret|].
    apply smooth_bind; [apply smooth_wrapping, smooth_line; [done|apply smooth_say]|done]. }
  intros _. apply smooth_bind; [apply smooth_wrapping, smooth_say|]. intros _. apply smooth_bind; [apply smooth_wrapping, smooth_say|].
  intros _. apply smooth_bind; [apply smooth_wrapping, smooth_tick|]. intros _. apply smooth_say.
Qed.
End Emits.

(** With nothing scheduled, whatever a mail comes to leaves nothing scheduled. *)
Section Calm.
Context {St : Type} `{HasWire St}.

Definition calm {A} (m : M St A) : Prop := forall w, w_sched w = [] -> w_sched (snd (m w)) = [].

Lemma calm_pure {A} (m : M St A) : (forall w, w_sched (snd (m w)) = w_sched w) -> calm m.
Proof. intros Hm w Hq. by rewrite Hm. Qed.

Lemma calm_tick : calm (tick (St := St)).
Proof. intros w Hq. unfold tick. by rewrite Hq. Qed.

Lemma calm_bind {A B} (m : M St A) (k : A -> M St B) : calm m -> (forall a, calm (k a)) -> calm (m ≫= k).
Proof. intros Hm Hk w Hq. specialize (Hm w Hq). unfold mbind, M_bind. destruct (m w) as [[a|e] w1]; [by apply Hk|done]. Qed.

Lemma calm_wrapping {A} msg (m : M St A) : calm m -> calm (wrapping msg m).
Proof. intros Hm w Hq. specialize (Hm w Hq). unfold wrapping, mapping_err. by destruct (m w) as [[a|e] w1]. Qed.

Lemma calm_try {A} (m : M St A) : calm m -> calm (try m).
Proof. intros Hm w Hq. specialize (Hm w Hq). unfold try. by destruct (m w) as [r w1]. Qed.

Ltac calm_walk known :=
  repeat first
    [ known | apply calm_tick | apply calm_wrapping | apply calm_try
    | apply calm_bind; [|intros ?]
    | case_match
    | apply calm_pure; by intros ? ].

Lemma calm_rcpt c to : calm (rcpt_loop (St := St) c to).
Proof. induction to as [|r to IH]; cbn [rcpt_loop]; unfold with_line, say; calm_walk ltac:(exact IH). Qed.

Lemma calm_finish c auth from to msg : calm (finish (St := St) c auth from to msg).
Proof. unfold finish, hello, client_Auth, with_line, say. calm_walk ltac:(apply calm_rcpt). Qed.

Lemma calm_Send cfg to msg : calm (Send (St := St) cfg to msg).
Proof.
  unfold Send, sendPlain, sendTLS, sendStartTLS, dial, dial_tls, NewClient, client_StartTLS, hello, say.
  calm_walk ltac:(apply calm_finish).
Qed.
End Calm.

(** ** Properties *)

(** C35: A mail never weakens the transport the operator chose. Whatever the schedule,
    as long as other senders respect it too, what [Send] adds to the wire is allowed by
    its configuration: with TLS required nothing but the greeting and STARTTLS is said
    in the clear - a relay whose TLS dial fails is retried by STARTTLS, never in
    plaintext - every TLS session is with the relay's own name, and the password is
    only ever said inside one, or in the clear to this very host when TLS is disabled.
    A configuration without a defined mode, or whose credentials would go to a remote
    relay in the clear, is refused before anything is dialed. *)
Theorem Send_protects {St} `{HasWire St} cfg to msg (w w' : world St) r :
  sched_respects (says (allowed cfg)) w ->
  Send cfg to msg w = (r, w') ->
  (exists l, wire (w_db w') = wire (w_db w) ++ l /\ Forall (allowed cfg) l) /\
  (refused cfg = true -> w' = w /\ is_ok r = false).
Proof.
  intros Hs E. split.
  - assert (He : evolves (says (allowed cfg)) (Send (St := St) cfg to msg)); [|by destruct (He _ _ _ E Hs)].
    unfold Send. destruct (valid (Mode cfg)) eqn:Ev; cbn [negb]; [|evolve].
    assert (Hauth : forall a, authFor cfg = Some a -> a_username a = Username cfg /\ a_password a = Password cfg /\ Username cfg <> "").
    { unfold authFor. destruct (String.eqb_spec (Username cfg) ""); [done|]. by intros a [= <-]. }
    assert (Htls : forall g, evolves (says (allowed cfg))
      (finish (St := St) {| c_conn := Encrypted (Host cfg); c_serverName := Host cfg; c_didHello := g |} (authFor cfg) (From cfg) to msg)).
    { intros g. apply finish_says; cbn [c_conn c_serverName]; [intros [| |u p| | | | |] Hns Hc; cbn; try done; by destruct (Hc u p)|].
      intros a (-> & -> & Hn)%Hauth _. cbn. split_and!; [done..|by left]. }
    destruct (Z.eqb_spec (Mode cfg) TLSDisabled) as [Hm|Hm]; cbn [andb].
    + destruct (_ && _); [evolve|]. apply plain_says.
      apply finish_says; cbn [c_conn c_serverName]; [intros [| |u p| | | | |] Hns Hc; cbn; try done; by destruct (Hc u p)|].
      intros a (-> & -> & Hn)%Hauth [Hc|Hl]; [done|]. cbn. split_and!; [done..|by right].
    + assert (Hr : Mode cfg = TLSRequired) by (unfold valid in Ev; apply orb_prop in Ev as [Ev%Z.eqb_eq|Ev%Z.eqb_eq]; done).
      apply tls_says; [apply Htls|]. by apply startTLS_says.
  - intros Hr. unfold refused in Hr. unfold Send in E. destruct (valid (Mode cfg)); cbn [negb orb] in *; [|injection E as <- <-; done].
    rewrite Hr in E. by injection E as <- <-.
Qed.

(** A mail reported as sent was: when other senders leave the wire alone, a [Send] that
    succeeds has held one whole conversation - credentials if configured, sender, every
    recipient, the message - on one connection of the configured security, after a TLS
    dial or an upgrade to the same TLS; and with nothing failing, a configuration that is
    not refused and arguments without line breaks succeed. *)
Theorem Send_delivers {St} `{HasWire St} cfg to msg (w w' : world St) :
  sched_respects wire_kept w ->
  (Send cfg to msg w = (Ok tt, w') ->
   exists l, wire (w_db w') = wire (w_db w) ++ l /\
     if (Mode cfg =? TLSDisabled)%Z then l = conversation Clear true (authFor cfg) (From cfg) to msg
     else l = conversation (Encrypted (Host cfg)) true (authFor cfg) (From cfg) to msg \/
          l = upgrade (Host cfg) ++ conversation (Encrypted (Host cfg)) false (authFor cfg) (From cfg) to msg) /\
  (w_sched w = [] -> refused cfg = false -> validateLine (From cfg) = true -> Forall (fun r => validateLine r = true) to ->
   exists w1, Send cfg to msg w = (Ok tt, w1)).
Proof.
  intros Hs. split.
  - intros E. unfold Send in E. destruct (negb (valid (Mode cfg))); [done|]. destruct (_ && _ && _); [done|].
    destruct (Mode cfg =? TLSDisabled)%Z.
    + destruct (emits_plain _ _ _ _ _ _ _ _ _ E Hs) as (l & ? & ? & _). by exists l.
    + destruct (emits_TLS _ _ _ _ _ _ _ _ _ E Hs) as (l & ? & ? & _). by exists l.
  - intros Hq Hr Hf Ht. unfold refused in Hr. apply orb_false_elim in Hr as [Hv Hr]. unfold Send. rewrite Hv, Hr.
    assert (Hauth : forall c a, (c_serverName c = Host cfg) -> (c_conn c <> Clear \/ Mode cfg = TLSDisabled) -> authFor cfg = Some a ->
      a_host a = c_serverName c /\ (c_conn c <> Clear \/ isLocalRelay (c_serverName c) = true)).
    { intros c a Hn Hc. unfold authFor. destruct (Username cfg =s ""); [done|]. intros [= <-]. rewrite Hn. split; [done|].
      destruct Hc as [Hc|Hm]; [by left|]. right. rewrite Hm in Hr. by apply negb_false_iff in Hr. }
    destruct (Z.eqb_spec (Mode cfg) TLSDisabled) as [Hm|Hm].
    + unfold sendPlain. rewrite (bind_step _ _ w Clear w) by (apply wrapping_Ok; unfold dial, mbind, M_bind, tick; by rewrite Hq).
      rewrite (bind_step _ _ w {| c_conn := Clear; c_serverName := Host cfg; c_didHello := false |} w)
        by (apply wrapping_Ok; unfold NewClient, mbind, M_bind, tick; by rewrite Hq).
      destruct (smooth_finish {| c_conn := Clear; c_serverName := Host cfg; c_didHello := false |} (authFor cfg) (From cfg) to msg) with w as ([] & w1 & E & _); eauto.
    + unfold sendTLS. unfold try, dial_tls. unfold mbind at 1, M_bind at 1. unfold mbind at 1, M_bind at 1. unfold tick at 1. rewrite Hq. cbn [mret M_ret].
      rewrite (bind_step _ _ w {| c_conn := Encrypted (Host cfg); c_serverName := Host cfg; c_didHello := false |} w)
        by (apply wrapping_Ok; unfold NewClient, mbind, M_bind, tick; by rewrite Hq).
      destruct (smooth_finish {| c_conn := Encrypted (Host cfg); c_serverName := Host cfg; c_didHello := false |} (authFor cfg) (From cfg) to msg) with w as ([] & w1 & E & _); eauto.
Qed.
End Mail.

(** ** Witnesses *)

Module Example_mail.
Import Mail.

#[export] Instance log_HasWire : HasWire (list (security * command)).
Proof. refine {| wire := fun l => l; put_wire := fun l _ => l |}; done. Defined.

Definition relay (mode : TLSMode) : Config := {| Host := "smtp.example"; Port := 587; From := "a@x"; Username := "u"; Password := "p"; Mode := mode |}.

(** The TLS dial fails; the mail goes by STARTTLS. *)
Definition ex_wire : world (list (security * command)) :=
  World [] [{| ev_env := fun s => s; ev_fault := Some "connection refused" |}] false 0 0 0.
Definition ex_sent := Send (relay TLSRequired) ["b@y"] "hi" ex_wire.

Lemma Send_protects_witness :
  fst ex_sent = Ok tt /\
  (exists l, wire (w_db (snd ex_sent)) = [] ++ l /\ Forall (allowed (relay TLSRequired)) l) /\
  Send (relay TLSDisabled) ["b@y"] "hi" ex_wire = (Err (Plain "smtp: refusing to send credentials to relay over a plaintext connection"), ex_wire).
Proof.
  split; [vm_compute; reflexivity|]. split; [|vm_compute; reflexivity].
  refine (proj1 (Send_protects (relay TLSRequired) ["b@y"] "hi" ex_wire (snd ex_sent) (fst ex_sent) _ _)).
  - constructor; [|constructor]. intros s. exists []. split; [by rewrite app_nil_r|constructor].
  - vm_compute. reflexivity.
Defined.

Lemma Send_delivers_witness :
  exists l, wire (w_db (snd ex_sent)) = [] ++ l /\
    (l = conversation (Encrypted "smtp.example") true (authFor (relay TLSRequired)) "a@x" ["b@y"] "hi" \/
     l = upgrade "smtp.example" ++ conversation (Encrypted "smtp.example") false (authFor (relay TLSRequired)) "a@x" ["b@y"] "hi").
Proof.
  destruct (Send_delivers (relay TLSRequired) ["b@y"] "hi" ex_wire (snd ex_sent)) as [H _]; [constructor; [done|constructor]|].
  apply H. vm_compute. reflexivity.
Defined.
End Example_mail.
