(* ===== verification/ExpiryNotifier.v ===== *)
(** * ExpiryNotifier: identity/notify/api_key_expiry.go and identity/internal/safeloop

    The background job that mails the owner of an API key before it expires: built over
    ApiKeyRepo's window query and claim, UserRepo's lookup and Mailer's [Send].

    [runCheck] also returns the keys whose notice it claimed and what became of each
    mail, which the code only logs. A ticker, a stop and a cancellation are the events
    of the loop, in the order they are received. [Hours()/24] is read as exact, and
    the RFC 1123 form of an instant is a parameter. A repository that returns neither a
    user nor an error does not arise with UserRepo's. *)

From stdpp Require Import pretty.
From S2P Require Import Prelude GoStrings Base64 Order Models OrgScope Db DbRel OrganizationRepo ApiKeyRepo UserRepo Notifier Mailer.

Module Expiry.
Import Mail.

(** ** safeloop.Guard

    A panic is an error of the run and goes no further. *)
Definition Guard {St A} (fn : M St A) : M St (result A) := try fn.

(** ** Configuration *)

Record ExpiryConfig := { Enabled : bool; APIKeyExpiring : bool; SMTP : Mail.Config; WarningDays : Z; CheckIntervalHours : Z }.
Record ExpiryOptions := { ProductName : string }.

(** Whether the repositories were supplied, the options and the interval. *)
Record APIKeyExpiryNotifier := { n_apiKeyRepo : bool; n_userRepo : bool; n_opts : ExpiryOptions; n_interval : Z }.

Definition time_Hour : Z := 3600 * second.

Definition NewAPIKeyExpiryNotifier (apiKeyRepo userRepo : bool) (cfg : ExpiryConfig) (opts : ExpiryOptions) : APIKeyExpiryNotifier :=
  let hours := CheckIntervalHours cfg in
  let hours := if (hours <=? 0)%Z then 24%Z else hours in
  {| n_apiKeyRepo := apiKeyRepo; n_userRepo := userRepo; n_opts := opts; n_interval := int64 (hours * time_Hour) |}.

(** What a key's turn came to. *)
Inductive turn :=
| Stopped
| Skipped
| Mailed (keyID : string) (sent : result unit).

Definition CRLF : string := string_of Notify.CRLF.
Fixpoint join_lines (l : list string) : string :=
  match l with [] => "" | [x] => x | x :: l => x +:+ CRLF +:+ join_lines l end.

Section Run.
Context {St : Type} `{HasDB St, HasWire St} (RFC1123 : Z -> string).

Definition days_left (expiresAt now : Z) : Z :=
  let daysLeft := (Z.quot (expiresAt - now) (24 * time_Hour) + 1)%Z in
  if (daysLeft <? 0)%Z then 0%Z else daysLeft.

Definition sendExpiryEmail (n : APIKeyExpiryNotifier) (smtp : Mail.Config) (toEmail userName keyName keyPrefix : string) (expiresAt : Z) : M St unit :=
  now ← time_Now;
  let daysLeft := days_left expiresAt now in
  let product := ProductName (n_opts n) in
  let subject := "Action Required: API key '" +:+ keyName +:+ "' expires in " +:+ pretty daysLeft +:+ " day(s)" in
  let body := join_lines [
    "Hello " +:+ userName +:+ ",";
    "";
    "Your " +:+ product +:+ " API key '" +:+ keyName +:+ "' (" +:+ keyPrefix +:+ "...) will expire on " +:+ RFC1123 expiresAt +:+ " (" +:+ pretty daysLeft +:+ " day(s) from now).";
    "";
    "To avoid service disruption, please create a replacement key before the expiry date:";
    "  1. Log in to the " +:+ product +:+ " admin UI.";
    "  2. Navigate to Admin → API Keys.";
    "  3. Create a new key with the same scopes and update your CI/CD pipelines.";
    "  4. Delete or let the old key expire.";
    "";
    "If you no longer need this key, no action is required.";
    "";
    "— " +:+ product] in
  let msg := Notify.BuildMessage (bytes_of (From smtp)) [bytes_of toEmail] (bytes_of subject) (bytes_of body) in
  Send smtp [toEmail] (string_of msg).

(** The body of the loop over the keys. *)
Definition check_key (n : APIKeyExpiryNotifier) (smtp : Mail.Config) (key : APIKey) : M St turn :=
  match ak_UserID key, ak_ExpiresAt key with
  | Some userID, Some expiresAt =>
      if negb (n_userRepo n) then mret Stopped
      else
        r ← try (GetUserByID userID OrgScopeAllOrganizations);
        match r with
        | Err _ => mret Skipped
        | Ok user =>
            if u_Email user =s "" then mret Skipped
            else
              claimed ← try (ClaimExpiryNotification (ak_ID key));
              match claimed with
              | Ok true =>
                  sent ← try (sendExpiryEmail n smtp (u_Email user) (u_Name user) (ak_Name key) (ak_KeyPrefix key) expiresAt);
                  mret (Mailed (ak_ID key) sent)
              | _ => mret Skipped
              end
        end
  | _, _ => mret Skipped
  end.

Fixpoint keys_loop (n : APIKeyExpiryNotifier) (smtp : Mail.Config) (keys : list APIKey) : M St (list (string * result unit)) :=
  match keys with
  | [] => mret []
  | key :: keys =>
      t ← check_key n smtp key;
      match t with
      | Stopped => mret []
      | Skipped => keys_loop n smtp keys
      | Mailed id sent => l ← keys_loop n smtp keys; mret ((id, sent) :: l)
      end
  end.

Definition runCheck (n : APIKeyExpiryNotifier) (cfg : ExpiryConfig) : M St (list (string * result unit)) :=
  if negb (Enabled cfg) || (Host (SMTP cfg) =s "") || negb (APIKeyExpiring cfg) then mret []
  else if negb (n_apiKeyRepo n) then mret []
  else
    let warningDays := WarningDays cfg in
    let warningDays := if (warningDays <=? 0)%Z then 7%Z else warningDays in
    keys ← try (FindExpiringKeys warningDays);
    match keys with
    | Err _ => mret []
    | Ok keys => keys_loop n (SMTP cfg) keys
    end.

Definition runTick (n : APIKeyExpiryNotifier) (cfg : ExpiryConfig) : M St (result (list (string * result unit))) := Guard (runCheck n cfg).

(** What the select of the loop receives; a tick reads the configuration again. *)
Inductive loop_event := Tick (cfg : ExpiryConfig) | Stop | Done.

Fixpoint event_loop (n : APIKeyExpiryNotifier) (events : list loop_event) : M St (list (string * result unit)) :=
  match events with
  | [] | Stop :: _ | Done :: _ => mret []
  | Tick cfg :: events =>
      r ← runTick n cfg;
      l ← event_loop n events;
      mret (match r with Ok l0 => l0 | Err _ => [] end ++ l)
  end.

(** [time.NewTicker]: an interval that is not positive panics. *)
Definition NewTicker (d : Z) : M St unit :=
  if (d <=? 0)%Z then throw (Plain "non-positive interval for NewTicker") else mret tt.

(** The ticker is made outside [Guard]. [stopped]: the stop channel is closed already. [now_cfg] is the provider's answer
    when the first tick asks it again. *)
Definition Start (n : APIKeyExpiryNotifier) (stopped : bool) (cfg now_cfg : ExpiryConfig) (events : list loop_event) : M St (list (string * result unit)) :=
  if stopped then mret []
  else if negb (Enabled cfg) then mret []
  else if Host (SMTP cfg) =s "" then mret []
  else if negb (APIKeyExpiring cfg) then mret []
  else NewTicker (n_interval n);; event_loop n (Tick now_cfg :: events).
End Run.

(** ** Lemmas *)

(** No session takes a notice back. *)
Definition keeps_notified (d d' : DB) : Prop := forall id, notified d id -> notified d' id.

#[export] Instance keeps_notified_preorder : PreOrder keeps_notified.
Proof. split; [by intros ???|]. intros a b c H1 H2 id Hn. by apply H2, H1. Qed.

(** The wire is beside the schema. *)
Class WireBesideDB (St : Type) `{HasDB St, HasWire St} : Prop := wire_db : forall l s, the_db (put_wire l s) = the_db s.

Section Facts.
Context {St : Type} `{HasDB St} `{HasWire St} `{!WireBesideDB St} (RFC1123 : Z -> string).

Lemma try_step {A} (m : M St A) (w : world St) r w' : m w = (r, w') -> try m w = (Ok r, w').
Proof. unfold try. by intros ->. Qed.

Lemma scanAPIKey_fields k key : scanAPIKey k = Ok key -> ak_ID key = k_id k /\ ak_UserID key = k_user_id k /\ ak_ExpiresAt key = k_expires_at k.
Proof.
  unfold scanAPIKey. intros E. apply result_bind_Ok in E as (sc & _ & [= <-]). done.
Qed.

Lemma claim_marks id d a d' : update_keys (unclaimed id) (with_notified a) d = Ok (rows_count (unclaimed id) (api_keys d), d') ->
  keeps_notified d d' /\ notified d' id.
Proof.
  intros [= <-]. split.
  - intros id' Hn k (k' & Hk & ->)%in_rows_upd. destruct (unclaimed id k') eqn:E; [done|]. by apply Hn.
  - intros k (k' & Hk & ->)%in_rows_upd Hid. destruct (unclaimed id k') eqn:E; [done|]. unfold unclaimed in E.
    rewrite Hid, seqb_refl in E. simpl in E. by destruct (k_expiry_notification_sent_at k').
Qed.

Lemma claim_evolves id : evolves (over_db keeps_notified) (ClaimExpiryNotification (St := St) id).
Proof.
  unfold ClaimExpiryNotification. evolve. apply evolves_exec; [apply _|]. intros d n d' E.
  assert (n = rows_count (unclaimed id) (api_keys d)) as -> by by injection E. by destruct (claim_marks _ _ _ _ E).
Qed.

(** A claim that wins found the key unclaimed and leaves it claimed. *)
Lemma claim_won id (w w' : world St) :
  ClaimExpiryNotification id w = (Ok true, w') -> ~ notified (the_db (db_seen w)) id /\ notified (the_db (w_db w')) id.
Proof.
  intros E. unfold ClaimExpiryNotification in E. rewrite (bind_step time_Now _ w (w_now w) w eq_refl) in E.
  apply bind_Ok in E as (n & w1 & E1 & [= Hn <-]). apply exec_Ok in E1 as (d & E1 & _ & Hd).
  assert (n = rows_count (unclaimed id) (api_keys (the_db (db_seen w)))) as -> by by injection E1.
  destruct (claim_marks _ _ _ _ E1) as [_ Hm]. split; [|by rewrite Hd, the_put].
  intros Hno. apply Nat.ltb_lt in Hn. unfold rows_count in Hn. destruct (List.filter _ _) as [|k l] eqn:Ef; [simpl in Hn; lia|].
  assert (Hk : In k (k :: l)) by (by left). rewrite <- Ef in Hk. apply filter_In in Hk as [Hk Hu]. unfold unclaimed in Hu.
  apply andb_prop in Hu as [Hid%seqb_true Hs]. apply (Hno k Hk Hid). by destruct (k_expiry_notification_sent_at k).
Qed.

Lemma mail_evolves n smtp a b c d e : evolves (over_db keeps_notified) (sendExpiryEmail (St := St) RFC1123 n smtp a b c d e).
Proof. unfold sendExpiryEmail. evolve. apply Send_evolves; [apply _|]. intros l s id Hn. unfold over_db. by rewrite wire_db. Qed.

Lemma check_key_evolves n smtp key : evolves (over_db keeps_notified) (check_key (St := St) RFC1123 n smtp key).
Proof. unfold check_key. evolve; first [apply claim_evolves|apply mail_evolves]. Qed.

(** A key that was mailed was claimed in its turn. *)
Lemma check_key_mailed n smtp key (w w' : world St) id sent :
  sched_respects (over_db keeps_notified) w ->
  check_key RFC1123 n smtp key w = (Ok (Mailed id sent), w') ->
  id = ak_ID key /\ ~ notified (the_db (w_db w)) id /\ notified (the_db (w_db w')) id.
Proof.
  intros Hs E. unfold check_key in E. destruct (ak_UserID key); [|done]. destruct (ak_ExpiresAt key); [|done].
  destruct (negb (n_userRepo n)); [done|]. apply bind_try in E as (r & w1 & E1 & E).
  destruct (GetUserByID_evolves keeps_notified _ _ _ _ _ E1 Hs) as [K1 S1]. destruct r as [user|]; [|done].
  destruct (u_Email user =s ""); [done|]. apply bind_try in E as (claimed & w2 & E2 & E).
  destruct (claim_evolves _ _ _ _ E2 S1) as [K2 S2]. destruct claimed as [[]|]; [|done..].
  apply bind_try in E as (sent' & w3 & E3 & [= <- <- <-]). destruct (mail_evolves _ _ _ _ _ _ _ _ _ _ E3 S2) as [K3 _].
  destruct (claim_won _ _ _ E2) as [Hn Hm]. split; [done|]. split; [|by apply K3].
  intros Hno. apply Hn. unfold db_seen. apply K1 in Hno. destruct (w_sched w1) as [|e l] eqn:Es; [done|].
  unfold sched_respects in S1. rewrite Es in S1. apply Forall_cons in S1 as [He _]. destruct (w_intx w1); [done|]. by apply He.
Qed.

Lemma keys_loop_mailed n smtp keys (w w' : world St) l :
  sched_respects (over_db keeps_notified) w -> keys_loop RFC1123 n smtp keys w = (Ok l, w') ->
  over_db keeps_notified (w_db w) (w_db w') /\ sched_respects (over_db keeps_notified) w' /\ NoDup (List.map fst l) /\
  Forall (fun id => ~ notified (the_db (w_db w)) id /\ notified (the_db (w_db w')) id) (List.map fst l).
Proof.
  revert w w' l. induction keys as [|key keys IH]; intros w w' l Hs E; cbn [keys_loop] in E.
  { injection E as <- <-. split; [done|]. split; [done|]. by split; constructor. }
  apply bind_Ok in E as (t & w1 & E1 & E). destruct (check_key_evolves n smtp key _ _ _ E1 Hs) as [K1 S1].
  assert (Hrest : forall l0 w2, keys_loop RFC1123 n smtp keys w1 = (Ok l0, w2) ->
    over_db keeps_notified (w_db w) (w_db w2) /\ sched_respects (over_db keeps_notified) w2 /\ NoDup (List.map fst l0) /\
    Forall (fun id => ~ notified (the_db (w_db w)) id /\ ~ notified (the_db (w_db w1)) id /\ notified (the_db (w_db w2)) id) (List.map fst l0)).
  { intros l0 w2 E2. destruct (IH _ _ _ S1 E2) as (K2 & S2 & Hu & Hall). split; [by etrans|]. split; [done|]. split; [done|].
    eapply Forall_impl; [exact Hall|]. intros id [Hn Hm]. split; [intros Ho; by apply Hn, K1|done]. }
  destruct t as [| |id sent].
  - injection E as <- <-. split; [done|]. split; [done|]. by split; constructor.
  - destruct (Hrest _ _ E) as (? & ? & ? & Hall). split_and!; [done..|]. eapply Forall_impl; [exact Hall|]. naive_solver.
  - apply bind_Ok in E as (l0 & w2 & E2 & [= <- <-]). destruct (Hrest _ _ E2) as (K & S & Hu & Hall).
    destruct (check_key_mailed _ _ _ _ _ _ _ Hs E1) as (_ & Hn & Hm).
    destruct (IH _ _ _ S1 E2) as (K2 & _). split; [done|]. split; [done|]. cbn [List.map fst]. split.
    + constructor; [|done]. intros Hin. rewrite Forall_forall in Hall. by destruct (Hall id Hin) as (_ & Hno & _).
    + constructor; [split; [done|by apply K2]|]. eapply Forall_impl; [exact Hall|]. naive_solver.
Qed.

Lemma runCheck_mailed n cfg (w w' : world St) l :
  sched_respects (over_db keeps_notified) w -> runCheck RFC1123 n cfg w = (Ok l, w') ->
  over_db keeps_notified (w_db w) (w_db w') /\ NoDup (List.map fst l) /\
  Forall (fun id => ~ notified (the_db (w_db w)) id /\ notified (the_db (w_db w')) id) (List.map fst l).
Proof.
  intros Hs E. unfold runCheck in E. destruct (_ || _ || _); [injection E as <- <-; split; [done|]; by split; constructor|].
  destruct (negb (n_apiKeyRepo n)); [injection E as <- <-; split; [done|]; by split; constructor|].
  apply bind_try in E as (keys & w1 & E1 & E).
  assert (He : evolves (over_db keeps_notified) (FindExpiringKeys (St := St) (if (WarningDays cfg <=? 0)%Z then 7%Z else WarningDays cfg)))
    by (unfold FindExpiringKeys; evolve).
  destruct (He _ _ _ E1 Hs) as [K1 S1]. destruct keys as [keys|]; [|injection E as <- <-; split; [done|]; by split; constructor].
  destruct (keys_loop_mailed _ _ _ _ _ _ S1 E) as (K2 & _ & Hu & Hall). split; [by etrans|]. split; [done|].
  eapply Forall_impl; [exact Hall|]. intros id [Hn Hm]. split; [intros Ho; by apply Hn, K1|done].
Qed.

(** Whether a key's turn ends in a mail: an owner who can be reached, and a notice
    nobody has claimed. *)
Definition remindable (d : DB) (key : APIKey) : bool :=
  match ak_UserID key, ak_ExpiresAt key with
  | Some u, Some _ =>
      match List.find (fun x => u_ID x =s u) (users d) with
      | Some user => (u_Email user <>s "") && (0 <? rows_count (unclaimed (ak_ID key)) (api_keys d))%nat
      | None => false
      end
  | _, _ => false
  end.

Lemma head_of_filter {A} (p : A -> bool) l : head (List.filter p l) = List.find p l.
Proof. induction l as [|x l IH]; [done|]. simpl. by destruct (p x). Qed.

Lemma find_ext {A} (p q : A -> bool) l : (forall x, p x = q x) -> List.find p l = List.find q l.
Proof. intros Hp. induction l as [|x l IH]; [done|]. simpl. by rewrite Hp, IH. Qed.

(** Claiming one key leaves the others unclaimed. *)
Lemma unclaimed_other id id' now rows : id' <> id ->
  rows_count (unclaimed id') (rows_upd (unclaimed id) (with_notified now) rows) = rows_count (unclaimed id') rows.
Proof.
  intros Hne. unfold rows_count, rows_upd. induction rows as [|k rows IH]; [done|]. simpl.
  destruct (unclaimed id k) eqn:E; [|destruct (unclaimed id' k); simpl; by rewrite IH].
  assert (Hk : k_id k = id) by (unfold unclaimed in E; apply andb_prop in E as [E%seqb_true _]; done).
  assert (Hf : forall x, k_id x = id -> unclaimed id' x = false).
  { intros x <-. unfold unclaimed. by rewrite (proj2 (seqb_false (k_id x) id') (fun e => Hne (eq_sym e))). }
  rewrite (Hf k Hk), (Hf (with_notified now k) Hk). exact IH.
Qed.

Lemma sendExpiry_quiet n smtp a b c d e (w : world St) : w_sched w = [] ->
  exists r w', sendExpiryEmail RFC1123 n smtp a b c d e w = (r, w') /\ w_sched w' = [] /\ the_db (w_db w') = the_db (w_db w).
Proof.
  intros Hq. destruct (sendExpiryEmail RFC1123 n smtp a b c d e w) as [r w'] eqn:E. exists r, w'. split; [done|].
  assert (Hc : calm (sendExpiryEmail (St := St) RFC1123 n smtp a b c d e)).
  { unfold sendExpiryEmail. apply calm_bind; [apply calm_pure; by intros ?|]. intros now. apply calm_Send. }
  split; [specialize (Hc w Hq); by rewrite E in Hc|].
  assert (Hp : PreOrder (fun s s' : St => the_db s' = the_db s)) by (split; [by intros ?|intros ???; congruence]).
  assert (He : evolves (fun s s' : St => the_db s' = the_db s) (sendExpiryEmail RFC1123 n smtp a b c d e)).
  { unfold sendExpiryEmail. evolve. apply Send_evolves; [apply _|]. intros l s. apply wire_db. }
  destruct (He _ _ _ E) as [Hd _]; [|done]. unfold sched_respects. by rewrite Hq.
Qed.

Lemma check_key_quiet n smtp key (w : world St) :
  w_sched w = [] -> n_userRepo n = true ->
  exists t w', check_key RFC1123 n smtp key w = (Ok t, w') /\ w_sched w' = [] /\ users (the_db (w_db w')) = users (the_db (w_db w)) /\
    (forall id, id <> ak_ID key -> rows_count (unclaimed id) (api_keys (the_db (w_db w'))) = rows_count (unclaimed id) (api_keys (the_db (w_db w)))) /\
    if remindable (the_db (w_db w)) key then exists sent, t = Mailed (ak_ID key) sent else t = Skipped.
Proof.
  intros Hq Hr. unfold check_key, remindable. destruct (ak_UserID key) as [u|]; [|by eexists _, _].
  destruct (ak_ExpiresAt key) as [ex|]; [|by eexists _, _]. rewrite Hr. cbn [negb].
  assert (Hg : GetUserByID u OrgScopeAllOrganizations w =
    (match List.find (fun x => u_ID x =s u) (users (the_db (w_db w))) with Some user => Ok user | None => Err (notFound "user by id") end, w)).
  { unfold GetUserByID. cbn [MatchesNothing OrgScopeAllOrganizations all negb andb].
    rewrite (bind_step _ _ w (List.find (fun x => u_ID x =s u) (users (the_db (w_db w)))) w).
    - by destruct (List.find _ _).
    - apply wrapping_Ok. unfold select_row. rewrite select_quiet by done. rewrite head_of_filter. do 2 f_equal.
      apply find_ext. intros x. unfold user_where, admits_user. cbn. apply andb_true_r. }
  rewrite (bind_step (try (GetUserByID u OrgScopeAllOrganizations)) _ w _ w (try_step _ _ _ _ Hg)).
  destruct (List.find _ _) as [user|]; [|by eexists _, _]. destruct (u_Email user =s ""); [by eexists _, _|]. cbn [negb andb].
  assert (Hc : ClaimExpiryNotification (ak_ID key) w =
    (Ok (0 <? rows_count (unclaimed (ak_ID key)) (api_keys (the_db (w_db w))))%nat,
     set_db (put_db (set_keys (rows_upd (unclaimed (ak_ID key)) (with_notified (w_now w)) (api_keys (the_db (w_db w)))) (the_db (w_db w))) (w_db w)) w)).
  { unfold ClaimExpiryNotification. rewrite (bind_step time_Now _ w (w_now w) w eq_refl).
    unfold mbind, M_bind, wrapping, mapping_err. rewrite exec_quiet by done. done. }
  rewrite (bind_step (try (ClaimExpiryNotification (ak_ID key))) _ w _ _ (try_step _ _ _ _ Hc)).
  set (w1 := set_db _ w). assert (Hq1 : w_sched w1 = []) by done.
  assert (Hk1 : forall id, id <> ak_ID key -> rows_count (unclaimed id) (api_keys (the_db (w_db w1))) = rows_count (unclaimed id) (api_keys (the_db (w_db w)))).
  { intros id Hne. unfold w1. cbn [w_db set_db]. rewrite the_put. by apply unclaimed_other. }
  assert (Hu1 : users (the_db (w_db w1)) = users (the_db (w_db w))) by (unfold w1; cbn [w_db set_db]; by rewrite the_put).
  destruct (0 <? _)%nat; [|by exists Skipped, w1].
  destruct (sendExpiry_quiet n smtp (u_Email user) (u_Name user) (ak_Name key) (ak_KeyPrefix key) ex w1 Hq1) as (r & w2 & E & Hq2 & Hd2).
  exists (Mailed (ak_ID key) r), w2. rewrite (bind_step (try _) _ w1 _ _ (try_step _ _ _ _ E)). split; [done|]. split; [done|]. rewrite Hd2.
  split; [done|]. split; [done|]. by exists r.
Qed.

Lemma keys_loop_quiet n smtp keys (w : world St) :
  w_sched w = [] -> n_userRepo n = true -> NoDup (List.map ak_ID keys) ->
  exists l w', keys_loop RFC1123 n smtp keys w = (Ok l, w') /\
    forall id, In id (List.map fst l) <-> exists key, In key keys /\ ak_ID key = id /\ remindable (the_db (w_db w)) key = true.
Proof.
  revert w. induction keys as [|key keys IH]; intros w Hq Hr Hu.
  { exists [], w. split; [done|]. intros id. split; [done|]. by intros (k & [] & _). }
  inversion Hu as [|? ? Hni Hu']; subst. destruct (check_key_quiet n smtp key w Hq Hr) as (t & w1 & E1 & Hq1 & Hus & Hks & Ht).
  destruct (IH w1 Hq1 Hr Hu') as (l & w2 & E2 & Hl).
  assert (Hsame : forall key', In key' keys -> remindable (the_db (w_db w1)) key' = remindable (the_db (w_db w)) key').
  { intros key' Hin. unfold remindable. rewrite Hus. rewrite Hks; [done|]. intros Eq. apply Hni. rewrite <- Eq. by apply list_elem_of_In, in_map. }
  assert (Hl' : forall id, In id (List.map fst l) <-> exists key', In key' keys /\ ak_ID key' = id /\ remindable (the_db (w_db w)) key' = true).
  { intros id. rewrite Hl. split; intros (k & Hin & Hid & Hrm); exists k; (split; [done|]); (split; [done|]); by rewrite ?Hsame in * by done. }
  cbn [keys_loop]. rewrite (bind_step _ _ w t w1 E1). destruct (remindable (the_db (w_db w)) key) eqn:Er.
  - destruct Ht as [sent ->]. exists ((ak_ID key, sent) :: l), w2. split; [by rewrite (bind_step _ _ w1 l w2 E2)|].
    intros id. cbn [List.map fst In]. rewrite Hl'. split.
    + intros [<-|(k & Hin & Hid & Hrm)]; [exists key; split; [by left|done]|exists k; split; [by right|done]].
    + intros (k & [<-|Hin] & Hid & Hrm); [by left|right; by exists k].
  - subst t. exists l, w2. split; [exact E2|]. intros id. rewrite Hl'. split.
    + intros (k & Hin & Hid & Hrm). exists k. by split; [right|].
    + intros (k & [<-|Hin] & Hid & Hrm); [congruence|by exists k].
Qed.
End Facts.

(** The guard of the constructor keeps the number of hours positive; the interval is
    positive up to 2562047 hours, and one more wraps around. *)
Lemma interval_positive keys users cfg opts :
  (CheckIntervalHours cfg <= 2562047)%Z -> (0 < n_interval (NewAPIKeyExpiryNotifier keys users cfg opts))%Z.
Proof.
  intros Hh. unfold NewAPIKeyExpiryNotifier. cbn [n_interval].
  set (h := if (CheckIntervalHours cfg <=? 0)%Z then 24%Z else CheckIntervalHours cfg).
  assert (0 < h <= 2562047)%Z by (unfold h; destruct (Z.leb_spec (CheckIntervalHours cfg) 0); lia).
  unfold int64, time_Hour, second. rewrite Z.mod_small by lia. lia.
Qed.

(** ** Properties *)

(** A key's owner is reminded at most once. Whatever the schedule, as long as no
    other session takes a notice back, every key a run of the job mails was unclaimed when the
    run began and is claimed when it ends, and no run mails a key twice; so a later
    run - after a restart, of another replica, with another configuration - never mails
    it again, whatever became of the first mail. *)
Theorem reminded_at_most_once {St} `{HasDB St} `{HasWire St} `{!WireBesideDB St} RFC1123 n cfg n2 cfg2 (w w1 w2 w3 : world St) l1 l2 :
  sched_respects (over_db keeps_notified) w -> runCheck RFC1123 n cfg w = (Ok l1, w1) ->
  over_db keeps_notified (w_db w1) (w_db w2) ->
  sched_respects (over_db keeps_notified) w2 -> runCheck RFC1123 n2 cfg2 w2 = (Ok l2, w3) ->
  Forall (fun id => ~ notified (the_db (w_db w)) id /\ notified (the_db (w_db w1)) id) (List.map fst l1) /\
  NoDup (List.map fst (l1 ++ l2)).
Proof.
  intros Hs1 E1 K Hs2 E2. destruct (runCheck_mailed RFC1123 _ _ _ _ _ Hs1 E1) as (_ & Hu1 & Ha1).
  destruct (runCheck_mailed RFC1123 _ _ _ _ _ Hs2 E2) as (_ & Hu2 & Ha2). split; [done|].
  rewrite List.map_app. apply NoDup_app. split; [done|]. split; [|done]. intros id H1 H2.
  rewrite Forall_forall in Ha1. rewrite Forall_forall in Ha2. destruct (Ha1 id H1) as [_ Hm]. destruct (Ha2 id H2) as [Hn _].
  by apply Hn, K.
Qed.

(** And everybody reachable is reminded: with nobody interfering and every key's scopes
    readable, an enabled job mails exactly the keys inside the warning window whose
    notice is unclaimed and whose owner has an address. *)
Theorem reminds_everybody {St} `{HasDB St} `{HasWire St} `{!WireBesideDB St} RFC1123 n cfg (w : world St) :
  w_sched w = [] -> NoDup (List.map k_id (api_keys (the_db (w_db w)))) ->
  (forall k, In k (api_keys (the_db (w_db w))) -> exists key, scanAPIKey k = Ok key) ->
  Enabled cfg = true -> Host (SMTP cfg) <> "" -> APIKeyExpiring cfg = true -> n_apiKeyRepo n = true -> n_userRepo n = true ->
  let days := if (WarningDays cfg <=? 0)%Z then 7%Z else WarningDays cfg in
  exists l w', runCheck RFC1123 n cfg w = (Ok l, w') /\
    forall id, In id (List.map fst l) <-> exists k user, In k (api_keys (the_db (w_db w))) /\ k_id k = id /\
      expiring (w_dbnow w) (w_now w + days * day) k = true /\
      List.find (fun x => col_is (k_user_id k) (u_ID x)) (users (the_db (w_db w))) = Some user /\ u_Email user <> "".
Proof.
  intros Hq Hu Hdec H1 H2 H3 H4 H5 days. set (d := the_db (w_db w)) in *.
  set (rows := sort_by soonest (List.filter (expiring (w_dbnow w) (w_now w + days * day)) (api_keys d))).
  assert (Hrows : forall k, In k rows <-> In k (api_keys d) /\ expiring (w_dbnow w) (w_now w + days * day) k = true)
    by (intros k; unfold rows; by rewrite in_sort_by, filter_In).
  assert (Hsc : exists keys, scan_all scanAPIKey rows = Ok keys).
  { destruct (scan_all scanAPIKey rows) as [keys|e] eqn:Es; [by exists keys|]. exfalso. eapply scan_all_total; [|exact Es].
    intros k [Hk _]%Hrows. by apply Hdec. }
  destruct Hsc as [keys Es].
  assert (Hf : FindExpiringKeys days w = (Ok keys, w)).
  { unfold FindExpiringKeys. rewrite (bind_step time_Now _ w (w_now w) w eq_refl), (bind_step db_NOW _ w (w_dbnow w) w eq_refl).
    rewrite (bind_step _ _ w rows w); [unfold lift; by rewrite Es|]. apply wrapping_Ok. by rewrite select_quiet. }
  unfold runCheck. rewrite H1, H3, H4. rewrite (proj2 (seqb_false _ _) H2). cbn [negb orb]. fold days.
  rewrite (bind_step (try _) _ w _ _ (try_step _ _ _ _ Hf)).
  pose proof (proj1 (scan_all_Ok _ _ _) Es) as Hf2.
  assert (Hids : List.map ak_ID keys = List.map k_id rows).
  { clear -Hf2. induction Hf2 as [|k key rows keys E _ IH]; [done|]. cbn [List.map]. rewrite IH. f_equal. by destruct (scanAPIKey_fields _ _ E). }
  destruct (keys_loop_quiet RFC1123 n (SMTP cfg) keys w Hq H5) as (l & w' & El & Hl).
  { rewrite Hids. unfold rows. rewrite (sort_by_perm soonest (List.filter (expiring (w_dbnow w) (w_now w + days * day)) (api_keys d))).
    by apply NoDup_map_filter. }
  exists l, w'. split; [done|]. intros id. rewrite Hl. destruct (scan_all_in _ _ _ Es) as [Hs1 Hs2]. split.
  - intros (key & Hin & Hid & Hrm). destruct (Hs1 key Hin) as (k & Hk & Ek). apply Hrows in Hk as [Hk Hex].
    destruct (scanAPIKey_fields _ _ Ek) as (E1 & E2 & E3). unfold remindable in Hrm. fold d in Hrm. rewrite E2, E3 in Hrm.
    exists k. pose proof Hex as Hin'. unfold expiring in Hex. destruct (k_user_id k) as [u|] eqn:Euk; [|done]. destruct (k_expires_at k); [|done].
    destruct (List.find _ (users d)) as [user|] eqn:Eu; [|done]. exists user. apply andb_prop in Hrm as [He _].
    split; [done|]. split; [congruence|]. split; [done|]. split; [|by apply seqb_false, negb_true_iff].
    rewrite <- Eu. apply find_ext. intros x. cbn. apply seqb_sym.
  - intros (k & user & Hk & Hid & Hex & Hfd & He). destruct (Hs2 k) as (key & Hin & Ek); [by apply Hrows|].
    destruct (scanAPIKey_fields _ _ Ek) as (E1 & E2 & E3). exists key. split; [done|]. split; [congruence|].
    unfold remindable. fold d. rewrite E1, E2, E3. unfold expiring in Hex. destruct (k_expires_at k); [|done].
    destruct (k_expiry_notification_sent_at k) eqn:En; [done|]. destruct (k_user_id k) as [u|]; [|done].
    rewrite (find_ext _ (fun x => col_is (Some u) (u_ID x))), Hfd by (intros x; cbn; apply seqb_sym).
    rewrite (proj2 (seqb_false _ _) He). cbn [negb andb]. apply Nat.ltb_lt. unfold rows_count.
    assert (Hc : In k (List.filter (unclaimed (k_id k)) (api_keys d))) by (apply filter_In; unfold unclaimed; by rewrite En, seqb_refl).
    destruct (List.filter (unclaimed (k_id k)) (api_keys d)); [by destruct Hc|]. simpl. lia.
Qed.
End Expiry.

(** ** Witness *)

Module Example_expiry.
Import Mail Expiry.

Definition app : Type := DB * list (security * command).
#[export] Instance app_HasDB : HasDB app.
Proof. refine {| the_db := fst; put_db := fun d s => (d, snd s) |}; by try intros []. Defined.
#[export] Instance app_HasWire : HasWire app.
Proof. refine {| wire := snd; put_wire := fun l s => (fst s, l) |}; done. Defined.
#[export] Instance app_beside : WireBesideDB app.
Proof. done. Defined.

Definition ex_owner : User := {| u_ID := "u1"; u_Email := "a@x"; u_Name := "A"; u_OIDCSub := None; u_CreatedAt := 0; u_UpdatedAt := 0 |}.
Definition ex_keys : list KeyRow := [ex_key "k1" "u1" "o1" "p" ["s"] (Some (2 * day)%Z); ex_key "k2" "u1" "o1" "p" ["s"] (Some (90 * day)%Z)].
Definition ex_start : world app := quiet (MkDB [] [ex_owner] [] [] ex_keys [], []) 1 1 0.
Definition ex_cfg : ExpiryConfig :=
  {| Enabled := true; APIKeyExpiring := true; WarningDays := 0; CheckIntervalHours := 0;
     SMTP := {| Host := "localhost"; Port := 25; From := "noreply@x"; Username := ""; Password := ""; Mode := TLSDisabled |} |}.
Example interval_wraps opts :
  let n := NewAPIKeyExpiryNotifier true true {| Enabled := true; APIKeyExpiring := true; WarningDays := 0;
             CheckIntervalHours := 2562048; SMTP := SMTP ex_cfg |} opts in
  fst (Start (fun _ => "date") n false ex_cfg ex_cfg [] ex_start) = Err (Plain "non-positive interval for NewTicker").
Proof. by vm_compute. Qed.

Definition ex_job : APIKeyExpiryNotifier := NewAPIKeyExpiryNotifier true true ex_cfg {| ProductName := "Registry" |}.
Definition ex_run := runCheck (fun _ => "date") ex_job ex_cfg.
Definition ex_first := ex_run ex_start.

Lemma reminded_at_most_once_witness :
  fst ex_first = Ok [("k1", Ok tt)] /\ fst (ex_run (snd ex_first)) = Ok [] /\ NoDup (List.map fst ([("k1", Ok tt)] ++ @nil (string * result unit))).
Proof.
  split; [vm_compute; reflexivity|]. split; [vm_compute; reflexivity|].
  apply (reminded_at_most_once (fun _ => "date") ex_job ex_cfg ex_job ex_cfg ex_start (snd ex_first) (snd ex_first) (snd (ex_run (snd ex_first)))).
  - constructor.
  - vm_compute. reflexivity.
  - done.
  - vm_compute. constructor.
  - vm_compute. reflexivity.
Defined.
End Example_expiry.
