(* ===== verification/Lifecycle.v ===== *)
(** * Lifecycle: the loops this module owns and how they are stopped

    Start and Stop of notify/api_key_expiry.go, the janitor and Close of
    auth/oauthstate/memory.go, Start and Stop of auditoutbox/relay.go and Start of
    suite/discovery.go, as goroutines that interleave statement by statement over the
    stop channel and the sync.Once. What a body of a loop does is the subject of the
    component files; here it is one step that returns. *)

From stdpp Require Import relations.
From S2P Require Import Prelude.

(** ** What the goroutines share *)

(** [sync.Once]: the first caller of [Do] runs the function, the callers that come while it
    runs wait, and later ones return at once. *)
Inductive once := Fresh | Running | Finished.
Record stopping := { chan_closed : bool; stopOnce : once }.

(** [close(c)]; closing a closed channel panics. *)
Definition close (s : stopping) : option stopping :=
  if chan_closed s then None else Some {| chan_closed := true; stopOnce := stopOnce s |}.

Definition with_once (o : once) (s : stopping) : stopping := {| chan_closed := chan_closed s; stopOnce := o |}.

(** ** Stop

    Where a caller of Stop is; [Closing] is before the close, [Leaving] after it. *)
Inductive caller := Called | Closing | Leaving | Returned | Panicked.

Definition close_then (next : caller) (s : stopping) : stopping * caller :=
  match close s with Some s' => (s', next) | None => (s, Panicked) end.

(** One statement of one caller; [None] when it waits or is through. *)
Class Stopper := stop_step : stopping -> caller -> option (stopping * caller).

(** [stopOnce.Do(func() { close(stopChan) })]: APIKeyExpiryNotifier.Stop and the first
    statement of MemoryStore.Close. *)
Definition once_Stop : Stopper := fun s c =>
  match c with
  | Called =>
      match stopOnce s with
      | Fresh => Some (with_once Running s, Closing)
      | Running => None
      | Finished => Some (s, Returned)
      end
  | Closing => Some (close_then Leaving s)
  | Leaving => Some (with_once Finished s, Returned)
  | Returned | Panicked => None
  end.

(** Relay.Stop: a select that looks at the channel, then the close. *)
Definition select_Stop : Stopper := fun s c =>
  match c with
  | Called => Some (s, if chan_closed s then Returned else Closing)
  | Closing => Some (close_then Returned s)
  | Leaving | Returned | Panicked => None
  end.

(** ** The loops *)

Inductive loop_at := Entering | Body | Selecting | Exited.

(** What a select may receive; a stop can be received only once the channel is closed, and
    when several are ready Go chooses. *)
Inductive received := a_tick | a_stop | a_done.

Class Loop := loop_step : received -> bool -> loop_at -> option loop_at.

Definition select_loop (has_stop : bool) (r : received) (closed : bool) : option loop_at :=
  match r with
  | a_tick => Some Body
  | a_stop => if has_stop && closed then Some Exited else None
  | a_done => Some Exited
  end.

Definition isStopped (closed : bool) : bool := closed.

(** APIKeyExpiryNotifier.Start; [enabled]: its three settings allow it. *)
Definition notifier_Start (enabled : bool) : Loop := fun r closed at_ =>
  match at_ with
  | Entering => Some (if isStopped closed then Exited else if enabled then Body else Exited)
  | Body => Some Selecting
  | Selecting => select_loop true r closed
  | Exited => None
  end.

(** Relay.Start with an outbox and a sink. *)
Definition relay_Start : Loop := fun r closed at_ =>
  match at_ with
  | Entering => Some Body
  | Body => Some Selecting
  | Selecting => select_loop true r closed
  | Exited => None
  end.

(** MemoryStore.janitor has no context. *)
Definition janitor : Loop := fun r closed at_ =>
  match at_ with
  | Entering => Some Selecting
  | Body => Some Selecting
  | Selecting => match r with a_done => None | _ => select_loop true r closed end
  | Exited => None
  end.

(** DiscoveryClient.Start has no stop channel. *)
Definition discovery_Start : Loop := fun r closed at_ =>
  match at_ with
  | Entering => Some Body
  | Body => Some Selecting
  | Selecting => select_loop false r closed
  | Exited => None
  end.

#[export] Instance loop_at_eq : EqDecision loop_at.
Proof. solve_decision. Defined.

(** ** The goroutines together *)

Record sys := { shared : stopping; callers : list caller; loop : loop_at; bodies : nat }.

Definition init : sys :=
  {| shared := {| chan_closed := false; stopOnce := Fresh |}; callers := []; loop := Entering; bodies := 0 |}.

Definition closed (s : sys) : bool := chan_closed (shared s).

(** A caller's statement. *)
Inductive advance {ST : Stopper} (s : sys) : sys -> Prop :=
| advance_caller i c sh c' :
    callers s !! i = Some c -> stop_step (shared s) c = Some (sh, c') ->
    advance s {| shared := sh; callers := <[i := c']> (callers s); loop := loop s; bodies := bodies s |}.

Inductive step {ST : Stopper} {LO : Loop} (s : sys) : sys -> Prop :=
| step_call : step s {| shared := shared s; callers := callers s ++ [Called]; loop := loop s; bodies := bodies s |}
| step_caller s' : advance s s' -> step s s'
| step_loop r l : loop_step r (closed s) (loop s) = Some l ->
    step s {| shared := shared s; callers := callers s; loop := l;
              bodies := if bool_decide (l = Body) then S (bodies s) else bodies s |}.

Definition reachable {ST : Stopper} {LO : Loop} : sys -> Prop := rtc step init.

(** ** sync.Once: the invariant *)

Definition sound (s : sys) : Prop :=
  match stopOnce (shared s) with
  | Fresh => closed s = false /\ forall i c, callers s !! i = Some c -> c = Called
  | Running => exists i,
      (callers s !! i = Some Closing /\ closed s = false \/ callers s !! i = Some Leaving /\ closed s = true) /\
      forall j c, j <> i -> callers s !! j = Some c -> c = Called
  | Finished => closed s = true /\ forall i c, callers s !! i = Some c -> c = Called \/ c = Returned
  end.

(** What a list of callers with one moved holds. *)
Lemma moved (l : list caller) i c' j c : <[i := c']> l !! j = Some c -> j = i /\ c = c' \/ j <> i /\ l !! j = Some c.
Proof. rewrite list_lookup_insert_Some. naive_solver. Qed.

Lemma joined (l : list caller) j c : (l ++ [Called]) !! j = Some c -> c = Called \/ l !! j = Some c.
Proof. rewrite lookup_app_Some. intros [?|[_ E]]; [by right|]. left. destruct (j - length l)%nat; simpl in E; naive_solver. Qed.

Lemma advance_sound s s' : sound s -> advance (ST := once_Stop) s s' -> sound s'.
Proof.
  intros Hs [i c sh c' Hc Hstep]. unfold sound, closed, stop_step, once_Stop, close_then, close in *. simpl.
  pose proof (lookup_lt_Some _ _ _ Hc) as Hi.
  destruct s as [[cl o] l at_ n], c; simpl in *; simplify_eq/=.
  - destruct o; simplify_eq/=.
    + destruct Hs as [-> Hall]. exists i. rewrite list_lookup_insert_eq by done. split; [by left|].
      intros j c Hj [[-> _]|[_ ?]]%moved; [done|eauto].
    + destruct Hs as [-> Hall]. split; [done|]. intros j c [[_ ->]|[_ ?]]%moved; [by right|eauto].
  - destruct o.
    + destruct Hs as [_ Hall]. by apply Hall in Hc.
    + destruct Hs as (k & [[Hk ->]|[Hk ->]] & Hall).
      * assert (i = k) as -> by (destruct (decide (i = k)); [done|by apply Hall in Hc]). injection Hstep as <- <-.
        simpl. exists k. rewrite list_lookup_insert_eq by done. split; [by right|].
        intros j c Hj [[-> _]|[_ ?]]%moved; [done|eauto].
      * destruct (decide (i = k)) as [->|Hn]; [congruence|by apply Hall in Hc].
    + destruct Hs as [_ Hall]. apply Hall in Hc. naive_solver.
  - destruct o.
    + destruct Hs as [_ Hall]. by apply Hall in Hc.
    + destruct Hs as (k & [[Hk ->]|[Hk ->]] & Hall); (destruct (decide (i = k)) as [->|Hn]; [|by apply Hall in Hc]); [congruence|].
      split; [done|]. intros j c [[_ ->]|[Hj ?]]%moved; [by right|left; eauto].
    + destruct Hs as [_ Hall]. apply Hall in Hc. naive_solver.
Qed.

Lemma step_sound {LO : Loop} s s' : sound s -> step (ST := once_Stop) s s' -> sound s'.
Proof.
  intros Hs [|s1 Ha|r l _]; [|by eapply advance_sound|done].
  unfold sound, closed in *. simpl. destruct (stopOnce (shared s)).
  - destruct Hs as [Hcl Hall]. split; [done|]. intros i c [?|?]%joined; eauto.
  - destruct Hs as (k & Hk & Hall). exists k. split.
    + destruct Hk as [[Hk ?]|[Hk ?]]; [left|right]; (split; [|done]); by apply lookup_app_l_Some.
    + intros j c Hj [?|?]%joined; eauto.
  - destruct Hs as [Hcl Hall]. split; [done|]. intros i c [?|?]%joined; eauto.
Qed.

Lemma reachable_sound {LO : Loop} s : reachable (ST := once_Stop) s -> sound s.
Proof.
  intros Hr. unfold reachable in Hr. remember init as s0. assert (Hs : sound s0) by (subst; split; [done|by intros ? ? ?]).
  clear Heqs0. induction Hr as [|s0 s1 s2 Hst _ IH]; [done|]. apply IH. by eapply step_sound.
Qed.

(** ** Every Stop returns *)

Definition remaining (c : caller) : nat :=
  match c with Called => 3 | Closing => 2 | Leaving => 1 | Returned | Panicked => 0 end.
Definition work (s : sys) : nat := sum_list_with remaining (callers s).

Lemma work_insert (l : list caller) i c c' :
  l !! i = Some c -> sum_list_with remaining (<[i := c']> l) + remaining c = sum_list_with remaining l + remaining c'.
Proof.
  revert i. induction l as [|x l IH]; intros [|i] E; simplify_eq/=; [lia|]. specialize (IH i E). lia.
Qed.

Lemma advance_works s s' : advance (ST := once_Stop) s s' -> (work s' < work s)%nat.
Proof.
  intros [i c sh c' Hc Hstep]. unfold work. simpl. pose proof (work_insert _ _ _ c' Hc) as E.
  assert (remaining c' < remaining c)%nat; [|lia].
  unfold stop_step, once_Stop in Hstep. destruct c; simpl in *; simplify_eq/=; [|unfold close_then in *; by destruct (close _); simplify_eq/=; lia|lia].
  destruct (stopOnce _); simplify_eq/=; lia.
Qed.

Lemma advances_work n s s' : nsteps (advance (ST := once_Stop)) n s s' -> (n + work s' <= work s)%nat.
Proof.
  induction 1 as [|n s0 s1 s2 Ha _ IH]; [lia|]. apply advance_works in Ha. lia.
Qed.

Lemma work_bound s : (work s <= 3 * length (callers s))%nat.
Proof. unfold work. induction (callers s) as [|c l IH]; simpl; [lia|]. destruct c; simpl; lia. Qed.

Lemma sound_progress s : sound s -> (forall s', ~ advance (ST := once_Stop) s s') ->
  forall i c, callers s !! i = Some c -> c = Returned.
Proof.
  intros Hs Hstuck.
  assert (Hno : forall i c, callers s !! i = Some c -> stop_step (Stopper := once_Stop) (shared s) c = None).
  { intros i c Hc. destruct (stop_step _ c) as [[sh c']|] eqn:E; [|done]. exfalso.
    eapply Hstuck. by eapply advance_caller. }
  intros i c Hc. pose proof (Hno i c Hc) as E. unfold sound in Hs. unfold stop_step, once_Stop in *.
  destruct (stopOnce (shared s)) eqn:Eo.
  - destruct Hs as [_ Hall]. rewrite (Hall _ _ Hc) in E. done.
  - destruct Hs as (k & [[Hk _]|[Hk _]] & _); by apply Hno in Hk.
  - destruct Hs as [_ Hall]. destruct (Hall _ _ Hc) as [->| ->]; [|done]. done.
Qed.

Lemma closed_stays {LO : Loop} s s' : closed s = true -> step (ST := once_Stop) s s' -> closed s' = true.
Proof.
  intros Hc [|s1 [i c sh c' Hi E]|r l _]; [done| |done]. unfold closed in *. simpl.
  unfold stop_step, once_Stop, close_then, close in E. destruct c; repeat case_match; by simplify_eq/=.
Qed.

(** A notifier stopped before it starts runs nothing. *)
Definition never_ran (s : sys) : Prop :=
  closed s = true /\ bodies s = 0%nat /\ (loop s = Entering \/ loop s = Exited).

Lemma never_ran_step enabled s s' :
  never_ran s -> step (ST := once_Stop) (LO := notifier_Start enabled) s s' -> never_ran s'.
Proof.
  intros (Hc & Hb & Hl) Hst. pose proof (closed_stays _ _ Hc Hst) as Hc'.
  destruct Hst as [|s1 [i c sh c' Hi E]|r l E]; [done|done|]. split; [done|]. simpl.
  unfold loop_step, notifier_Start in E. rewrite Hc in E. destruct Hl as [Hl|Hl]; rewrite Hl in E; simplify_eq/=. by auto.
Qed.

(** A loop does not enter twice. *)
Lemma entering_ran_nothing {ST : Stopper} enabled s :
  reachable (LO := notifier_Start enabled) s -> loop s = Entering -> bodies s = 0%nat.
Proof.
  intros Hr. unfold reachable in Hr. remember init as s0. assert (H0 : loop s0 = Entering -> bodies s0 = 0%nat) by by subst.
  clear Heqs0. induction Hr as [|s0 s1 s2 Hst _ IH]; [done|]. apply IH.
  destruct Hst as [|s1 [i c sh c' Hi E]|r l E]; [done|done|]. simpl. intros ->.
  unfold loop_step, notifier_Start, select_loop in E. destruct (loop s0), r; repeat case_match; by simplify_eq/=.
Qed.


(** ** Relay.Stop: safe one call after another, not at once *)

(** Calls that do not overlap: one begins when all before it have returned. *)
Inductive serial_step {ST : Stopper} {LO : Loop} (s : sys) : sys -> Prop :=
| serial_call : (forall i c, callers s !! i = Some c -> c = Returned) ->
    serial_step s {| shared := shared s; callers := callers s ++ [Called]; loop := loop s; bodies := bodies s |}
| serial_other s' : step s s' -> length (callers s') = length (callers s) -> serial_step s s'.

Record alone (s : sys) : Prop := {
  alone_states i c : callers s !! i = Some c -> c = Called \/ c = Closing \/ c = Returned;
  alone_closing i : callers s !! i = Some Closing -> closed s = false;
  alone_returned i : callers s !! i = Some Returned -> closed s = true;
  alone_active i j c c' : callers s !! i = Some c -> callers s !! j = Some c' -> c <> Returned -> c' <> Returned -> i = j
}.

Lemma advance_alone s s' : alone s -> advance (ST := select_Stop) s s' -> alone s'.
Proof.
  intros [Hst Hcl Hret Hact] [i c sh c' Hc E]. unfold closed in *.
  assert (Hother : forall j c2, j <> i -> callers s !! j = Some c2 -> c <> Returned -> c2 = Returned).
  { intros j c2 Hj Hc2 Hn. destruct (Hst _ _ Hc2) as [->|[->| ->]]; [| |done]; destruct Hj; by eapply Hact. }
  unfold stop_step, select_Stop, close_then, close in E.
  destruct c; simplify_eq/=.
  - destruct (chan_closed (shared s)) eqn:Ec; simplify_eq/=;
      (constructor; simpl; unfold closed; simpl;
       [intros j c2 [[_ ->]|[? ?]]%moved|intros j [[_ ?]|[? ?]]%moved|intros j [[_ ?]|[? ?]]%moved
       |intros j k c2 c3 [[-> ->]|[? H2]]%moved [[-> ->]|[? H3]]%moved ? ?]); naive_solver.
  - rewrite (Hcl _ Hc) in E. simplify_eq/=.
    constructor; simpl; unfold closed; simpl;
      [intros j c2 [[_ ->]|[? ?]]%moved|intros j [[_ ?]|[? ?]]%moved|intros j [[_ ?]|[? ?]]%moved
      |intros j k c2 c3 [[-> ->]|[? H2]]%moved [[-> ->]|[? H3]]%moved ? ?]; naive_solver.
Qed.

Lemma serial_alone {LO : Loop} s s' : alone s -> serial_step (ST := select_Stop) s s' -> alone s'.
Proof.
  intros Ha [Hall|s1 [|s2 Hadv|r l _] Hlen].
  - constructor; unfold closed; simpl.
    + intros i c [->|E]%joined; [by left|]. rewrite (Hall _ _ E). by right; right.
    + intros i [?|E]%joined; [done|]. by apply Hall in E.
    + intros i [?|E]%joined; [done|]. by eapply alone_returned.
    + intros i j c c' Hi Hj Hc Hc'. assert (Hlast : forall k ck, (callers s ++ [Called]) !! k = Some ck -> ck <> Returned -> k = length (callers s)).
      { intros k ck [E|[Hk E]]%lookup_app_Some Hn; [by apply Hall in E|]. apply lookup_lt_Some in E. simpl in E. lia. }
      rewrite (Hlast _ _ Hi Hc). by rewrite (Hlast _ _ Hj Hc').
  - simpl in Hlen. rewrite length_app in Hlen. simpl in Hlen. lia.
  - by eapply advance_alone.
  - by destruct Ha; constructor.
Qed.

(** Relay.Stop may be called again, but not at the same time. Calls that follow each
    other never panic and leave the channel closed, whatever the loop does meanwhile;
    but two goroutines that call it at once can both find the channel open, and the
    second then closes a closed channel, which panics in the host's goroutine: there is
    such a run, while no run of the two siblings that use sync.Once has one. *)
Theorem relay_Stop_exact :
  (forall s, rtc (serial_step (ST := select_Stop) (LO := relay_Start)) init s ->
     forall i c, callers s !! i = Some c -> c <> Panicked /\ (c = Returned -> closed s = true)) /\
  (exists s, reachable (ST := select_Stop) (LO := relay_Start) s /\ callers s = [Returned; Panicked]) /\
  (forall LO s, reachable (ST := once_Stop) (LO := LO) s -> ~ In Panicked (callers s)).
Proof.
  split; [|split].
  - intros s Hr. remember init as s0. assert (Ha : alone s0) by (subst; constructor; by intros).
    clear Heqs0. induction Hr as [s|s0 s1 s2 Hst _ IH]; [|by eapply IH, serial_alone].
    intros i c Hc. split.
    + intros ->. by destruct (alone_states _ Ha _ _ Hc) as [?|[?|?]].
    + intros ->. by eapply alone_returned.
  - eexists. split; [|shelve].
    eapply rtc_l; [apply step_call|]. eapply rtc_l; [apply step_call|].
    eapply rtc_l; [apply step_caller, (advance_caller _ 0 Called); reflexivity|].
    eapply rtc_l; [apply step_caller, (advance_caller _ 1 Called); reflexivity|].
    eapply rtc_l; [apply step_caller, (advance_caller _ 0 Closing); reflexivity|].
    eapply rtc_l; [apply step_caller, (advance_caller _ 1 Closing); reflexivity|].
    apply rtc_refl.
    Unshelve. reflexivity.
  - intros LO s Hr Hin. apply reachable_sound in Hr. apply list_elem_of_In, list_elem_of_lookup in Hin as [i Hi].
    unfold sound in Hr. destruct (stopOnce (shared s)).
    + destruct Hr as [_ Hall]. by apply Hall in Hi.
    + destruct Hr as (k & Hk & Hall). destruct (decide (i = k)) as [->|Hn]; [|by apply Hall in Hi].
      destruct Hk as [[E _]|[E _]]; congruence.
    + destruct Hr as [_ Hall]. apply Hall in Hi. naive_solver.
Qed.

(** ** Witness *)

(** A notifier not yet started; of two callers the first has closed the channel. *)
Definition ex_stopping : sys :=
  {| shared := {| chan_closed := true; stopOnce := Running |}; callers := [Leaving; Called]; loop := Entering; bodies := 0 |}.

Lemma ex_stopping_reachable : reachable (ST := once_Stop) (LO := notifier_Start true) ex_stopping.
Proof.
  eapply rtc_l; [apply step_call|]. eapply rtc_l; [apply step_call|].
  eapply rtc_l; [apply step_caller, (advance_caller _ 0 Called); reflexivity|].
  eapply rtc_l; [apply step_caller, (advance_caller _ 0 Closing); reflexivity|]. apply rtc_refl.
Qed.

