(* ===== verification/Suite.v ===== *)
(** * Suite: identity/suite/manifest.go and discovery.go

    The coupling between two applications: the manifest each publishes, the
    negotiation of compatibility, and the client that polls a sibling's manifest and
    hands out copies of the last good one.

    Manifests are shared by pointer, so they live in a heap of the process state:
    structs, the slice of capabilities and the map of links are cells, and a caller
    that holds a pointer may write to what it points to.

    The HTTP round trip is an operation of the environment, the request constructor,
    the JSON scanner, URL parsing and Unicode case are parameters. A body cut short is
    one that ends early. Mutexes make [record_poll] and [Snapshot] single steps; no step
    of a poll panics in the model. *)

From S2P Require Import Prelude GoStrings NetIP HttpSafe Json.
From Stdlib Require Import Ascii.

Module Suite.

(** ** manifest.go *)

Record Capability := { cap_ID : string }.
Record IdentityInfo := { Issuer : string; SharedStore : bool; Schema : string }.

(** The struct, over what its slice and its map are: locations, or their contents. *)
Record ManifestOf (S L : Type) := MkManifest {
  SchemaVersion : string; App : string; Version : string; BuildDate : string; PublicURL : string; Identity : IdentityInfo;
  Capabilities : option S; Links : option L
}.
Arguments MkManifest {_ _} _ _ _ _ _ _ _ _.
Arguments SchemaVersion {_ _} _.
Arguments App {_ _} _.
Arguments Version {_ _} _.
Arguments BuildDate {_ _} _.
Arguments PublicURL {_ _} _.
Arguments Identity {_ _} _.
Arguments Capabilities {_ _} _.
Arguments Links {_ _} _.

Abbreviation loc := positive.
Definition Manifest : Type := ManifestOf loc loc.
Definition contents : Type := ManifestOf (list Capability) (gmap string string).

Definition with_refs {S L S' L'} (m : ManifestOf S L) (c : option S') (l : option L') : ManifestOf S' L' :=
  MkManifest (SchemaVersion m) (App m) (Version m) (BuildDate m) (PublicURL m) (Identity m) c l.

(** The text after the last slash, if there is one. *)
Fixpoint after_last_slash (l : list ascii) : option (list ascii) :=
  match l with
  | [] => None
  | a :: l => match after_last_slash l with Some r => Some r | None => if (a =? "/")%char then Some l else None end
  end.

Fixpoint before_dot (l : list ascii) : list ascii :=
  match l with [] => [] | a :: l => if (a =? ".")%char then [] else a :: before_dot l end.

Definition Major (schemaVersion : string) : string :=
  match after_last_slash (bytes_of schemaVersion) with
  | None => schemaVersion
  | Some major => string_of (before_dot major)
  end.

Definition SchemaVersionV1 : string := "suite/v1".

Definition NegotiateCompat {S L S' L'} (self : ManifestOf S L) (sibling : ManifestOf S' L') : bool * string :=
  if App sibling =s "" then (false, "sibling manifest has empty app id")
  else if App sibling =s App self then (false, "sibling app equals self (pointing at self?)")
  else
    let selfMajor := Major (SchemaVersion self) in
    let siblingMajor := Major (SchemaVersion sibling) in
    if selfMajor =s "" then (false, "schema version missing on self")
    else if siblingMajor =s "" then (false, "sibling manifest has empty schema version")
    else if siblingMajor <>s selfMajor
    then (false, "schema major mismatch: " +:+ SchemaVersion sibling +:+ " vs " +:+ SchemaVersion self)
    else (true, "").

(** [strings.TrimRight(s, "/")]. *)
Fixpoint trim_slashes (l : list ascii) : list ascii :=
  match l with
  | [] => []
  | a :: l => match trim_slashes l with [] => if (a =? "/")%char then [] else [a] | r => a :: r end
  end.
Definition TrimRight_slash (s : string) : string := string_of (trim_slashes (bytes_of s)).

Definition Display (u : string) : string := u.

Section Resolving.
Context {St : Type} (ToLower : string -> string) (url_Parse : string -> result URL) (lookupIP : string -> M St (list IP)).

Definition Resolve (u : string) (g : option Guard) : M St string :=
  let raw := TrimRight_slash (TrimSpace u) in
  if raw =s "" then throw (Plain "suite: sibling manifest advertises no publicUrl")
  else
    wrapping "suite: sibling-asserted publicUrl is not reachable under this deployment's egress policy"
      (ValidateURL ToLower url_Parse lookupIP g raw);;
    mret raw.
End Resolving.

(** ** Decoding a manifest *)

Definition manifest_keys : list string :=
  ["schemaVersion"; "app"; "version"; "buildDate"; "publicUrl"; "identity"; "capabilities"; "links"].
Definition identity_keys : list string := ["issuer"; "sharedStore"; "schema"].
Definition no_identity : IdentityInfo := {| Issuer := ""; SharedStore := false; Schema := "" |}.
Definition no_manifest : contents := MkManifest "" "" "" "" "" no_identity None None.

Section Decoding.
Context (foldName : string -> string).

(** The members of an object into the fields they select, in document order. *)
Fixpoint decode_members {A} (field : string -> json -> A -> result A) (tags : list string) (o : object) (acc : A) : result A :=
  match o with
  | [] => Ok acc
  | (k, v) :: o =>
      match field_of foldName tags k with
      | None => decode_members field tags o acc
      | Some t => acc' ← field t v acc; decode_members field tags o acc'
      end
  end.

(** [null] leaves a field that is no pointer, slice or map as it is. *)
Definition identity_field (t : string) (v : json) (i : IdentityInfo) : result IdentityInfo :=
  match v with
  | JSNull => Ok i
  | JSStr s =>
      if t =s "issuer" then Ok {| Issuer := s; SharedStore := SharedStore i; Schema := Schema i |}
      else if t =s "schema" then Ok {| Issuer := Issuer i; SharedStore := SharedStore i; Schema := s |}
      else Err cannot_unmarshal
  | JSBool b =>
      if t =s "sharedStore" then Ok {| Issuer := Issuer i; SharedStore := b; Schema := Schema i |} else Err cannot_unmarshal
  | _ => Err cannot_unmarshal
  end.

Definition decode_identity (v : json) (i : IdentityInfo) : result IdentityInfo :=
  match v with
  | JSNull => Ok i
  | JSObj o => decode_members identity_field identity_keys o i
  | _ => Err cannot_unmarshal
  end.

Definition decode_capability (v : json) : result Capability :=
  match v with
  | JSNull => Ok {| cap_ID := "" |}
  | JSObj o => f ← decode_struct foldName ["id"] o; Ok {| cap_ID := f "id" |}
  | _ => Err cannot_unmarshal
  end.

Definition decode_capabilities (v : json) : result (option (list Capability)) :=
  match v with
  | JSNull => Ok None
  | JSArr l => cs ← scan_all decode_capability l; Ok (Some cs)
  | _ => Err cannot_unmarshal
  end.

Fixpoint decode_entries (o : object) (g : gmap string string) : result (gmap string string) :=
  match o with
  | [] => Ok g
  | (k, v) :: o => s ← decode_string v; decode_entries o (<[k := s]> g)
  end.

(** An object adds to the map that is there. *)
Definition decode_links (v : json) (g : option (gmap string string)) : result (option (gmap string string)) :=
  match v with
  | JSNull => Ok None
  | JSObj o => g' ← decode_entries o (default ∅ g); Ok (Some g')
  | _ => Err cannot_unmarshal
  end.

Definition set_text (t s : string) (m : contents) : contents :=
  MkManifest (if t =s "schemaVersion" then s else SchemaVersion m) (if t =s "app" then s else App m)
    (if t =s "version" then s else Version m) (if t =s "buildDate" then s else BuildDate m)
    (if t =s "publicUrl" then s else PublicURL m) (Identity m) (Capabilities m) (Links m).

Definition manifest_field (t : string) (v : json) (m : contents) : result contents :=
  if t =s "identity" then
    i ← decode_identity v (Identity m);
    Ok (MkManifest (SchemaVersion m) (App m) (Version m) (BuildDate m) (PublicURL m) i (Capabilities m) (Links m))
  else if t =s "capabilities" then c ← decode_capabilities v; Ok (with_refs m c (Links m))
  else if t =s "links" then l ← decode_links v (Links m); Ok (with_refs m (Capabilities m) l)
  else
    match v with
    | JSNull => Ok m
    | JSStr s => Ok (set_text t s m)
    | _ => Err cannot_unmarshal
    end.

Definition decode_manifest (v : json) : result contents :=
  match v with
  | JSNull => Ok no_manifest
  | JSObj o => decode_members manifest_field manifest_keys o no_manifest
  | _ => Err cannot_unmarshal
  end.
End Decoding.

(** ** The heap *)

Inductive cell := Struct (m : Manifest) | Caps (l : list Capability) | LinkMap (g : gmap string string).
Abbreviation heap := (gmap positive cell).

Definition struct_at (h : heap) (p : loc) : Manifest :=
  match h !! p with Some (Struct m) => m | _ => with_refs no_manifest None None end.
Definition caps_at (h : heap) (p : loc) : list Capability := match h !! p with Some (Caps l) => l | _ => [] end.
Definition links_at (h : heap) (p : loc) : gmap string string := match h !! p with Some (LinkMap g) => g | _ => ∅ end.

(** ** discovery.go: the client *)

Inductive SiblingState := StateUnknown | StateActive | StateDegraded | StateUnreachable.

Definition ManifestPath : string := "/api/v1/suite/manifest".
Definition time_Second : Z := 1000000000.
Definition defaultPollInterval : Z := 60 * time_Second.
Definition defaultGraceWindow : Z := 300 * time_Second.
Definition pollTimeout : Z := 2 * time_Second.
Definition maxManifestBytes : N := N.shiftl 1 20.

(** An [http.Client] of this module: its budget, its guard and whether it follows redirects. *)
Record HTTPClient := { hc_timeout : Z; hc_guard : option Guard; hc_follows : bool }.

Record DiscoveryClient := {
  siblingURL : string; self : Manifest; pollInterval : Z; graceWindow : Z; httpClient : HTTPClient; guard : option Guard;
  state : SiblingState; lastGood : option loc; lastOKAt : option Z (* None: the zero time *)
}.

Definition with_state (s : SiblingState) (d : DiscoveryClient) : DiscoveryClient :=
  {| siblingURL := siblingURL d; self := self d; pollInterval := pollInterval d; graceWindow := graceWindow d;
     httpClient := httpClient d; guard := guard d; state := s; lastGood := lastGood d; lastOKAt := lastOKAt d |}.

Definition with_good (m : loc) (now : Z) (d : DiscoveryClient) : DiscoveryClient :=
  {| siblingURL := siblingURL d; self := self d; pollInterval := pollInterval d; graceWindow := graceWindow d;
     httpClient := httpClient d; guard := guard d; state := StateActive; lastGood := Some m; lastOKAt := Some now |}.

(** The client is allocated once; the record is what its fields hold. *)
Class HasSuite (St : Type) := {
  the_heap : St -> heap;
  put_heap : heap -> St -> St;
  the_client : St -> DiscoveryClient;
  put_client : DiscoveryClient -> St -> St;
  the_put_heap : forall h s, the_heap (put_heap h s) = h;
  the_put_client : forall d s, the_client (put_client d s) = d;
  heap_beside : forall d s, the_heap (put_client d s) = the_heap s;
  client_beside : forall h s, the_client (put_heap h s) = the_client s
}.

Record Response := { StatusCode : Z; Body : string }.

Fixpoint limit (n : N) (l : list ascii) : list ascii :=
  match l with [] => [] | a :: l => if (n =? 0)%N then [] else a :: limit (n - 1) l end.

(** [t.Sub(u)] saturates. *)
Definition Sub (t u : Z) : Z := Z.max (- 2 ^ 63) (Z.min (2 ^ 63 - 1) (t - u)).

Section Client.
Context {St : Type} `{HasSuite St} (foldName ToLower : string -> string) (url_Parse : string -> result URL).
Context (lookupIP : string -> M St (list IP)) (NewRequest : string -> result unit).
Context (Do : HTTPClient -> string -> M St Response) (json_First : string -> result json).

Definition alloc (c : cell) : M St loc :=
  h ← peek the_heap;
  let p := fresh (dom h) in
  poke (put_heap (<[p := c]> h));;
  mret p.

(** [append([]Capability(nil), s...)] of an empty slice is nil. *)
Definition clone_caps (c : option loc) : M St (option loc) :=
  match c with
  | None => mret None
  | Some p =>
      h ← peek the_heap;
      match caps_at h p with [] => mret None | l => q ← alloc (Caps l); mret (Some q) end
  end.

Definition clone_links (l : option loc) : M St (option loc) :=
  match l with
  | None => mret None
  | Some p => h ← peek the_heap; q ← alloc (LinkMap (links_at h p)); mret (Some q)
  end.

Definition clone_value (m : Manifest) : M St Manifest :=
  c ← clone_caps (Capabilities m);
  l ← clone_links (Links m);
  mret (with_refs m c l).

Definition clone (m : option loc) : M St (option loc) :=
  match m with
  | None => mret None
  | Some p =>
      h ← peek the_heap;
      cp ← clone_value (struct_at h p);
      q ← alloc (Struct cp);
      mret (Some q)
  end.

Definition NewClient (timeout : Z) (g : option Guard) : HTTPClient := {| hc_timeout := timeout; hc_guard := g; hc_follows := true |}.

Definition newDiscoveryClient (siblingURL : string) (self : Manifest) (interval : Z) (g : option Guard) : M St DiscoveryClient :=
  let interval := if (interval <=? 0)%Z then defaultPollInterval else interval in
  let httpClient := {| hc_timeout := hc_timeout (NewClient pollTimeout g); hc_guard := hc_guard (NewClient pollTimeout g); hc_follows := false |} in
  own ← clone_value self;
  mret {| siblingURL := siblingURL; self := own; pollInterval := interval; graceWindow := defaultGraceWindow;
          httpClient := httpClient; guard := g; state := StateUnknown; lastGood := None; lastOKAt := None |}.

Definition NewDiscoveryClient (siblingURL : string) (self : Manifest) (interval : Z) (g : option Guard) : M St DiscoveryClient :=
  let normalized := TrimRight_slash siblingURL in
  if HasPrefix (ToLower normalized) "http://" then throw (Plain "insecure sibling URL: plaintext HTTP")
  else newDiscoveryClient normalized self interval g.

Definition NewInsecureDiscoveryClient (siblingURL : string) (self : Manifest) (interval : Z) (g : option Guard) : M St DiscoveryClient :=
  newDiscoveryClient (TrimRight_slash siblingURL) self interval g.

Definition Snapshot : M St (SiblingState * option loc) :=
  d ← peek the_client;
  m ← clone (lastGood d);
  mret (state d, m).

Definition SiblingPublicURL : M St string :=
  r ← Snapshot;
  match r with
  | (StateActive, Some m) =>
      h ← peek the_heap;
      d ← peek the_client;
      Resolve ToLower url_Parse lookupIP (PublicURL (struct_at h m)) (guard d)
  | _ => throw (Plain "suite: sibling is not active")
  end.

Definition GuardedClient (timeout : Z) : M St HTTPClient := d ← peek the_client; mret (NewClient timeout (guard d)).

(** A decoded manifest as the pointer the decoder fills. *)
Definition new_manifest (v : contents) : M St loc :=
  c ← match Capabilities v with None => mret None | Some l => q ← alloc (Caps l); mret (Some q) end;
  l ← match Links v with None => mret None | Some g => q ← alloc (LinkMap g); mret (Some q) end;
  alloc (Struct (with_refs v c l)).

Definition decode_body (body : string) : result contents :=
  j ← json_First (string_of (limit maxManifestBytes (bytes_of body)));
  decode_manifest foldName j.

Definition fetch : M St loc :=
  d ← peek the_client;
  let url := siblingURL d +:+ ManifestPath in
  lift (NewRequest url);;
  resp ← Do (httpClient d) url;
  if negb (StatusCode resp =? 200)%Z then throw (Plain "manifest endpoint returned status")
  else
    v ← lift (decode_body (Body resp));
    new_manifest v.

(** What a poll makes of its fetch, under the lock. *)
Definition record_poll (m : result loc) : M St unit :=
  now ← time_Now;
  d ← peek the_client;
  match m with
  | Err _ =>
      let degraded := match lastOKAt d with None => false | Some t => (Sub now t <=? graceWindow d)%Z end in
      poke (put_client (with_state (if degraded then StateDegraded else StateUnreachable) d))
  | Ok p =>
      h ← peek the_heap;
      if negb (fst (NegotiateCompat (self d) (struct_at h p))) then poke (put_client (with_state StateUnreachable d))
      else poke (put_client (with_good p now d))
  end.

Definition pollOnce : M St unit := m ← try fetch; record_poll m.

Definition safePollOnce : M St unit := try pollOnce;; mret tt.

(** What the select of the loop receives. *)
Inductive loop_event := Tick | Done.

Fixpoint poll_loop (events : list loop_event) : M St unit :=
  match events with
  | [] | Done :: _ => mret tt
  | Tick :: events => safePollOnce;; poll_loop events
  end.

Definition Start (events : list loop_event) : M St unit := safePollOnce;; poll_loop events.
End Client.

(** ** What a manifest reads as

    A nil slice and an empty one read alike. *)
Definition refs (c : cell) : gset loc :=
  match c with
  | Struct m => from_option singleton ∅ (Capabilities m) ∪ from_option singleton ∅ (Links m)
  | _ => ∅
  end.

Definition caps_view (h : heap) (c : option loc) : option (list Capability) :=
  c ← c; match caps_at h c with [] => None | l => Some l end.

Definition view (h : heap) (m : Manifest) : contents := with_refs m (caps_view h (Capabilities m)) (links_at h <$> Links m).
Definition view_at (h : heap) (p : loc) : contents := view h (struct_at h p).

(** ** The specification: a verdict on the history of polls

    When each poll was recorded and what it fetched, oldest first. *)
Definition poll : Type := Z * option contents.

Definition poll_compatible (me : contents) (p : poll) : bool :=
  match snd p with Some v => fst (NegotiateCompat me v) | None => false end.

Definition last_compatible (me : contents) (history : list poll) : option (Z * contents) :=
  match List.find (poll_compatible me) (rev history) with Some (t, Some v) => Some (t, v) | _ => None end.

Definition verdict (me : contents) (history : list poll) : SiblingState :=
  match rev history with
  | [] => StateUnknown
  | (now, Some v) :: _ => if fst (NegotiateCompat me v) then StateActive else StateUnreachable
  | (now, None) :: _ =>
      match last_compatible me history with
      | Some (t, _) => if (now - t <=? defaultGraceWindow)%Z then StateDegraded else StateUnreachable
      | None => StateUnreachable
      end
  end.

(** ** The application around the client

    One poller, whose fetch and whose recording other goroutines may come between, and
    the rest of the application: it takes snapshots, follows pointers it holds,
    allocates, and writes anything it can name to any location it knows. *)
Section System.
Context {St : Type} `{HasSuite St} (foldName ToLower : string -> string).
Context (NewRequest : string -> result unit) (Do : HTTPClient -> string -> M St Response) (json_First : string -> result json).

Record sys := Sys { s_world : world St; s_known : gset loc; s_fetched : option (result loc * option contents); s_history : list poll }.

Definition sys_heap (s : sys) : heap := the_heap (w_db (s_world s)).
Definition on_heap (f : heap -> heap) (w : world St) : world St := set_db (put_heap (f (the_heap (w_db w))) (w_db w)) w.
Definition at_time (t : Z) (w : world St) : world St := World (w_db w) (w_sched w) (w_intx w) t (w_dbnow w) (w_seed w).

Definition read_result (h : heap) (r : result loc) : option contents :=
  match r with Ok p => Some (view_at h p) | Err _ => None end.

Inductive step : sys -> sys -> Prop :=
| do_fetch w w' K hs r :
    fetch foldName NewRequest Do json_First w = (r, w') ->
    step (Sys w K None hs) (Sys w' K (Some (r, read_result (the_heap (w_db w')) r)) hs)
| do_record w w' K hs r v :
    record_poll r w = (Ok tt, w') -> step (Sys w K (Some (r, v)) hs) (Sys w' K None (hs ++ [(w_now w, v)]))
| do_snapshot w w' K f hs st p :
    Snapshot w = (Ok (st, p), w') -> step (Sys w K f hs) (Sys w' (from_option singleton ∅ p ∪ K) f hs)
| do_follow w K f hs p c q :
    p ∈ K -> the_heap (w_db w) !! p = Some c -> q ∈ refs c -> step (Sys w K f hs) (Sys w ({[q]} ∪ K) f hs)
| do_alloc w K f hs p c :
    refs c ⊆ K -> the_heap (w_db w) !! p = None -> step (Sys w K f hs) (Sys (on_heap (<[p := c]>) w) ({[p]} ∪ K) f hs)
| do_write w K f hs p c :
    refs c ⊆ K -> p ∈ K -> step (Sys w K f hs) (Sys (on_heap (<[p := c]>) w) K f hs)
| do_wait w K f hs t : step (Sys w K f hs) (Sys (at_time t w) K f hs).

(** No pointer dangles. *)
Definition closed (h : heap) : Prop := forall p c, h !! p = Some c -> refs c ⊆ dom h.

(** The application with a fresh client, knowing every location there was. *)
Definition installed (d : DiscoveryClient) (K : gset loc) (w : world St) : sys := Sys (set_db (put_client d (w_db w)) w) K None [].
End System.

(** ** Lemmas *)

(** New cells that point only at each other. *)
Definition grown (h h' : heap) (N : gset loc) : Prop :=
  h ⊆ h' /\ dom h' = dom h ∪ N /\ N ## dom h /\ forall p c, p ∈ N -> h' !! p = Some c -> refs c ⊆ N.

Lemma grown_refl h : grown h h ∅.
Proof. split; [done|]. split; [set_solver|]. split; [set_solver|]. intros p c Hp. set_solver. Qed.

Lemma grown_dom h h' N p : grown h h' N -> p ∈ dom h -> h' !! p = h !! p.
Proof. intros (Hs & _) (c & Hc)%elem_of_dom. rewrite Hc. by eapply lookup_weaken. Qed.

Lemma grown_trans h h1 h2 N1 N2 : grown h h1 N1 -> grown h1 h2 N2 -> grown h h2 (N1 ∪ N2).
Proof.
  intros (S1 & D1 & X1 & R1) G2. pose proof G2 as (S2 & D2 & X2 & R2). split; [by etrans|]. split; [clear -D1 D2; set_solver|]. split.
  { intros x [Hx|Hx]%elem_of_union Hd; [by apply (X1 x)|]. apply (X2 x); [done|]. rewrite D1. by apply elem_of_union_l. }
  intros p c [Hp|Hp]%elem_of_union Hc.
  - rewrite (grown_dom _ _ _ _ G2) in Hc by set_solver. specialize (R1 p c Hp Hc). set_solver.
  - specialize (R2 p c Hp Hc). set_solver.
Qed.

Lemma grown_alloc h h' N c p :
  grown h h' N -> refs c ⊆ N -> p ∉ dom h' -> grown h (<[p := c]> h') ({[p]} ∪ N).
Proof.
  intros G Hr Hp. pose proof G as (S1 & D1 & X1 & R1). split; [|split; [|split]].
  - etrans; [exact S1|]. apply insert_subseteq. by apply not_elem_of_dom.
  - rewrite dom_insert_L. set_solver.
  - set_solver.
  - intros q c' Hq. rewrite lookup_insert_Some. intros [[-> ->]|[Hne Hc]]; [set_solver|].
    assert (q ∈ N) by set_solver. specialize (R1 q c' ltac:(done) Hc). set_solver.
Qed.

(** What a manifest reads as, when what it points at stays. *)
Lemma view_agree h h' m : (forall q, q ∈ refs (Struct m) -> h' !! q = h !! q) -> view h' m = view h m.
Proof.
  intros Hq. unfold view. f_equal.
  - destruct (Capabilities m) as [c|] eqn:E; [|done]. unfold caps_view, caps_at. simpl. rewrite Hq; [done|]. cbn. rewrite E. set_solver.
  - destruct (Links m) as [c|] eqn:E; [|done]. simpl. unfold links_at. rewrite Hq; [done|]. cbn. rewrite E. set_solver.
Qed.

Lemma view_at_agree h h' (O : gset loc) p :
  (forall q, q ∈ O -> h' !! q = h !! q) -> (forall q c, q ∈ O -> h !! q = Some c -> refs c ⊆ O) -> p ∈ O -> view_at h' p = view_at h p.
Proof.
  intros Ha Hc Hp. unfold view_at, struct_at. rewrite (Ha p Hp). apply view_agree. intros q Hq. apply Ha.
  destruct (h !! p) as [[m| |]|] eqn:E; try (cbn in Hq; set_solver). by apply (Hc p (Struct m)).
Qed.

Section Facts.
Context {St : Type} `{HasSuite St}.

Lemma peek_step {A B} (f : St -> A) (k : A -> M St B) (w : world St) : (peek f ≫= k) w = k (f (w_db w)) w.
Proof. done. Qed.

Lemma alloc_step c (w : world St) : exists p w',
  alloc c w = (Ok p, w') /\ p ∉ dom (the_heap (w_db w)) /\ the_heap (w_db w') = <[p := c]> (the_heap (w_db w)) /\
  the_client (w_db w') = the_client (w_db w) /\ w_now w' = w_now w.
Proof.
  eexists _, _. split; [unfold alloc; rewrite peek_step; reflexivity|]. split; [apply is_fresh|]. cbn [w_db set_db w_now]. by rewrite the_put_heap, client_beside.
Qed.

(** Copying the slice and the map of a manifest. *)
Lemma clone_value_copies m (w : world St) :
  refs (Struct m) ⊆ dom (the_heap (w_db w)) ->
  exists cp w' N, clone_value m w = (Ok cp, w') /\ grown (the_heap (w_db w)) (the_heap (w_db w')) N /\
    the_client (w_db w') = the_client (w_db w) /\ w_now w' = w_now w /\
    refs (Struct cp) ⊆ N /\ view (the_heap (w_db w')) cp = view (the_heap (w_db w)) m.
Proof.
  intros Hd. unfold clone_value.
  assert (Hc : exists c w1 N, clone_caps (Capabilities m) w = (Ok c, w1) /\ grown (the_heap (w_db w)) (the_heap (w_db w1)) N /\
    the_client (w_db w1) = the_client (w_db w) /\ w_now w1 = w_now w /\ from_option singleton ∅ c ⊆ N /\
    caps_view (the_heap (w_db w1)) c = caps_view (the_heap (w_db w)) (Capabilities m)).
  { destruct (Capabilities m) as [p|]; cbn [clone_caps].
    - rewrite peek_step. unfold caps_view. cbn [mbind option_bind]. destruct (caps_at (the_heap (w_db w)) p) as [|x l] eqn:E.
      + exists None, w, ∅. split_and!; [done|apply grown_refl|done..].
      + destruct (alloc_step (Caps (x :: l)) w) as (q & w1 & E1 & Hf & Hh & Hcl & Hn).
        exists (Some q), w1, ({[q]} ∪ ∅). rewrite (bind_step _ _ w q w1 E1). split_and!; [done|rewrite Hh; apply grown_alloc; [apply grown_refl|done|done]|done|done|cbn; set_solver|].
        cbn. unfold caps_at. by rewrite Hh, lookup_insert_eq.
    - exists None, w, ∅. split_and!; [done|apply grown_refl|done..]. }
  destruct Hc as (c & w1 & N1 & E1 & G1 & C1 & T1 & R1 & V1). rewrite (bind_step _ _ w c w1 E1).
  assert (Hl : exists l w2 N, clone_links (Links m) w1 = (Ok l, w2) /\ grown (the_heap (w_db w1)) (the_heap (w_db w2)) N /\
    the_client (w_db w2) = the_client (w_db w1) /\ w_now w2 = w_now w1 /\ from_option singleton ∅ l ⊆ N /\
    links_at (the_heap (w_db w2)) <$> l = links_at (the_heap (w_db w)) <$> Links m).
  { destruct (Links m) as [p|] eqn:Ep; cbn [clone_links].
    - rewrite peek_step. destruct (alloc_step (LinkMap (links_at (the_heap (w_db w1)) p)) w1) as (q & w2 & E2 & Hf & Hh & Hcl & Hn).
      exists (Some q), w2, ({[q]} ∪ ∅). rewrite (bind_step _ _ w1 q w2 E2). split_and!; [done|rewrite Hh; apply grown_alloc; [apply grown_refl|done|done]|done|done|cbn; set_solver|].
      cbn. unfold links_at at 1. rewrite Hh, lookup_insert_eq. unfold links_at. by rewrite (grown_dom _ _ _ p G1) by (apply Hd; cbn; rewrite Ep; set_solver).
    - exists None, w1, ∅. split_and!; [done|apply grown_refl|done..]. }
  destruct Hl as (l & w2 & N2 & E2 & G2 & C2 & T2 & R2 & V2). rewrite (bind_step _ _ w1 l w2 E2).
  eexists _, w2, (N1 ∪ N2). split; [done|]. split; [by eapply grown_trans|]. split; [congruence|]. split; [congruence|]. split; [cbn; set_solver|].
  unfold view. cbn [with_refs Capabilities Links SchemaVersion App Version BuildDate PublicURL Identity]. unfold with_refs. f_equal; [|exact V2].
  rewrite <- V1. destruct c as [c|]; [|done]. unfold caps_view, caps_at. cbn. rewrite (grown_dom _ _ _ c G2); [done|].
  destruct G1 as (_ & D1 & _). set_solver.
Qed.

(** A snapshot's manifest is made of new cells, and reads as the cached one. *)
Lemma Snapshot_copies (w : world St) :
  closed (the_heap (w_db w)) ->
  exists p w' N, Snapshot w = (Ok (state (the_client (w_db w)), p), w') /\ grown (the_heap (w_db w)) (the_heap (w_db w')) N /\
    the_client (w_db w') = the_client (w_db w) /\ from_option singleton ∅ p ⊆ N /\
    view_at (the_heap (w_db w')) <$> p = view_at (the_heap (w_db w)) <$> lastGood (the_client (w_db w)).
Proof.
  intros Hcl. unfold Snapshot. rewrite peek_step. destruct (lastGood (the_client (w_db w))) as [g|]; cbn [clone].
  - assert (Hs : refs (Struct (struct_at (the_heap (w_db w)) g)) ⊆ dom (the_heap (w_db w))).
    { unfold struct_at. destruct (the_heap (w_db w) !! g) as [[m| |]|] eqn:E; [by apply (Hcl g)|cbn; set_solver..]. }
    destruct (clone_value_copies _ w Hs) as (cp & w1 & N1 & E1 & G1 & C1 & T1 & R1 & V1).
    destruct (alloc_step (Struct cp) w1) as (q & w2 & E2 & Hf & Hh & C2 & T2).
    assert (G2 : grown (the_heap (w_db w)) (the_heap (w_db w2)) ({[q]} ∪ N1)) by (rewrite Hh; by apply grown_alloc).
    exists (Some q), w2, ({[q]} ∪ N1). split_and!; [|done|congruence|cbn; set_solver|].
    + rewrite (bind_step _ _ w (Some q) w2); [done|]. rewrite peek_step, (bind_step _ _ w cp w1 E1), (bind_step _ _ w1 q w2 E2). done.
    + cbn. f_equal. unfold view_at at 1, struct_at at 1. rewrite Hh, lookup_insert_eq. etrans; [|exact V1]. apply view_agree.
      intros x Hx. rewrite lookup_insert_ne; [done|]. intros ->. apply Hf. destruct G1 as (_ & D1 & _). set_solver.
  - exists None, w, ∅. split_and!; [done|apply grown_refl|done..].
Qed.

Lemma new_manifest_grows v (w : world St) :
  exists p w' N, new_manifest v w = (Ok p, w') /\ grown (the_heap (w_db w)) (the_heap (w_db w')) N /\
    the_client (w_db w') = the_client (w_db w) /\ p ∈ N.
Proof.
  unfold new_manifest.
  assert (Hopt : forall {A} (mk : A -> cell) (o : option A) (w : world St), (forall a, refs (mk a) = ∅) ->
    exists c w1 N, (match o with None => mret None | Some a => q ← alloc (mk a); mret (Some q) end : M St (option loc)) w = (Ok c, w1) /\
      grown (the_heap (w_db w)) (the_heap (w_db w1)) N /\ the_client (w_db w1) = the_client (w_db w) /\ from_option singleton ∅ c ⊆ N).
  { intros A mk o w0 Hmk. destruct o as [a|]; [|by exists None, w0, ∅; split_and!; [done|apply grown_refl|..]].
    destruct (alloc_step (mk a) w0) as (q & w1 & E1 & Hf & Hh & C1 & _). exists (Some q), w1, ({[q]} ∪ ∅).
    rewrite (bind_step _ _ w0 q w1 E1). split_and!; [done|rewrite Hh; apply grown_alloc; [apply grown_refl|by rewrite Hmk|done]|done|cbn; set_solver]. }
  destruct (Hopt _ Caps (Capabilities v) w) as (c & w1 & N1 & E1 & G1 & C1 & R1); [done|]. rewrite (bind_step _ _ w c w1 E1).
  destruct (Hopt _ LinkMap (Links v) w1) as (l & w2 & N2 & E2 & G2 & C2 & R2); [done|]. rewrite (bind_step _ _ w1 l w2 E2).
  destruct (alloc_step (Struct (with_refs v c l)) w2) as (q & w3 & E3 & Hf & Hh & C3 & _).
  exists q, w3, ({[q]} ∪ (N1 ∪ N2)). split_and!; [done| |congruence|set_solver].
  rewrite Hh. apply grown_alloc; [by eapply grown_trans|cbn; set_solver|done].
Qed.
End Facts.

Lemma Sub_small t u b : (- 2 ^ 63 <= b < 2 ^ 63 - 1)%Z -> (Sub t u <=? b)%Z = (t - u <=? b)%Z.
Proof. intros Hb. unfold Sub. apply eq_true_iff_eq. rewrite !Z.leb_le. lia. Qed.

Lemma compatible_snoc me hs t v :
  last_compatible me (hs ++ [(t, v)]) =
    match v with Some c => if fst (NegotiateCompat me c) then Some (t, c) else last_compatible me hs | None => last_compatible me hs end.
Proof.
  unfold last_compatible. rewrite rev_app_distr. cbn [rev app List.find]. unfold poll_compatible at 1. cbn [snd].
  destruct v as [c|]; [|done]. by destruct (fst _).
Qed.

Lemma verdict_snoc me hs t v :
  verdict me (hs ++ [(t, v)]) =
    match v with
    | Some c => if fst (NegotiateCompat me c) then StateActive else StateUnreachable
    | None => match last_compatible me hs with
              | Some (u, _) => if (t - u <=? defaultGraceWindow)%Z then StateDegraded else StateUnreachable
              | None => StateUnreachable
              end
    end.
Proof. unfold verdict. rewrite rev_app_distr. cbn [rev app]. destruct v; [done|]. by rewrite compatible_snoc. Qed.

Section Invariant.
Context {St : Type} `{HasSuite St} (foldName : string -> string).
Context (NewRequest : string -> result unit) (Do : HTTPClient -> string -> M St Response) (json_First : string -> result json).

(** The HTTP stack keeps to its own memory. *)
Definition Do_beside : Prop := forall c url w r w',
  Do c url w = (r, w') -> the_heap (w_db w') = the_heap (w_db w) /\ the_client (w_db w') = the_client (w_db w).

Lemma fetch_grows (w w' : world St) r :
  Do_beside -> fetch foldName NewRequest Do json_First w = (r, w') ->
  exists N, grown (the_heap (w_db w)) (the_heap (w_db w')) N /\ the_client (w_db w') = the_client (w_db w) /\
    forall p, r = Ok p -> p ∈ N.
Proof.
  intros beside. assert (Hsame : forall (w1 : world St), the_heap (w_db w1) = the_heap (w_db w) -> the_client (w_db w1) = the_client (w_db w) ->
    exists N, grown (the_heap (w_db w)) (the_heap (w_db w1)) N /\ the_client (w_db w1) = the_client (w_db w) /\
      forall e p, Err e = Ok p -> p ∈ N) by (intros w1 -> ->; exists ∅; split_and!; [apply grown_refl|done..]).
  unfold fetch. rewrite peek_step. set (url := _ +:+ ManifestPath). intros E.
  apply bind_inv in E as [(u & w1 & [_ ->]%lift_Ok & E)|(e & [= _ <-] & ->)]; [|by destruct (Hsame w eq_refl eq_refl) as (N & ? & ? & ?); exists N; split_and!; eauto].
  apply bind_inv in E as [(resp & w1 & [Hh Hc]%beside & E)|(e & [Hh Hc]%beside & ->)];
    [|by destruct (Hsame w' Hh Hc) as (N & ? & ? & ?); exists N; split_and!; eauto].
  destruct (Hsame w1 Hh Hc) as (N & ? & ? & ?).
  destruct (negb _); [injection E as <- <-; exists N; split_and!; eauto|].
  apply bind_inv in E as [(v & w2 & [_ ->]%lift_Ok & E)|(e & [= _ <-] & ->)]; [|exists N; split_and!; eauto].
  destruct (new_manifest_grows v w1) as (p & w3 & N3 & E3 & G3 & C3 & Hp). rewrite E3 in E. injection E as <- <-.
  exists N3. rewrite <- Hh. split; [done|]. split; [congruence|]. by intros q [= <-].
Qed.

(** Locations only the client's own goroutines can name. *)
Record private (O : gset loc) (h : heap) (K : gset loc) : Prop := {
  unknown : K ## O;
  known_dom : K ⊆ dom h;
  own_dom : O ⊆ dom h;
  no_dangling : closed h;
  own_closed : forall p c, p ∈ O -> h !! p = Some c -> refs c ⊆ O;
  outside_own : forall p c, p ∉ O -> h !! p = Some c -> refs c ## O
}.

(** Cells added for the client, cells added for the rest of the application. *)
Lemma private_own O h K h' N : private O h K -> grown h h' N -> private (O ∪ N) h' K.
Proof.
  intros [HK HKd HO Hcl Hin Hout] G. pose proof G as (Hs & Hd & Hx & Hr). split; [set_solver|set_solver|set_solver|..].
  - intros p c Hp. destruct (decide (p ∈ N)) as [HN|HN]; [specialize (Hr p c HN Hp); set_solver|].
    assert (p ∈ dom h) by (apply elem_of_dom_2 in Hp; set_solver). rewrite (grown_dom _ _ _ _ G) in Hp by done. specialize (Hcl p c Hp). set_solver.
  - intros p c [Hp|Hp]%elem_of_union Hc; [|specialize (Hr p c Hp Hc); set_solver].
    rewrite (grown_dom _ _ _ _ G) in Hc by set_solver. specialize (Hin p c Hp Hc). set_solver.
  - intros p c Hp Hc. assert (p ∈ dom h) by (apply elem_of_dom_2 in Hc; set_solver).
    rewrite (grown_dom _ _ _ _ G) in Hc by done. pose proof (Hcl p c Hc). specialize (Hout p c ltac:(set_solver) Hc). set_solver.
Qed.

Lemma private_given O h K h' N K' : private O h K -> grown h h' N -> K' ⊆ N -> private O h' (K' ∪ K).
Proof.
  intros [HK HKd HO Hcl Hin Hout] G HK'. pose proof G as (Hs & Hd & Hx & Hr). split; [set_solver|set_solver|set_solver|..].
  - intros p c Hp. destruct (decide (p ∈ N)) as [HN|HN]; [specialize (Hr p c HN Hp); set_solver|].
    assert (p ∈ dom h) by (apply elem_of_dom_2 in Hp; set_solver). rewrite (grown_dom _ _ _ _ G) in Hp by done. specialize (Hcl p c Hp). set_solver.
  - intros p c Hp Hc. rewrite (grown_dom _ _ _ _ G) in Hc by set_solver. by apply (Hin p c).
  - intros p c Hp Hc. destruct (decide (p ∈ N)) as [HN|HN]; [specialize (Hr p c HN Hc); set_solver|].
    assert (p ∈ dom h) by (apply elem_of_dom_2 in Hc; set_solver). rewrite (grown_dom _ _ _ _ G) in Hc by done. by apply (Hout p c).
Qed.

(** What the application does to its own memory. *)
Lemma private_write O h K p c : private O h K -> refs c ⊆ K -> p ∈ K \/ h !! p = None -> private O (<[p := c]> h) ({[p]} ∪ K).
Proof.
  intros [HK HKd HO Hcl Hin Hout] Hc Hp.
  assert (HpO : p ∉ O) by (destruct Hp as [?|Hn%not_elem_of_dom]; set_solver).
  split; [set_solver|rewrite dom_insert_L; set_solver|rewrite dom_insert_L; set_solver|..].
  - intros q d. rewrite dom_insert_L, lookup_insert_Some. intros [[-> ->]|[_ Hd]]; [set_solver|]. specialize (Hcl q d Hd). set_solver.
  - intros q d Hq. rewrite lookup_insert_ne by (intros ->; done). by apply Hin.
  - intros q d Hq. rewrite lookup_insert_Some. intros [[-> ->]|[_ Hd]]; [set_solver|]. by apply (Hout q d).
Qed.

(** What the constructor settles. *)
Definition settings (d : DiscoveryClient) : string * HTTPClient * option Guard * Z := (siblingURL d, httpClient d, guard d, graceWindow d).

(** The client's fields agree with the history; [O] is what it has ever allocated. *)
Record tracks (me : contents) (cfg : string * HTTPClient * option Guard * Z) (O : gset loc) (h : heap) (d : DiscoveryClient) (f : option (result loc * option contents)) (hs : list poll) : Prop := {
  own_self : refs (Struct (self d)) ⊆ O;
  self_reads : view h (self d) = me;
  same_settings : settings d = cfg;
  own_good : from_option singleton ∅ (lastGood d) ⊆ O;
  good_reads : view_at h <$> lastGood d = snd <$> last_compatible me hs;
  good_time : lastOKAt d = fst <$> last_compatible me hs;
  state_verdict : state d = verdict me hs;
  own_fetched : match f with
                | None => True
                | Some (Ok p, v) => p ∈ O /\ v = Some (view_at h p)
                | Some (Err _, v) => v = None
                end
}.

Lemma tracks_agree me cfg O O' h h' K d f hs :
  private O h K -> O ⊆ O' -> (forall q, q ∈ O -> h' !! q = h !! q) -> tracks me cfg O h d f hs -> tracks me cfg O' h' d f hs.
Proof.
  intros P HO Ha [H1 H2 H3 H4 H5 H6 H7 H8].
  assert (Hv : forall p, p ∈ O -> view_at h' p = view_at h p) by (intros p Hp; apply (view_at_agree h h' O); [done|apply (own_closed _ _ _ P)|done]).
  split; [set_solver|rewrite (view_agree h h'); [done|]; intros q Hq; apply Ha; set_solver|done|set_solver| |done|done|].
  - rewrite <- H5. destruct (lastGood d) as [p|]; [|done]. cbn. f_equal. apply Hv. set_solver.
  - destruct f as [[[p|e] v]|]; [|done..]. destruct H8 as [Hp ->]. split; [set_solver|]. by rewrite Hv.
Qed.

Definition good (me : contents) (cfg : string * HTTPClient * option Guard * Z) (s : sys) : Prop := exists O,
  private O (sys_heap s) (s_known s) /\ tracks me cfg O (sys_heap s) (the_client (w_db (s_world s))) (s_fetched s) (s_history s).

Lemma record_good me cfg O (w w' : world St) K r v hs :
  snd cfg = defaultGraceWindow ->
  private O (the_heap (w_db w)) K -> tracks me cfg O (the_heap (w_db w)) (the_client (w_db w)) (Some (r, v)) hs ->
  record_poll r w = (Ok tt, w') ->
  the_heap (w_db w') = the_heap (w_db w) /\
  tracks me cfg O (the_heap (w_db w)) (the_client (w_db w')) None (hs ++ [(w_now w, v)]).
Proof.
  intros Hg P [H1 H2 H3 H4 H5 H6 H7 H8] E. unfold record_poll in E. rewrite (bind_step time_Now _ w (w_now w) w eq_refl), peek_step in E.
  set (d := the_client (w_db w)) in *. destruct r as [p|e].
  - rewrite peek_step in E. destruct H8 as [Hp ->].
    assert (En : fst (NegotiateCompat (self d) (struct_at (the_heap (w_db w)) p)) = fst (NegotiateCompat me (view_at (the_heap (w_db w)) p))) by by rewrite <- H2.
    rewrite En in E. destruct (fst _) eqn:Ec; cbn [negb] in E; injection E as <-; cbn [w_db set_db]; rewrite heap_beside, the_put_client;
      (split; [done|]); split; try done; cbn [with_good with_state state lastGood lastOKAt]; rewrite ?compatible_snoc, ?verdict_snoc, ?Ec; try done.
    cbn. set_solver.
  - subst v. injection E as <-. cbn [w_db set_db]. rewrite heap_beside, the_put_client. split; [done|].
    split; try done; cbn [with_state state lastGood lastOKAt]; rewrite ?compatible_snoc, ?verdict_snoc; try done.
    rewrite H6. replace (graceWindow d) with defaultGraceWindow by (rewrite <- Hg, <- H3; done). destruct (last_compatible me hs) as [[t c]|]; [|done]. cbn [fst fmap option_fmap option_map].
    rewrite Sub_small by (unfold defaultGraceWindow, time_Second; lia). by destruct (_ <=? _)%Z.
Qed.

Lemma step_good me cfg (s s' : sys) : Do_beside -> step foldName NewRequest Do json_First s s' -> snd cfg = defaultGraceWindow -> good me cfg s -> good me cfg s'.
Proof.
  intros Hb Hs Hg (O & P & T). unfold sys_heap in *.
  destruct Hs as [w w' K hs r E|w w' K hs r v E|w w' K f hs st p E|w K f hs p c q Hp Hc Hq|w K f hs p c Hc Hp|w K f hs p c Hc Hp|w K f hs t];
    cbn [s_world s_known s_fetched s_history w_db at_time] in *.
  - destruct (fetch_grows _ _ _ Hb E) as (N & G & C & Hr). exists (O ∪ N). unfold sys_heap. cbn [s_world s_known s_fetched s_history].
    split; [by eapply private_own|]. rewrite C. pose proof (own_dom _ _ _ P) as HO.
    destruct (tracks_agree me cfg O (O ∪ N) _ (the_heap (w_db w')) K _ _ _ P ltac:(set_solver) ltac:(intros q Hq; eapply grown_dom; [exact G|set_solver]) T)
      as [H1 H2 H3 H4 H5 H6 H7 H8].
    split; try done. destruct r as [p|e]; [|done]. cbn. specialize (Hr p eq_refl). split; [set_solver|done].
  - destruct (record_good _ _ _ _ _ _ _ _ _ Hg P T E) as [Hh T']. exists O. unfold sys_heap. cbn. rewrite Hh. done.
  - destruct (Snapshot_copies w (no_dangling _ _ _ P)) as (p' & w1 & N & E1 & G & C & Hp & _). rewrite E1 in E. injection E as <- <- <-.
    exists O. unfold sys_heap. cbn. split; [by eapply private_given|]. rewrite C. pose proof (own_dom _ _ _ P) as HO.
    eapply tracks_agree; [exact P|done| |exact T]. intros q Hq. eapply grown_dom; [exact G|set_solver].
  - exists O. unfold sys_heap. cbn. split; [|done]. destruct P as [HK HKd HO Hcl Hin Hout].
    split; try done; [|pose proof (Hcl p c Hc); set_solver].
    assert (p ∉ O) by set_solver. pose proof (Hout p c ltac:(done) Hc). set_solver.
  - exists O. unfold sys_heap, on_heap. cbn. rewrite the_put_heap, client_beside. split; [apply private_write; [done|done|by right]|].
    pose proof (own_dom _ _ _ P) as HO. eapply tracks_agree; [exact P|done| |exact T]. intros q Hq. rewrite lookup_insert_ne; [done|].
    intros ->. apply not_elem_of_dom in Hp. set_solver.
  - exists O. unfold sys_heap, on_heap. cbn. rewrite the_put_heap, client_beside.
    assert (HK : {[p]} ∪ K = K) by set_solver. split; [rewrite <- HK; apply private_write; [done|done|by left]|].
    eapply tracks_agree; [exact P|done| |exact T]. intros q Hq. rewrite lookup_insert_ne; [done|].
    intros ->. pose proof (unknown _ _ _ P). set_solver.
  - by exists O.
Qed.
End Invariant.

Section Theorems.
Context {St : Type} `{HasSuite St} (foldName ToLower : string -> string).
Context (NewRequest : string -> result unit) (Do : HTTPClient -> string -> M St Response) (json_First : string -> result json).

Definition client_settings (url : string) (g : option Guard) : string * HTTPClient * option Guard * Z :=
  (TrimRight_slash url, {| hc_timeout := pollTimeout; hc_guard := g; hc_follows := false |}, g, defaultGraceWindow).

Lemma newDiscoveryClient_good url m interval g (w0 w1 : world St) d :
  closed (the_heap (w_db w0)) -> refs (Struct m) ⊆ dom (the_heap (w_db w0)) ->
  newDiscoveryClient (TrimRight_slash url) m interval g w0 = (Ok d, w1) ->
  good (view (the_heap (w_db w0)) m) (client_settings url g) (installed d (dom (the_heap (w_db w0))) w1).
Proof.
  intros Hcl Hm E. unfold newDiscoveryClient in E.
  destruct (clone_value_copies m w0 Hm) as (own & w2 & N & E1 & G & C & _ & R & V). rewrite (bind_step _ _ w0 own w2 E1) in E. injection E as <- <-.
  exists (∅ ∪ N). unfold installed, sys_heap. cbn [s_world s_known s_fetched s_history w_db set_db]. rewrite heap_beside, the_put_client. split.
  - eapply (private_own ∅ (the_heap (w_db w0))); [|exact G]. split; [set_solver..|done|set_solver|set_solver].
  - split; try done; cbn [self lastGood]; set_solver.
Qed.

Lemma NewDiscoveryClient_plaintext url m interval g (w0 w1 : world St) d :
  NewDiscoveryClient ToLower url m interval g w0 = (Ok d, w1) ->
  HasPrefix (ToLower (TrimRight_slash url)) "http://" = false /\ newDiscoveryClient (TrimRight_slash url) m interval g w0 = (Ok d, w1).
Proof. unfold NewDiscoveryClient. by destruct (HasPrefix _ _). Qed.

Definition reaches : sys -> sys -> Prop := rtc (step foldName NewRequest Do json_First).

Lemma run_good me cfg s s' : Do_beside Do -> snd cfg = defaultGraceWindow -> reaches s s' -> good me cfg s -> good me cfg s'.
Proof. intros Hd Hg. induction 1; [done|]. intros Hx. eapply IHrtc, step_good; eauto. Qed.
End Theorems.

(** The loop of [Start] is made of the system's steps, one fetch and one record per tick. *)
Lemma pollOnce_runs {St} `{HasSuite St} foldName NewRequest Do json_First (w w' : world St) r K hs :
  pollOnce foldName NewRequest Do json_First w = (r, w') ->
  r = Ok tt /\ exists p, reaches foldName NewRequest Do json_First (Sys w K None hs) (Sys w' K None (hs ++ [p])).
Proof.
  unfold pollOnce. intros E. apply bind_try in E as (m & w1 & E1 & E2).
  assert (r = Ok tt) as ->.
  { unfold record_poll in E2. rewrite (bind_step time_Now _ w1 (w_now w1) w1 eq_refl), peek_step in E2.
    destruct m; [rewrite peek_step in E2; by destruct (negb _); injection E2|by injection E2]. }
  split; [done|]. eexists. eapply rtc_l; [by apply do_fetch|]. eapply rtc_once. by apply do_record.
Qed.

Lemma Start_runs {St} `{HasSuite St} foldName NewRequest Do json_First events (w w' : world St) r K hs :
  Start foldName NewRequest Do json_First events w = (r, w') ->
  r = Ok tt /\ exists polls, polls <> [] /\ reaches foldName NewRequest Do json_First (Sys w K None hs) (Sys w' K None (hs ++ polls)).
Proof.
  assert (Hp : forall (w w' : world St) r hs, safePollOnce foldName NewRequest Do json_First w = (r, w') ->
    r = Ok tt /\ exists p, reaches foldName NewRequest Do json_First (Sys w K None hs) (Sys w' K None (hs ++ [p]))).
  { intros v v' q l E. apply bind_try in E as (q0 & v1 & E & [= <- <-]). by destruct (pollOnce_runs _ _ _ _ _ _ _ K l E) as [-> ?]. }
  assert (Hl : forall (w w' : world St) r hs, poll_loop foldName NewRequest Do json_First events w = (r, w') ->
    r = Ok tt /\ exists polls, reaches foldName NewRequest Do json_First (Sys w K None hs) (Sys w' K None (hs ++ polls))).
  { induction events as [|[|] events IH]; intros v v' q l E; cbn [poll_loop] in E.
    - injection E as <- <-. split; [done|]. exists []. rewrite app_nil_r. apply rtc_refl.
    - apply bind_inv in E as [(u & v1 & E1 & E)|(e & E1 & ->)]; destruct (Hp _ _ _ l E1) as [Hr (p & R1)]; [|done].
      destruct (IH _ _ _ (l ++ [p]) E) as [-> (ps & R2)]. split; [done|]. exists (p :: ps). etrans; [exact R1|].
      by rewrite <- app_assoc in R2.
    - injection E as <- <-. split; [done|]. exists []. rewrite app_nil_r. apply rtc_refl. }
  unfold Start. intros E. apply bind_inv in E as [(u & v1 & E1 & E)|(e & E1 & ->)]; destruct (Hp _ _ _ hs E1) as [Hr (p & R1)]; [|done].
  destruct (Hl _ _ _ (hs ++ [p]) E) as [-> (ps & R2)]. split; [done|]. exists (p :: ps). split; [done|].
  etrans; [exact R1|]. by rewrite <- app_assoc in R2.
Qed.

(** An active sibling is one whose last poll was compatible. *)
Lemma verdict_active me hs : verdict me hs = StateActive ->
  exists rest t v, hs = rest ++ [(t, Some v)] /\ fst (NegotiateCompat me v) = true /\ last_compatible me hs = Some (t, v).
Proof.
  destruct hs as [|[t v] rest _] using rev_ind; [done|]. rewrite verdict_snoc, compatible_snoc. destruct v as [v|].
  - destruct (fst _) eqn:E; [|done]. intros _. by exists rest, t, v.
  - destruct (last_compatible me rest) as [[u c]|]; [|done]. by destruct (_ <=? _)%Z.
Qed.

(** What a poll records is what the sibling's answer decodes to. *)
Definition nil_alike (c : option (list Capability)) : option (list Capability) := match c with Some [] => None | _ => c end.
Definition read_alike (v : contents) : contents := with_refs v (nil_alike (Capabilities v)) (Links v).

Lemma new_manifest_reads {St} `{HasSuite St} v (w w' : world St) p :
  new_manifest v w = (Ok p, w') -> view_at (the_heap (w_db w')) p = read_alike v.
Proof.
  unfold new_manifest. intros E.
  destruct (alloc_step (Caps (default [] (Capabilities v))) w) as (pc & wc & Ec & Hfc & Hhc & _).
  apply bind_Ok in E as (c & w1 & E1 & E). apply bind_Ok in E as (l & w2 & E2 & E).
  destruct (alloc_step (Struct (with_refs v c l)) w2) as (q & w3 & E3 & Hf & Hh & _). rewrite E3 in E. injection E as <- <-.
  unfold view_at, struct_at. rewrite Hh, lookup_insert_eq.
  assert (Hc : caps_view (the_heap (w_db w1)) c = nil_alike (Capabilities v) /\
    forall x, c = Some x -> x ∈ dom (the_heap (w_db w1))).
  { destruct (Capabilities v) as [cs|]; [|injection E1 as <- <-; done]. cbn [default] in *. rewrite (bind_step _ _ _ _ _ Ec) in E1. injection E1 as <- <-.
    rewrite Hhc. split; [|intros x [= <-]; rewrite dom_insert_L; set_solver]. unfold caps_view, caps_at. cbn. rewrite lookup_insert_eq. by destruct cs. }
  destruct Hc as [Hc Hcd].
  assert (Hl : links_at (the_heap (w_db w2)) <$> l = Links v /\ (forall x, l = Some x -> x ∈ dom (the_heap (w_db w2))) /\
    (forall x, x ∈ dom (the_heap (w_db w1)) -> x ∈ dom (the_heap (w_db w2)) /\ the_heap (w_db w2) !! x = the_heap (w_db w1) !! x)).
  { destruct (Links v) as [g|]; [|injection E2 as <- <-; done].
    destruct (alloc_step (LinkMap g) w1) as (q' & w4 & E4 & Hf4 & Hh4 & _). rewrite (bind_step _ _ _ _ _ E4) in E2. injection E2 as <- <-.
    rewrite Hh4. split; [cbn; unfold links_at; by rewrite lookup_insert_eq|]. split; [intros x [= <-]; rewrite dom_insert_L; set_solver|].
    intros x Hx. split; [rewrite dom_insert_L; set_solver|]. rewrite lookup_insert_ne; [done|]. by intros ->. }
  destruct Hl as (Hl & Hld & Hk).
  assert (Hn : forall x, x ∈ dom (the_heap (w_db w2)) -> <[q := Struct (with_refs v c l)]> (the_heap (w_db w2)) !! x = the_heap (w_db w2) !! x).
  { intros x Hx. rewrite lookup_insert_ne; [done|]. by intros ->. }
  unfold view, read_alike, with_refs. cbn [Capabilities Links SchemaVersion App Version BuildDate PublicURL Identity]. f_equal.
  - rewrite <- Hc. destruct c as [x|]; [|done]. unfold caps_view. cbn. destruct (Hk x (Hcd x eq_refl)) as [Hx Ex]. unfold caps_at. by rewrite Hn, Ex.
  - rewrite <- Hl. destruct l as [x|]; [|done]. cbn. unfold links_at. by rewrite Hn by by apply Hld.
Qed.

Lemma fetch_decodes {St} `{HasSuite St} foldName NewRequest Do json_First (w w' : world St) p :
  fetch foldName NewRequest Do json_First w = (Ok p, w') ->
  exists resp w1 v, Do (httpClient (the_client (w_db w))) (siblingURL (the_client (w_db w)) +:+ ManifestPath) w = (Ok resp, w1) /\
    StatusCode resp = 200%Z /\ decode_body foldName json_First (Body resp) = Ok v /\ view_at (the_heap (w_db w')) p = read_alike v.
Proof.
  unfold fetch. rewrite peek_step. intros E. apply bind_Ok in E as (u & w0 & [_ ->]%lift_Ok & E). apply bind_Ok in E as (resp & w1 & Ed & E).
  destruct (Z.eqb_spec (StatusCode resp) 200) as [Hs|]; [|done]. cbn [negb] in E. apply bind_Ok in E as (v & w2 & [Ev ->]%lift_Ok & E).
  exists resp, w1, v. split_and!; [done..|]. by apply (new_manifest_reads _ _ _ _ E).
Qed.

(** When two manifests are compatible. *)
Lemma NegotiateCompat_true {S L S' L'} (me : ManifestOf S L) (v : ManifestOf S' L') :
  fst (NegotiateCompat me v) = true <->
    App v <> "" /\ App v <> App me /\ Major (SchemaVersion me) <> "" /\ Major (SchemaVersion v) = Major (SchemaVersion me).
Proof.
  unfold NegotiateCompat. destruct (String.eqb_spec (App v) ""); [naive_solver|]. destruct (String.eqb_spec (App v) (App me)); [naive_solver|].
  destruct (String.eqb_spec (Major (SchemaVersion me)) ""); [naive_solver|]. destruct (String.eqb_spec (Major (SchemaVersion v)) "") as [E|]; [naive_solver congruence|].
  destruct (String.eqb_spec (Major (SchemaVersion v)) (Major (SchemaVersion me))); naive_solver.
Qed.

(** ** Properties *)

(** C36: The client implements a verdict on its history of polls. Whatever the rest of the
    application does with the manifests it was handed - it keeps every pointer it had
    when it built the client, follows and overwrites anything reachable from those and
    from any snapshot, between a fetch and its recording too - a snapshot answers: unknown
    before the first poll; active exactly when the last poll fetched a compatible
    manifest; degraded when the last poll failed within the grace window of the last
    compatible one; unreachable otherwise; together with a manifest that reads as the
    last compatible one did when it was fetched. The sibling polled, the guarded client that
    follows no redirect and the identity compared against never change. *)
Theorem discovery_refines {St} `{HasSuite St} foldName ToLower NewRequest Do json_First url m interval g (w0 w1 : world St) d s :
  Do_beside Do -> closed (the_heap (w_db w0)) -> refs (Struct m) ⊆ dom (the_heap (w_db w0)) ->
  NewDiscoveryClient ToLower url m interval g w0 = (Ok d, w1) ->
  reaches foldName NewRequest Do json_First (installed d (dom (the_heap (w_db w0))) w1) s ->
  let me := view (the_heap (w_db w0)) m in
  settings (the_client (w_db (s_world s))) = client_settings url g /\
  exists p w2, Snapshot (s_world s) = (Ok (verdict me (s_history s), p), w2) /\
    view_at (the_heap (w_db w2)) <$> p = snd <$> last_compatible me (s_history s).
Proof.
  intros Hb Hcl Hm E R me. apply NewDiscoveryClient_plaintext in E as [_ E].
  destruct (run_good foldName _ _ _ me (client_settings url g) _ _ Hb eq_refl R) as (O & P & T); [by eapply newDiscoveryClient_good|].
  split; [apply (same_settings _ _ _ _ _ _ _ T)|].
  destruct (Snapshot_copies (s_world s) (no_dangling _ _ _ P)) as (p & w2 & N & E2 & _ & _ & _ & V). exists p, w2.
  rewrite <- (state_verdict _ _ _ _ _ _ _ T), <- (good_reads _ _ _ _ _ _ _ T). done.
Qed.

(** The URL handed out for fetching is the one the sibling asserted in the last poll,
    which was compatible, and it passed this deployment's egress policy; the client that
    polls never was built for a plaintext sibling. *)
Theorem public_url_vetted {St} `{HasSuite St} foldName ToLower url_Parse lookupIP NewRequest Do json_First url m interval g (w0 w1 : world St) d s u w' :
  Do_beside Do -> closed (the_heap (w_db w0)) -> refs (Struct m) ⊆ dom (the_heap (w_db w0)) ->
  NewDiscoveryClient ToLower url m interval g w0 = (Ok d, w1) ->
  reaches foldName NewRequest Do json_First (installed d (dom (the_heap (w_db w0))) w1) s ->
  SiblingPublicURL ToLower url_Parse lookupIP (s_world s) = (Ok u, w') ->
  HasPrefix (ToLower (TrimRight_slash url)) "http://" = false /\
  exists rest t v w2, s_history s = rest ++ [(t, Some v)] /\ fst (NegotiateCompat (view (the_heap (w_db w0)) m) v) = true /\
    u = TrimRight_slash (TrimSpace (PublicURL v)) /\ u <> "" /\
    ValidateURL ToLower url_Parse lookupIP g u w2 = (Ok tt, w').
Proof.
  intros Hb Hcl Hm E R Eu. apply NewDiscoveryClient_plaintext in E as [Hh E]. split; [done|]. set (me := view _ m).
  destruct (run_good foldName _ _ _ me (client_settings url g) _ _ Hb eq_refl R) as (O & P & T); [by eapply newDiscoveryClient_good|].
  destruct (Snapshot_copies (s_world s) (no_dangling _ _ _ P)) as (p & w2 & N & E2 & _ & C & _ & V).
  unfold SiblingPublicURL in Eu. rewrite (bind_step _ _ _ _ _ E2), (state_verdict _ _ _ _ _ _ _ T) in Eu.
  destruct (verdict me (s_history s)) eqn:Ev; try done. apply verdict_active in Ev as (rest & t & v & Hs & Hc & Hl).
  destruct p as [p|]; [|done]. rewrite !peek_step, C in Eu. unfold sys_heap in *.
  rewrite (good_reads _ _ _ _ _ _ _ T), Hl in V. injection V as V.
  assert (Hp : PublicURL (struct_at (the_heap (w_db w2)) p) = PublicURL v) by by rewrite <- V.
  assert (Hg : guard (the_client (w_db (s_world s))) = g) by (pose proof (same_settings _ _ _ _ _ _ _ T) as X; by injection X).
  rewrite Hp, Hg in Eu. unfold Resolve in Eu. exists rest, t, v.
  destruct (String.eqb_spec (TrimRight_slash (TrimSpace (PublicURL v))) "") as [|Hne]; [done|].
  apply bind_Ok in Eu as ([] & w3 & Ew%wrapping_Ok & [= <- <-]). by exists w2.
Qed.
End Suite.

(** ** Witness *)

Module Example_suite.
Import Suite.

Definition process : Type := heap * DiscoveryClient.
#[export] Instance process_HasSuite : HasSuite process.
Proof. refine {| the_heap := fst; put_heap := fun h s => (h, snd s); the_client := snd; put_client := fun d s => (fst s, d) |}; done. Defined.

(** The registry, whose own links are in the heap; no sibling polled yet. *)
Definition registry : Manifest := MkManifest "suite/v1" "terraform-registry" "1.0.0" "" "https://registry" no_identity None (Some 1%positive).
Definition nobody : DiscoveryClient :=
  {| siblingURL := ""; self := registry; pollInterval := 0; graceWindow := 0; httpClient := {| hc_timeout := 0; hc_guard := None; hc_follows := true |};
     guard := None; state := StateUnknown; lastGood := None; lastOKAt := None |}.
Definition boot : world process := quiet ({[1%positive := LinkMap {["modules" := "/m"]}]}, nobody) 0 0 0.

(** The state manager answers until its clock reaches a hundred seconds. *)
Definition answer (_ : HTTPClient) (_ : string) : M process Response := fun w =>
  if (w_now w <? 100 * Suite.time_Second)%Z then (Ok {| StatusCode := 200; Body := "{}" |}, w) else (Err (Plain "connection refused"), w).
Definition first_value (_ : string) : result json :=
  Ok (JSObj [("schemaVersion", JSStr "suite/v1.2"); ("app", JSStr "terraform-state"); ("publicUrl", JSStr "https://state/");
             ("links", JSObj [("states", JSStr "/s")]); ("novel", JSNull)]).
Definition fold (s : string) : string := s.
Definition requests (_ : string) : result unit := Ok tt.
Definition ex_fetch : M process positive := fetch fold requests answer first_value.

Definition built := NewDiscoveryClient fold "https://state/" registry 0 None boot.
Definition client : DiscoveryClient := match fst built with Ok d => d | Err _ => nobody end.
Definition known0 : gset positive := dom (the_heap (w_db boot)).
Definition s0 : sys := installed client known0 (snd built).

Definition w_fetched : world process := snd (ex_fetch (s_world s0)).
Definition r_fetched : result positive := fst (ex_fetch (s_world s0)).
Definition v_fetched : option contents := read_result (the_heap (w_db w_fetched)) r_fetched.
Definition w_active : world process := snd (record_poll r_fetched w_fetched).
Definition r_snapshot : result (SiblingState * option positive) := fst (Snapshot w_active).
Definition p_snapshot : option positive := match r_snapshot with Ok (_, p) => p | Err _ => None end.
Definition p_struct : positive := default 1%positive p_snapshot.
Definition w_snapshot : world process := snd (Snapshot w_active).

(** The holder of the snapshot overwrites it, and two minutes later the sibling is down. *)
Definition w_spoiled : world process := on_heap (<[p_struct := Struct registry]>) w_snapshot.
Definition w_later : world process := at_time (120 * Suite.time_Second) w_spoiled.
Definition w_down : world process := snd (ex_fetch w_later).
Definition r_down : result positive := fst (ex_fetch w_later).
Definition w_degraded : world process := snd (record_poll r_down w_down).
Definition s1 : sys :=
  Sys w_degraded (from_option singleton ∅ p_snapshot ∪ known0) None
    [(0%Z, v_fetched); ((120 * Suite.time_Second)%Z, read_result (the_heap (w_db w_down)) r_down)].

Lemma ex_run : reaches fold requests answer first_value s0 s1.
Proof.
  eapply rtc_l; [apply (do_fetch fold requests answer first_value _ w_fetched known0 [] r_fetched); vm_compute; reflexivity|].
  eapply rtc_l; [apply (do_record fold requests answer first_value _ w_active); vm_compute; reflexivity|].
  eapply rtc_l; [apply (do_snapshot fold requests answer first_value _ w_snapshot _ _ _ StateActive p_snapshot); vm_compute; reflexivity|].
  eapply rtc_l; [apply (do_write fold requests answer first_value w_snapshot _ _ _ p_struct (Struct registry)); apply (bool_decide_unpack _); vm_compute; reflexivity|].
  eapply rtc_l; [apply (do_wait fold requests answer first_value _ _ _ _ (120 * Suite.time_Second)%Z)|].
  eapply rtc_l; [apply (do_fetch fold requests answer first_value _ w_down _ _ r_down); vm_compute; reflexivity|].
  eapply rtc_l; [apply (do_record fold requests answer first_value _ w_degraded); vm_compute; reflexivity|]. apply rtc_refl.
Qed.

Lemma discovery_refines_witness :
  fst built = Ok client /\ verdict (view (the_heap (w_db boot)) registry) (s_history s1) = StateDegraded /\
  exists p w2, Snapshot w_degraded = (Ok (StateDegraded, p), w2) /\
    App <$> (view_at (the_heap (w_db w2)) <$> p) = Some "terraform-state".
Proof.
  split; [vm_compute; reflexivity|]. split; [vm_compute; reflexivity|].
  destruct (discovery_refines fold fold requests answer first_value "https://state/" registry 0 None boot (snd built) client s1) as [_ (p & w2 & E & V)].
  - intros c u w r w'. unfold answer. destruct (_ <? _)%Z; by intros [= <- <-].
  - intros p c Hc. assert (c = LinkMap {["modules" := "/m"]}) as -> by (change (({[1%positive := LinkMap {["modules" := "/m"]}]} : heap) !! p = Some c) in Hc; by apply lookup_singleton_Some in Hc as [_ Hc]). set_solver.
  - apply (bool_decide_unpack _). vm_compute. reflexivity.
  - vm_compute. reflexivity.
  - exact ex_run.
  - exists p, w2. split; [exact E|]. rewrite V. vm_compute. reflexivity.
Defined.
End Example_suite.
