(* ===== verification/Host.v ===== *)
(** * Host: identity/suite/host.go

    The canonical form of a registry host, by which two applications join what each
    recorded of a host.

    [url.Parse], the IDNA lookup profile and Unicode case are parameters. *)

From stdpp Require Import pretty.
From Stdlib Require Import Ascii.
From S2P Require Import Prelude GoStrings PgQuote NetIP HttpSafe Mailer.

Module Host.

(** ** Go's strings, strconv *)

Fixpoint starts (p l : list ascii) : bool :=
  match p, l with
  | [], _ => true
  | a :: p, b :: l => (a =? b)%char && starts p l
  | _ :: _, [] => false
  end.

(** [strings.Contains]. *)
Fixpoint contains (sub l : list ascii) : bool :=
  starts sub l || match l with [] => false | _ :: l => contains sub l end.

(** [strings.TrimPrefix] and [strings.TrimSuffix] of one byte. *)
Definition trim_prefix (c : ascii) (l : list ascii) : list ascii :=
  match l with a :: l' => if (a =? c)%char then l' else l | [] => [] end.
Definition trim_suffix (c : ascii) (l : list ascii) : list ascii := rev (trim_prefix c (rev l)).

(** The text before the first [c]. *)
Fixpoint before_byte (c : ascii) (l : list ascii) : option (list ascii) :=
  match l with
  | [] => None
  | a :: l => if (a =? c)%char then Some [] else option_map (cons a) (before_byte c l)
  end.

Definition atoi_range (n : Z) : option Z := if ((- 2 ^ 63 <=? n) && (n <? 2 ^ 63))%Z then Some n else None.

Definition Atoi (l : list ascii) : option Z :=
  match l with
  | "-"%char :: l => n ← decimal l; atoi_range (- Z.of_N n)
  | "+"%char :: l => n ← decimal l; atoi_range (Z.of_N n)
  | _ => n ← decimal l; atoi_range (Z.of_N n)
  end.

Section Hosts.
Context (ToLower : string -> string) (url_Parse : string -> result URL) (ToASCII : string -> result string).

Definition stripScheme (raw : string) : string :=
  if negb (contains [":"; "/"; "/"]%char (bytes_of raw)) then raw
  else
    match url_Parse raw with
    | Ok u => if u_Host u <>s "" then u_Host u else raw
    | Err _ => raw
    end.

Definition bareIPv6WithZone (raw : string) : option string :=
  match before_byte "%" (bytes_of raw) with
  | None => None
  | Some addr =>
      match ParseIP (string_of addr) with
      | None => None
      | Some _ => if has_byte ":" addr then Some raw else None
      end
  end.

Definition splitHostPort (raw : string) : option (string * string) :=
  if negb (has_byte ":" (bytes_of raw)) then Some (raw, "")
  else
    match SplitHostPort raw with
    | Ok (h, p) => Some (h, p)
    | Err _ =>
        match bareIPv6WithZone raw with
        | Some zoned => Some (zoned, "")
        | None =>
            match url_Parse ("//" +:+ raw) with
            | Err _ => None
            | Ok u =>
                if u_Host u =s "" then None
                else
                  match SplitHostPort (u_Host u) with
                  | Ok (h, p) => Some (h, p)
                  | Err _ => Some (u_Host u, "")
                  end
            end
        end
    end.

Definition foldHost (host : string) : string :=
  let host := trim_suffix "]" (trim_prefix "[" (bytes_of host)) in
  let host := ToLower (string_of (trim_suffix "." host)) in
  match ToASCII host with
  | Ok ascii => if ascii <>s "" then ascii else host
  | Err _ => host
  end.

Definition canonicalPort (port : string) : string :=
  if port =s "" then ""
  else
    match Atoi (bytes_of port) with
    | None => port
    | Some n => if (n =? 80)%Z || (n =? 443)%Z then "" else pretty n
    end.

Definition CanonicalHost (raw : string) : string :=
  let raw := TrimSpace raw in
  if raw =s "" then ""
  else if has_byte "@" (bytes_of raw) then ""
  else
    let raw := stripScheme raw in
    match splitHostPort raw with
    | None => ""
    | Some (host, port) =>
        let host := foldHost host in
        let port := canonicalPort port in
        if port =s "" then host else Mail.JoinHostPort host port
    end.
End Hosts.

(** ** The spellings of a host

    A host is a lower-case name and the port, when it is not one of the two defaults. *)

Definition name_byte (a : ascii) : bool :=
  let n := code a in ((97 <=? n) && (n <=? 122))%N || ((48 <=? n) && (n <=? 57))%N || (n =? 45)%N || (n =? 46)%N.

Record host_name (h : list ascii) : Prop := {
  name_bytes : Forall (fun a => name_byte a = true) h;
  no_final_dot : exists h' a, h = h' ++ [a] /\ (a =? ".")%char = false
}.

Definition scheme_byte (a : ascii) : bool := let n := code (lower a) in ((97 <=? n) && (n <=? 122))%N.

Definition blanks (n : nat) : list ascii := replicate n " "%char.
Definition final_dot (dot : bool) : list ascii := if dot then ["."%char] else [].
Definition scheme_part (scheme : option (list ascii)) : list ascii := match scheme with Some s => s ++ [":"; "/"; "/"]%char | None => [] end.
Definition port_part (digits : option (list ascii)) : list ascii := match digits with Some p => ":"%char :: p | None => [] end.

Definition default_port (n : N) : bool := (n =? 80)%N || (n =? 443)%N.

(** The port a spelled one stands for; leading zeros are no matter. *)
Inductive spells_port : option N -> option (list ascii) -> Prop :=
| no_port : spells_port None None
| a_default p n : decimal p = Some n -> default_port n = true -> spells_port None (Some p)
| other_port p n : decimal p = Some n -> default_port n = false -> (Z.of_N n < 2 ^ 63)%Z -> spells_port (Some n) (Some p).

Inductive spelling : list ascii * option N -> string -> Prop :=
| spelled h port upper dot digits scheme i j :
    host_name h -> map lower upper = h -> spells_port port digits ->
    (forall s, scheme = Some s -> s <> [] /\ Forall (fun a => scheme_byte a = true) s) ->
    spelling (h, port) (string_of (blanks i ++ scheme_part scheme ++ (upper ++ final_dot dot) ++ port_part digits ++ blanks j)).

Definition canonical (host : list ascii * option N) : string :=
  match snd host with
  | None => string_of (fst host)
  | Some n => string_of (fst host) +:+ ":" +:+ pretty (Z.of_N n)
  end.

(** ** Lemmas *)

(** A byte of a name in either case. *)
Definition any_case (a : ascii) : bool := name_byte (lower a).

Definition special (a : ascii) : bool :=
  existsb (fun c => (a =? c)%char) [":"; "@"; "["; "]"; "%"; "/"; " "]%char.

Lemma any_case_plain a : any_case a = true -> special a = false /\ plain_byte a = true /\ ((a =? ".")%char = (lower a =? ".")%char).
Proof. destruct a as [[] [] [] [] [] [] [] []]; vm_compute; by intros ?. Qed.

Lemma scheme_byte_plain a : scheme_byte a = true -> (a =? ":")%char = false /\ (a =? "@")%char = false /\ plain_byte a = true.
Proof. destruct a as [[] [] [] [] [] [] [] []]; vm_compute; by intros ?. Qed.

Lemma digit_plain a d : digit a = Some d -> special a = false /\ plain_byte a = true /\ (a =? "-")%char = false /\ (a =? "+")%char = false.
Proof. destruct a as [[] [] [] [] [] [] [] []]; vm_compute; by intros ?. Qed.

Lemma has_byte_app c l m : has_byte c (l ++ m) = has_byte c l || has_byte c m.
Proof. apply existsb_app. Qed.

Lemma has_byte_none c l : Forall (fun a => (a =? c)%char = false) l -> has_byte c l = false.
Proof. induction 1 as [|a l Ha _ IH]; [done|]. unfold has_byte in *. cbn [existsb]. by rewrite Ha. Qed.

Lemma special_free c l : special c = true -> Forall (fun a => special a = false) l -> has_byte c l = false.
Proof.
  intros Hc Hl. apply has_byte_none. eapply Forall_impl; [exact Hl|]. intros a Ha. destruct (Ascii.eqb_spec a c) as [->|]; congruence.
Qed.

Lemma decimal_from_digits acc p n : decimal_from acc p = Some n -> Forall (fun a => exists d, digit a = Some d) p.
Proof.
  revert acc. induction p as [|a p IH]; intros acc E; [constructor|]. cbn [decimal_from] in E.
  destruct (digit a) as [d|] eqn:Ed; [|done]. constructor; [by exists d|]. by eapply IH.
Qed.

Lemma decimal_digits p n : decimal p = Some n -> p <> [] /\ Forall (fun a => exists d, digit a = Some d) p.
Proof. destruct p as [|a p]; [done|]. intros E. split; [done|]. by eapply decimal_from_digits. Qed.

Lemma Atoi_decimal p n : decimal p = Some n -> (Z.of_N n < 2 ^ 63)%Z -> Atoi p = Some (Z.of_N n).
Proof.
  intros E Hn. assert (Atoi p = (n ← decimal p; atoi_range (Z.of_N n))) as ->.
  { destruct (decimal_digits _ _ E) as [Hne Hd]. destruct p as [|a p]; [done|]. apply Forall_cons in Hd as [[d Hd] _].
    destruct (digit_plain _ _ Hd) as (_ & _ & Hm & Hp). unfold Atoi. destruct a as [[] [] [] [] [] [] [] []]; done. }
  rewrite E. cbn. unfold atoi_range. replace (_ && _) with true; [done|]. symmetry. apply andb_true_iff. split; [apply Z.leb_le|apply Z.ltb_lt]; lia.
Qed.

Lemma cut_last_colon_app l p : has_byte ":" p = false -> cut_last_colon (l ++ ":"%char :: p) = Some (l, p).
Proof.
  intros Hp. assert (Hn : forall q, has_byte ":" q = false -> cut_last_colon q = None).
  { induction q as [|a q IH]; [done|]. unfold has_byte in *. cbn [existsb cut_last_colon]. intros [Ha Hq]%orb_false_elim. by rewrite (IH Hq), Ha. }
  induction l as [|a l IH]; cbn [app cut_last_colon]; [by rewrite (Hn p Hp)|by rewrite IH].
Qed.

Lemma SplitHostPort_plain h p :
  h <> [] -> Forall (fun a => special a = false) h -> Forall (fun a => special a = false) p ->
  SplitHostPort (string_of (h ++ ":"%char :: p)) = Ok (string_of h, string_of p).
Proof.
  intros Hne Hh Hp. unfold SplitHostPort. rewrite bytes_of_string_of, cut_last_colon_app by by apply special_free.
  rewrite !(special_free _ h), !(special_free _ p) by done. cbn [orb].
  destruct h as [|a h]; [done|]. apply Forall_cons in Hh as [Ha _]. destruct a as [[] [] [] [] [] [] [] []]; done.
Qed.

Lemma trim_front_blanks n l : trim_front (blanks n ++ l) = trim_front l.
Proof. induction n as [|n IH]; [done|]. cbn [blanks replicate app]. unfold blanks in IH. destruct (replicate n " "%char ++ l) as [|b [|c m]] eqn:E; simpl; by rewrite <- IH. Qed.

Lemma trim_back_blanks n l : trim_back (blanks n ++ l) = trim_back l.
Proof. induction n as [|n IH]; [done|]. cbn [blanks replicate app]. unfold blanks in IH. destruct (replicate n " "%char ++ l) as [|b [|c m]] eqn:E; simpl; by rewrite <- IH. Qed.

Lemma rev_blanks n : rev (blanks n) = blanks n.
Proof.
  induction n as [|n IH]; [done|]. unfold blanks in *. cbn [replicate rev]. rewrite IH. clear IH.
  induction n as [|n IH]; [done|]. cbn [replicate app]. by rewrite IH.
Qed.

Lemma TrimSpace_blanks i l j :
  l <> [] -> Forall (fun a => plain_byte a = true) l -> TrimSpace (string_of (blanks i ++ l ++ blanks j)) = string_of l.
Proof.
  intros Hne Hl. unfold TrimSpace. rewrite bytes_of_string_of, trim_front_blanks.
  destruct l as [|a l]; [done|]. apply Forall_cons in Hl as [Ha Hl]. cbn [app]. rewrite trim_front_plain by done.
  change (a :: l ++ blanks j) with ((a :: l) ++ blanks j). rewrite rev_app_distr, rev_blanks, trim_back_blanks.
  assert (Hr : Forall (fun a => plain_byte a = true) (rev (a :: l))) by (apply Forall_rev; by constructor).
  destruct (rev (a :: l)) as [|b m] eqn:E; [by apply (f_equal (@length _)) in E; rewrite length_rev in E|].
  apply Forall_cons in Hr as [Hb _]. rewrite trim_back_plain by done. by rewrite <- E, rev_involutive.
Qed.

Lemma contains_none c sub l : has_byte c l = false -> contains (c :: sub) l = false.
Proof.
  induction l as [|a l IH]; [done|]. unfold has_byte. cbn [existsb contains starts]. intros [Ha Hl]%orb_false_elim.
  rewrite (Ascii.eqb_sym c a), Ha. cbn [andb orb]. by apply IH.
Qed.

Lemma contains_app sub l m : contains sub (l ++ sub ++ m) = true.
Proof.
  assert (Hs : starts sub (sub ++ m) = true) by (induction sub as [|c sub IH]; [done|]; cbn [app starts]; by rewrite Ascii.eqb_refl, IH).
  induction l as [|a l IH]; cbn [app]; [destruct (sub ++ m); cbn [contains]; by rewrite Hs|]. cbn [contains]. by rewrite IH, orb_true_r.
Qed.

Section Canonical.
Context (ToLower : string -> string) (url_Parse : string -> result URL) (ToASCII : string -> result string).

(** Lower case of ASCII is bytewise; the lookup profile leaves an ASCII name alone; a
    URL made of a scheme and an authority of plain bytes has that authority as its host. *)
Definition ToLower_ascii : Prop := forall l, Forall (fun a => plain_byte a = true) l -> ToLower (string_of l) = string_of (map lower l).
Definition ToASCII_name : Prop := forall h, host_name h -> ToASCII (string_of h) = Ok (string_of h).
Definition url_authority : Prop := forall s a, s <> [] -> Forall (fun c => scheme_byte c = true) s ->
  Forall (fun c => plain_byte c = true /\ (c =? "/")%char = false) a -> a <> [] ->
  exists u, url_Parse (string_of (s ++ [":"; "/"; "/"]%char ++ a)) = Ok u /\ u_Host u = string_of a.

Lemma trim_suffix_none c l : (forall l' a, l = l' ++ [a] -> (a =? c)%char = false) -> trim_suffix c l = l.
Proof.
  intros Hl. unfold trim_suffix. destruct (rev l) as [|a m] eqn:E; [by rewrite <- (rev_involutive l), E|].
  assert (El : l = rev m ++ [a]) by (rewrite <- (rev_involutive l), E; done). cbn [trim_prefix].
  rewrite (Hl _ _ El). by rewrite <- E, rev_involutive.
Qed.

Lemma trim_suffix_snoc c l : trim_suffix c (l ++ [c]) = l.
Proof. unfold trim_suffix. rewrite rev_app_distr. cbn [rev app trim_prefix]. by rewrite Ascii.eqb_refl, rev_involutive. Qed.

Lemma foldHost_name h upper dot :
  ToLower_ascii -> ToASCII_name -> host_name h -> map lower upper = h -> foldHost ToLower ToASCII (string_of (upper ++ final_dot dot)) = string_of h.
Proof.
  intros Hlow Hasc Hh Hu. pose proof Hh as [Hb (h' & z & Ez & Hz)].
  assert (Ha : Forall (fun a => any_case a = true) upper).
  { rewrite <- Hu in Hb. apply Forall_map in Hb. exact Hb. }
  assert (Hsp : Forall (fun a => special a = false) upper) by (eapply Forall_impl; [exact Ha|]; intros a Hx; by apply any_case_plain).
  assert (Hlast : forall l' a, upper = l' ++ [a] -> (a =? ".")%char = false).
  { intros l' a ->. apply Forall_app in Ha as [_ Ha]. apply Forall_cons in Ha as [Ha _]. destruct (any_case_plain a Ha) as (_ & _ & ->).
    rewrite map_app in Hu. rewrite Ez in Hu. apply app_inj_tail in Hu as [_ ->]. done. }
  unfold foldHost. rewrite bytes_of_string_of.
  assert (Hpre : trim_prefix "[" (upper ++ final_dot dot) = upper ++ final_dot dot).
  { destruct upper as [|a u]; [rewrite Ez in Hu; by destruct h'|]. apply Forall_cons in Hsp as [Hs _]. cbn [app trim_prefix].
    destruct a as [[] [] [] [] [] [] [] []]; done. }
  rewrite Hpre, (trim_suffix_none "]").
  2: { intros l' a E. destruct dot; cbn [final_dot] in E; [by apply app_inj_tail in E as [_ <-]|]. rewrite app_nil_r in E. subst upper.
       apply Forall_app in Hsp as [_ Hs]. apply Forall_cons in Hs as [Hs _]. destruct a as [[] [] [] [] [] [] [] []]; done. }
  assert (Hdot : trim_suffix "." (upper ++ final_dot dot) = upper).
  { destruct dot; cbn [final_dot]; [apply trim_suffix_snoc|]. rewrite app_nil_r. by apply trim_suffix_none. }
  rewrite Hdot, Hlow by (eapply Forall_impl; [exact Ha|]; intros a Hx; by apply any_case_plain).
  rewrite Hu, (Hasc h Hh). destruct (String.eqb_spec (string_of h) "") as [E|]; [|done].
  apply (f_equal bytes_of) in E. rewrite bytes_of_string_of in E. rewrite Ez in E. by destruct h'.
Qed.

Lemma canonicalPort_spelled port digits :
  spells_port port digits ->
  canonicalPort (string_of (default [] digits)) = match port with Some n => pretty (Z.of_N n) | None => "" end.
Proof.
  assert (Hne : forall p n, decimal p = Some n -> (string_of p =s "") = false).
  { intros p n E. apply seqb_false. intros Ep. apply (f_equal bytes_of) in Ep. rewrite bytes_of_string_of in Ep. by subst p. }
  unfold canonicalPort. intros [|p n E Hd|p n E Hd Hn]; [done|..]; cbn [from_option id]; rewrite (Hne _ _ E), bytes_of_string_of.
  - rewrite (Atoi_decimal _ _ E); unfold default_port in Hd; apply orb_prop in Hd as [Hd%N.eqb_eq|Hd%N.eqb_eq]; by subst n.
  - rewrite (Atoi_decimal _ _ E Hn). unfold default_port in Hd. apply orb_false_elim in Hd as [H1%N.eqb_neq H2%N.eqb_neq].
    by rewrite (proj2 (Z.eqb_neq _ 80)), (proj2 (Z.eqb_neq _ 443)) by lia.
Qed.

Lemma pretty_go_nonempty x s : s <> "" -> pretty_N_go x s <> "".
Proof.
  revert s. induction (N.lt_wf_0 x) as [x _ IH]; intros s Hs. assert (x = 0 \/ 0 < x)%N as [->|Hx] by lia; [by rewrite pretty_N_go_0|].
  rewrite pretty_N_go_step by done. by apply IH; [apply N.div_lt|].
Qed.

Lemma pretty_nonempty (n : N) : (pretty (Z.of_N n) =s "") = false.
Proof.
  apply seqb_false. destruct n as [|p]; [done|]. change (pretty (Z.of_N (N.pos p))) with (pretty_N_go (Npos p) "").
  rewrite pretty_N_go_step by done. by apply pretty_go_nonempty.
Qed.

Lemma splitHostPort_spelled port digits core :
  core <> [] -> Forall (fun a => special a = false) core -> spells_port port digits ->
  splitHostPort url_Parse (string_of (core ++ port_part digits)) = Some (string_of core, string_of (default [] digits)).
Proof.
  intros Hne Hc Hp. unfold splitHostPort. rewrite bytes_of_string_of, has_byte_app, (special_free _ core) by done. cbn [orb].
  assert (Hd : forall p n, decimal p = Some n -> Forall (fun a => special a = false) p).
  { intros p n E. destruct (decimal_digits _ _ E) as [_ Hd]. eapply Forall_impl; [exact Hd|]. intros a [d Ed]. by apply (digit_plain a d). }
  destruct Hp as [|p n E _|p n E _ _]; cbn [port_part from_option id]; [by rewrite app_nil_r|..];
    (rewrite (SplitHostPort_plain core p) by (try done; by eapply Hd)); unfold has_byte; by cbn [existsb].
Qed.

Lemma stripScheme_spelled scheme core :
  url_authority -> (forall s, scheme = Some s -> s <> [] /\ Forall (fun a => scheme_byte a = true) s) ->
  core <> [] -> Forall (fun a => plain_byte a = true /\ (a =? "/")%char = false) core ->
  stripScheme url_Parse (string_of (scheme_part scheme ++ core)) = string_of core.
Proof.
  intros Hurl Hs Hne Hc. unfold stripScheme. rewrite bytes_of_string_of.
  assert (Hstr : (string_of core <>s "") = true).
  { apply negb_true_iff, seqb_false. intros E. apply (f_equal bytes_of) in E. rewrite bytes_of_string_of in E. by subst core. }
  destruct scheme as [s|]; cbn [scheme_part app].
  - destruct (Hs s eq_refl) as [Hn Hb]. rewrite <- app_assoc, contains_app. cbn [negb].
    destruct (Hurl s core Hn Hb Hc Hne) as (u & -> & ->). by rewrite Hstr.
  - destruct (contains [":"; "/"; "/"]%char core) eqn:E; [|done]. exfalso.
    assert (Hno : has_byte "/" core = false) by (apply has_byte_none; eapply Forall_impl; [exact Hc|]; by intros a []).
    clear -E Hno. induction core as [|a core IH]; [done|]. unfold has_byte in *. cbn [existsb] in Hno. apply orb_false_elim in Hno as [Ha Hno].
    cbn [contains starts] in E. destruct core as [|b core]; [by rewrite andb_false_r in E|]. cbn [existsb] in Hno. pose proof Hno as [Hb _]%orb_false_elim.
    rewrite (Ascii.eqb_sym "/" b), Hb in E. rewrite andb_false_r in E. by apply IH.
Qed.
Lemma CanonicalHost_spelled hp s :
  ToLower_ascii -> ToASCII_name -> url_authority -> spelling hp s -> CanonicalHost ToLower url_Parse ToASCII s = canonical hp.
Proof.
  intros Hlow Hasc Hurl [h port upper dot digits scheme i j Hh Hu Hp Hs].
  assert (Ha : Forall (fun a => any_case a = true) upper) by (pose proof Hh as [Hb _]; rewrite <- Hu in Hb; by apply Forall_map in Hb).
  assert (Hne : upper ++ final_dot dot <> []).
  { destruct Hh as [_ (h' & z & Ez & _)]. rewrite <- Hu in Ez. destruct upper; [by destruct h'|done]. }
  assert (Hcore : Forall (fun a => special a = false /\ plain_byte a = true) (upper ++ final_dot dot)).
  { apply Forall_app. split; [eapply Forall_impl; [exact Ha|]; intros a Hx; by destruct (any_case_plain a Hx) as (? & ? & _)|].
    destruct dot; repeat constructor. }
  assert (Hport : Forall (fun a => plain_byte a = true /\ (a =? "/")%char = false /\ (a =? "@")%char = false) (port_part digits)).
  { assert (Hd : forall p n, decimal p = Some n -> Forall (fun a => plain_byte a = true /\ (a =? "/")%char = false /\ (a =? "@")%char = false) (":"%char :: p)).
    { intros p n E. constructor; [done|]. destruct (decimal_digits _ _ E) as [_ Hd]. eapply Forall_impl; [exact Hd|]. intros a [d Ed].
      destruct (digit_plain a d Ed) as (Hsp & Hpl & _). split; [done|]. clear -Hsp. destruct a as [[] [] [] [] [] [] [] []]; done. }
    destruct Hp; [constructor|by eapply Hd..]. }
  assert (Hauth : Forall (fun a => plain_byte a = true /\ (a =? "/")%char = false /\ (a =? "@")%char = false) ((upper ++ final_dot dot) ++ port_part digits)).
  { apply Forall_app. split; [|done]. eapply Forall_impl; [exact Hcore|]. intros a [Hsp Hpl]. split; [done|]. clear -Hsp. destruct a as [[] [] [] [] [] [] [] []]; done. }
  assert (Hall : Forall (fun a => plain_byte a = true /\ (a =? "@")%char = false) (scheme_part scheme ++ (upper ++ final_dot dot) ++ port_part digits)).
  { apply Forall_app. split; [|eapply Forall_impl; [exact Hauth|]; naive_solver]. destruct scheme as [sc|]; cbn [scheme_part]; [|constructor].
    destruct (Hs sc eq_refl) as [_ Hb]. apply Forall_app. split; [|repeat constructor]. eapply Forall_impl; [exact Hb|]. intros a Hx.
    by destruct (scheme_byte_plain a Hx) as (_ & ? & ?). }
  replace (blanks i ++ scheme_part scheme ++ (upper ++ final_dot dot) ++ port_part digits ++ blanks j)
    with (blanks i ++ (scheme_part scheme ++ (upper ++ final_dot dot) ++ port_part digits) ++ blanks j) by (by rewrite <- !app_assoc).
  assert (Hne2 : scheme_part scheme ++ (upper ++ final_dot dot) ++ port_part digits <> []) by (intros [_ [E _]%app_nil]%app_nil; by apply Hne).
  unfold CanonicalHost. rewrite TrimSpace_blanks; [|done|eapply Forall_impl; [exact Hall|]; by intros ? []].
  destruct (String.eqb_spec (string_of (scheme_part scheme ++ (upper ++ final_dot dot) ++ port_part digits)) "") as [E|_].
  { apply (f_equal bytes_of) in E. by rewrite bytes_of_string_of in E. }
  rewrite bytes_of_string_of, has_byte_none by (eapply Forall_impl; [exact Hall|]; by intros ? []).
  rewrite stripScheme_spelled; [|done|done|by intros [? _]%app_nil|eapply Forall_impl; [exact Hauth|]; naive_solver].
  rewrite (splitHostPort_spelled port) by (first [done|eapply Forall_impl; [exact Hcore|]; by intros ? []]).
  rewrite (foldHost_name h) by done. rewrite (canonicalPort_spelled port) by done. unfold canonical. cbn [fst snd].
  destruct port as [n|]; [|done]. rewrite pretty_nonempty. unfold Mail.JoinHostPort. rewrite bytes_of_string_of.
  replace (existsb _ h) with false; [done|]. symmetry. destruct Hh as [Hb _]. clear -Hb. induction Hb as [|a h Hb _ IH]; [done|].
  cbn [existsb]. rewrite IH, orb_false_r. destruct a as [[] [] [] [] [] [] [] []]; done.
Qed.
End Canonical.

(** A name has no colon, so the canonical form tells name and port apart. *)
Lemma canonical_inj hp hq s t : spelling hp s -> spelling hq t -> canonical hp = canonical hq -> hp = hq.
Proof.
  assert (Hb : forall h rest h' rest', host_name h -> host_name h' ->
    (rest = [] \/ exists r, rest = ":"%char :: r) -> (rest' = [] \/ exists r, rest' = ":"%char :: r) -> h ++ rest = h' ++ rest' -> h = h' /\ rest = rest').
  { intros h rest h' rest' [Hh _] [Hh' _] Hr Hr'. revert h' Hh'. induction Hh as [|a h Ha _ IH]; intros h' Hh' E; destruct Hh' as [|a' h' Ha' Hh']; cbn [app] in E.
    - done.
    - destruct Hr as [->|[r ->]]; [done|]. injection E as <- _. done.
    - destruct Hr' as [->|[r ->]]; [done|]. injection E as -> _. done.
    - injection E as <- E. by destruct (IH h' Hh' E) as [-> ->]. }
  intros [h port u dot dg sc i j Hh _ _ _] [h' port' u' dot' dg' sc' i' j' Hh' _ _ _] E.
  assert (Hc : forall (x : list ascii) q, bytes_of (canonical (x, q)) = x ++ match q with Some n => ":"%char :: bytes_of (pretty (Z.of_N n)) | None => [] end).
  { intros x [n|]; unfold canonical; cbn [fst snd]; [|by rewrite bytes_of_string_of, app_nil_r].
    by rewrite !bytes_of_app, bytes_of_string_of. }
  apply (f_equal bytes_of) in E. rewrite !Hc in E. apply Hb in E as [-> E]; [|done|done|destruct port; eauto|destruct port'; eauto].
  f_equal. destruct port as [n|], port' as [n'|]; try done. injection E as E. f_equal. apply (f_equal string_of) in E.
  rewrite !string_of_bytes_of in E. apply (inj pretty) in E. lia.
Qed.

(** ** Properties *)

End Host.

(** ** Witness *)

Module Example_host.
Import Host.

Definition lower_case (s : string) : string := string_of (map lower (bytes_of s)).
Fixpoint after_colon (l : list ascii) : list ascii := match l with [] => [] | a :: l => if (a =? ":")%char then l else after_colon l end.
Definition parse (s : string) : result URL :=
  let host := string_of (drop 2 (after_colon (bytes_of s))) in Ok {| u_Scheme := ""; u_Host := host; u_Hostname := host |}.
Definition ascii_only (s : string) : result string := Ok s.

Definition ex_name : list ascii := bytes_of "registry.example".
Definition ex_upper : list ascii := bytes_of "Registry.EXAMPLE".
Definition ex_url : string := " HTTPS://Registry.EXAMPLE.:0443 ".

Lemma ex_host_name : host_name ex_name.
Proof.
  split; [repeat constructor|].
  by exists (bytes_of "registry.exampl"), "e"%char.
Qed.

Lemma parse_authority : url_authority parse.
Proof.
  intros s a _ Hs _ _. eexists. split; [done|]. cbn [u_Host]. rewrite bytes_of_string_of. f_equal.
  induction Hs as [|c s Hc _ IH]; [done|]. cbn [app after_colon]. by destruct (scheme_byte_plain c Hc) as (-> & _).
Qed.


(** What no other spelling of a host may become. *)
Example refused_hosts :
  CanonicalHost lower_case parse ascii_only "user@registry.example" = "" /\
  CanonicalHost lower_case parse ascii_only "fe80::1%eth0" = "fe80::1%eth0" /\
  CanonicalHost lower_case parse ascii_only "[::1]:8080" = "[::1]:8080".
Proof. repeat split; vm_compute; reflexivity. Qed.
End Example_host.
