(* ===== verification/AppCreds.v ===== *)
(** * AppCreds: identity/appcreds

    The tokens of app-owned integrations: five kinds of credentials and what each
    exchanges for a token, the in-memory cache keyed by a credential's fingerprint, and
    the read-through minter over both.

    The HTTP round trip, the Azure SDK's credentials, PEM and X.509 parsing, RSA, SHA-256,
    the JSON scanner and RFC 3339 are parameters. An instant that is the zero time is
    [None]. The cache's clock is the process's: only a test sets another. The body of a
    response that fails while it is read is what was read of it. *)

From stdpp Require Import pretty.
From Stdlib Require Import Ascii.
From S2P Require Import Prelude GoStrings Base64 Order NetIP HttpSafe Json Mailer Host Suite.

Module AppCreds.

Definition AzureDevOpsResourceID : string := "499b84ac-1321-427f-aa17-267ca6975798".
Definition DefaultEntraLoginBaseURL : string := "https://login.microsoftonline.com".
Definition DefaultGitHubAPIBaseURL : string := "https://api.github.com".
Definition time_Second : Z := 1000000000.
Definition time_Hour : Z := 3600 * time_Second.
Definition defaultHTTPTimeout : Z := 30 * time_Second.
Definition maxTokenResponseBytes : N := N.shiftl 8 10.
Definition appJWTLifetime : Z := 540 * time_Second.
Definition appJWTBackdate : Z := 60 * time_Second.
Definition ErrInvalidCreds : error := Sentinel "appcreds: invalid credentials".
Definition errNoMinter : error := Sentinel "appcreds: CachedMinter has no Minter".

Record Token := { AccessToken : string; ExpiresAt : option Z }.

Definition Expired (t : Token) (now margin : Z) : bool :=
  if AccessToken t =s "" then true
  else match ExpiresAt t with
       | None => true
       | Some e => negb (now + margin <? e)%Z
       end.

(** ** The credentials *)

Record EntraCreds := { e_TenantID : string; e_ClientID : string; e_ClientSecret : string }.
Record FederatedCreds := { f_ClientID : string }.
Record ManagedIdentityCreds := { m_ClientID : string }.
Record CertificateCreds := { c_TenantID : string; c_ClientID : string; c_CertificatePEM : string }.
Record GitHubAppCreds := { g_AppID : string; g_InstallationID : string; g_PrivateKeyPEM : string }.

(** The names of the fields that are blank. *)
Definition missing (fields : list (string * string)) : list string :=
  List.map fst (List.filter (fun f => TrimSpace (snd f) =s "") fields).

Definition require_fields (msg : string) (fields : list (string * string)) : result unit :=
  match missing fields with [] => Ok tt | _ => Err (Wrap msg ErrInvalidCreds) end.

Definition EntraCreds_Validate (c : EntraCreds) : result unit :=
  require_fields "entra client-credentials requires" [("tenant_id", e_TenantID c); ("client_id", e_ClientID c); ("client_secret", e_ClientSecret c)].
Definition FederatedCreds_Validate (c : FederatedCreds) : result unit :=
  if TrimSpace (f_ClientID c) =s "" then Err (Wrap "workload identity federation requires client_id" ErrInvalidCreds) else Ok tt.
Definition ManagedIdentityCreds_Validate (c : ManagedIdentityCreds) : result unit :=
  if TrimSpace (m_ClientID c) =s "" then Err (Wrap "managed identity requires client_id" ErrInvalidCreds) else Ok tt.
Definition CertificateCreds_Validate (c : CertificateCreds) : result unit :=
  require_fields "entra certificate auth requires" [("tenant_id", c_TenantID c); ("client_id", c_ClientID c); ("certificate", c_CertificatePEM c)].
Definition GitHubAppCreds_Validate (c : GitHubAppCreds) : result unit :=
  require_fields "github app auth requires" [("app_id", g_AppID c); ("installation_id", g_InstallationID c); ("private_key", g_PrivateKeyPEM c)].

(** What is hashed: the kind and the fields, each after a NUL. *)
Definition NUL : ascii := ascii_of_N 0.
Fixpoint nul_join (kind : string) (fields : list string) : string :=
  match fields with [] => kind | f :: fields => kind +:+ String NUL (nul_join f fields) end.

(** The interface, as the sum of its implementations. *)
Inductive Creds :=
| Entra_creds (c : EntraCreds)
| Federated_creds (c : FederatedCreds)
| ManagedIdentity_creds (c : ManagedIdentityCreds)
| Certificate_creds (c : CertificateCreds)
| GitHubApp_creds (c : GitHubAppCreds).

Definition Validate (c : Creds) : result unit :=
  match c with
  | Entra_creds c => EntraCreds_Validate c
  | Federated_creds c => FederatedCreds_Validate c
  | ManagedIdentity_creds c => ManagedIdentityCreds_Validate c
  | Certificate_creds c => CertificateCreds_Validate c
  | GitHubApp_creds c => GitHubAppCreds_Validate c
  end.

Definition kind (c : Creds) : string :=
  match c with
  | Entra_creds _ => "entra_client_secret"
  | Federated_creds _ => "entra_federated"
  | ManagedIdentity_creds _ => "entra_managed_identity"
  | Certificate_creds _ => "entra_certificate"
  | GitHubApp_creds _ => "github_app"
  end.

Definition creds_fields (c : Creds) : list string :=
  match c with
  | Entra_creds c => [e_TenantID c; e_ClientID c; e_ClientSecret c]
  | Federated_creds c => [f_ClientID c]
  | ManagedIdentity_creds c => [m_ClientID c]
  | Certificate_creds c => [c_TenantID c; c_ClientID c; c_CertificatePEM c]
  | GitHubApp_creds c => [g_AppID c; g_InstallationID c; g_PrivateKeyPEM c]
  end.

(** ** net/url *)

Definition unreserved (a : ascii) : bool :=
  let n := code a in
  ((65 <=? n) && (n <=? 90))%N || ((97 <=? n) && (n <=? 122))%N || ((48 <=? n) && (n <=? 57))%N
    || existsb (fun c => (a =? c)%char) ["-"; "_"; "."; "~"]%char.

Definition upper_hex (n : N) : ascii := ascii_of_N (if (n <? 10)%N then n + 48 else n + 55)%N.
Definition percent (a : ascii) : list ascii := ["%"%char; upper_hex (code a / 16); upper_hex (code a mod 16)]%N.

(** [url.PathEscape] and [url.QueryEscape]. *)
Definition PathEscape (s : string) : string :=
  string_of (List.concat (List.map (fun a =>
    if unreserved a || existsb (fun c => (a =? c)%char) ["$"; "&"; "+"; "="; ":"; "@"]%char then [a] else percent a) (bytes_of s))).
Definition QueryEscape (s : string) : string :=
  string_of (List.concat (List.map (fun a => if (a =? " ")%char then ["+"%char] else if unreserved a then [a] else percent a) (bytes_of s))).

(** [url.Values] with one value a key, and its encoding by sorted key. *)
Definition Set_value (k v : string) (m : list (string * string)) : list (string * string) := List.filter (fun kv => fst kv <>s k) m ++ [(k, v)].
Definition by_key (x y : string * string) : bool := String.leb (fst x) (fst y).
Fixpoint join_amp (l : list string) : string := match l with [] => "" | [x] => x | x :: l => x +:+ "&" +:+ join_amp l end.
Definition Encode (m : list (string * string)) : string :=
  join_amp (List.map (fun kv => QueryEscape (fst kv) +:+ "=" +:+ QueryEscape (snd kv)) (sort_by by_key m)).

(** The replacer of [urlPathSegment]. *)
Definition urlPathSegment (s : string) : string :=
  string_of (List.concat (List.map (fun a =>
    if (a =? "/")%char then bytes_of "%2F" else if (a =? "?")%char then bytes_of "%3F" else if (a =? "#")%char then bytes_of "%23" else [a]) (bytes_of s))).

(** ** The cache's state *)

Definition DefaultRefreshMargin : Z := 60 * time_Second.

(** [entries] is [None] for the zero value's nil map. *)
Record Cache := { entries : option (gmap string Token); margin : Z }.
Definition NewCache (margin : Z) : Cache := {| entries := Some ∅; margin := margin |}.

Definition refreshMargin (c : Cache) : Z :=
  if (margin c =? 0)%Z then DefaultRefreshMargin else if (margin c <? 0)%Z then 0%Z else margin c.

Definition with_entries (f : gmap string Token -> gmap string Token) (c : Cache) : Cache :=
  {| entries := Some (f (default ∅ (entries c))); margin := margin c |}.

Class HasCache (St : Type) := {
  the_cache : St -> Cache;
  put_cache : Cache -> St -> St;
  the_put_cache : forall c s, the_cache (put_cache c s) = c
}.

(** ** The minter *)

Record HTTPClient := { http_timeout : Z; http_guard : option Guard }.
Definition NewClient (timeout : Z) (g : Guard) : HTTPClient := {| http_timeout := timeout; http_guard := Some g |}.
Definition strictGuard : Guard := {| allowHosts := []; allowNets := [] |}.

Record Request := { req_Method : string; req_URL : string; req_Body : string; req_Header : list (string * string) }.

Section Minting.
Context {St Cert Key Block RSAKey : Type}.

(** What a credential of the Azure SDK answers for scopes: a token and its expiry. *)
Definition FederatedCredential : Type := list string -> M St (string * option Z).

Record Minter := {
  httpClient : HTTPClient;
  entraLoginBaseURL : string;
  githubAPIBaseURL : string;
  now : M St Z;
  credentialFactory : string -> M St FederatedCredential;
  certificateFactory : string -> string -> string -> list Cert -> Key -> M St FederatedCredential;
  managedIdentityFactory : string -> M St FederatedCredential
}.

Definition with_client (c : HTTPClient) (m : Minter) : Minter :=
  {| httpClient := c; entraLoginBaseURL := entraLoginBaseURL m; githubAPIBaseURL := githubAPIBaseURL m; now := now m;
     credentialFactory := credentialFactory m; certificateFactory := certificateFactory m; managedIdentityFactory := managedIdentityFactory m |}.

(** A nil argument leaves the minter as it is. *)
Definition Option_ : Type := Minter -> Minter.
Definition WithHTTPClient (c : option HTTPClient) : Option_ := fun m => match c with Some c => with_client c m | None => m end.
Definition WithEgressGuard (g : option Guard) : Option_ := fun m =>
  match g with Some g => with_client (NewClient defaultHTTPTimeout g) m | None => m end.
Definition WithEntraLoginBaseURL (u : string) : Option_ := fun m =>
  if u =s "" then m
  else {| httpClient := httpClient m; entraLoginBaseURL := u; githubAPIBaseURL := githubAPIBaseURL m; now := now m;
          credentialFactory := credentialFactory m; certificateFactory := certificateFactory m; managedIdentityFactory := managedIdentityFactory m |}.
Definition WithGitHubAPIBaseURL (u : string) : Option_ := fun m =>
  if u =s "" then m
  else {| httpClient := httpClient m; entraLoginBaseURL := entraLoginBaseURL m; githubAPIBaseURL := u; now := now m;
          credentialFactory := credentialFactory m; certificateFactory := certificateFactory m; managedIdentityFactory := managedIdentityFactory m |}.
Definition WithClock (f : option (M St Z)) : Option_ := fun m =>
  match f with
  | Some f => {| httpClient := httpClient m; entraLoginBaseURL := entraLoginBaseURL m; githubAPIBaseURL := githubAPIBaseURL m; now := f;
                 credentialFactory := credentialFactory m; certificateFactory := certificateFactory m; managedIdentityFactory := managedIdentityFactory m |}
  | None => m
  end.
Definition WithFederatedCredentialFactory (f : option (string -> M St FederatedCredential)) : Option_ := fun m =>
  match f with
  | Some f => {| httpClient := httpClient m; entraLoginBaseURL := entraLoginBaseURL m; githubAPIBaseURL := githubAPIBaseURL m; now := now m;
                 credentialFactory := f; certificateFactory := certificateFactory m; managedIdentityFactory := managedIdentityFactory m |}
  | None => m
  end.
Definition WithCertificateCredentialFactory (f : option (string -> string -> string -> list Cert -> Key -> M St FederatedCredential)) : Option_ := fun m =>
  match f with
  | Some f => {| httpClient := httpClient m; entraLoginBaseURL := entraLoginBaseURL m; githubAPIBaseURL := githubAPIBaseURL m; now := now m;
                 credentialFactory := credentialFactory m; certificateFactory := f; managedIdentityFactory := managedIdentityFactory m |}
  | None => m
  end.
Definition WithManagedIdentityCredentialFactory (f : option (string -> M St FederatedCredential)) : Option_ := fun m =>
  match f with
  | Some f => {| httpClient := httpClient m; entraLoginBaseURL := entraLoginBaseURL m; githubAPIBaseURL := githubAPIBaseURL m; now := now m;
                 credentialFactory := credentialFactory m; certificateFactory := certificateFactory m; managedIdentityFactory := f |}
  | None => m
  end.

(** The constructors of the Azure SDK. *)
Context (NewWorkloadIdentityCredential : string -> M St FederatedCredential).
Context (NewManagedIdentityCredential : string -> M St FederatedCredential).
Context (NewClientCertificateCredential : string -> string -> list Cert -> Key -> bool -> option string -> M St FederatedCredential).
Context (ParseCertificates : string -> result (list Cert * option Key)).

Definition defaultFederatedCredentialFactory (clientID : string) : M St FederatedCredential := NewWorkloadIdentityCredential clientID.
Definition defaultManagedIdentityCredentialFactory (clientID : string) : M St FederatedCredential := NewManagedIdentityCredential clientID.

(** The chain is always sent; the authority host is named when it is not the public one. *)
Definition certificateCredentialOptions (authorityHost : string) : bool * option string :=
  (true, if (authorityHost <>s "") && (authorityHost <>s DefaultEntraLoginBaseURL) then Some authorityHost else None).

Definition defaultCertificateCredentialFactory (authorityHost tenantID clientID : string) (certs : list Cert) (key : Key) : M St FederatedCredential :=
  let opts := certificateCredentialOptions authorityHost in
  NewClientCertificateCredential tenantID clientID certs key (fst opts) (snd opts).

Definition New (opts : list Option_) : Minter :=
  fold_left (fun m opt => opt m) opts
    {| httpClient := NewClient defaultHTTPTimeout strictGuard;
       entraLoginBaseURL := DefaultEntraLoginBaseURL;
       githubAPIBaseURL := DefaultGitHubAPIBaseURL;
       now := time_Now;
       credentialFactory := defaultFederatedCredentialFactory;
       certificateFactory := defaultCertificateCredentialFactory;
       managedIdentityFactory := defaultManagedIdentityCredentialFactory |}.

(** ** Minting *)

Context (foldName : string -> string) (json_doc : string -> result json) (time_Parse : string -> result (option Z)).
Context (NewRequest : string -> string -> result unit) (Do : HTTPClient -> Request -> M St Suite.Response).
Context (pem_Decode : string -> option Block) (ParsePKCS1 : Block -> result RSAKey) (ParsePKCS8 : Block -> result (option RSAKey)).
Context (json_string : string -> string) (SHA256 : string -> string) (SignPKCS1v15 : RSAKey -> string -> result string).

Definition read_body (resp : Suite.Response) : string := string_of (Suite.limit maxTokenResponseBytes (bytes_of (Suite.Body resp))).

(** [int] of a JSON number: an integer literal in range. *)
Definition entra_field (t : string) (v : json) (out : string * Z) : result (string * Z) :=
  match v with
  | JSNull => Ok out
  | JSStr s => if t =s "access_token" then Ok (s, snd out) else Err cannot_unmarshal
  | JSNum text =>
      if t =s "expires_in" then
        match Host.Atoi (bytes_of text) with Some n => Ok (fst out, n) | None => Err cannot_unmarshal end
      else Err cannot_unmarshal
  | _ => Err cannot_unmarshal
  end.

Definition decode_entra (body : string) : result (string * Z) :=
  j ← json_doc body;
  match j with
  | JSNull => Ok ("", 0%Z)
  | JSObj o => Suite.decode_members foldName entra_field ["access_token"; "expires_in"] o ("", 0%Z)
  | _ => Err cannot_unmarshal
  end.

(** The [int] times [time.Second] wraps around. *)
Definition entra_ttl (expires_in : Z) : Z :=
  let ttl := int64 (expires_in * time_Second) in
  if (ttl <=? 0)%Z then time_Hour else ttl.

Definition entra_form (creds : EntraCreds) : list (string * string) :=
  Set_value "scope" (AzureDevOpsResourceID +:+ "/.default")
    (Set_value "client_secret" (e_ClientSecret creds)
      (Set_value "client_id" (e_ClientID creds)
        (Set_value "grant_type" "client_credentials" []))).

Definition entra_endpoint (base tenant : string) : string := Suite.TrimRight_slash base +:+ "/" +:+ PathEscape tenant +:+ "/oauth2/v2.0/token".

Definition MintEntra (m : Minter) (creds : EntraCreds) : M St Token :=
  lift (EntraCreds_Validate creds);;
  let endpoint := entra_endpoint (entraLoginBaseURL m) (e_TenantID creds) in
  wrapping "appcreds: build entra token request" (lift (NewRequest "POST" endpoint));;
  resp ← wrapping "appcreds: entra token request failed"
           (Do (httpClient m) {| req_Method := "POST"; req_URL := endpoint; req_Body := Encode (entra_form creds);
                                 req_Header := [("Content-Type", "application/x-www-form-urlencoded"); ("Accept", "application/json")] |});
  let body := read_body resp in
  if negb (Suite.StatusCode resp =? 200)%Z then throw (Plain "appcreds: entra token endpoint returned")
  else
    out ← wrapping "appcreds: entra token response was not JSON" (lift (decode_entra body));
    if fst out =s "" then throw (Plain "appcreds: entra token response carried no access_token")
    else
      now ← now m;
      mret {| AccessToken := fst out; ExpiresAt := Some (now + entra_ttl (snd out))%Z |}.

Definition azure_scopes : list string := [AzureDevOpsResourceID +:+ "/.default"].

(** What follows [GetToken] in each of the three mints over the SDK. *)
Definition sdk_token (failed empty : string) (cred : FederatedCredential) : M St Token :=
  tok ← wrapping failed (cred azure_scopes);
  if fst tok =s "" then throw (Plain empty)
  else mret {| AccessToken := fst tok; ExpiresAt := snd tok |}.

Definition MintFederated (m : Minter) (creds : FederatedCreds) : M St Token :=
  lift (FederatedCreds_Validate creds);;
  cred ← wrapping "appcreds: could not build a workload identity credential" (credentialFactory m (TrimSpace (f_ClientID creds)));
  sdk_token "appcreds: mint federated Azure DevOps token" "appcreds: federated token exchange returned an empty token" cred.

Definition MintManagedIdentity (m : Minter) (creds : ManagedIdentityCreds) : M St Token :=
  lift (ManagedIdentityCreds_Validate creds);;
  cred ← wrapping "appcreds: could not build a managed identity credential" (managedIdentityFactory m (TrimSpace (m_ClientID creds)));
  sdk_token "appcreds: mint managed identity Azure DevOps token" "appcreds: managed identity token exchange returned an empty token" cred.

Definition ParseCertificateBundle (bundlePEM : string) : result (list Cert * Key) :=
  if TrimSpace bundlePEM =s "" then Err (Plain "appcreds: certificate bundle is empty")
  else
    match ParseCertificates bundlePEM with
    | Err err => Err (Wrap "appcreds: certificate bundle could not be parsed" err)
    | Ok ([], _) => Err (Plain "appcreds: certificate bundle contains no certificate")
    | Ok (_, None) => Err (Plain "appcreds: certificate bundle contains no private key")
    | Ok (certs, Some key) => Ok (certs, key)
    end.

Definition ValidCertificateBundle (bundlePEM : string) : result unit := _ ← ParseCertificateBundle bundlePEM; Ok tt.

(** [fmt.Errorf("%w: %s", ErrInvalidCreds, err.Error())]: the cause is only text. *)
Definition invalid_creds {A} (r : result A) : result A := match r with Err _ => Err (Wrap "" ErrInvalidCreds) | _ => r end.

Definition MintCertificate (m : Minter) (creds : CertificateCreds) : M St Token :=
  lift (CertificateCreds_Validate creds);;
  bundle ← lift (invalid_creds (ParseCertificateBundle (c_CertificatePEM creds)));
  cred ← wrapping "appcreds: could not build a certificate credential"
           (certificateFactory m (entraLoginBaseURL m) (TrimSpace (c_TenantID creds)) (TrimSpace (c_ClientID creds)) (fst bundle) (snd bundle));
  sdk_token "appcreds: mint certificate Azure DevOps token" "appcreds: certificate token exchange returned an empty token" cred.

Definition parseRSAPrivateKey (pemStr : string) : result RSAKey :=
  match pem_Decode pemStr with
  | None => Err (Plain "private key is not valid PEM")
  | Some block =>
      match ParsePKCS1 block with
      | Ok key => Ok key
      | Err _ =>
          match ParsePKCS8 block with
          | Err err => Err (Wrap "private key is not a supported RSA key (PKCS#1 or PKCS#8)" err)
          | Ok None => Err (Plain "private key is not RSA")
          | Ok (Some rsaKey) => Ok rsaKey
          end
      end
  end.

Definition ValidRSAPrivateKey (pemStr : string) : bool := is_ok (parseRSAPrivateKey pemStr).

Definition b64url (s : string) : string := string_of (EncodeToString (bytes_of s)).

(** A double quote. *)
Definition dq : string := String (ascii_of_N 34) "".
Definition quoted (s : string) : string := dq +:+ s +:+ dq.
Definition jwt_header : string := "{" +:+ quoted "alg" +:+ ":" +:+ quoted "RS256" +:+ "," +:+ quoted "typ" +:+ ":" +:+ quoted "JWT" +:+ "}".

(** [t.Unix()]. *)
Definition Unix (t : Z) : Z := (t / time_Second)%Z.

(** json.Marshal of the claims: a map, so in the order of its keys. *)
Definition app_claims (appID : string) (now : Z) : string :=
  "{" +:+ quoted "exp" +:+ ":" +:+ pretty (Unix (now + appJWTLifetime)) +:+ "," +:+ quoted "iat" +:+ ":" +:+ pretty (Unix (now - appJWTBackdate))
    +:+ "," +:+ quoted "iss" +:+ ":" +:+ json_string appID +:+ "}".

Definition signAppJWT (appID : string) (key : RSAKey) (now : Z) : result string :=
  let signingInput := b64url jwt_header +:+ "." +:+ b64url (app_claims appID now) in
  sig ← wrap_err "appcreds: sign app jwt" (SignPKCS1v15 key (SHA256 signingInput));
  Ok (signingInput +:+ "." +:+ b64url sig).

Definition github_field (t : string) (v : json) (out : string * string) : result (string * string) :=
  match v with
  | JSNull => Ok out
  | JSStr s => Ok (if t =s "token" then (s, snd out) else (fst out, s))
  | _ => Err cannot_unmarshal
  end.

Definition decode_github (body : string) : result (string * string) :=
  j ← json_doc body;
  match j with
  | JSNull => Ok ("", "")
  | JSObj o => Suite.decode_members foldName github_field ["token"; "expires_at"] o ("", "")
  | _ => Err cannot_unmarshal
  end.

Definition github_endpoint (base installation : string) : string :=
  Suite.TrimRight_slash base +:+ "/app/installations/" +:+ urlPathSegment installation +:+ "/access_tokens".

Definition MintGitHubApp (m : Minter) (creds : GitHubAppCreds) : M St Token :=
  lift (GitHubAppCreds_Validate creds);;
  key ← lift (invalid_creds (parseRSAPrivateKey (g_PrivateKeyPEM creds)));
  now0 ← now m;
  appJWT ← lift (signAppJWT (g_AppID creds) key now0);
  let endpoint := github_endpoint (githubAPIBaseURL m) (g_InstallationID creds) in
  wrapping "appcreds: build github installation token request" (lift (NewRequest "POST" endpoint));;
  resp ← wrapping "appcreds: github installation token request failed"
           (Do (httpClient m) {| req_Method := "POST"; req_URL := endpoint; req_Body := "";
                                 req_Header := [("Authorization", "Bearer " +:+ appJWT); ("Accept", "application/vnd.github+json"); ("X-GitHub-Api-Version", "2022-11-28")] |});
  let body := read_body resp in
  if negb (Suite.StatusCode resp =? 201)%Z then throw (Plain "appcreds: github installation token endpoint returned")
  else
    out ← wrapping "appcreds: github installation token response was not JSON" (lift (decode_github body));
    if fst out =s "" then throw (Plain "appcreds: github installation token response carried no token")
    else
      match time_Parse (snd out) with
      | Ok t => mret {| AccessToken := fst out; ExpiresAt := t |}
      | Err _ => now1 ← now m; mret {| AccessToken := fst out; ExpiresAt := Some (now1 + time_Hour)%Z |}
      end.

(** One exchange, whatever the kind. *)
Definition Mint (m : Minter) (c : Creds) : M St Token :=
  match c with
  | Entra_creds c => MintEntra m c
  | Federated_creds c => MintFederated m c
  | ManagedIdentity_creds c => MintManagedIdentity m c
  | Certificate_creds c => MintCertificate m c
  | GitHubApp_creds c => MintGitHubApp m c
  end.

(** ** cache.go *)

Context `{HasCache St} (sha256_hex : string -> string).

Definition Fingerprint (c : Creds) : string := sha256_hex (nul_join (kind c) (creds_fields c)).

Definition cache_entry (s : St) (key : string) : option Token := m ← entries (the_cache s); m !! key.
(** [delete] on a nil map does nothing. *)
Definition drop_entry (key : string) (s : St) : St :=
  put_cache {| entries := delete key <$> entries (the_cache s); margin := margin (the_cache s) |} s.

(** Each takes the lock, before which other goroutines may have run. *)
Definition Get (creds : option Creds) : M St (option Token) :=
  match creds with
  | None => mret None
  | Some creds =>
      let key := Fingerprint creds in
      preempt;;
      tok ← peek (fun s => cache_entry s key);
      match tok with
      | None => mret None
      | Some tok =>
          now ← time_Now;
          m ← peek (fun s => refreshMargin (the_cache s));
          if Expired tok now m then poke (drop_entry key);; mret None
          else mret (Some tok)
      end
  end.

Definition Put (creds : option Creds) (tok : Token) : M St unit :=
  match creds with
  | None => mret tt
  | Some creds =>
      if AccessToken tok =s "" then mret tt
      else
        let key := Fingerprint creds in
        preempt;; poke (fun s => put_cache (with_entries (insert key tok) (the_cache s)) s)
  end.

Definition EvictKey (key : string) : M St unit := if key =s "" then mret tt else preempt;; poke (drop_entry key).
Definition Evict (creds : option Creds) : M St unit := match creds with None => mret tt | Some c => EvictKey (Fingerprint c) end.
Definition Reset : M St unit := preempt;; poke (fun s => put_cache {| entries := Some ∅; margin := margin (the_cache s) |} s).
Definition Len : M St nat := preempt;; peek (fun s => size (default ∅ (entries (the_cache s)))).

(** Its minter, if it has one; whether it has a cache. *)
Record CachedMinter := { cm_Minter : option Minter; cm_Cache : bool }.

Definition mint (cm : CachedMinter) (creds : Creds) (do : Minter -> M St Token) : M St Token :=
  match cm_Minter cm with
  | None => throw errNoMinter
  | Some m =>
      lift (Validate creds);;
      cached ← (if cm_Cache cm then Get (Some creds) else mret None);
      match cached with
      | Some tok => mret tok
      | None =>
          tok ← do m;
          (if cm_Cache cm then Put (Some creds) tok else mret tt);;
          mret tok
      end
  end.

Definition Entra (cm : CachedMinter) (creds : EntraCreds) : M St Token := mint cm (Entra_creds creds) (fun m => MintEntra m creds).
Definition Federated (cm : CachedMinter) (creds : FederatedCreds) : M St Token := mint cm (Federated_creds creds) (fun m => MintFederated m creds).
Definition GitHubApp (cm : CachedMinter) (creds : GitHubAppCreds) : M St Token := mint cm (GitHubApp_creds creds) (fun m => MintGitHubApp m creds).
End Minting.

(** ** Lemmas *)

Definition nul_free (c : Creds) : Prop := Forall (fun f => ~ In NUL (bytes_of f)) (creds_fields c).

Lemma bytes_nul_join k fs : bytes_of (nul_join k fs) = bytes_of k ++ match fs with [] => [] | f :: fs => NUL :: bytes_of (nul_join f fs) end.
Proof.
  destruct fs as [|f fs]; cbn [nul_join]; [by rewrite app_nil_r|]. induction k as [|a k IH]; [done|]. simpl. f_equal. exact IH.
Qed.

(** Text up to the first NUL. *)
Lemma nul_cut (a a' : list ascii) r r' :
  ~ In NUL a -> ~ In NUL a' -> (r = [] \/ exists x, r = NUL :: x) -> (r' = [] \/ exists x, r' = NUL :: x) ->
  a ++ r = a' ++ r' -> a = a' /\ r = r'.
Proof.
  intros Ha Ha' Hr Hr'. revert a' Ha'. induction a as [|c a IH]; intros [|c' a'] Ha' E; cbn [app] in E; [done|..].
  - destruct Hr as [->|[x ->]]; [done|]. injection E as <- _. exfalso. apply Ha'. by left.
  - destruct Hr' as [->|[x ->]]; [done|]. injection E as -> _. exfalso. apply Ha. by left.
  - injection E as <- E. destruct (IH (fun h => Ha (or_intror h)) a' (fun h => Ha' (or_intror h)) E) as [-> ->]. done.
Qed.

Lemma nul_join_inj k fs k' fs' :
  ~ In NUL (bytes_of k) -> ~ In NUL (bytes_of k') -> Forall (fun f => ~ In NUL (bytes_of f)) fs -> Forall (fun f => ~ In NUL (bytes_of f)) fs' ->
  bytes_of (nul_join k fs) = bytes_of (nul_join k' fs') -> k = k' /\ fs = fs'.
Proof.
  assert (Hr : forall fs, (match fs with [] => [] | f :: fs => NUL :: bytes_of (nul_join f fs) end) = [] \/
    exists x, (match fs with [] => [] | f :: fs => NUL :: bytes_of (nul_join f fs) end) = NUL :: x) by (intros [|f l]; [by left|right; by eexists]).
  revert k k' fs'. induction fs as [|f fs IH]; intros k k' fs' Hk Hk' Hf Hf' E; rewrite (bytes_nul_join k), (bytes_nul_join k') in E;
    (apply nul_cut in E as [Ek E]; [|done|done|first [by left|right; by eexists]|apply Hr]);
    apply (f_equal string_of) in Ek; rewrite !string_of_bytes_of in Ek; subst k'; destruct fs' as [|f' fs']; try done.
  injection E as E. apply Forall_cons in Hf as [Hf1 Hf]. apply Forall_cons in Hf' as [Hf1' Hf'].
  by destruct (IH f f' fs' Hf1 Hf1' Hf Hf' E) as [-> ->].
Qed.

(** Credentials without a NUL in their fields are told apart by what is hashed. *)
Lemma preimage_inj c c' : nul_free c -> nul_free c' -> nul_join (kind c) (creds_fields c) = nul_join (kind c') (creds_fields c') -> c = c'.
Proof.
  intros Hc Hc' E. assert (Hk : forall c, ~ In NUL (bytes_of (kind c))) by (intros []; cbn; unfold NUL; cbn; intuition discriminate).
  apply (f_equal bytes_of), nul_join_inj in E as [Ek Ef]; [|apply Hk|apply Hk|done|done].
  destruct c as [[]|[]|[]|[]|[]], c' as [[]|[]|[]|[]|[]]; cbn in Ek, Ef; try discriminate Ek; by injection Ef as -> -> -> || injection Ef as ->.
Qed.

Lemma Expired_false t now m : Expired t now m = false -> AccessToken t <> "" /\ exists e, ExpiresAt t = Some e /\ (now + m < e)%Z.
Proof.
  unfold Expired. destruct (String.eqb_spec (AccessToken t) ""); [done|]. destruct (ExpiresAt t) as [e|]; [|done].
  intros He. split; [done|]. exists e. split; [done|]. apply negb_false_iff in He. by apply Z.ltb_lt.
Qed.

Lemma refreshMargin_pos c : (0 <= refreshMargin c)%Z.
Proof. unfold refreshMargin, DefaultRefreshMargin, time_Second. destruct (Z.eqb_spec (margin c) 0); [lia|]. destruct (Z.ltb_spec (margin c) 0); lia. Qed.

Section Own.
Context {St : Type} `{HasCache St} (sha256_hex : string -> string) (exchange : Creds -> M St Token).

(** Every cached token is what an exchange of the credentials with that fingerprint answered. *)
Definition minted (c : Creds) (t : Token) : Prop := exists w w', exchange c w = (Ok t, w').
Definition cache_own (s : St) : Prop :=
  forall k t, cache_entry s k = Some t -> exists c, nul_free c /\ Fingerprint sha256_hex c = k /\ minted c t.
Definition keeps_own (s s' : St) : Prop := cache_own s -> cache_own s'.

#[export] Instance keeps_own_preorder : PreOrder keeps_own.
Proof. split; [by intros ??|]. intros a b c H1 H2 Ha. by apply H2, H1. Qed.

Lemma drop_keeps k s : keeps_own s (drop_entry k s).
Proof.
  intros Ho k' t. unfold cache_entry, drop_entry. rewrite the_put_cache. cbn [entries]. intros E. apply Ho. unfold cache_entry.
  destruct (entries (the_cache s)) as [m|]; [|done]. cbn in *. by apply lookup_delete_Some in E as [_ E].
Qed.

Lemma cache_insert_keeps c t s : nul_free c -> minted c t ->
  keeps_own s (put_cache (with_entries (insert (Fingerprint sha256_hex c) t) (the_cache s)) s).
Proof.
  intros Hn Hm Ho k' t'. unfold cache_entry. rewrite the_put_cache. cbn. intros [[<- <-]|[_ E]]%lookup_insert_Some; [by exists c|].
  apply Ho. unfold cache_entry. by destruct (entries (the_cache s)).
Qed.

Lemma Get_evolves c : evolves keeps_own (Get (St := St) sha256_hex c).
Proof. unfold Get. destruct c; evolve; apply evolves_poke; intros s; apply drop_keeps. Qed.

Lemma Evict_evolves c : evolves keeps_own (Evict (St := St) sha256_hex c).
Proof. unfold Evict, EvictKey. destruct c; evolve; apply evolves_poke; intros s; apply drop_keeps. Qed.

Lemma Reset_evolves : evolves keeps_own (Reset (St := St)).
Proof. unfold Reset. evolve. apply evolves_poke. intros s _ k t. unfold cache_entry. by rewrite the_put_cache. Qed.

Lemma Put_evolves c t : nul_free c -> minted c t -> evolves keeps_own (Put (St := St) sha256_hex (Some c) t).
Proof. intros Hn Hm. unfold Put. evolve. apply evolves_poke. intros s. by apply cache_insert_keeps. Qed.

(** A hit is a cached token that is not expired. *)
Lemma Get_hit c (w w' : world St) t :
  Get sha256_hex (Some c) w = (Ok (Some t), w') ->
  cache_entry (w_db w') (Fingerprint sha256_hex c) = Some t /\ AccessToken t <> "" /\ exists e, ExpiresAt t = Some e /\ (w_now w < e)%Z.
Proof.
  intros E. unfold Get in E. apply bind_Ok in E as (u & w1 & Ep & E).
  assert (Hn : w_now w1 = w_now w) by (unfold preempt in Ep; destruct (w_sched w); injection Ep as _ <-; [done|by destruct (w_intx w)]).
  rewrite (bind_step (peek _) _ w1 _ w1 eq_refl) in E. destruct (cache_entry (w_db w1) _) as [tok|] eqn:Ec; [|done].
  rewrite (bind_step time_Now _ w1 (w_now w1) w1 eq_refl), (bind_step (peek _) _ w1 _ w1 eq_refl) in E.
  destruct (Expired tok (w_now w1) _) eqn:Ex; [done|]. injection E as <- <-. split; [done|].
  apply Expired_false in Ex as (Ha & e & He & Hl). split; [done|]. exists e. split; [done|].
  pose proof (refreshMargin_pos (the_cache (w_db w1))). lia.
Qed.
End Own.

(** The expiry a mint assigns is in the future, and no further than the endpoint claimed or
    an hour: the product wraps around only past what an [int64] of nanoseconds holds. *)
Lemma entra_ttl_bounds n : (0 < entra_ttl n < 2 ^ 63)%Z /\ ((0 <= n)%Z -> (entra_ttl n <= Z.max (n * time_Second) time_Hour)%Z).
Proof.
  unfold entra_ttl, int64. set (x := (n * time_Second)%Z). assert (Hm := Z.mod_pos_bound (x + 2 ^ 63) (2 ^ 64) ltac:(lia)).
  assert (Hh : (0 < time_Hour < 2 ^ 63)%Z) by (unfold time_Hour, time_Second; lia).
  destruct (Z.leb_spec ((x + 2 ^ 63) mod 2 ^ 64 - 2 ^ 63) 0) as [Hle|Hgt]; [split; [done|lia]|]. split; [lia|]. intros Hn.
  destruct (Z_lt_le_dec x (2 ^ 63)) as [Hlt|Hge]; [|lia]. rewrite Z.mod_small by (unfold x, time_Second in *; lia). lia.
Qed.

(** But a negative one can wrap around to centuries, past the check that should
    catch it. *)
Example negative_expires_in : entra_ttl (-10000000000) = 8446744073709551616%Z.
Proof. vm_compute. reflexivity. Qed.

(** A tenant stays one segment of the endpoint's path, and an installation too. *)
Definition in_segment (a : ascii) : bool := negb (existsb (fun c => (a =? c)%char) ["/"; "?"; "#"]%char).

Lemma concat_map_forall {A B} (P : B -> Prop) (f : A -> list B) l : (forall a, Forall P (f a)) -> Forall P (List.concat (List.map f l)).
Proof. intros Hf. induction l as [|a l IH]; [constructor|]. cbn. by apply Forall_app. Qed.

Lemma PathEscape_segment s : Forall (fun a => in_segment a = true) (bytes_of (PathEscape s)).
Proof.
  unfold PathEscape. rewrite bytes_of_string_of. apply concat_map_forall. intros a.
  destruct a as [[] [] [] [] [] [] [] []]; vm_compute; repeat constructor.
Qed.

Lemma urlPathSegment_segment s : Forall (fun a => in_segment a = true) (bytes_of (urlPathSegment s)).
Proof.
  unfold urlPathSegment. rewrite bytes_of_string_of. apply concat_map_forall. intros a.
  destruct a as [[] [] [] [] [] [] [] []]; vm_compute; repeat constructor.
Qed.

(** The fingerprint's separators are only separators when no field contains one. *)
Definition nul_in (a b : string) : string := a +:+ String NUL b.
Example fingerprint_collision sha256_hex :
  let c1 := Entra_creds {| e_TenantID := nul_in "t" "c"; e_ClientID := "d"; e_ClientSecret := "s" |} in
  let c2 := Entra_creds {| e_TenantID := "t"; e_ClientID := nul_in "c" "d"; e_ClientSecret := "s" |} in
  c1 <> c2 /\ Fingerprint sha256_hex c1 = Fingerprint sha256_hex c2.
Proof. split; [discriminate|reflexivity]. Qed.

(** What the answer of a cached mint amounts to. *)
Definition answered {St Cert Key} `{HasCache St} (sha256_hex : string -> string) (exchange : Creds -> M St Token) (cm : @CachedMinter St Cert Key)
    (creds : Creds) (w w' : world St) (r : result Token) : Prop :=
  cache_own sha256_hex exchange (w_db w') /\
  (Validate creds <> Ok tt -> is_ok r = false /\ w' = w) /\
  forall tok, r = Ok tok -> minted exchange creds tok /\
    ((exists w1 w2, (if cm_Cache cm then Get sha256_hex (Some creds) w = (Ok None, w1) else w1 = w) /\ exchange creds w1 = (Ok tok, w2)) \/
     (AccessToken tok <> "" /\ exists e, ExpiresAt tok = Some e /\ (w_now w < e)%Z)).

(** ** Properties *)

(** The cache never serves a token to other credentials, nor a spent one. Whatever the
    schedule and whatever the cache holds, as long as every entry was minted for the
    credentials it is filed under and other goroutines keep it so: what the cached
    minter answers was minted for exactly the credentials asked for - all five kinds
    share one cache - and it was either minted by this very call, the cache having
    nothing to serve, or is cached, carries a token and expires after now; the cache
    remains so whether the call succeeds or not; credentials that do not validate reach neither
    cache nor exchange. The hash is taken to be without collision, and fields to be
    free of NUL bytes. *)
Theorem cached_mint_own {St Cert Key} `{HasCache St} sha256_hex (exchange : @Minter St Cert Key -> Creds -> M St Token) cm m creds (w w' : world St) r :
  (forall x y, sha256_hex x = sha256_hex y -> x = y) -> nul_free creds -> cm_Minter cm = Some m ->
  evolves (keeps_own sha256_hex (exchange m)) (exchange m creds) ->
  sched_respects (keeps_own sha256_hex (exchange m)) w -> cache_own sha256_hex (exchange m) (w_db w) ->
  mint sha256_hex cm creds (fun m => exchange m creds) w = (r, w') ->
  answered sha256_hex (exchange m) cm creds w w' r.
Proof.
  intros Hsha Hnul Hm Hex Hs Ho E. unfold mint in E. rewrite Hm in E.
  apply bind_inv in E as [([] & w0 & [Hv ->]%lift_Ok & E)|(e & [= Hv <-] & ->)].
  2: { split; [done|]. by split. }
  assert (Hgo : forall w1, cache_own sha256_hex (exchange m) (w_db w1) -> sched_respects (keeps_own sha256_hex (exchange m)) w1 ->
    (if cm_Cache cm then Get sha256_hex (Some creds) w = (Ok None, w1) else w1 = w) ->
    (tok ← exchange m creds; (if cm_Cache cm then Put sha256_hex (Some creds) tok else mret tt);; mret tok) w1 = (r, w') ->
    cache_own sha256_hex (exchange m) (w_db w') /\ forall tok, r = Ok tok -> minted (exchange m) creds tok /\
      exists w1 w2, (if cm_Cache cm then Get sha256_hex (Some creds) w = (Ok None, w1) else w1 = w) /\ exchange m creds w1 = (Ok tok, w2)).
  { intros w1 Ho1 Hs1 Hg E1. apply bind_inv in E1 as [(tok & w2 & Em & E1)|(e & Em & ->)]; destruct (Hex _ _ _ Em Hs1) as [Ho2 Hs2]; [|by split; [apply Ho2|]].
    assert (Hmt : minted (exchange m) creds tok) by by exists w1, w2.
    assert (Hp : evolves (keeps_own sha256_hex (exchange m)) (_ ← (if cm_Cache cm then Put (St := St) sha256_hex (Some creds) tok else mret tt); mret tok : M St Token)).
    { destruct (cm_Cache cm); evolve. by apply Put_evolves. }
    destruct (Hp _ _ _ E1 Hs2) as [Ho3 _]. split; [by apply Ho3, Ho2|]. intros t ->.
    assert (t = tok) as -> by (apply bind_Ok in E1 as (u & w3 & _ & [= <- _]); done). split; [done|]. by exists w1, w2. }
  assert (Hfresh : forall w1, cache_own sha256_hex (exchange m) (w_db w1) -> sched_respects (keeps_own sha256_hex (exchange m)) w1 ->
    (if cm_Cache cm then Get sha256_hex (Some creds) w = (Ok None, w1) else w1 = w) ->
    (tok ← exchange m creds; (if cm_Cache cm then Put sha256_hex (Some creds) tok else mret tt);; mret tok) w1 = (r, w') ->
    answered sha256_hex (exchange m) cm creds w w' r).
  { intros w1 Ho1 Hs1 Hg E1. destruct (Hgo w1 Ho1 Hs1 Hg E1) as [Ho' Ht]. split; [done|]. split; [done|].
    intros tok Hr. destruct (Ht tok Hr) as [? ?]. split; [done|by left]. }
  destruct (cm_Cache cm) eqn:Ec; [|by apply (Hfresh w)].
  apply bind_inv in E as [(cached & w1 & Eg & E)|(e & Eg & ->)]; destruct (Get_evolves sha256_hex (exchange m) _ _ _ _ Eg Hs) as [Ho1 Hs1]; specialize (Ho1 Ho); [|by split].
  destruct cached as [tok|]; [|by apply (Hfresh w1)]. injection E as <- <-. split; [done|]. split; [done|]. intros t [= <-].
  apply Get_hit in Eg as (Hentry & Hlive). destruct (Ho1 _ _ Hentry) as (c & Hn & Hf & Hmt). apply Hsha, preimage_inj in Hf as ->; [|done|done].
  split; [done|by right].
Qed.
End AppCreds.

(** ** Witness *)

Module Example_appcreds.
Import AppCreds.

#[export] Instance cache_HasCache : HasCache Cache.
Proof. refine {| the_cache := fun c => c; put_cache := fun c _ => c |}; done. Defined.

Definition text (s : string) : string := s.
Definition accepted (_ _ : string) : result unit := Ok tt.
Definition issuer (_ : HTTPClient) (_ : Request) : M Cache Suite.Response := mret {| Suite.StatusCode := 200; Suite.Body := "{}" |}.
Definition document (_ : string) : result json := Ok (JSObj [("access_token", JSStr "tok"); ("expires_in", JSNum "3600"); ("token_type", JSStr "Bearer")]).
Definition no_sdk {A} (_ : A) : M Cache (@FederatedCredential Cache) := throw (Plain "no identity endpoint").
Definition no_certificate (_ _ : string) (_ : list unit) (_ : unit) (_ : bool) (_ : option string) : M Cache (@FederatedCredential Cache) := throw (Plain "no authority").

Definition ex_minter : @Minter Cache unit unit := New no_sdk no_sdk no_certificate [WithEntraLoginBaseURL "https://login.example/"].
Definition ex_exchange (m : @Minter Cache unit unit) (c : Creds) : M Cache Token :=
  match c with Entra_creds c => MintEntra text document accepted issuer m c | _ => throw (Plain "not configured") end.
Definition ex_cached : @CachedMinter Cache unit unit := {| cm_Minter := Some ex_minter; cm_Cache := true |}.
Definition ex_creds : EntraCreds := {| e_TenantID := "t"; e_ClientID := "c"; e_ClientSecret := "s" |}.

Definition ex_call (w : world Cache) : result Token * world Cache := Entra text document accepted issuer text ex_cached ex_creds w.
Definition w_cold : world Cache := quiet (NewCache 0) 5 0 0.
Definition w_warm : world Cache := snd (ex_call w_cold).
Definition ex_token : Token := {| AccessToken := "tok"; ExpiresAt := Some (5 + time_Hour)%Z |}.

Lemma ex_exchange_evolves : evolves (keeps_own text (ex_exchange ex_minter)) (ex_exchange ex_minter (Entra_creds ex_creds)).
Proof. unfold ex_exchange, MintEntra, issuer. evolve. Qed.

(** The second call is served by the cache. *)
Lemma cached_mint_own_witness :
  ex_call w_warm = (Ok ex_token, w_warm) /\ size (default ∅ (entries (w_db w_warm))) = 1%nat /\
  minted (ex_exchange ex_minter) (Entra_creds ex_creds) ex_token.
Proof.
  assert (Ho : cache_own text (ex_exchange ex_minter) (w_db w_warm)).
  { intros k t Hk. exists (Entra_creds ex_creds). split; [repeat constructor; vm_compute; intuition discriminate|].
    change (cache_entry (w_db w_warm) k) with (({[Fingerprint text (Entra_creds ex_creds) := ex_token]} : gmap string Token) !! k) in Hk.
    apply lookup_singleton_Some in Hk as [<- <-]. split; [done|]. exists w_cold. eexists. vm_compute. reflexivity. }
  split; [vm_compute; reflexivity|]. split; [vm_compute; reflexivity|].
  destruct (cached_mint_own text ex_exchange ex_cached ex_minter (Entra_creds ex_creds) w_warm w_warm (Ok ex_token)) as (_ & _ & Ht).
  - done.
  - repeat constructor; vm_compute; intuition discriminate.
  - done.
  - exact ex_exchange_evolves.
  - constructor.
  - exact Ho.
  - vm_compute. reflexivity.
  - by destruct (Ht ex_token eq_refl).
Defined.
End Example_appcreds.
