(* ===== verification/PlatformSchema.v ===== *)
(** * PlatformSchema: identity/platformadmin/schema.go

    The carrier's table contract: its canonical definition and the start-up check of the
    table an application made.

    A catalog query is a read of the process state, by the reference the carrier holds.
    What PostgreSQL reports of a table made by the definition ([reported]) is read off
    its text, column by column. The explanations in the messages are left out. *)

From Stdlib Require Import Ascii.
From S2P Require Import Prelude GoStrings Order PgQuote Scopes Db PlatformAdmin Channels.

Module TableShape.
Import Channel.

Definition ErrTableShape : error := Sentinel "platformadmin: carrier table".

Definition newline : string := String (ascii_of_N 10) "".

Definition ddl_columns : list string := [
  "    user_id     UUID        PRIMARY KEY";
  "    granted_by  UUID";
  "    granted_at  TIMESTAMPTZ NOT NULL DEFAULT now()";
  "    note        TEXT"].

Fixpoint join_with (sep : string) (l : list string) : string :=
  match l with [] => "" | [x] => x | x :: l => x +:+ sep +:+ join_with sep l end.

Definition TableDDL `{PgxIdentifier} (table : string) : result string :=
  quoted ← quoteTable table;
  Ok ("CREATE TABLE IF NOT EXISTS " +:+ quoted +:+ " (" +:+ newline +:+ join_with ("," +:+ newline) ddl_columns +:+ newline +:+ ");").

Definition columnRequirements : list (string * columnRequirement) := [
  ("user_id", {| cr_types := id_types; cr_notNull := true |});
  ("granted_by", {| cr_types := id_types; cr_notNull := false |});
  ("granted_at", {| cr_types := instant; cr_notNull := true |});
  ("note", {| cr_types := text_types; cr_notNull := false |})].

(** The keys in order and the map's lookup. *)
Definition sorted_names : list string := sort_strings (List.map fst columnRequirements).
Definition requirement_of (name : string) : columnRequirement :=
  match List.find (fun kv => fst kv =s name) columnRequirements with
  | Some kv => snd kv | None => {| cr_types := []; cr_notNull := false |}
  end.

Definition carrier_column_problems (rows : list CatalogRow) (name : string) : list string :=
  let req := requirement_of name in
  match actual_column rows name with
  | None => [name +:+ " is missing"]
  | Some got =>
      (if typeSatisfies (cat_type got) (cr_types req) then [] else [name +:+ " has the wrong type"]) ++
      (if cr_notNull req && negb (cat_notNull got) then [name +:+ " is nullable, want NOT NULL"] else [])
  end.

Definition shapeProblems (rows : list CatalogRow) : list string := List.flat_map (carrier_column_problems rows) sorted_names.

(** An index of the table: its first column, how many it has, and its flags. *)
Record IndexRow := { ix_column : string; ix_natts : nat; ix_unique : bool; ix_valid : bool; ix_partial : bool }.

Definition arbiter (i : IndexRow) : bool :=
  ix_unique i && ix_valid i && negb (ix_partial i) && (ix_natts i =? 1)%nat && (ix_column i =s "user_id").

(** The text from the last [.] between two quotes on; [strings.Trim] of quotes. *)
Fixpoint after_last_dot (l : list ascii) : option (list ascii) :=
  match l with
  | [] => None
  | a :: l' =>
      match after_last_dot l' with
      | Some r => Some r
      | None =>
          match l' with
          | b :: c :: r => if (a =? dquote)%char && (b =? ".")%char && (c =? dquote)%char then Some (c :: r) else None
          | _ => None
          end
      end
  end.
Definition lastPart (quoted : string) : string :=
  match after_last_dot (bytes_of quoted) with Some r => string_of r | None => quoted end.

Fixpoint trim_quotes (l : list ascii) : list ascii :=
  match l with a :: l' => if (a =? dquote)%char then trim_quotes l' else l | [] => [] end.
Definition Trim_quotes (s : string) : string := string_of (rev (trim_quotes (rev (trim_quotes (bytes_of s))))).

Section Verify.
Context {St : Type} (catalog : St -> string -> list CatalogRow) (indexes : St -> string -> list IndexRow).

(** Go's pair: the qualified name accompanies the error of a wrong shape. *)
Definition VerifyTable (c : option Carrier) : M St (string * option error) :=
  match c with
  | None => throw (Wrap "VerifyTable on an unconstructed carrier" ErrNotConfigured)
  | Some c =>
      mapping_err (Wrap2 "failed to acquire a connection" ErrTableShape) tick;;
      mapping_err (Wrap2 "failed to read search_path" ErrTableShape) tick;;
      rows ← mapping_err (Wrap2 "failed to read the table definition" ErrTableShape) (query (fun s => catalog s (c_table c)));
      let schema := schema_of rows in
      if schema =s "" then throw (Wrap "resolves to nothing on this connection" ErrTableShape)
      else
        let qualified := schema +:+ "." +:+ Trim_quotes (lastPart (c_table c)) in
        let problems := shapeProblems rows in
        hasUnique ← try (query (fun s => existsb arbiter (indexes s (c_table c))));
        match hasUnique with
        | Err err => mret (qualified, Some (Wrap2 "failed to read the table's indexes" ErrTableShape err))
        | Ok hasUnique =>
            let problems := if (hasUnique : bool) then problems else problems ++ ["there is no non-partial unique index on exactly (user_id)"] in
            mret (qualified, match problems with [] => None | _ => Some (Wrap "does not match the shape this package's statements require" ErrTableShape) end)
        end
  end.
End Verify.

(** ** What a definition makes *)

Fixpoint words (l : list (list ascii)) : list string :=
  match l with [] => [] | [] :: l => words l | w :: l => string_of w :: words l end.

Definition catalog_type (t : string) : string :=
  if t =s "UUID" then "uuid" else if t =s "TIMESTAMPTZ" then "timestamp with time zone" else if t =s "TEXT" then "text" else t.

(** One column definition: name, type, constraints. *)
Definition reported_column (schema text : string) : option CatalogRow :=
  match words (split_byte " " (bytes_of text)) with
  | name :: typ :: constraints =>
      Some {| cat_schema := schema; cat_name := name; cat_type := catalog_type typ; cat_notNull := mem "PRIMARY" constraints || mem "NOT" constraints |}
  | _ => None
  end.
Definition reported (schema : string) : list CatalogRow := omap (reported_column schema) ddl_columns.

(** A primary key is a unique index over its column. *)
Definition primary_index (text : string) : option IndexRow :=
  match words (split_byte " " (bytes_of text)) with
  | name :: _ :: constraints =>
      if mem "PRIMARY" constraints then Some {| ix_column := name; ix_natts := 1; ix_unique := true; ix_valid := true; ix_partial := false |} else None
  | _ => None
  end.
Definition reported_indexes : list IndexRow := omap primary_index ddl_columns.

(** ** Lemmas *)

Definition shape_ok (rows : list CatalogRow) : Prop :=
  Forall (fun kv => exists got, actual_column rows (fst kv) = Some got /\ typeSatisfies (cat_type got) (cr_types (snd kv)) = true /\
    (cr_notNull (snd kv) = true -> cat_notNull got = true)) columnRequirements.

Lemma column_problems_none rows name :
  carrier_column_problems rows name = [] <->
    exists got, actual_column rows name = Some got /\ typeSatisfies (cat_type got) (cr_types (requirement_of name)) = true /\
      (cr_notNull (requirement_of name) = true -> cat_notNull got = true).
Proof.
  unfold carrier_column_problems. destruct (actual_column rows name) as [got|]; [|split; [done|by intros (? & [=] & _)]].
  split.
  - intros [Ht Hn]%app_nil. exists got. split; [done|]. split; [by destruct (typeSatisfies _ _)|]. intros Hr. rewrite Hr in Hn. by destruct (cat_notNull got).
  - intros (g & [= <-] & -> & Hn). cbn [app]. destruct (cr_notNull _); [|done]. by rewrite Hn.
Qed.

Lemma shapeProblems_none rows : shapeProblems rows = [] <-> shape_ok rows.
Proof.
  unfold shapeProblems, shape_ok. assert (Hn : sorted_names = ["granted_at"; "granted_by"; "note"; "user_id"]) by (vm_compute; reflexivity).
  rewrite Hn. cbn [List.flat_map]. rewrite !app_nil_r. unfold columnRequirements. rewrite !Forall_cons, Forall_nil. cbn [fst snd].
  pose proof (column_problems_none rows "granted_at") as H1. pose proof (column_problems_none rows "granted_by") as H2.
  pose proof (column_problems_none rows "note") as H3. pose proof (column_problems_none rows "user_id") as H4.
  cbn [requirement_of columnRequirements List.find fst snd] in H1, H2, H3, H4.
  rewrite <- H1, <- H2, <- H3, <- H4. split.
  - intros (E1 & (E2 & (E3 & E4)%app_nil)%app_nil)%app_nil. done.
  - intros (-> & -> & -> & -> & _). done.
Qed.

Lemma VerifyTable_quiet {St} (catalog : St -> string -> list CatalogRow) indexes c (w : world St) :
  w_sched w = [] ->
  VerifyTable catalog indexes (Some c) w =
    let rows := catalog (w_db w) (c_table c) in
    if schema_of rows =s "" then (Err (Wrap "resolves to nothing on this connection" ErrTableShape), w)
    else (Ok (schema_of rows +:+ "." +:+ Trim_quotes (lastPart (c_table c)),
              match (if existsb arbiter (indexes (w_db w) (c_table c)) then shapeProblems rows
                     else shapeProblems rows ++ ["there is no non-partial unique index on exactly (user_id)"]) with
              | [] => None | _ => Some (Wrap "does not match the shape this package's statements require" ErrTableShape) end), w).
Proof.
  intros Hq. assert (Ht : forall f, mapping_err f (tick (St := St)) w = (Ok tt, w)) by (intros f; unfold mapping_err, tick; by rewrite Hq).
  assert (Hr : forall A (f : St -> A), query f w = (Ok (f (w_db w)), w)) by (intros A f; unfold query; rewrite stmt_quiet by done; by destruct w).
  unfold VerifyTable. rewrite (bind_step _ _ w tt w (Ht _)), (bind_step _ _ w tt w (Ht _)).
  rewrite (bind_step _ _ w (catalog (w_db w) (c_table c)) w) by (unfold mapping_err; by rewrite Hr).
  cbv zeta. destruct (_ =s ""); [done|]. rewrite (bind_step (try _) _ w (Ok (existsb arbiter (indexes (w_db w) (c_table c)))) w); [done|].
  unfold try. by rewrite Hr.
Qed.

(** ** Properties *)

(** The start-up check accepts exactly the tables the carrier's statements can use - every
    column there, of an accepted type, not nullable where a Go value has no NULL, and a
    full unique index on exactly the user for the conflict clause - and the table the
    canonical definition makes is one of them, wherever it is put. Every error of it is
    recognised by the sentinel of the table's shape or of the configuration. *)
Theorem VerifyTable_exact {St} (catalog : St -> string -> list CatalogRow) indexes c (w : world St) :
  (w_sched w = [] ->
   ((exists q w', VerifyTable catalog indexes (Some c) w = (Ok (q, None), w')) <->
      schema_of (catalog (w_db w) (c_table c)) <> "" /\ shape_ok (catalog (w_db w) (c_table c)) /\
      exists i, In i (indexes (w_db w) (c_table c)) /\ arbiter i = true) /\
   (forall schema, schema <> "" -> catalog (w_db w) (c_table c) = reported schema -> indexes (w_db w) (c_table c) = reported_indexes ->
      exists q, VerifyTable catalog indexes (Some c) w = (Ok (q, None), w))) /\
  (forall q e w', VerifyTable catalog indexes (Some c) w = (Ok (q, Some e), w') -> errors_Is e "platformadmin: carrier table" = true) /\
  (forall e w', VerifyTable catalog indexes (Some c) w = (Err e, w') -> errors_Is e "platformadmin: carrier table" = true).
Proof.
  split; [|split].
  - intros Hq. pose proof (VerifyTable_quiet catalog indexes c w Hq) as Ev. cbv zeta in Ev.
    set (rows := catalog (w_db w) (c_table c)) in *. set (ixs := indexes (w_db w) (c_table c)) in *.
    assert (Hex : (exists q w', VerifyTable catalog indexes (Some c) w = (Ok (q, None), w')) <->
      schema_of rows <> "" /\ shape_ok rows /\ exists i, In i ixs /\ arbiter i = true).
    { rewrite Ev. rewrite <- shapeProblems_none, <- existsb_exists. destruct (String.eqb_spec (schema_of rows) "") as [He|He].
      { split; [by intros (? & ? & [=])|by intros [[] _]]. }
      destruct (existsb arbiter ixs).
      - destruct (shapeProblems rows); split; [done|eauto|by intros (? & ? & [=])|by intros (_ & [=] & _)].
      - split; [intros (? & ? & [=])|by intros (_ & _ & [=])]. by destruct (shapeProblems rows). }
    split; [exact Hex|]. intros schema Hs Hr Hi.
    assert (Hsch : schema_of rows = schema) by by rewrite Hr.
    assert (Hp : shapeProblems rows = []) by (rewrite Hr; vm_compute; reflexivity).
    assert (Hu : existsb arbiter ixs = true) by (rewrite Hi; vm_compute; reflexivity).
    rewrite Ev, Hsch, Hp, Hu, (proj2 (seqb_false _ _) Hs). by eexists.
  - intros q e w' E. unfold VerifyTable in E. apply bind_Ok in E as (u1 & w1 & _ & E). apply bind_Ok in E as (u2 & w2 & _ & E).
    apply bind_Ok in E as (rows & w3 & _ & E). destruct (_ =s ""); [done|]. apply bind_try in E as (h & w4 & _ & E).
    destruct h as [h|e']; [|by injection E as _ <- _]. injection E as _ E _. by destruct (if h then _ else _); [|injection E as <-].
  - intros e w' E. unfold VerifyTable in E.
    apply bind_inv in E as [(u1 & w1 & _ & E)|(e1 & E & [= ->])]; [|by apply mapping_Err in E as (e2 & _ & ->)].
    apply bind_inv in E as [(u2 & w2 & _ & E)|(e1 & E & [= ->])]; [|by apply mapping_Err in E as (e2 & _ & ->)].
    apply bind_inv in E as [(rows & w3 & _ & E)|(e1 & E & [= ->])]; [|by apply mapping_Err in E as (e2 & _ & ->)].
    destruct (_ =s ""); [by injection E as <- _|]. apply bind_try in E as (h & w4 & _ & E). by destruct h.
Qed.

(** The text of the definition. *)
Example canonical_ddl `{PgxIdentifier} :
  TableDDL "registry.platform_admins" = Ok ("CREATE TABLE IF NOT EXISTS " +:+ quote_parts ["registry"; "platform_admins"] +:+ join_with newline [
    " (";
    "    user_id     UUID        PRIMARY KEY,";
    "    granted_by  UUID,";
    "    granted_at  TIMESTAMPTZ NOT NULL DEFAULT now(),";
    "    note        TEXT";
    ");"]).
Proof. reflexivity. Qed.
End TableShape.

(** ** Witness *)

Module Example_shape.
Import Channel TableShape.

Definition ex_carrier : Carrier := {| c_table := quoted "registry" +:+ "." +:+ quoted "platform_admins"; c_lockKey := 0 |}.
Definition ex_catalog (_ : unit) (_ : string) : list CatalogRow := reported "registry".
Definition ex_indexes (with_key : bool) (_ : unit) (_ : string) : list IndexRow := if with_key then reported_indexes else [].

Lemma VerifyTable_exact_witness :
  exists q, VerifyTable ex_catalog (ex_indexes true) (Some ex_carrier) (quiet tt 0 0 0) = (Ok (q, None), quiet tt 0 0 0) /\ q = "registry.platform_admins".
Proof.
  destruct (VerifyTable_exact ex_catalog (ex_indexes true) ex_carrier (quiet tt 0 0 0)) as [Hq _]. destruct (Hq eq_refl) as [_ Hd].
  destruct (Hd "registry" ltac:(done) eq_refl eq_refl) as (q & E). exists q. split; [exact E|]. vm_compute in E. by injection E as <-.
Defined.

Example missing_key : exists q e w', VerifyTable ex_catalog (ex_indexes false) (Some ex_carrier) (quiet tt 0 0 0) = (Ok (q, Some e), w').
Proof. eexists _, _, _. vm_compute. reflexivity. Qed.
End Example_shape.
