(* ===== verification/Schema.v ===== *)
(** * Schema: identity/db.go, schema_version.go and schema_routing.go

    The migration entry points over golang-migrate, and the two checks a consumer runs
    before it serves: that the migrations have gone far enough, and that its connection
    resolves the repositories' unqualified table names to the tables they mean.

    golang-migrate is a parameter, with its documented release of the borrowed
    connection on close; the embedded migrations are its source. [held] counts the pool's
    connections this package has out. PostgreSQL's resolution of a name is written out
    over the catalog and the connection's effective path, which is part of the process
    state, with the schemas PostgreSQL searches implicitly in their place. *)

From S2P Require Import Prelude GoStrings Order.

Module Schema.

(** ** db.go *)

Definition identitySchemaName : string := "identity".
Definition SchemaName : string := identitySchemaName.
Definition identityMigrationsTable : string := "identity_schema_migrations".
Definition ErrNoChange : string := "migrate: no change".
Definition ErrNilVersion : string := "migrate: no migration".

(** [err == sentinel]. *)
Definition is_sentinel (e : error) (name : string) : bool := match e with Sentinel n => n =s name | _ => false end.

Class HasPool (St : Type) := {
  held : St -> nat;
  set_held : nat -> St -> St;
  held_set : forall n s, held (set_held n s) = n
}.

Section Migrations.
Context {St : Type} `{HasPool St}.
(** CREATE SCHEMA IF NOT EXISTS, and golang-migrate over the schema and the table named. *)
Context (create_schema : string -> St -> result (unit * St)).
Context (WithConnection : string -> string -> M St unit) (iofs_New : result unit) (NewWithInstance : M St unit).
Context (m_Up m_Down : M St unit) (m_Steps : Z -> M St unit) (m_Version : M St (N * bool * option error)).

Definition db_Conn : M St unit := tick;; poke (fun s => set_held (S (held s)) s).
Definition conn_Close : M St unit := poke (fun s => set_held (pred (held s)) s).

Definition ensureSchema : M St unit := wrapping "failed to ensure identity schema" (stmt (create_schema identitySchemaName)).

(** [if err != nil { _ = conn.Close(); return nil, err }]: closing the driver releases the
    connection it was built over. *)
Definition or_release {A} (m : M St A) : M St A :=
  r ← try m;
  match r with Ok a => mret a | Err e => conn_Close;; throw e end.

Definition newMigrator : M St unit :=
  wrapping "failed to acquire a connection for identity migrations" db_Conn;;
  or_release ensureSchema;;
  or_release (wrapping "failed to create identity migration driver" (WithConnection identitySchemaName identityMigrationsTable));;
  or_release (wrapping "failed to create identity migration source" (lift iofs_New));;
  or_release (wrapping "failed to create identity migration instance" NewWithInstance).

Definition closeMigrator : M St unit := conn_Close.

(** [defer closeMigrator(m)] over the rest of the function. *)
Definition deferring {A} (close : M St unit) (body : M St A) : M St A := r ← try body; close;; lift r.

Definition unless_no_change (msg : string) (m : M St unit) : M St unit :=
  r ← try m;
  match r with
  | Ok _ => mret tt
  | Err e => if is_sentinel e ErrNoChange then mret tt else throw (Wrap msg e)
  end.

Definition RunMigrations (direction : string) : M St unit :=
  newMigrator;;
  deferring closeMigrator
    (if direction =s "up" then unless_no_change "failed to run identity migrations" m_Up
     else if direction =s "down" then unless_no_change "failed to rollback identity migrations" m_Down
     else throw (Plain "invalid migration direction")).

Definition RunMigrationSteps (n : Z) : M St unit :=
  newMigrator;; deferring closeMigrator (unless_no_change "failed to step identity migrations" (m_Steps n)).

Definition migrationVersion : M St (N * bool) :=
  newMigrator;;
  deferring closeMigrator
    (r ← m_Version;
     let '(version, dirty, err) := r in
     match err with
     | Some e => if is_sentinel e ErrNilVersion then mret (version, dirty) else throw (Wrap "failed to get identity migration version" e)
     | None => mret (version, dirty)
     end).

Definition GetMigrationVersion : M St (N * bool) := migrationVersion.

(** ** schema_version.go *)

Definition RequiredSchemaVersion : N := 8.
Definition ErrSchemaVersion : error := Sentinel "identity: schema version".

Record SchemaRequirement := { Table : string; Column : string; Version : N }.

Definition schemaRequirements : list SchemaRequirement := [
  {| Table := "api_keys"; Column := "expiry_notification_sent_at"; Version := 3 |};
  {| Table := "oidc_config"; Column := "created_by"; Version := 3 |};
  {| Table := "oidc_config"; Column := "extra_config"; Version := 3 |};
  {| Table := "oidc_config"; Column := "name"; Version := 3 |};
  {| Table := "oidc_config"; Column := "provider_type"; Version := 3 |};
  {| Table := "oidc_config"; Column := "updated_by"; Version := 3 |};
  {| Table := "organizations"; Column := "idp_name"; Version := 3 |};
  {| Table := "organizations"; Column := "idp_type"; Version := 3 |};
  {| Table := "audit_logs"; Column := "actor_email"; Version := 7 |};
  {| Table := "notify_dedup_claims"; Column := "claimed_at"; Version := 8 |};
  {| Table := "notify_dedup_claims"; Column := "dedup_key"; Version := 8 |}].

Definition requirement_le (i j : SchemaRequirement) : bool :=
  if negb (Version i =? Version j)%N then (Version i <? Version j)%N
  else if Table i <>s Table j then String.leb (Table i) (Table j)
  else String.leb (Column i) (Column j).

Definition SchemaRequirements : list SchemaRequirement := sort_by requirement_le schemaRequirements.

Definition UnmetSchemaRequirements (version : N) : list SchemaRequirement :=
  List.filter (fun r => (version <? Version r)%N) SchemaRequirements.

Definition checkSchemaVersion (version : N) (dirty : bool) : result unit :=
  if dirty then Err (Wrap "the identity migration chain is marked DIRTY" ErrSchemaVersion)
  else
    let unmet := UnmetSchemaRequirements version in
    if (RequiredSchemaVersion <=? version)%N && (length unmet =? 0)%nat then Ok tt
    else if (version =? 0)%N then Err (Wrap "the identity migration chain has NEVER been applied to this database" ErrSchemaVersion)
    else Err (Wrap "this module's repositories require a later identity migration" ErrSchemaVersion).

Definition VerifySchemaVersion (have_db : bool) : M St unit :=
  if negb have_db then throw (Wrap "no database handle supplied" ErrSchemaVersion)
  else
    r ← try migrationVersion;
    match r with
    | Err e => throw (Wrap2 "could not read the identity migration version" ErrSchemaVersion e)
    | Ok (version, dirty) => lift (checkSchemaVersion version dirty)
    end.
End Migrations.

(** ** schema_routing.go *)

Definition repositoryTables : list string :=
  ["api_keys"; "audit_logs"; "notify_dedup_claims"; "oidc_config"; "organization_members"; "organizations"; "revoked_tokens"; "role_templates"; "users"].
Definition RepositoryTables : list string := repositoryTables.

Record TableRouting := { tr_Table : string; tr_Schema : string; tr_Kind : string }.
Definition Qualified (r : TableRouting) : string := if tr_Schema r =s "" then "" else tr_Schema r +:+ "." +:+ tr_Table r.

Record Routing := { SearchPath : string; Tables : list TableRouting }.
Definition ErrSchemaRouting : error := Sentinel "identity: schema routing".

(** pg_class joined to pg_namespace, and what the connection searches. *)
Record Relation := { nspname : string; relname : string; relkind : string }.

Class HasCatalog (St : Type) := {
  relations : St -> list Relation;
  effective_path : St -> list string;
  search_path : St -> option string
}.

(** [to_regclass(quote_ident(name))]: the first schema of the path that has the name. *)
Fixpoint to_regclass (rels : list Relation) (path : list string) (name : string) : option Relation :=
  match path with
  | [] => None
  | schema :: path =>
      match List.find (fun r => (nspname r =s schema) && (relname r =s name)) rels with
      | Some r => Some r
      | None => to_regclass rels path name
      end
  end.

(** A row per name, in order; COALESCE of what did not resolve. *)
Definition routing_row (rels : list Relation) (path : list string) (name : string) : TableRouting :=
  match to_regclass rels path name with
  | Some r => {| tr_Table := name; tr_Schema := nspname r; tr_Kind := relkind r |}
  | None => {| tr_Table := name; tr_Schema := ""; tr_Kind := "" |}
  end.
Definition resolveRoutingQuery (rels : list Relation) (path : list string) (tables : list string) : list TableRouting :=
  List.map (routing_row rels path) (sort_strings tables).

Definition tableKinds : list string := ["r"; "p"; "v"; "m"; "f"].

(** What [VerifySchemaRouting] says of one table. *)
Definition routing_problems (schema : string) (r : TableRouting) : list string :=
  if tr_Schema r =s "" then [tr_Table r +:+ " resolves to nothing"]
  else if tr_Schema r <>s schema then [tr_Table r +:+ " resolves to " +:+ Qualified r]
  else if negb (mem (tr_Kind r) tableKinds) then [tr_Table r +:+ " resolves to " +:+ Qualified r +:+ ", which is not a table"]
  else [].

Section RoutingCheck.
Context {St : Type} `{HasPool St, HasCatalog St}.

Definition ResolveRouting (have_db : bool) (tables : list string) : M St Routing :=
  if negb have_db then throw (Wrap "no database handle supplied" ErrSchemaRouting)
  else
    let tables := match tables with [] => repositoryTables | _ => tables end in
    mapping_err (Wrap2 "failed to acquire a connection" ErrSchemaRouting) db_Conn;;
    deferring conn_Close
      (searchPath ← mapping_err (Wrap2 "failed to read search_path" ErrSchemaRouting) (query search_path);
       rows ← mapping_err (Wrap2 "failed to resolve table names" ErrSchemaRouting)
                (query (fun s => resolveRoutingQuery (relations s) (effective_path s) tables));
       if negb (length rows =? length tables)%nat then throw (Wrap "the catalogue query did not return one row per name" ErrSchemaRouting)
       else mret {| SearchPath := default "" searchPath; Tables := rows |}).

Definition VerifySchemaRouting (have_db : bool) (schema : string) : M St unit :=
  let schema := TrimSpace schema in
  if schema =s "" then throw (Wrap "no schema named" ErrSchemaRouting)
  else
    routing ← ResolveRouting have_db [];
    match List.flat_map (routing_problems schema) (Tables routing) with
    | [] => mret tt
    | _ => throw (Wrap "this module's repositories address tables unqualified" ErrSchemaRouting)
    end.
End RoutingCheck.

(** ** Lemmas *)

Section Balance.
Context {St : Type} `{HasPool St}.

Definition same_held (s s' : St) : Prop := held s' = held s.
#[export] Instance same_held_preorder : PreOrder same_held.
Proof. split; [by intros ?|]. unfold same_held. intros ???. congruence. Qed.

(** [m] leaves [k r] connections more in use, as long as others leave ours alone. *)
Definition moves {A} (k : result A -> Z) (m : M St A) : Prop := forall w r w',
  m w = (r, w') -> sched_respects same_held w ->
  Z.of_nat (held (w_db w')) = (Z.of_nat (held (w_db w)) + k r)%Z /\ sched_respects same_held w'.

Definition on_success {A} (r : result A) : Z := match r with Ok _ => 1 | Err _ => 0 end.

Lemma moves_evolves {A} (m : M St A) : evolves same_held m <-> moves (fun _ => 0%Z) m.
Proof.
  split; intros Hm w r w' E Hs; destruct (Hm w r w' E Hs) as [Hh ?]; (split; [|done]); unfold same_held in *; lia.
Qed.

Lemma db_Conn_moves : moves on_success db_Conn.
Proof.
  intros w r w' E Hs. unfold db_Conn in E. apply bind_inv in E as [(u & w1 & Et & E)|(e & Et & ->)].
  - assert (Hp : evolves same_held (tick (St := St))) by apply evolves_tick, _. destruct (Hp _ _ _ Et Hs) as [Hh Hs1].
    injection E as <- <-. cbn [w_db set_db on_success]. rewrite held_set, Hh. split; [lia|done].
  - assert (Hp : evolves same_held (tick (St := St))) by apply evolves_tick, _. destruct (Hp _ _ _ Et Hs) as [Hh Hs1].
    unfold same_held in Hh. split; [cbn; lia|done].
Qed.

Lemma mapping_moves {A} f (m : M St A) : moves on_success m -> moves on_success (mapping_err f m).
Proof.
  intros Hm w r w' E Hs. unfold mapping_err in E. destruct (m w) as [[a|e] w1] eqn:Em; injection E as <- <-; apply (Hm _ _ _ Em Hs).
Qed.

(** While a connection is held: success keeps it, failure has given it back. *)
Definition keeps_or_returns {A} (m : M St A) : Prop := forall w r w',
  m w = (r, w') -> sched_respects same_held w -> 0 < held (w_db w) ->
  held (w_db w') = match r with Ok _ => held (w_db w) | Err _ => pred (held (w_db w)) end /\ sched_respects same_held w'.

Lemma or_release_keeps {A} (m : M St A) : evolves same_held m -> keeps_or_returns (or_release m).
Proof.
  intros Hm w r w' E Hs Hp. unfold or_release in E. apply bind_try in E as (q & w1 & E1 & E). destruct (Hm _ _ _ E1 Hs) as [Hh Hs1]. unfold same_held in Hh.
  destruct q as [a|e]; injection E as <- <-; [by split|]. cbn [w_db set_db]. rewrite held_set, Hh. by split.
Qed.

Lemma keeps_bind {A B} (m : M St A) (k : A -> M St B) : keeps_or_returns m -> (forall a, keeps_or_returns (k a)) -> keeps_or_returns (m ≫= k).
Proof.
  intros Hm Hk w r w' E Hs Hp. apply bind_inv in E as [(a & w1 & E1 & E)|(e & E1 & ->)]; destruct (Hm _ _ _ E1 Hs Hp) as [Hh Hs1]; [|by split].
  rewrite <- Hh in Hp. destruct (Hk a _ _ _ E Hs1 Hp) as [Hh2 Hs2]. rewrite Hh in Hh2. by split.
Qed.

Lemma acquired_then {A B} (m : M St A) (k : A -> M St B) : moves on_success m -> (forall a, keeps_or_returns (k a)) -> moves on_success (m ≫= k).
Proof.
  intros Hm Hk w r w' E Hs. apply bind_inv in E as [(a & w1 & E1 & E)|(e & E1 & ->)]; destruct (Hm _ _ _ E1 Hs) as [Hh Hs1]; [|by split].
  cbn [on_success] in Hh. destruct (Hk a _ _ _ E Hs1) as [Hh2 Hs2]; [lia|]. split; [|done]. destruct r; cbn [on_success]; lia.
Qed.

(** What is held while the body runs is given back whatever becomes of it. *)
Lemma deferring_balanced {A B} (m : M St A) (body : M St B) : moves on_success m -> evolves same_held body -> evolves same_held (m;; deferring conn_Close body).
Proof.
  intros Hm Hb w r w' E Hs. apply bind_inv in E as [(a & w1 & E1 & E)|(e & E1 & ->)]; destruct (Hm _ _ _ E1 Hs) as [Hh1 Hs1]; cbn [on_success] in Hh1.
  - unfold deferring in E. apply bind_try in E as (q & w2 & E2 & E). destruct (Hb _ _ _ E2 Hs1) as [Hh2 Hs2]. unfold same_held in *.
    injection E as _ <-. cbn [w_db set_db]. rewrite held_set. split; [lia|done].
  - unfold same_held. split; [lia|done].
Qed.
End Balance.

Lemma unmet_none version : UnmetSchemaRequirements version = [] <-> (RequiredSchemaVersion <= version)%N.
Proof.
  unfold UnmetSchemaRequirements. assert (Hs : SchemaRequirements = schemaRequirements) by (vm_compute; reflexivity). rewrite Hs. clear Hs.
  unfold RequiredSchemaVersion, schemaRequirements. cbn [List.filter Version].
  repeat match goal with |- context [(version <? ?k)%N] => destruct (N.ltb_spec version k) end; split; try done; lia.
Qed.

Lemma sort_strings_in l x : In x (sort_strings l) <-> In x l.
Proof. unfold sort_strings. apply in_sort_by. Qed.

Lemma routing_none schema rels path name :
  schema <> "" ->
  (routing_problems schema (routing_row rels path name) = [] <->
   exists r, to_regclass rels path name = Some r /\ nspname r = schema /\ mem (relkind r) tableKinds = true).
Proof.
  intros Hs. unfold routing_problems, routing_row. destruct (to_regclass rels path name) as [r|]; cbn [tr_Schema tr_Table tr_Kind].
  2: split; [done|]. 2: by intros (? & [=] & _).
  destruct (String.eqb_spec (nspname r) "") as [He|He].
  - split; [done|]. intros (? & [= <-] & Hn & _). congruence.
  - destruct (String.eqb_spec (nspname r) schema) as [Hn|Hn]; cbn [negb].
    + destruct (mem _ _) eqn:Em; cbn [negb]; split; try done; [by intros _; exists r|]. by intros (? & [= <-] & _ & Hm); rewrite Em in Hm.
    + split; [done|]. by intros (? & [= <-] & ? & _).
Qed.

(** With nobody interfering, resolving answers a row for each name. *)
Lemma ResolveRouting_quiet {St} `{HasPool St, HasCatalog St} (w : world St) :
  w_sched w = [] -> (forall n s, relations (set_held n s) = relations s /\ effective_path (set_held n s) = effective_path s) ->
  exists sp w', ResolveRouting true [] w = (Ok {| SearchPath := sp; Tables := List.map (routing_row (relations (w_db w)) (effective_path (w_db w))) (sort_strings repositoryTables) |}, w').
Proof.
  intros Hq Hb. unfold ResolveRouting. cbn [negb].
  set (w1 := set_db (set_held (S (held (w_db w))) (w_db w)) w). assert (Hq1 : w_sched w1 = []) by done.
  rewrite (bind_step _ _ w tt w1) by (unfold mapping_err, db_Conn, mbind, M_bind, tick; by rewrite Hq).
  unfold deferring. assert (Hquery : forall A (f : St -> A) g, mapping_err g (query f) w1 = (Ok (f (w_db w1)), w1)).
  { intros A f g. unfold mapping_err, query. rewrite stmt_quiet by done. done. }
  destruct (Hb (S (held (w_db w))) (w_db w)) as [Hr Hp].
  eexists _, _. erewrite (bind_step (try _) _ w1 (Ok _) w1).
  2: { unfold try. rewrite (bind_step _ _ w1 _ w1 (Hquery _ _ _)), (bind_step _ _ w1 _ w1 (Hquery _ _ _)).
       unfold resolveRoutingQuery at 1. replace (negb _) with false; [reflexivity|]. symmetry. apply negb_false_iff, Nat.eqb_eq.
       rewrite length_map. unfold sort_strings. apply Permutation_length, sort_by_perm. }
  unfold resolveRoutingQuery. cbn [w_db set_db w1]. rewrite Hr, Hp. reflexivity.
Qed.

(** ** Properties *)

(** C38: No path loses a connection. Whatever fails - acquiring, the schema, the driver, the
    migration source, the migration itself, a direction that does not exist - and
    whatever other sessions do, each migration entry point and each start-up check
    returns the connection it borrowed: as long as golang-migrate and the others leave
    this package's connections alone, as many are out after the call as before. *)
Theorem connections_returned {St} `{HasPool St, HasCatalog St} create_schema WithConnection iofs_New NewWithInstance m_Up m_Down m_Steps m_Version :
  (forall n s u s', create_schema n s = Ok (u, s') -> same_held s s') ->
  (forall schema table, evolves same_held (WithConnection schema table)) -> evolves same_held NewWithInstance ->
  evolves same_held m_Up -> evolves same_held m_Down -> (forall n, evolves same_held (m_Steps n)) -> evolves same_held m_Version ->
  (forall direction, evolves same_held (RunMigrations (St := St) create_schema WithConnection iofs_New NewWithInstance m_Up m_Down direction)) /\
  (forall n, evolves same_held (RunMigrationSteps (St := St) create_schema WithConnection iofs_New NewWithInstance m_Steps n)) /\
  evolves same_held (GetMigrationVersion (St := St) create_schema WithConnection iofs_New NewWithInstance m_Version) /\
  (forall db, evolves same_held (VerifySchemaVersion (St := St) create_schema WithConnection iofs_New NewWithInstance m_Version db)) /\
  (forall db schema, evolves same_held (VerifySchemaRouting (St := St) db schema)).
Proof.
  intros Hs Hc Hn Hu Hd Hst Hv.
  assert (Hm : moves on_success (newMigrator (St := St) create_schema WithConnection iofs_New NewWithInstance)).
  { unfold newMigrator. apply acquired_then; [by apply mapping_moves, db_Conn_moves|]. intros _.
    repeat (apply keeps_bind; [apply or_release_keeps|intros _]); [..|apply or_release_keeps]; unfold ensureSchema; evolve; try done.
    apply evolves_stmt; [apply _|]. intros s [] s' E. by eapply Hs. }
  assert (Hq : forall msg m, evolves same_held m -> evolves same_held (unless_no_change (St := St) msg m)) by (intros; unfold unless_no_change; evolve; done).
  assert (Hver : evolves same_held (migrationVersion (St := St) create_schema WithConnection iofs_New NewWithInstance m_Version)).
  { apply deferring_balanced; [done|]. evolve; done. }
  assert (Hres : forall db tables, evolves same_held (ResolveRouting (St := St) db tables)).
  { intros db tables. unfold ResolveRouting. destruct db; cbn [negb]; [|evolve]. apply deferring_balanced; [apply mapping_moves, db_Conn_moves|]. evolve. }
  split_and!; [intros ?; apply deferring_balanced; [done|]; repeat case_match; evolve; by apply Hq
    | intros ?; apply deferring_balanced; [done|]; by apply Hq | done
    | intros db; unfold VerifySchemaVersion; destruct db; cbn [negb]; evolve; done
    | intros db schema; unfold VerifySchemaRouting; case_match; evolve; by apply Hres].
Qed.

(** The two checks a consumer runs before it serves. The version check passes exactly when
    the chain is clean and has reached the required version - there is then no column this
    module names that the chain has yet to add. The routing check, when nobody interferes,
    passes exactly when the schema is named and every repository table resolves, through
    the connection's path, to a relation of that schema one can read and write as a table. *)
Theorem startup_checks_exact {St} `{HasPool St, HasCatalog St} :
  (forall version dirty, checkSchemaVersion version dirty = Ok tt <-> dirty = false /\ (RequiredSchemaVersion <= version)%N) /\
  (forall r version, In r schemaRequirements -> checkSchemaVersion version false = Ok tt -> (Version r <= version)%N) /\
  (forall (w : world St) schema,
     w_sched w = [] -> (forall n s, relations (set_held n s) = relations s /\ effective_path (set_held n s) = effective_path s) ->
     ((exists w', VerifySchemaRouting true schema w = (Ok tt, w')) <->
      TrimSpace schema <> "" /\
      forall table, In table repositoryTables -> exists r,
        to_regclass (relations (w_db w)) (effective_path (w_db w)) table = Some r /\
        nspname r = TrimSpace schema /\ mem (relkind r) tableKinds = true)).
Proof.
  assert (Hv : forall version dirty, checkSchemaVersion version dirty = Ok tt <-> dirty = false /\ (RequiredSchemaVersion <= version)%N).
  { intros version dirty. unfold checkSchemaVersion. destruct dirty; [by split; [|intros []]|].
    destruct (N.leb_spec RequiredSchemaVersion version) as [Hle|Hlt].
    - rewrite (proj2 (unmet_none version) Hle). by split.
    - cbn [andb]. split; [by destruct (version =? 0)%N|]. intros [_ ?]. lia. }
  split_and!; [done| |].
  - intros r version Hin Hc. apply Hv in Hc as [_ Hle]. unfold RequiredSchemaVersion in Hle.
    assert (Hall : Forall (fun r => (Version r <= 8)%N) schemaRequirements) by (repeat constructor; vm_compute; done).
    rewrite List.Forall_forall in Hall. specialize (Hall _ Hin). lia.
  - intros w schema Hq Hb. unfold VerifySchemaRouting. destruct (String.eqb_spec (TrimSpace schema) "") as [He|He].
    { split; [by intros (? & ?)|by intros []]. }
    destruct (ResolveRouting_quiet w Hq Hb) as (sp & w' & E). rewrite (bind_step _ _ w _ w' E). cbn [Tables].
    set (l := List.flat_map _ _).
    assert (Hl : l = [] <-> forall table, In table repositoryTables -> exists r, to_regclass (relations (w_db w)) (effective_path (w_db w)) table = Some r /\ nspname r = TrimSpace schema /\ mem (relkind r) tableKinds = true).
    { unfold l. rewrite flat_map_empty. split.
      - intros Hall table Hin. apply (routing_none (TrimSpace schema)); [done|]. apply Hall, in_map, sort_strings_in. done.
      - intros Hall x Hin. apply in_map_iff in Hin as (table & <- & Hin). apply routing_none; [done|]. by apply Hall, sort_strings_in. }
    destruct l as [|x l']; split; try done.
    + intros _. split; [done|]. by apply Hl.
    + by intros _; exists w'.
    + by intros (? & ?).
    + intros [_ Hall]. apply Hl in Hall. done.
Qed.
End Schema.

(** ** The error path on a concrete pool: the migration driver refuses, a direction is
    misspelt, and a schema routes one table to the wrong place *)
Module Example_schema.
Import Schema.

Record pool := { out : nat; rels : list Relation; path : list string }.
#[local] Instance pool_held : HasPool pool.
Proof. refine {| held := out; set_held n s := {| out := n; rels := rels s; path := path s |} |}. reflexivity. Defined.
#[local] Instance pool_catalog : HasCatalog pool :=
  {| relations := rels; effective_path := path; search_path s := Some (String.concat ", " (path s)) |}.

Definition relation_in schema name : Relation := {| nspname := schema; relname := name; relkind := "r" |}.
Definition identity_tables : list Relation := List.map (relation_in "identity") repositoryTables.
Definition start (rs : list Relation) : world pool :=
  {| w_db := {| out := 2; rels := rs; path := ["identity"; "public"] |}; w_sched := []; w_now := 0; w_dbnow := 0; w_seed := 0; w_intx := false |}.

Definition refused : M pool unit := throw (Plain "permission denied").
Definition fine : M pool unit := mret tt.
Definition at_version (v : N) : M pool (N * bool * option error) := mret (v, false, None).

Lemma connections_returned_witness :
  (forall direction, evolves same_held (RunMigrations (St := pool) (fun _ s => Ok (tt, s)) (fun _ _ => refused) (Ok tt) fine fine fine direction)) /\
  held (w_db (snd (RunMigrations (fun _ s => Ok (tt, s)) (fun _ _ => refused) (Ok tt) fine fine fine "up" (start [])))) = 2 /\
  fst (RunMigrations (fun _ s => Ok (tt, s)) (fun _ _ => fine) (Ok tt) fine fine fine "sideways" (start [])) = Err (Plain "invalid migration direction") /\
  held (w_db (snd (RunMigrations (fun _ s => Ok (tt, s)) (fun _ _ => fine) (Ok tt) fine fine fine "sideways" (start [])))) = 2.
Proof.
  split.
  - apply (connections_returned (St := pool) (fun _ s => Ok (tt, s)) (fun _ _ => refused) (Ok tt) fine fine fine (fun _ => fine) (at_version 8)).
    + by intros n s u s' [= _ ->].
    + intros. apply evolves_throw, _.
    + apply evolves_ret, _.
    + apply evolves_ret, _.
    + apply evolves_ret, _.
    + intros. apply evolves_ret, _.
    + apply evolves_ret, _.
  - split; [reflexivity|]. split; reflexivity.
Defined.

Example a_stale_schema_refused :
  fst (VerifySchemaVersion (fun _ s => Ok (tt, s)) (fun _ _ => fine) (Ok tt) fine (at_version 6) true (start [])) =
    Err (Wrap "this module's repositories require a later identity migration" ErrSchemaVersion) /\
  UnmetSchemaRequirements 7 = [{| Table := "notify_dedup_claims"; Column := "claimed_at"; Version := 8 |};
                               {| Table := "notify_dedup_claims"; Column := "dedup_key"; Version := 8 |}].
Proof. split; vm_compute; reflexivity. Qed.

Example routing_decided_by_the_path :
  fst (VerifySchemaRouting true " identity " (start identity_tables)) = Ok tt /\
  fst (VerifySchemaRouting true "public" (start identity_tables)) = Err (Wrap "this module's repositories address tables unqualified" ErrSchemaRouting) /\
  fst (VerifySchemaRouting true "identity" (start (relation_in "public" "users" :: List.filter (fun r => relname r <>s "users") identity_tables))) =
    Err (Wrap "this module's repositories address tables unqualified" ErrSchemaRouting).
Proof. vm_compute. repeat split; reflexivity. Qed.
End Example_schema.
