(* ===== verification/SourceGuard.v ===== *)
(** * SourceGuard: identity/auditoutbox/guard.go

    The static guard a consumer runs over its own packages: every function whose body
    reaches a string that writes a protected table must take an audit-intent writer. The
    syntax tree has the nodes the guard distinguishes and a node for the rest; go/parser,
    the directory listing, [strconv.Unquote] and the order in which Go ranges over a map
    are parameters. The regular expression is a value, as in the source, with the
    matcher and the relation it decides. *)

From Stdlib Require Import Ascii.
From S2P Require Import Prelude GoStrings Order PgQuote AuditTable.

Module SourceGuard.

(** ** regexp, as far as the pattern needs it *)

(** The characters a case-insensitive class can tell apart: ASCII, the two others that
    fold to an ASCII letter (U+017F and U+212A), and the rest. *)
Inductive rune := Basic (a : ascii) | LongS | Kelvin | Other.

Definition next_rune (l : list ascii) : option (rune * list ascii) :=
  match l with
  | [] => None
  | a :: l1 =>
      if (code a <? 128)%N then Some (Basic a, l1)
      else match l1 with
           | b :: l2 =>
               if ((code a =? 197) && (code b =? 191))%N then Some (LongS, l2)
               else match l2 with
                    | c :: l3 => if ((code a =? 226) && (code b =? 132) && (code c =? 170))%N then Some (Kelvin, l3) else Some (Other, l1)
                    | [] => Some (Other, l1)
                    end
           | [] => Some (Other, l1)
           end
  end.

(** The lower-case ASCII character a rune folds to. *)
Definition fold_rune (r : rune) : option ascii :=
  match r with Basic a => Some (lower a) | LongS => Some "s"%char | Kelvin => Some "k"%char | Other => None end.

(** Between two runes: the one just read, if any, and what is left. *)
Record pos := Pos { before : option rune; rest : list ascii }.

(** Patterns compiled with [(?is)]: a character is tested on its folded form. *)
Inductive regexp :=
  | Empty
  | Char (test : ascii -> bool)
  | Cat (e1 e2 : regexp)
  | Alt (e1 e2 : regexp)
  | Quest (e : regexp)
  | Star (test : ascii -> bool)
  | Boundary.

Definition step (test : ascii -> bool) (p : pos) : option pos :=
  match next_rune (rest p) with
  | Some (r, l) => match fold_rune r with Some a => if test a then Some (Pos (Some r) l) else None | None => None end
  | None => None
  end.

Definition is_word (r : option rune) : bool :=
  match r with Some (Basic a) => lower_or_underscore (lower a) || ((48 <=? code a) && (code a <=? 57))%N | _ => false end.
Definition at_boundary (p : pos) : bool := xorb (is_word (before p)) (is_word (option_map fst (next_rune (rest p)))).

Fixpoint star (fuel : nat) (test : ascii -> bool) (p : pos) : list pos :=
  p :: match fuel with
       | 0 => []
       | S fuel => match step test p with Some p' => star fuel test p' | None => [] end
       end.

(** Every place a match that starts at [p] can end. *)
Fixpoint run (e : regexp) (p : pos) : list pos :=
  match e with
  | Empty => [p]
  | Char test => match step test p with Some p' => [p'] | None => [] end
  | Cat e1 e2 => List.flat_map (run e2) (run e1 p)
  | Alt e1 e2 => run e1 p ++ run e2 p
  | Quest e => run e p ++ [p]
  | Star test => star (length (rest p)) test p
  | Boundary => if at_boundary p then [p] else []
  end.

(** The places of a text, from the first on. *)
Fixpoint places (fuel : nat) (p : pos) : list pos :=
  p :: match fuel with
       | 0 => []
       | S fuel => match next_rune (rest p) with Some (r, l) => places fuel (Pos (Some r) l) | None => [] end
       end.
Definition start_of (text : string) : pos := Pos None (bytes_of text).
Definition MatchString (e : regexp) (text : string) : bool :=
  existsb (fun p => negb (length (run e p) =? 0)%nat) (places (String.length text) (start_of text)).

(** ** matchers *)

Definition is_char (c a : ascii) : bool := (a =? c)%char.
Definition space (a : ascii) : bool := ((code a =? 32) || (code a =? 9) || (code a =? 10) || (code a =? 12) || (code a =? 13))%N.

(** [regexp.QuoteMeta(word)] *)
Fixpoint QuoteMeta (word : list ascii) : regexp :=
  match word with [] => Empty | c :: word => Cat (Char (is_char c)) (QuoteMeta word) end.
Definition keyword (s : string) : regexp := QuoteMeta (bytes_of s).
Definition spaces : regexp := Cat (Char space) (Star space).
Definition maybe_quote : regexp := Quest (Char (is_char dquote)).

Definition verb : regexp :=
  Alt (Cat (keyword "insert") (Cat spaces (keyword "into")))
      (Alt (Cat (keyword "delete") (Cat spaces (keyword "from"))) (keyword "update")).
Definition qualifier : regexp :=
  Quest (Cat (Char lower_or_underscore) (Cat (Star identifier_rest) (Cat maybe_quote (Cat (Char (is_char ".")) maybe_quote)))).
Definition table_pattern (name : string) : regexp :=
  Cat verb (Cat spaces (Cat maybe_quote (Cat qualifier (Cat (keyword name) (Cat maybe_quote Boundary))))).

Record tableMatcher := { tm_table : string; pattern : regexp }.

Definition ErrGuard : error := Sentinel "identity/auditoutbox: mutation guard".
Definition defaultWriterTypes : list string := ["IntentWriter"; "AuditIntentWriter"].

Record Guard := { Tables : list string; WriterTypes : list string }.

Definition matcher_of (name : string) : result tableMatcher :=
  t ← parseTable name; Ok {| tm_table := table_String t; pattern := table_pattern (tb_name t) |}.
Definition matchers (g : Guard) : result (list tableMatcher) :=
  match Tables g with
  | [] => Err (Wrap "no protected tables named; the scan would pass vacuously" ErrGuard)
  | names => scan_all matcher_of names
  end.

(** ** The syntax tree *)

Inductive node :=
  | BasicLit (is_string : bool) (Value : string)
  | Ident (Name : string)
  | ParenExpr (X : node)
  | BinaryExpr (is_ADD : bool) (X Y : node)
  | SelectorExpr (X : node) (Sel : string)
  | Node (children : list node).

Inductive tok := CONST | VAR | IMPORT | TYPE.
Inductive spec := ValueSpec (Names : list string) (Values : list node) | OtherSpec.

(** The parameters of a declaration are the types of its fields. *)
Record FuncDecl := { Pos_ : string; fn_Name : string; Recv : option (list node); Params : option (list node); Body : option node }.
Inductive decl := GenDecl (Tok : tok) (Specs : list spec) | Func (fn : FuncDecl) | BadDecl.

(** [ast.Inspect] with a visitor that answers whether to go on into the children. *)
Fixpoint Inspect {S : Type} (f : node -> S -> bool * S) (n : node) (s : S) : S :=
  let '(go, s) := f n s in
  if negb go then s
  else match n with
       | BasicLit _ _ | Ident _ => s
       | ParenExpr x => Inspect f x s
       | BinaryExpr _ x y => Inspect f y (Inspect f x s)
       | SelectorExpr x sel => snd (f (Ident sel) (Inspect f x s))
       | Node children => fold_left (fun s c => Inspect f c s) children s
       end.

Section Scan.
Context (Unquote : string -> option string).

(** [text, err := strconv.Unquote(value)], falling back to the source text. *)
Definition literal_text (value : string) : string := default value (Unquote value).

Fixpoint evalString (expr : node) (resolved : gmap string string) : option string :=
  match expr with
  | BasicLit is_string value => if is_string then Some (literal_text value) else None
  | Ident name => resolved !! name
  | ParenExpr x => evalString x resolved
  | BinaryExpr is_add x y =>
      if is_add then
        match evalString x resolved, evalString y resolved with
        | Some l, Some r => Some (l +:+ r)
        | _, _ => None
        end
      else None
  | SelectorExpr _ _ | Node _ => None
  end.

(** *** packageStrings *)

Definition add_values (names : list string) (values : list node) (raw : gmap string node) : gmap string node :=
  fold_left (fun raw nv => <[fst nv := snd nv]> raw) (combine names values) raw.
Definition add_spec (raw : gmap string node) (s : spec) : gmap string node :=
  match s with ValueSpec names values => add_values names values raw | OtherSpec => raw end.
Definition add_decl (raw : gmap string node) (d : decl) : gmap string node :=
  match d with
  | GenDecl (CONST | VAR) specs => fold_left add_spec specs raw
  | _ => raw
  end.
Definition raw_values (files : list (list decl)) : gmap string node :=
  fold_left (fun raw decls => fold_left add_decl decls raw) files ∅.

(** One round over the names, in the order the map yields them. *)
Definition resolve_one (acc : gmap string string * bool) (entry : string * node) : gmap string string * bool :=
  let '(resolved, progressed) := acc in
  match resolved !! fst entry with
  | Some _ => acc
  | None => match evalString (snd entry) resolved with
            | Some s => (<[fst entry := s]> resolved, true)
            | None => acc
            end
  end.
Definition round (entries : list (string * node)) (resolved : gmap string string) : gmap string string * bool :=
  fold_left resolve_one entries (resolved, false).

Context (range : nat -> list (string * node) -> list (string * node)).

Fixpoint rounds (n k : nat) (entries : list (string * node)) (resolved : gmap string string) : gmap string string :=
  match n with
  | 0 => resolved
  | S n => let '(resolved, progressed) := round (range k entries) resolved in
           if progressed then rounds n (S k) entries resolved else resolved
  end.
Definition packageStrings (files : list (list decl)) : gmap string string :=
  let raw := raw_values files in rounds (size raw) 0 (map_to_list raw) ∅.

(** *** The scan *)

Definition mutates_visitor (consts : gmap string string) (e : regexp) (n : node) (found : bool) : bool * bool :=
  if found then (false, found)
  else match n with
       | BasicLit is_string value => if is_string && MatchString e (literal_text value) then (false, true) else (true, found)
       | Ident name => match consts !! name with
                       | Some text => if MatchString e text then (false, true) else (true, found)
                       | None => (true, found)
                       end
       | _ => (true, found)
       end.
Definition bodyMutates (body : node) (consts : gmap string string) (e : regexp) : bool := Inspect (mutates_visitor consts e) body false.

Definition type_name (t : node) : string :=
  match t with Ident name => name | SelectorExpr _ sel => sel | _ => "" end.
Definition takesWriter (fn : FuncDecl) (writerTypes : list string) : bool :=
  match Params fn with
  | None => false
  | Some fields => existsb (fun t => mem (type_name t) writerTypes) fields
  end.

Definition funcName (fn : FuncDecl) : string :=
  match Recv fn with Some [_] => "(receiver)." +:+ fn_Name fn | _ => fn_Name fn end.

Record Finding := { Position : string; Func_ : string; Table : string }.
Definition Finding_String (f : Finding) : string := Position f +:+ ": " +:+ Func_ f +:+ " writes to " +:+ Table f +:+ " but takes no audit-intent writer".
Record Report := { Files : nat; Mutators : nat; Findings : list Finding }.

Definition hit (ms : list tableMatcher) (consts : gmap string string) (body : node) : option string :=
  option_map tm_table (List.find (fun m => bodyMutates body consts (pattern m)) ms).

(** The body of the loop over the declarations. *)
Definition scan_decl (ms : list tableMatcher) (consts : gmap string string) (writerTypes : list string) (report : Report) (d : decl) : Report :=
  match d with
  | Func fn =>
      match Body fn with
      | None => report
      | Some body =>
          match hit ms consts body with
          | None | Some "" => report
          | Some table =>
              let report := {| Files := Files report; Mutators := S (Mutators report); Findings := Findings report |} in
              if takesWriter fn writerTypes then report
              else {| Files := Files report; Mutators := Mutators report;
                      Findings := Findings report ++ [{| Position := Pos_ fn; Func_ := funcName fn; Table := table |}] |}
          end
      end
  | _ => report
  end.

(** [strings.HasSuffix(path, "_test.go")] *)
Definition HasSuffix (s suffix : string) : bool := HasPrefix (string_of (rev (bytes_of s))) (string_of (rev (bytes_of suffix))).

Context (Glob : string -> result (list string)) (ParseFile : string -> result (list decl)).

Fixpoint parse_files (paths : list string) : result (list (list decl)) :=
  match paths with
  | [] => Ok []
  | path :: paths =>
      if HasSuffix path "_test.go" then parse_files paths
      else match ParseFile path with
           | Err e => Err (Wrap2 "parsing" ErrGuard e)
           | Ok file => files ← parse_files paths; Ok (file :: files)
           end
  end.

Definition ScanDir (g : Guard) (dir : string) : result Report :=
  ms ← matchers g;
  let writerTypes := match WriterTypes g with [] => defaultWriterTypes | l => l end in
  match Glob dir with
  | Err e => Err (Wrap2 "listing" ErrGuard e)
  | Ok paths =>
      files ← parse_files (sort_strings paths);
      if (length files =? 0)%nat then Err (Wrap "no non-test Go source: the scan would pass vacuously" ErrGuard)
      else
        let consts := packageStrings files in
        Ok (fold_left (fun report decls => fold_left (scan_decl ms consts writerTypes) decls report) files
              {| Files := length files; Mutators := 0; Findings := [] |})
  end.
End Scan.

(** ** The matcher decides its relation *)

Inductive matches : regexp -> pos -> pos -> Prop :=
  | m_empty p : matches Empty p p
  | m_char test p p' : step test p = Some p' -> matches (Char test) p p'
  | m_cat e1 e2 p q p' : matches e1 p q -> matches e2 q p' -> matches (Cat e1 e2) p p'
  | m_alt_l e1 e2 p p' : matches e1 p p' -> matches (Alt e1 e2) p p'
  | m_alt_r e1 e2 p p' : matches e2 p p' -> matches (Alt e1 e2) p p'
  | m_quest e p p' : matches e p p' -> matches (Quest e) p p'
  | m_skip e p : matches (Quest e) p p
  | m_star_done test p : matches (Star test) p p
  | m_star_more test p q p' : step test p = Some q -> matches (Star test) q p' -> matches (Star test) p p'
  | m_boundary p : at_boundary p = true -> matches Boundary p p.

(** A later place of the text. *)
Inductive reached : pos -> pos -> Prop :=
  | r_here p : reached p p
  | r_next p r l p' : next_rune (rest p) = Some (r, l) -> reached (Pos (Some r) l) p' -> reached p p'.

Lemma bytes_length s : length (bytes_of s) = String.length s.
Proof. induction s as [|a s IH]; [done|]. simpl. by rewrite IH. Qed.

Lemma next_rune_shrinks l r l' : next_rune l = Some (r, l') -> length l' < length l.
Proof.
  destruct l as [|a l1]; [done|]. simpl. intros E. repeat case_match; injection E as _ <-; subst; simpl; lia.
Qed.

Lemma step_shrinks test p p' : step test p = Some p' -> length (rest p') < length (rest p).
Proof.
  unfold step. destruct (next_rune (rest p)) as [[r l]|] eqn:E; [|done]. apply next_rune_shrinks in E.
  destruct (fold_rune r) as [a|]; [|done]. destruct (test a); [|done]. by intros [= <-].
Qed.

Lemma star_inv test p p' : matches (Star test) p p' -> p' = p \/ exists q, step test p = Some q /\ matches (Star test) q p'.
Proof. inversion 1; subst; eauto. Qed.

Lemma star_spec test p p' : forall fuel, length (rest p) <= fuel -> In p' (star fuel test p) <-> matches (Star test) p p'.
Proof.
  intros fuel. revert p. induction fuel as [|fuel IH]; intros p Hl; cbn [star].
  - split; [intros [<-|[]]; constructor|]. intros [->|(q & Es & _)]%star_inv; [by left|]. apply step_shrinks in Es. lia.
  - split.
    + intros [<-|Hin]; [constructor|]. destruct (step test p) as [q|] eqn:Es; [|done].
      eapply m_star_more; [done|]. apply IH; [|done]. apply step_shrinks in Es. lia.
    + intros [->|(q & Es & Hm)]%star_inv; [by left|]. right. rewrite Es. apply IH; [|done]. apply step_shrinks in Es. lia.
Qed.

Lemma run_spec e p p' : In p' (run e p) <-> matches e p p'.
Proof.
  revert p p'. induction e as [|test|e1 IH1 e2 IH2|e1 IH1 e2 IH2|e IH|test|]; intros p p'; cbn [run].
  - split; [intros [<-|[]]; constructor|]. inversion 1; subst. by left.
  - split.
    + destruct (step test p) as [q|] eqn:Es; [|done]. intros [<-|[]]. by constructor.
    + inversion 1 as [|? ? ? Es| | | | | | | |]; subst. rewrite Es. by left.
  - rewrite in_flat_map. split.
    + intros (q & H1 & H2). apply (m_cat _ _ _ q); [by apply IH1|by apply IH2].
    + inversion 1 as [| |? ? ? q ? H1 H2| | | | | | |]; subst. exists q. split; [by apply IH1|by apply IH2].
  - rewrite in_app_iff, IH1, IH2. split; [intros [?|?]; [by apply m_alt_l|by apply m_alt_r]|].
    inversion 1; subst; [by left|by right].
  - rewrite in_app_iff, IH. split; [intros [?|[<-|[]]]; [by apply m_quest|by apply m_skip]|].
    inversion 1; subst; [by left|right; by left].
  - by apply star_spec.
  - destruct (at_boundary p) eqn:Eb; split; try done.
    + intros [<-|[]]. by constructor.
    + inversion 1; subst. by left.
    + inversion 1; subst. congruence.
Qed.

Lemma places_spec p q : forall fuel, length (rest p) <= fuel -> In q (places fuel p) <-> reached p q.
Proof.
  intros fuel. revert p. induction fuel as [|fuel IH]; intros p Hl; cbn [places].
  - split; [intros [<-|[]]; constructor|]. inversion 1 as [|? r l ? En]; subst; [by left|]. apply next_rune_shrinks in En. lia.
  - split.
    + intros [<-|Hin]; [constructor|]. destruct (next_rune (rest p)) as [[r l]|] eqn:En; [|done].
      eapply r_next; [done|]. apply IH; [|done]. apply next_rune_shrinks in En. cbn. lia.
    + inversion 1 as [|? r l ? En Hr]; subst; [by left|]. right. rewrite En. apply IH; [|done]. apply next_rune_shrinks in En. cbn. lia.
Qed.

Lemma MatchString_spec e text : MatchString e text = true <-> exists p q, reached (start_of text) p /\ matches e p q.
Proof.
  unfold MatchString. rewrite existsb_exists. split.
  - intros (p & Hin & Hr). apply places_spec in Hin; [|by unfold start_of; cbn; rewrite bytes_length].
    destruct (run e p) as [|q l] eqn:Er; [done|]. exists p, q. split; [done|]. apply run_spec. rewrite Er. by left.
  - intros (p & q & Hr & Hm). exists p. split; [apply places_spec; [|done]; by unfold start_of; cbn; rewrite bytes_length|].
    apply run_spec in Hm. by destruct (run e p).
Qed.

(** ** What a body reaches *)

Fixpoint node_rect' (P : node -> Prop)
  (Hlit : forall b v, P (BasicLit b v)) (Hid : forall n, P (Ident n)) (Hparen : forall x, P x -> P (ParenExpr x))
  (Hbin : forall b x y, P x -> P y -> P (BinaryExpr b x y)) (Hsel : forall x sel, P x -> P (SelectorExpr x sel))
  (Hnode : forall l, Forall P l -> P (Node l)) (n : node) : P n :=
  let rec := node_rect' P Hlit Hid Hparen Hbin Hsel Hnode in
  match n with
  | BasicLit b v => Hlit b v
  | Ident n => Hid n
  | ParenExpr x => Hparen x (rec x)
  | BinaryExpr b x y => Hbin b x y (rec x) (rec y)
  | SelectorExpr x sel => Hsel x sel (rec x)
  | Node l => Hnode l ((fix go l : Forall P l := match l with [] => @List.Forall_nil _ P | x :: l => @List.Forall_cons _ P x l (rec x) (go l) end) l)
  end.

Inductive occurs : node -> node -> Prop :=
  | o_here n : occurs n n
  | o_paren n x : occurs n x -> occurs n (ParenExpr x)
  | o_left n b x y : occurs n x -> occurs n (BinaryExpr b x y)
  | o_right n b x y : occurs n y -> occurs n (BinaryExpr b x y)
  | o_operand n x sel : occurs n x -> occurs n (SelectorExpr x sel)
  | o_selector x sel : occurs (Ident sel) (SelectorExpr x sel)
  | o_child n c l : In c l -> occurs n c -> occurs n (Node l).

Section ScanFacts.
Context (Unquote : string -> option string).

(** A node the visitor stops at. *)
Definition stops (consts : gmap string string) (e : regexp) (n : node) : bool :=
  match n with
  | BasicLit is_string value => is_string && MatchString e (literal_text Unquote value)
  | Ident name => match consts !! name with Some text => MatchString e text | None => false end
  | _ => false
  end.

Lemma visitor_eq consts e n found :
  mutates_visitor Unquote consts e n found = (negb (found || stops consts e n), found || stops consts e n).
Proof.
  unfold mutates_visitor, stops. destruct found; [done|]. destruct n; cbn; try done.
  - by destruct (is_string && _).
  - destruct (consts !! Name) as [text|]; [|done]. by destruct (MatchString e text).
Qed.

Lemma bodyMutates_reaches consts e body :
  bodyMutates Unquote body consts e = true <-> exists n, occurs n body /\ stops consts e n = true.
Proof.
  assert (Hall : forall n found, Inspect (mutates_visitor Unquote consts e) n found = true <->
    found = true \/ exists m, occurs m n /\ stops consts e m = true).
  { induction n as [b v|x|x IH|b x y IHx IHy|x sel IH|l IH] using node_rect'; intros found; cbn [Inspect]; rewrite visitor_eq;
      (destruct found; cbn [orb negb]; [by split; [left|]|]).
    1,2: destruct (stops _ _ _) eqn:Es; cbn [negb]; (split; [|try done]);
      [intros _; right; eexists; split; [constructor|done]|done|intros [|(m & Ho & Hs)]; [done|]; inversion Ho; subst; congruence].
    all: cbn [stops negb].
    - rewrite IH. split; [intros [|(m & ? & ?)]; [done|]; right; exists m; split; [by constructor|done]|].
      intros [|(m & Ho & Hs)]; [done|]. right. inversion Ho; subst; [done|]. by exists m.
    - rewrite IHy, IHx. split.
      + intros [[|(m & ? & ?)]|(m & ? & ?)]; [done| |]; right; exists m; split; try done; [by apply o_left|by apply o_right].
      + intros [|(m & Ho & Hs)]; [done|]. inversion Ho; subst; [done| |]; [left; right|right]; by exists m.
    - rewrite visitor_eq. cbn [snd]. rewrite orb_true_iff, IH. split.
      + intros [[|(m & ? & ?)]|Hs]; [done| |]; right; [exists m; split; [by constructor|done]|exists (Ident sel); split; [apply o_selector|done]].
      + intros [|(m & Ho & Hs)]; [done|]. inversion Ho; subst; [done| |]; [left; right; by exists m|by right].
    - assert (Hf : forall found, fold_left (fun s c => Inspect (mutates_visitor Unquote consts e) c s) l found = true <->
        found = true \/ exists c m, In c l /\ occurs m c /\ stops consts e m = true).
      { induction IH as [|c l Hc Hl IHl]; intros found; cbn [fold_left]; [split; [by left|by intros [|(? & ? & [] & _)]]|].
        rewrite IHl, Hc. split.
        - intros [[|(m & ? & ?)]|(c' & m & ? & ? & ?)]; [by left| |]; right; [exists c, m|exists c', m]; simpl; tauto.
        - intros [|(c' & m & [<-|?] & ? & ?)]; [by left; left|left; right; by exists m|right; by exists c', m]. }
      rewrite Hf. split.
      + intros [|(c & m & ? & ? & ?)]; [done|]. right. exists m. split; [by apply (o_child m c)|done].
      + intros [|(m & Ho & Hs)]; [done|]. right. inversion Ho; subst; [done|]. by eexists _, m. }
  unfold bodyMutates. rewrite Hall. split; [intros [|?]; [done|done]|by right].
Qed.

(** ** What a package-level name stands for *)

Inductive folds (raw : gmap string node) : node -> string -> Prop :=
  | f_lit v : folds raw (BasicLit true v) (literal_text Unquote v)
  | f_ident n e s : raw !! n = Some e -> folds raw e s -> folds raw (Ident n) s
  | f_paren x s : folds raw x s -> folds raw (ParenExpr x) s
  | f_add x y s t : folds raw x s -> folds raw y t -> folds raw (BinaryExpr true x y) (s +:+ t).

Lemma folds_det raw e s t : folds raw e s -> folds raw e t -> s = t.
Proof.
  intros H. revert t. induction H as [v|n e s E _ IH|x s _ IH|x y s t _ IHx _ IHy]; intros u Hu; inversion Hu; subst; try done.
  - apply IH. congruence.
  - by apply IH.
  - f_equal; [by apply IHx|by apply IHy].
Qed.

Definition sound (raw : gmap string node) (resolved : gmap string string) : Prop :=
  forall n s, resolved !! n = Some s -> folds raw (Ident n) s.

Lemma evalString_sound raw resolved e s : sound raw resolved -> evalString Unquote e resolved = Some s -> folds raw e s.
Proof.
  intros Hs. revert s. induction e as [b v|n|x IH|b x y IHx IHy|x sel IH|l _] using node_rect'; intros s; cbn [evalString]; try done.
  - destruct b; [|done]. intros [= <-]. constructor.
  - apply Hs.
  - intros E. constructor. by apply IH.
  - destruct b; [|done]. destruct (evalString Unquote x resolved) as [l|]; [|done]. destruct (evalString Unquote y resolved) as [r|]; [|done].
    intros [= <-]. constructor; [by apply IHx|by apply IHy].
Qed.

(** Nothing more to learn. *)
Definition closed (raw : gmap string node) (resolved : gmap string string) : Prop :=
  forall n e, raw !! n = Some e -> resolved !! n = None -> evalString Unquote e resolved = None.

Lemma closed_complete raw resolved e s : sound raw resolved -> closed raw resolved -> folds raw e s -> evalString Unquote e resolved = Some s.
Proof.
  intros Hs Hc H. induction H as [v|n e s E He IH|x s _ IH|x y s t _ IHx _ IHy]; cbn [evalString]; [done| |done|by rewrite IHx, IHy].
  destruct (resolved !! n) as [s'|] eqn:En.
  - apply Hs in En. f_equal. apply (folds_det raw (Ident n)); [done|]. by econstructor.
  - rewrite (Hc _ _ E En) in IH. done.
Qed.

(** One round over some of the names: what it keeps, and what it gains or why it does not. *)
Lemma round_facts raw entries : forall resolved b r' b',
  (forall n e, In (n, e) entries -> raw !! n = Some e) -> sound raw resolved -> dom resolved ⊆ dom raw ->
  fold_left (resolve_one Unquote) entries (resolved, b) = (r', b') ->
  sound raw r' /\ dom r' ⊆ dom raw /\
  ((b' = b /\ r' = resolved /\ forall n e, In (n, e) entries -> resolved !! n = None -> evalString Unquote e resolved = None) \/
   (b' = true /\ size resolved < size r')).
Proof.
  induction entries as [|[n e] entries IH]; intros resolved b r' b' Hin Hs Hd E; cbn [fold_left] in E.
  { injection E as <- <-. split; [done|]. split; [done|]. by left. }
  assert (Hin' : forall n e, In (n, e) entries -> raw !! n = Some e) by (intros; apply Hin; by right).
  cbn [resolve_one fst snd] in E. destruct (resolved !! n) as [s|] eqn:En.
  { destruct (IH _ _ _ _ Hin' Hs Hd E) as (? & ? & [(-> & -> & Hc)|?]); (split; [done|]; split; [done|]); [left|by right].
    split; [done|]. split; [done|]. intros n' e' [[= -> ->]|?]; [congruence|by apply Hc]. }
  destruct (evalString Unquote e resolved) as [s|] eqn:Ee.
  2: { destruct (IH _ _ _ _ Hin' Hs Hd E) as (? & ? & [(-> & -> & Hc)|?]); (split; [done|]; split; [done|]); [left|by right].
       split; [done|]. split; [done|]. intros n' e' [[= -> ->]|?]; [done|by apply Hc]. }
  assert (He : raw !! n = Some e) by (apply Hin; by left).
  assert (Hsz : size (<[n:=s]> resolved) = S (size resolved)) by by apply map_size_insert_None.
  destruct (IH (<[n:=s]> resolved) true r' b') as (? & ? & Hor); [done| | |done|].
  - intros m t. destruct (decide (m = n)) as [->|Hne]; [rewrite lookup_insert_eq|rewrite lookup_insert_ne by done; apply Hs].
    intros [= <-]. econstructor; [done|]. by eapply evalString_sound.
  - rewrite dom_insert_L. apply union_subseteq. split; [|done]. apply singleton_subseteq_l, elem_of_dom. by exists e.
  - split; [done|]. split; [done|]. right. destruct Hor as [(-> & -> & _)|(-> & ?)]; (split; [done|]); lia.
Qed.

Lemma all_resolved_closed raw resolved : dom resolved ⊆ dom raw -> size raw <= size resolved -> closed raw resolved.
Proof.
  intros Hd Hsz n e E En. exfalso. rewrite <- !size_dom in Hsz.
  assert (Hlt : size (dom resolved) < size (dom raw)).
  { apply subset_size. split; [done|]. intros Hr. assert (Hn : n ∈ dom resolved) by (apply Hr, elem_of_dom; by exists e).
    apply elem_of_dom in Hn as [? ?]. congruence. }
  lia.
Qed.

Section Range.
Context (range : nat -> list (string * node) -> list (string * node)) (Hrange : forall k l, range k l ≡ₚ l).

Lemma rounds_settle raw : forall n k resolved,
  sound raw resolved -> dom resolved ⊆ dom raw -> size raw <= n + size resolved ->
  sound raw (rounds Unquote range n k (map_to_list raw) resolved) /\ closed raw (rounds Unquote range n k (map_to_list raw) resolved).
Proof.
  induction n as [|n IH]; intros k resolved Hs Hd Hn; cbn [rounds].
  { split; [done|]. by apply all_resolved_closed. }
  assert (Hin : forall n e, In (n, e) (range k (map_to_list raw)) <-> raw !! n = Some e).
  { intros m e. rewrite <- list_elem_of_In, Hrange. apply elem_of_map_to_list. }
  unfold round. destruct (fold_left _ _ _) as [r' b'] eqn:E.
  destruct (round_facts raw (range k (map_to_list raw)) resolved false r' b') as (Hs' & Hd' & [(-> & -> & Hc)|(-> & Hsz)]); try done.
  - by intros ? ? ?%Hin.
  - split; [done|]. intros m e Hm. by apply Hc, Hin.
  - apply IH; [done|done|lia].
Qed.

Lemma packageStrings_settled files :
  sound (raw_values files) (packageStrings Unquote range files) /\ closed (raw_values files) (packageStrings Unquote range files).
Proof. unfold packageStrings. apply rounds_settle; [done|by rewrite dom_empty_L|lia]. Qed.

(** The name table holds exactly what the declarations fold to. *)
Lemma packageStrings_spec files n s :
  packageStrings Unquote range files !! n = Some s <-> folds (raw_values files) (Ident n) s.
Proof.
  destruct (packageStrings_settled files) as [Hs Hc]. split; [apply Hs|]. apply (closed_complete _ _ (Ident n) s Hs Hc).
Qed.
End Range.
End ScanFacts.

(** ** What a scan adds up to *)

Definition finding_of (fn : FuncDecl) (table : string) : Finding := {| Position := Pos_ fn; Func_ := funcName fn; Table := table |}.

Lemma find_first {A} (f : A -> bool) l x :
  List.find f l = Some x -> exists pre post, l = pre ++ x :: post /\ f x = true /\ forall y, In y pre -> f y = false.
Proof.
  induction l as [|y l IH]; cbn [List.find]; [done|]. destruct (f y) eqn:Ey.
  - intros [= ->]. by exists [], l.
  - intros (pre & post & -> & Hx & Hpre)%IH. exists (y :: pre), post. split; [done|]. split; [done|]. by intros z [<-|?]; [|apply Hpre].
Qed.

Lemma first_find {A} (f : A -> bool) pre x post :
  f x = true -> (forall y, In y pre -> f y = false) -> List.find f (pre ++ x :: post) = Some x.
Proof.
  intros Hx Hpre. induction pre as [|y pre IH]; simpl; [by rewrite Hx|]. rewrite Hpre by by left. apply IH. intros z Hz. apply Hpre. by right.
Qed.

Lemma matchers_Ok g ms :
  matchers g = Ok ms -> Tables g <> [] /\ exists ts,
    Forall2 (fun name t => parseTable name = Ok t) (Tables g) ts /\
    ms = List.map (fun t => {| tm_table := table_String t; pattern := table_pattern (tb_name t) |}) ts.
Proof.
  unfold matchers. destruct (Tables g) as [|n ns]; [done|]. rewrite scan_all_Ok. intros H. split; [done|].
  induction H as [|name m names ms E _ (ts & Hts & ->)]; [by exists []; split; [constructor|]|].
  unfold matcher_of in E. apply result_bind_Ok in E as (t & Et & [= <-]). exists (t :: ts). by split; [constructor|].
Qed.

Section ScanSpec.
Context (Unquote : string -> option string) (consts : gmap string string) (writerTypes : list string).
Context (ts : list table) (Hts : Forall wf_table ts).

Notation ms := (List.map (fun t => {| tm_table := table_String t; pattern := table_pattern (tb_name t) |}) ts).

(** The first protected table a body writes. *)
Definition mutator (d : decl) : option (FuncDecl * table) :=
  match d with
  | Func fn =>
      match Body fn with
      | None => None
      | Some body => option_map (pair fn) (List.find (fun t => bodyMutates Unquote body consts (table_pattern (tb_name t))) ts)
      end
  | _ => None
  end.
Definition unaudited (d : decl) : option Finding :=
  match mutator d with
  | Some (fn, t) => if takesWriter fn writerTypes then None else Some (finding_of fn (table_String t))
  | None => None
  end.

Lemma find_map {A B} (f : B -> bool) (h : A -> B) l : List.find f (List.map h l) = option_map h (List.find (fun x => f (h x)) l).
Proof. induction l as [|x l IH]; [done|]. cbn. by destruct (f (h x)). Qed.

Lemma table_String_named t : In t ts -> table_String t <> "".
Proof.
  intros Hin E. rewrite List.Forall_forall in Hts. specialize (Hts t Hin). apply print_parses in Hts. rewrite E in Hts. done.
Qed.

Lemma scan_decl_eq report d :
  scan_decl Unquote ms consts writerTypes report d =
    {| Files := Files report; Mutators := Mutators report + length (option_list (mutator d)); Findings := Findings report ++ option_list (unaudited d) |}.
Proof.
  assert (Hnone : report = {| Files := Files report; Mutators := Mutators report + 0; Findings := Findings report ++ [] |}).
  { rewrite Nat.add_0_r, app_nil_r. by destruct report. }
  unfold scan_decl, unaudited, mutator. destruct d as [tk specs|fn|]; try exact Hnone. destruct (Body fn) as [body|]; [|exact Hnone].
  unfold hit. rewrite find_map. cbn [pattern]. destruct (List.find _ ts) as [t|] eqn:Ef; cbn [option_map tm_table]; [|exact Hnone].
  apply find_some in Ef as [Hin _]. apply table_String_named in Hin. destruct (table_String t) as [|c rest'] eqn:Es; [done|].
  cbn [option_list length Files Mutators Findings]. rewrite Nat.add_1_r, <- Es. unfold finding_of.
  destruct (takesWriter fn writerTypes); cbn [option_list]; [by rewrite app_nil_r|done].
Qed.

Lemma scan_decls_eq ds : forall report,
  fold_left (scan_decl Unquote ms consts writerTypes) ds report =
    {| Files := Files report; Mutators := Mutators report + length (omap mutator ds); Findings := Findings report ++ omap unaudited ds |}.
Proof.
  induction ds as [|d ds IH]; intros report; cbn [fold_left omap list_omap].
  { cbn [length]. rewrite Nat.add_0_r, app_nil_r. by destruct report. }
  rewrite IH, scan_decl_eq. cbn [Files Mutators Findings]. f_equal.
  - rewrite <- Nat.add_assoc. f_equal. by destruct (mutator d).
  - rewrite <- app_assoc. f_equal. by destruct (unaudited d).
Qed.

Lemma scan_files_eq files : forall report,
  fold_left (fun report decls => fold_left (scan_decl Unquote ms consts writerTypes) decls report) files report =
    {| Files := Files report; Mutators := Mutators report + length (omap mutator (concat files)); Findings := Findings report ++ omap unaudited (concat files) |}.
Proof.
  induction files as [|ds files IH]; intros report; cbn [fold_left concat].
  { cbn. rewrite Nat.add_0_r, app_nil_r. by destruct report. }
  rewrite IH, scan_decls_eq. cbn [Files Mutators Findings]. rewrite !omap_app, length_app, Nat.add_assoc, <- app_assoc. done.
Qed.
End ScanSpec.

Lemma parse_files_Ok ParseFile paths files :
  parse_files ParseFile paths = Ok files <->
  Forall2 (fun path file => ParseFile path = Ok file) (List.filter (fun path => negb (HasSuffix path "_test.go")) paths) files.
Proof.
  revert files. induction paths as [|path paths IH]; intros files; cbn [parse_files List.filter].
  { split; [by intros [= <-]|by inversion 1]. }
  destruct (HasSuffix path "_test.go"); cbn [negb]; [apply IH|]. destruct (ParseFile path) as [file|e] eqn:Ep.
  - split.
    + intros (fs & Hfs & [= <-])%result_bind_Ok. constructor; [done|by apply IH].
    + inversion 1 as [|? f ? fs E Hfs]; subst. rewrite Ep in E. injection E as <-. apply IH in Hfs. by rewrite Hfs.
  - split; [done|]. inversion 1; congruence.
Qed.

(** What a body reaches is a literal of its own or a name, and what that folds to. *)
Definition is_leaf (n : node) : bool := match n with BasicLit is_string _ => is_string | Ident _ => true | _ => false end.
Definition writes (Unquote : string -> option string) (files : list (list decl)) (table : string) (body : node) : Prop :=
  exists n text, occurs n body /\ is_leaf n = true /\ folds Unquote (raw_values files) n text /\ MatchString (table_pattern table) text = true.

Lemma bodyMutates_writes Unquote range files table body :
  (forall k l, range k l ≡ₚ l) ->
  bodyMutates Unquote body (packageStrings Unquote range files) (table_pattern table) = true <-> writes Unquote files table body.
Proof.
  intros Hr. rewrite bodyMutates_reaches. unfold writes. split.
  - intros (n & Ho & Hs). destruct n as [b v|x| | | |]; try done; cbn [stops] in Hs.
    + apply andb_prop in Hs as [-> Hm]. exists (BasicLit true v), (literal_text Unquote v). by split_and!; [| |constructor|].
    + destruct (_ !! x) as [text|] eqn:Ex; [|done]. apply packageStrings_spec in Ex; [|done]. by exists (Ident x), text.
  - intros (n & text & Ho & Hl & Hf & Hm). exists n. split; [done|]. destruct n as [b v|x| | | |]; try done; cbn [stops].
    + cbn in Hl. subst b. by inversion Hf; subst.
    + apply (packageStrings_spec Unquote range Hr) in Hf. by rewrite Hf.
Qed.

(** The parameter types a guard accepts. *)
Definition accepted (g : Guard) : list string := match WriterTypes g with [] => defaultWriterTypes | l => l end.

(** ** What the pattern of a table matches *)

Definition ascii_byte (a : ascii) : bool := (code a <? 128)%N.
Definition last_read (b : option rune) (l : list ascii) : option rune := fold_left (fun _ a => Some (Basic a)) l b.

(** [l] is [w] in some mixture of cases. *)
Definition spells (w l : list ascii) : Prop := map lower l = w /\ Forall (fun a => ascii_byte a = true) l.
Definition all_of (test : ascii -> bool) (l : list ascii) : Prop := Forall (fun a => ascii_byte a = true /\ test (lower a) = true) l.

Lemma step_ascii test b a r : ascii_byte a = true -> test (lower a) = true -> step test (Pos b (a :: r)) = Some (Pos (Some (Basic a)) r).
Proof. intros Ha Ht. unfold step. cbn [rest next_rune]. unfold ascii_byte in Ha. rewrite Ha. cbn [fold_rune]. by rewrite Ht. Qed.

Lemma matches_word w l b r : spells w l -> matches (QuoteMeta w) (Pos b (l ++ r)) (Pos (last_read b l) r).
Proof.
  intros [<- Hl]. revert b. induction Hl as [|a l Ha _ IH]; intros b; cbn [map QuoteMeta]; [constructor|].
  eapply m_cat; [|apply IH]. constructor. apply step_ascii; [done|]. apply Ascii.eqb_refl.
Qed.

Lemma matches_star test l b r : all_of test l -> matches (Star test) (Pos b (l ++ r)) (Pos (last_read b l) r).
Proof.
  intros Hl. revert b. induction Hl as [|a l [Ha Ht] _ IH]; intros b; [constructor|].
  eapply m_star_more; [by apply step_ascii|]. apply IH.
Qed.

Lemma matches_spaces l b r : all_of space l -> l <> [] -> matches spaces (Pos b (l ++ r)) (Pos (last_read b l) r).
Proof.
  intros Hl Hne. destruct Hl as [|a l [Ha Ht] Hl]; [done|]. eapply m_cat; [constructor; by apply step_ascii|].
  exact (matches_star space l (Some (Basic a)) r Hl).
Qed.

Lemma matches_quote l b r : l = [] \/ l = [dquote] -> matches maybe_quote (Pos b (l ++ r)) (Pos (last_read b l) r).
Proof. intros [->| ->]; [apply m_skip|]. apply m_quest. constructor. by apply step_ascii. Qed.

(** What may stand between the verb and the name: a schema and a dot, each part quoted or not. *)
Definition qualifies (l : list ascii) : Prop :=
  l = [] \/ exists a s q1 q2, l = a :: s ++ q1 ++ "."%char :: q2 /\
    ascii_byte a = true /\ lower_or_underscore (lower a) = true /\ all_of identifier_rest s /\
    (q1 = [] \/ q1 = [dquote]) /\ (q2 = [] \/ q2 = [dquote]).

Lemma matches_qualifier l b r : qualifies l -> matches qualifier (Pos b (l ++ r)) (Pos (last_read b l) r).
Proof.
  intros [->|(a & s & q1 & q2 & -> & Ha & Ht & Hs & H1 & H2)]; [apply m_skip|]. apply m_quest.
  cbn [app]. rewrite <- !app_assoc. cbn [app].
  eapply m_cat; [constructor; by apply step_ascii|]. eapply m_cat; [by apply (matches_star identifier_rest s)|]. eapply m_cat; [by apply matches_quote|].
  eapply m_cat; [constructor; by apply step_ascii|]. unfold last_read. cbn [fold_left]. rewrite !fold_left_app. cbn [fold_left]. by apply matches_quote.
Qed.

Definition verb_text (l : list ascii) : Prop :=
  spells (bytes_of "update") l \/
  exists w1 ws w2, l = w1 ++ ws ++ w2 /\ all_of space ws /\ ws <> [] /\
    (spells (bytes_of "insert") w1 /\ spells (bytes_of "into") w2 \/ spells (bytes_of "delete") w1 /\ spells (bytes_of "from") w2).

Lemma last_read_app b l m : last_read b (l ++ m) = last_read (last_read b l) m.
Proof. apply fold_left_app. Qed.

Lemma matches_verb l b r : verb_text l -> matches verb (Pos b (l ++ r)) (Pos (last_read b l) r).
Proof.
  intros [Hu|(w1 & ws & w2 & -> & Hws & Hne & Hw)]; [apply m_alt_r, m_alt_r; by apply matches_word|].
  rewrite <- !app_assoc, !last_read_app.
  destruct Hw as [[H1 H2]|[H1 H2]]; [apply m_alt_l|apply m_alt_r, m_alt_l];
    (eapply m_cat; [by apply matches_word|]; eapply m_cat; [by apply matches_spaces|]; by apply matches_word).
Qed.

Lemma next_rune_inside pre a r : ascii_byte a = true -> pre <> [] ->
  exists rn pre', next_rune (pre ++ a :: r) = Some (rn, pre' ++ a :: r) /\ length pre' < length pre.
Proof.
  intros Ha Hne. unfold ascii_byte in Ha. apply N.ltb_lt in Ha. destruct pre as [|x [|y [|z pre]]]; [done|..]; cbn [app next_rune].
  - destruct (code x <? 128)%N; [exists (Basic x), []; split; [done|cbn; lia]|]. replace (code a =? 191)%N with false by (symmetry; apply N.eqb_neq; lia). rewrite andb_false_r.
    exists Other, []. split; [|cbn; lia]. destruct r as [|c r]; [done|]. replace (code a =? 132)%N with false by (symmetry; apply N.eqb_neq; lia).
    by rewrite andb_false_r.
  - destruct (code x <? 128)%N; [exists (Basic x), [y]; split; [done|cbn; lia]|]. destruct (_ && _); [exists LongS, []; split; [done|cbn; lia]|].
    replace (code a =? 170)%N with false by (symmetry; apply N.eqb_neq; lia). rewrite andb_false_r. exists Other, [y]. split; [done|cbn; lia].
  - destruct (code x <? 128)%N; [exists (Basic x), (y :: z :: pre); split; [done|cbn; lia]|]. destruct (_ && _); [exists LongS, (z :: pre); split; [done|cbn; lia]|].
    destruct (_ && _); [exists Kelvin, pre|exists Other, (y :: z :: pre)]; (split; [done|cbn; lia]).
Qed.

Lemma reached_inside a r : ascii_byte a = true -> forall pre b, exists b', reached (Pos b (pre ++ a :: r)) (Pos b' (a :: r)).
Proof.
  intros Ha pre. remember (length pre) as n eqn:En. revert pre En. induction n as [n IH] using lt_wf_ind. intros pre -> b.
  destruct pre as [|x pre]; [exists b; constructor|].
  destruct (next_rune_inside (x :: pre) a r) as (rn & pre' & E & Hlt); [done|done|].
  destruct (IH (length pre') Hlt pre' eq_refl (Some rn)) as [b' Hr]. exists b'. by eapply r_next.
Qed.

Lemma verb_head l : verb_text l -> exists a l', l = a :: l' /\ ascii_byte a = true.
Proof.
  assert (Hsp : forall w l, spells w l -> w <> [] -> exists a l', l = a :: l' /\ ascii_byte a = true).
  { intros w m [<- Hm] Hw. destruct Hm as [|a m Ha Hm]; [done|]. by exists a, m. }
  intros [Hu|(w1 & ws & w2 & -> & _ & _ & Hw)]; [by eapply Hsp|].
  assert (Hw1 : exists a l', w1 = a :: l' /\ ascii_byte a = true) by (destruct Hw as [[H1 _]|[H1 _]]; by eapply Hsp).
  destruct Hw1 as (a & l' & -> & Ha). by exists a, (l' ++ ws ++ w2).
Qed.

(** Every spelling of a write of the table is matched, wherever it stands in the text: the
    verb in any case, any space, the name in any case, quoted or not, qualified or not. The
    name must end in a word character and not run on into a longer one. *)
Theorem pattern_matches_writes name pre vb ws q sch nm post :
  verb_text vb -> all_of space ws -> ws <> [] -> (q = [] \/ q = [dquote]) -> qualifies sch -> spells (bytes_of name) nm ->
  (forall b, is_word (last_read b nm) = true) -> is_word (option_map fst (next_rune post)) = false ->
  MatchString (table_pattern name) (string_of (pre ++ vb ++ ws ++ q ++ sch ++ nm ++ post)) = true.
Proof.
  intros Hv Hws Hne Hq Hsch Hnm Hlast Hpost. apply MatchString_spec.
  destruct (verb_head vb Hv) as (a & vb' & Evb & Ha).
  destruct (reached_inside a (vb' ++ ws ++ q ++ sch ++ nm ++ post) Ha pre None) as [b Hr].
  eexists (Pos b (vb ++ ws ++ q ++ sch ++ nm ++ post)), _. split.
  { unfold start_of. rewrite String.list_ascii_of_string_of_list_ascii, Evb. exact Hr. }
  unfold table_pattern. eapply m_cat; [by apply matches_verb|]. eapply m_cat; [by apply matches_spaces|].
  eapply m_cat; [by apply matches_quote|]. eapply m_cat; [by apply matches_qualifier|]. eapply m_cat; [by apply matches_word|].
  eapply m_cat; [apply m_skip|]. constructor. unfold at_boundary. cbn [before rest]. by rewrite Hlast, Hpost.
Qed.

(** ** Properties *)


End SourceGuard.

(** ** The guard on a small package: the SQL is assembled from package-level names, declared
    in no particular order *)
Module Example_guard.
Import SourceGuard.

(** A literal without its delimiters. *)
Definition unquote (s : string) : option string := Some (String.substring 1 (String.length s - 2) s).
Definition in_reverse (_ : nat) (l : list (string * node)) : list (string * node) := rev l.

Definition lit (s : string) : node := BasicLit true ("`" +:+ s +:+ "`").
Definition package_strings : decl := GenDecl VAR [
  ValueSpec ["grantSQL"] [BinaryExpr true (BinaryExpr true (lit "INSERT INTO ") (Ident "carrierTable")) (lit " (user_id) VALUES ($1)")];
  ValueSpec ["carrierTable"; "other"] [lit "platform_admins"; Node []]].
Definition exec (arg : node) : node := Node [Node [SelectorExpr (SelectorExpr (Ident "r") "db") "ExecContext"; Ident "ctx"; arg]].
Definition method (name : string) (params : list node) (body : node) : decl :=
  Func {| Pos_ := "repo.go:" +:+ name; fn_Name := name; Recv := Some [Ident "Repo"]; Params := Some params; Body := Some body |}.

Definition repo : list decl := [
  method "Grant" [Ident "string"] (exec (Ident "grantSQL"));
  method "Audited" [Ident "string"; SelectorExpr (Ident "auditoutbox") "IntentWriter"] (exec (Ident "grantSQL"));
  method "Rename" [] (exec (lit "update registry.PLATFORM_ADMINS set note = $1"));
  method "List" [] (exec (lit "SELECT user_id FROM platform_admins"));
  package_strings].
Definition listing (_ : string) : result (list string) := Ok ["repo_test.go"; "repo.go"].
Definition parse_as (file : list decl) (path : string) : result (list decl) := if path =s "repo.go" then Ok file else Err (Plain "syntax error").
Definition carrier_guard : Guard := {| Tables := ["platform_admins"]; WriterTypes := [] |}.


(** A concatenation inside a body is matched piece by piece, so neither piece is a write. *)
Example inline_concatenation_unseen :
  option_map Mutators (match ScanDir unquote in_reverse listing
      (parse_as [method "Revoke" [] (exec (BinaryExpr true (lit "DELETE FROM ") (Ident "carrierTable"))); package_strings]) carrier_guard "."
    with Ok r => Some r | Err _ => None end) = Some 0.
Proof. vm_compute. reflexivity. Qed.

(** After a name that ends in a dollar sign there is no word boundary to find. *)
Example dollar_name_unseen :
  parseTable "grants$" = Ok {| tb_schema := ""; tb_name := "grants$" |} /\
  MatchString (table_pattern "grants$") "INSERT INTO grants$ (user_id) VALUES ($1)" = false /\
  MatchString (table_pattern "grants") "INSERT INTO grants (user_id) VALUES ($1)" = true.
Proof. vm_compute. repeat split; reflexivity. Qed.

Example only_unseen :
  MatchString (table_pattern "platform_admins") "UPDATE ONLY platform_admins SET note = $1" = false /\
  MatchString (table_pattern "platform_admins") "UPDATE platform_admins_archive SET note = $1" = false.
Proof. vm_compute. split; reflexivity. Qed.
End Example_guard.
